(* ===== verification/_CoqProject ===== *)
-Q . S2P
Prelude.v
Text.v
Substr.v
Store.v
Labels.v
Migrations.v
LabelSync.v
Tags.v
Trash.v
Gating.v
Blocklist.v
Threading.v
ThreadTree.v
Flowed.v
Simplify.v
Params.v
Truncate.v
Policy.v
Receipts.v
Compose.v
ContactTools.v
Vcard.v
Contacts.v
Structured.v
Chats.v
Drafts.v
Extras.v
Mailbox.v
Search.v
AddressBook.v
WireText.v
Send.v
Smtp.v
Seen.v
BlobCrypt.v
Ratelimit.v
Aheader.v
UidSets.v
Imap.v
Fetch.v
ServerExpiry.v
Deletion.v
