(* ===== verification/Prelude.v ===== *)
(** * eeemail: a model of the email layer and its correctness

    eeemail is an email client built on Delta Chat's core.  Its own logic is in
    [src/core/src/email/]: labels and archive, system tags, a trash that is the
    only place where mail is destroyed, gating of unknown senders, a blocklist,
    conversation threading, an encryption policy with per-contact overrides,
    read receipts and timers, recipient sets of outgoing mail, signatures,
    search, an address book, machine-readable objects in mail, encryption of
    attachments at rest, and retention on the server.  Every part reads and
    writes one SQLite database through [Context]; core calls the parts from
    reception, from the send path and from housekeeping, and a queue of sync
    items carries label and configuration changes to the user's other devices.

    ** What models what

    - [Prelude] (this file): results, the state-and-error monad [cmd] in which
      the operations are written, the logic [spec] and [preserves] of what calls
      establish and keep, and the automation for it.
    - [Text] and [Substr]: the string operations of Rust's standard library, on
      lists of code points, substrings and replacement, and [LIKE] and [LOWER]
      of SQLite.
    - [Store]: the database [Ctx], one field per table with the columns the
      email layer uses; configuration ([config.rs], [sql.rs]), sync queue
      ([sync.rs]), message states and tombstones ([message.rs]), contacts
      ([contact.rs]).
    - [Labels]: [email/labels.rs].  [Migrations]: the rows that versions 166, 169
      and 171 of [sql/migrations.rs] write.  [LabelSync]: two devices that
      exchange [LabelSyncItem]s.
    - [Tags]: [email/tags.rs].  [Trash]: [email/ephemeral.rs] and the expiry
      sweep of [ephemeral.rs].  [Gating]: [email/gating.rs].  [Blocklist]:
      [email/blocklist.rs] with the blocking of contacts and chats.
    - [Threading] and [ThreadTree]: [email/threading.rs], assignment and tree.
    - [Flowed]: the crate [format-flowed].  [Simplify]: [simplify.rs], which
      takes quotes and footers off received text.  [WireText]:
      [email/signature.rs], [split_signature] of [email/sendopts.rs] and the text
      part that [mimefactory.rs] writes.
    - [Params]: [param.rs], the map of message parameters and its text form.
    - [Policy]: [email/policy.rs] and the stored options of [email/sendopts.rs].
      [Receipts]: [email/receipts.rs] and the gate of [create_send_msg_jobs] in
      [chat.rs].  [Compose]: [email/recipients.rs], [email/compose.rs], the
      checks of [email/sendopts.rs], and the addressing of a message to a
      one-to-one chat by [mimefactory.rs].
    - [ContactTools]: addresses and names ([deltachat-contact-tools]).
      [Contacts]: adding and updating contacts ([contact.rs], [key.rs]), the keys
      senders advertise ([email/autocrypt.rs]) and the recipients of a draft
      ([set_recipients] of [email/compose.rs]).  [AddressBook]:
      [email/addressbook.rs].
    - [Structured]: [email/structured.rs] with the cryptographic summary of a
      message in [email/policy.rs].  [Search]: [email/search.rs].
    - [Vcard]: writing and reading of vCards ([deltachat-contact-tools]).
      [Truncate]: the shortening of texts in [tools.rs].
    - [Chats]: one-to-one chats and info messages ([chat.rs]).  [Drafts]: the
      draft of a chat.  [Send]: a composed text mail from [compose::send] through
      [send_msg], [prepare_send_msg], [prepare_msg_raw] and
      [create_send_msg_jobs] to its row of the queue.  [Smtp]: the queue,
      [smtp.rs] over an abstract server, and the queue of read receipts.
      [Seen]: [markseen_msgs] of [message.rs].  [Ratelimit]: the crate
      [deltachat-ratelimit].  [Aheader]: the Autocrypt header ([aheader.rs]).
    - [UidSets]: sets of message numbers for IMAP commands, and [Imap]: folders,
      the plan of moves and deletions and the flags of read messages ([imap.rs],
      [imap/select_folder.rs]), over an abstract server.  [Fetch]: the batches
      of new messages, what of them is downloaded now or later, the numbers read
      anew ([imap.rs], [imap/session.rs]) and [download.rs].  [ServerExpiry]:
      which copies on the server are not needed any more ([ephemeral.rs]) and the
      iteration over a folder, [fetch_move_delete].  [Deletion]: [delete_msgs] of
      [message.rs].
    - [Extras]: [email/importance.rs] and [email/rawmime.rs].  [Mailbox]: how core
      drives all of these, the hooks at the end of [receive_imf_inner] in
      [receive_imf.rs] and the calls of [housekeeping] in [sql.rs].
    - [BlobCrypt]: [email/blobcrypt.rs] and the report and the passphrase of
      [email/vault.rs], over a blob directory beside the database.

    Definitions carry the names of the functions they translate.  A function
    that writes or fails is a [cmd Ctx A]; a query that only reads is a function
    of [Ctx].  A failing call keeps the writes made before the failure, as [?]
    does, except inside [transaction].

    ** What is shown

    - Labels: every history of calls and replayed changes keeps names unique and
      normalized and the reserved labels in place; replaying a change implements
      its abstract effect; two devices converge; a change that arrives before
      its message takes effect with it, unless a newer one already waits; upgrading establishes the invariant
      exactly when no user label has a reserved name.
    - Mail is not lost: purging destroys exactly what is labelled Trash and past
      its deadline; a fired timer, the sweep of unaccepted mail and the blocklist
      only move mail to the trash; restoring undoes trashing; every live message
      is in a view, and the tags of a message agree with the views, which a
      search by tag shows too.  Mail that is never accepted is swept, and
      destroyed by a run of housekeeping after its window.
    - Senders: mail is held exactly when its sender is not trusted, released
      exactly when trusted; the blocklist implements a set of patterns; adopting
      a key changes trust through one row only.  Two findings are proved: a
      forged header makes a key trusted, and mail of a contact added by hand is
      swept.
    - Contacts: no history of additions stores a key, or an address without one,
      twice, forgets a contact, lowers an origin, or puts a name given under a
      manual origin where others see it; a
      sanitized name is one line that does not change the direction of what
      follows; the address book finds exactly what it should and its details and
      categories stay consistent.
    - Conversations are the connected components of the reply graph, whatever
      the order of arrival; the reply tree shows each message once and hangs a
      reply under its nearest held ancestor.
    - Sending: a conversation set to end-to-end only never sends cleartext; the
      envelope is the chat's member and the stored copies; the recipients of a
      draft are stored whole or not at all and read back as stored; copies are
      outside the policy, which is a finding.  From the composer to the queue: a
      failing send queues nothing, a successful one the rendering of what was
      written for the envelope of the recipients typed, once and to nobody else
      but the user, encrypted when the account forces it, and what is recorded
      is what went out, blind copies included.  A contact has one chat, a chat
      has one draft.
    - Delivery: what the server acknowledged and what is still queued are together
      the recipients of the mail, and a row leaves the queue only when all is
      acknowledged, after its attempts, or refused for good; no row survives
      seven rounds over a working connection; the loop over receipts ends; a receipt is queued only
      with a reason; the rate limiter bounds bursts and never starves.
    - IMAP: the sets of numbers in commands name exactly the messages they were
      made from; a round over a folder asks for nothing that was not planned,
      forgets a message only after the server has dealt with it, and deals with
      the whole plan when it succeeds; flags of read messages are forgotten only
      once stored in their own folder, or when the server denies the folder;
      numbers of a renumbered folder are not kept, whatever is done on a
      connection.  A batch of new messages counts the folder as read exactly as
      far as it got, and the loop over the batches ends.  An iteration removes
      from the server only copies whose message has outlived its timer or that
      nobody waits for, and all of these.  A deleted message is gone here and on
      the server and does not come back.  The findings are shown on instances:
      rows read before the folder is selected, a failed selection, large mail
      forgotten after a failure, and mail kept on the server by the recoverable
      expiry.
    - Text: flowed text reads back as written; the text, quote and footer that
      are rendered are what the reader's client takes apart again; message
      parameters read back whatever their values; contacts written to a vCard
      read back.
    - Objects: the scan for script elements finds exactly those of the text and
      terminates; an object keeps the verdict of the moment it arrived.
    - Attachments at rest: wherever a call is interrupted by a crash, every file
      that could be read still can, unless its name or its content looks like the
      module's own; turning encryption on leaves no cleartext; turning it off can
      lose a file when a single write fails or when its name has the mark of
      temporaries, which are findings.
    - Server retention deletes exactly after the window, and never mail that was
      not received under the policy.
    - Composed: a run of housekeeping destroys exactly the trashed mail that was
      past its deadline when it started; the hooks on arrival file a message in
      a conversation, in Unverified and in the trash exactly when gating and
      blocklist say so (in both for a blocked stranger, which is a finding), and
      touch no other message.

    ** Modelling decisions

    The clock is a field of the state and constant during a call.  Integers keep
    their ranges where the code converts or saturates ([Store]).  Errors of SQL
    statements other than violated constraints, events, logs, the configuration
    cache and wake-ups of the scheduler are not modelled, except in [BlobCrypt],
    where every durable write can fail or stop halfway, at a position that a
    fault schedule of the state gives.  A query without [ORDER BY] enumerates a
    finite map; one that keeps an arbitrary row goes through the class
    [SqlChoice], and theorems hold for every choice.  Unicode case mapping is the
    class [UnicodeCase] with the laws used; witnesses take the instance that maps
    ASCII letters.  Error values keep the literal part of the message.  Nullable
    columns read through [IFNULL] are options.

    Third-party code is a parameter: the cipher ([Aead], with the law that what
    is sealed opens), random numbers ([Entropy]), JSON ([Json], printing and
    reading agree), the MIME parser of [Structured], the generation of a key
    pair, the date formats of vCards ([Chrono]), the SMTP server ([Server],
    without laws; theorems about it keep a book, [Booked], of what any server was
    given and answered), the IMAP server ([ImapServer], with the log of what it
    acknowledged and the laws of the selected state of RFC 3501, [ImapLog]), the
    mail parser ([MailParser]), what becomes of a received message ([Receiver]),
    public keys ([PublicKey]) and the check of an address by the SMTP library.  So are the rendering of a message for an envelope,
    translated texts and random Message-IDs.  Witnesses instantiate each.
    [Ratelimit] computes with rational numbers where the code has [f64].

    Loops that are not structural run on fuel, each with a proof that it is
    enough: [build_node] of the reply tree, twice the number of messages plus one
    ([tree_fuel]); the parser of parameters, the number of lines; the scan for
    script elements, the number of bytes plus one; the cards of a vCard file, the
    number of lines; the chunks of a mail, the number of recipients plus one; the
    receipts, their number plus one; the groups of UIDs, the number of rows; the
    batches of new messages, the steps of five hundred from the number read to
    the end of the mailbox, plus one ([fetch_loop_ends], for numbers that are not
    within five hundred of the end of [u32], where the loop need not end).

    ** What is not modelled

    The network itself, MIME parsing and most of rendering, cryptography,
    backup and the bindings (I/O or third-party code).  Of the send path:
    attachments, groups and broadcasts, pre-messages, locations and the donation
    request; of the queue: connecting, and the sync messages and status updates
    it flushes first; of IMAP: connecting, waiting for mail, quota, metadata, push
    tokens and the time of the last message of a transport; requests to delete a message
    for others.  Reactions, calls, webxdc, locations, groups and the list of accounts
    are upstream features the email layer does not touch. *)

From stdpp Require Export prelude gmap strings sorting.
From Stdlib Require Export ZArith Lia.

#[export] Set Default Goal Selector "!".

(** ** Results and the state-and-error monad *)

(** [anyhow::Result]: a value, or an error of which the literal part of the
    message is kept. *)
Inductive result (A : Type) : Type :=
  | Ok (a : A)
  | Err (e : string).
Arguments Ok {A} a.
Arguments Err {A} e.

(** A function that reads and writes the state [S] and can fail.  A failing
    call keeps the writes made before the failure, as an early return by [?]
    keeps the statements already executed. *)
Definition cmd (S A : Type) : Type := S → S * result A.

#[global] Instance cmd_ret {S} : MRet (cmd S) := λ A a s, (s, Ok a).
#[global] Instance cmd_bind {S} : MBind (cmd S) := λ A B k m s,
  match m s with
  | (s', Ok a) => k a s'
  | (s', Err e) => (s', Err e)
  end.

Definition gets {S A} (f : S → A) : cmd S A := λ s, (s, Ok (f s)).
Definition modify {S} (f : S → S) : cmd S unit := λ s, (f s, Ok tt).
Definition bail {S A} (e : string) : cmd S A := λ s, (s, Err e).

(** [ensure!(cond, msg)] *)
Definition ensure {S} (b : bool) (e : string) : cmd S unit :=
  if b then mret tt else bail e.

(** [opt.context(msg)?] *)
Definition or_bail {S A} (o : option A) (e : string) : cmd S A :=
  match o with Some a => mret a | None => bail e end.

(** [r?] on a pure result. *)
Definition lift {S A} (r : result A) : cmd S A := λ s, (s, r).

(** [call.await.ok()], and [let Ok(x) = call.await else ..]: the error is
    swallowed, the writes stay. *)
Definition attempt {S A} (m : cmd S A) : cmd S (option A) := λ s,
  match m s with
  | (s', Ok a) => (s', Ok (Some a))
  | (s', Err _) => (s', Ok None)
  end.

(** [match call.await { Ok(x) => .., Err(e) => .. }]: the outcome as a value. *)
Definition caught {S A} (m : cmd S A) : cmd S (result A) := λ s, let '(s', r) := m s in (s', Ok r).

(** [for x in xs { body(x)?; }] *)
Fixpoint for_each {S A} (xs : list A) (body : A → cmd S unit) : cmd S unit :=
  match xs with
  | [] => mret tt
  | x :: xs => body x ;; for_each xs body
  end.

(** [for x in xs { if p(x)? { out.push(x) } }] *)
Fixpoint filter_each {S A} (p : A → cmd S bool) (xs : list A) : cmd S (list A) :=
  match xs with
  | [] => mret []
  | x :: xs =>
      b ← p x;
      ys ← filter_each p xs;
      mret (if b : bool then x :: ys else ys)
  end.

(** [sql.transaction(..)]: a failing body leaves no write behind. *)
Definition transaction {S A} (m : cmd S A) : cmd S A := λ s,
  match m s with
  | (s', Ok a) => (s', Ok a)
  | (_, Err e) => (s, Err e)
  end.

(** The state a call leaves behind, and what it returns. *)
Definition final {S A} (m : cmd S A) (s : S) : S := (m s).1.
Definition outcome {S A} (m : cmd S A) (s : S) : result A := (m s).2.

Section cmd_laws.
Context {S : Type}.

Lemma run_ret {A} (a : A) (s : S) : (mret a : cmd S A) s = (s, Ok a).
Proof. done. Qed.

Lemma run_gets {A} (f : S → A) (s : S) : gets f s = (s, Ok (f s)).
Proof. done. Qed.

Lemma run_modify (f : S → S) (s : S) : modify f s = (f s, Ok tt).
Proof. done. Qed.

Lemma run_bind {A B} (m : cmd S A) (k : A → cmd S B) (s : S) :
  (m ≫= k) s = match m s with
               | (s', Ok a) => k a s'
               | (s', Err e) => (s', Err e)
               end.
Proof. done. Qed.

Lemma run_bind_ok {A B} (m : cmd S A) (k : A → cmd S B) (s s' : S) a :
  m s = (s', Ok a) → (m ≫= k) s = k a s'.
Proof. intros H. by rewrite run_bind, H. Qed.

Lemma run_bind_err {A B} (m : cmd S A) (k : A → cmd S B) (s s' : S) e :
  m s = (s', Err e) → (m ≫= k) s = (s', Err e).
Proof. intros H. by rewrite run_bind, H. Qed.

Lemma bind_ok_inv {A B} (m : cmd S A) (k : A → cmd S B) (s s' : S) b :
  (m ≫= k) s = (s', Ok b) → ∃ a s1, m s = (s1, Ok a) ∧ k a s1 = (s', Ok b).
Proof. rewrite run_bind. destruct (m s) as [s1 [a|e]]; [eauto|done]. Qed.

Lemma or_bail_ok_inv {A} (o : option A) e (s s' : S) a :
  or_bail o e s = (s', Ok a) → s' = s ∧ o = Some a.
Proof. destruct o; cbn; [|done]. by intros [= <- <-]. Qed.

Lemma ensure_ok_inv b e (s s' : S) u : ensure b e s = (s', Ok u) → s' = s ∧ b = true.
Proof. destruct b; cbn; [|done]. by intros [= <-]. Qed.

Lemma run_bind_ret {A B} (a : A) (k : A → cmd S B) (s : S) :
  (mret a ≫= k : cmd S B) s = k a s.
Proof. done. Qed.

Lemma run_bind_gets {A B} (f : S → A) (k : A → cmd S B) (s : S) :
  (gets f ≫= k) s = k (f s) s.
Proof. done. Qed.

Lemma run_bind_modify {B} (f : S → S) (k : unit → cmd S B) (s : S) :
  (modify f ≫= k) s = k tt (f s).
Proof. done. Qed.

(** A loop whose body only writes is a fold of the writes. *)
Lemma for_each_modify {A} (xs : list A) (f : A → S → S) (s : S) :
  for_each xs (λ x, modify (f x)) s = (foldl (λ s x, f x s) s xs, Ok tt).
Proof.
  revert s. induction xs as [|x xs IH]; intros s; simpl; [done|].
  by rewrite run_bind_modify, IH.
Qed.

(** A read-only, infallible test is an ordinary filter. *)
Lemma filter_each_reads {A} (p : A → cmd S bool) (q : A → bool) (xs : list A) (s : S) :
  (∀ x, x ∈ xs → p x s = (s, Ok (q x))) →
  filter_each p xs s = (s, Ok (filter (λ x, q x = true) xs)).
Proof.
  induction xs as [|x xs IH]; intros Hp; simpl; [done|].
  rewrite run_bind, Hp by set_solver. rewrite run_bind, IH by set_solver.
  rewrite filter_cons. by destruct (q x).
Qed.
End cmd_laws.

(** ** Automation *)

(** Unfold the monad and evaluate; the branches of the program become matches
    of the goal. *)
Ltac unfold_cmd :=
  unfold final, outcome, ensure, or_bail, attempt, bail, gets, modify,
    mbind, cmd_bind, mret, cmd_ret in *;
  cbn beta iota delta [fst snd] in *.

(** Follow the branches of a call one by one. *)
Ltac run_cases := unfold_cmd; repeat (case_match; simplify_eq/=; unfold_cmd).

(** What a call establishes: [Q] of its value, or [E] when it fails. *)
Definition spec {S A} (P : S → Prop) (m : cmd S A) (Q : A → S → Prop) (E : S → Prop) : Prop :=
  ∀ s, P s → match m s with
             | (s', Ok a) => Q a s'
             | (s', Err _) => E s'
             end.

(** Nothing a call does, failing or not, breaks [P]. *)
Definition preserves {S A} (P : S → Prop) (m : cmd S A) : Prop := spec P m (λ _, P) P.

Section specs.
Context {S : Type}.

Lemma spec_bind {A B} P (m : cmd S A) (R : A → S → Prop) (k : A → cmd S B) Q E :
  spec P m R E → (∀ a, spec (R a) (k a) Q E) → spec P (m ≫= k) Q E.
Proof.
  intros Hm Hk s HP. rewrite run_bind. specialize (Hm s HP).
  destruct (m s) as [s' [a|e]]; [|done]. by apply Hk.
Qed.

Lemma preserves_bind {A B} P (m : cmd S A) (k : A → cmd S B) :
  preserves P m → (∀ a, preserves P (k a)) → preserves P (m ≫= k).
Proof. intros Hm Hk. by eapply spec_bind; [apply Hm|]. Qed.

Lemma preserves_ret {A} (P : S → Prop) (a : A) : preserves P (mret a).
Proof. by intros s HP. Qed.

Lemma preserves_gets {A} (P : S → Prop) (f : S → A) : preserves P (gets f).
Proof. by intros s HP. Qed.

Lemma preserves_bail {A} (P : S → Prop) e : preserves P (bail e : cmd S A).
Proof. by intros s HP. Qed.

Lemma preserves_ensure (P : S → Prop) b e : preserves P (ensure b e).
Proof. intros s HP. by destruct b. Qed.

Lemma preserves_or_bail {A} (P : S → Prop) (o : option A) e : preserves P (or_bail o e).
Proof. intros s HP. by destruct o. Qed.

Lemma preserves_modify (P : S → Prop) (f : S → S) :
  (∀ s, P s → P (f s)) → preserves P (modify f).
Proof. intros H s HP. by apply H. Qed.

Lemma preserves_for_each {A} (P : S → Prop) (xs : list A) (body : A → cmd S unit) :
  (∀ x, preserves P (body x)) → preserves P (for_each xs body).
Proof.
  intros H. induction xs as [|x xs IH]; simpl; [apply preserves_ret|].
  by apply preserves_bind.
Qed.

Lemma preserves_attempt {A} (P : S → Prop) (m : cmd S A) :
  preserves P m → preserves P (attempt m).
Proof.
  intros H s HP. specialize (H s HP). unfold attempt.
  by destruct (m s) as [s' [a|e]].
Qed.

Lemma preserves_caught {A} (P : S → Prop) (m : cmd S A) :
  preserves P m → preserves P (caught m).
Proof.
  intros H s HP. specialize (H s HP). unfold caught.
  by destruct (m s) as [s' [a|e]].
Qed.

Lemma preserves_transaction {A} (P : S → Prop) (m : cmd S A) :
  preserves P m → preserves P (transaction m).
Proof.
  intros H s HP. specialize (H s HP). unfold transaction.
  by destruct (m s) as [s' [a|e]].
Qed.

Lemma preserves_lift {A} (P : S → Prop) (r : result A) : preserves P (lift r : cmd S A).
Proof. intros s HP. by destruct r. Qed.

Lemma preserves_final {A} (P : S → Prop) (m : cmd S A) s :
  preserves P m → P s → P (final m s).
Proof.
  intros H HP. specialize (H s HP). unfold final.
  by destruct (m s) as [s' [a|e]].
Qed.

Lemma preserves_run {A} (P : S → Prop) (m : cmd S A) s s' r :
  preserves P m → m s = (s', r) → P s → P s'.
Proof. intros H Hm HP. apply (preserves_final P m s) in H; [|done]. unfold final in H. by rewrite Hm in H. Qed.
End specs.

(** Take a run that succeeded apart, one statement at a time. *)
Tactic Notation "bind_inv" hyp(H) "as" simple_intropattern(a) simple_intropattern(s) simple_intropattern(E) :=
  apply bind_ok_inv in H as (a & s & E & H).

Create HintDb cmd discriminated.
#[export] Hint Resolve preserves_ret preserves_gets preserves_bail
  preserves_ensure preserves_or_bail preserves_lift : cmd.

(** A call preserves [P] when its statements do: follow the control structure,
    never unfolding a call, and leave the writes and the calls no lemma of the
    hint database [cmd] covers. *)
Ltac preserve :=
  repeat lazymatch goal with
    | |- preserves _ (_ ≫= _) => apply preserves_bind; [|intros ?]
    | |- preserves _ (mret _) => apply preserves_ret
    | |- preserves _ (gets _) => apply preserves_gets
    | |- preserves _ (bail _) => apply preserves_bail
    | |- preserves _ (ensure _ _) => apply preserves_ensure
    | |- preserves _ (or_bail _ _) => apply preserves_or_bail
    | |- preserves _ (attempt _) => apply preserves_attempt
    | |- preserves _ (caught _) => apply preserves_caught
    | |- preserves _ (transaction _) => apply preserves_transaction
    | |- preserves _ (for_each _ _) => apply preserves_for_each; intros ?
    | |- preserves _ (match ?x with _ => _ end) => destruct x eqn:?
    | |- preserves _ (let _ := _ in _) => cbv zeta
    end; try solve [auto with cmd nocore].

(** ** Lists *)

Lemma filter_all {A} (P : A → Prop) `{!∀ x, Decision (P x)} (l : list A) :
  (∀ x, x ∈ l → P x) → filter P l = l.
Proof.
  induction l as [|x l IH]; intros HP; [done|]. rewrite filter_cons_True by (apply HP; by left).
  f_equal. apply IH. intros y Hy. apply HP. by right.
Qed.

Lemma filter_none {A} (P : A → Prop) `{!∀ x, Decision (P x)} (l : list A) :
  (∀ x, x ∈ l → ¬ P x) → filter P l = [].
Proof.
  induction l as [|x l IH]; intros HP; [done|]. rewrite filter_cons_False by (apply HP; by left).
  apply IH. intros y Hy. apply HP. by right.
Qed.
