(* ===== verification/Text.v ===== *)
(** * Text: the string operations of Rust's standard library the code uses.

    A Rust [str] is a sequence of Unicode scalar values; it is modelled as the
    list of their code points.  [char::is_whitespace] and the ASCII operations
    are written out; [str::to_lowercase] and [to_uppercase], whose Unicode
    tables are not, are the interface [UnicodeCase] with the laws the code relies on. *)

From Stdlib Require Import Ascii DecimalN DecimalFacts.
From S2P Require Import Prelude.

Abbreviation str := (list N).

(** String literals of the source, all ASCII. *)
Fixpoint lit (s : string) : str :=
  match s with
  | EmptyString => []
  | String a s => Ascii.N_of_ascii a :: lit s
  end.

Definition ch (a : ascii) : N := Ascii.N_of_ascii a.

(** ** Characters *)

(** [char::is_whitespace]: the Unicode property [White_Space]. *)
Definition is_whitespace (c : N) : bool :=
  (((9 <=? c) && (c <=? 13)) || (c =? 32) || (c =? 133) || (c =? 160)
  || (c =? 5760) || ((8192 <=? c) && (c <=? 8202)) || (c =? 8232)
  || (c =? 8233) || (c =? 8239) || (c =? 8287) || (c =? 12288))%N.

Definition is_ascii_digit (c : N) : bool := ((48 <=? c) && (c <=? 57))%N.
Definition is_ascii (c : N) : bool := (c <? 128)%N.

(** [char::to_ascii_case] *)
Definition ascii_lower (c : N) : N :=
  (if (65 <=? c) && (c <=? 90) then c + 32 else c)%N.

(** [char::to_ascii_uppercase] *)
Definition ascii_upper (c : N) : N :=
  (if (97 <=? c) && (c <=? 122) then c - 32 else c)%N.

(** [char::is_ascii_hexdigit] *)
Definition is_ascii_hexdigit (c : N) : bool :=
  (is_ascii_digit c || ((65 <=? c) && (c <=? 70)) || ((97 <=? c) && (c <=? 102)))%N.

(** [char::len_utf8] *)
Definition len_utf8 (c : N) : nat :=
  if (c <? 128)%N then 1 else if (c <? 2048)%N then 2
  else if (c <? 65536)%N then 3 else 4.

(** [str::len]: the length of the UTF-8 encoding. *)
Definition byte_len (s : str) : nat := sum_list_with len_utf8 s.

(** ** Trimming *)

Section while.
Context {A : Type} (p : A → bool).

Fixpoint drop_while (l : list A) : list A :=
  match l with
  | [] => []
  | x :: l' => if p x then drop_while l' else l
  end.

Fixpoint take_while (l : list A) : list A :=
  match l with
  | [] => []
  | x :: l' => if p x then x :: take_while l' else []
  end.

Definition drop_while_end (l : list A) : list A := reverse (drop_while (reverse l)).
End while.

Definition trim_start (s : str) : str := drop_while is_whitespace s.
Definition trim_end (s : str) : str := drop_while_end is_whitespace s.
Definition trim (s : str) : str := trim_end (trim_start s).

(** [trim_start_matches(c)], [trim_end_matches(c)], [trim_matches(c)] *)
Definition trim_start_matches (c : N) (s : str) : str := drop_while (N.eqb c) s.
Definition trim_end_matches (c : N) (s : str) : str := drop_while_end (N.eqb c) s.
Definition trim_matches (c : N) (s : str) : str :=
  trim_end_matches c (trim_start_matches c s).

(** [strip_prefix(c)], [strip_suffix(c)] *)
Definition strip_prefix (c : N) (s : str) : option str :=
  match s with
  | x :: s' => if decide (x = c) then Some s' else None
  | [] => None
  end.

Definition strip_suffix (c : N) (s : str) : option str :=
  reverse <$> strip_prefix c (reverse s).

(** ** Splitting and joining *)

(** [str::split(p)]: always at least one piece. *)
Fixpoint split_by (p : N → bool) (s : str) : list str :=
  match s with
  | [] => [[]]
  | c :: s' =>
      if p c then [] :: split_by p s'
      else match split_by p s' with
           | [] => [[c]]
           | l :: ls => (c :: l) :: ls
           end
  end.

Definition split (c : N) : str → list str := split_by (N.eqb c).

Definition is_empty {A} (l : list A) : bool :=
  match l with [] => true | _ => false end.

Definition split_whitespace (s : str) : list str :=
  filter (λ w, w ≠ []) (split_by is_whitespace s).

(** [slice::join] *)
Fixpoint join (sep : str) (ls : list str) : str :=
  match ls with
  | [] => []
  | [l] => l
  | l :: ls => l ++ sep ++ join sep ls
  end.

(** [split_once(c)]: around the first [c]; [rsplit_once(c)]: around the last. *)
Fixpoint split_once (c : N) (s : str) : option (str * str) :=
  match s with
  | [] => None
  | x :: s' =>
      if decide (x = c) then Some ([], s')
      else prod_map (cons x) id <$> split_once c s'
  end.

Definition rsplit_once (c : N) (s : str) : option (str * str) :=
  '(a, b) ← split_once c (reverse s); Some (reverse b, reverse a).

Definition contains (c : N) (s : str) : bool := existsb (N.eqb c) s.

(** [str::replace(c, by)] for a single character [c]. *)
Definition replace_char (c : N) (by_ : str) (s : str) : str :=
  s ≫= λ x, if decide (x = c) then by_ else [x].

(** [str::eq_ignore_ascii_case], and SQLite's [COLLATE NOCASE]. *)
Definition eq_ignore_ascii_case (a b : str) : bool :=
  bool_decide (ascii_lower <$> a = ascii_lower <$> b).

(** ** Decimal numbers *)

Fixpoint show_uint (u : Decimal.uint) : str :=
  match u with
  | Decimal.Nil => []
  | Decimal.D0 u => 48 :: show_uint u | Decimal.D1 u => 49 :: show_uint u
  | Decimal.D2 u => 50 :: show_uint u | Decimal.D3 u => 51 :: show_uint u
  | Decimal.D4 u => 52 :: show_uint u | Decimal.D5 u => 53 :: show_uint u
  | Decimal.D6 u => 54 :: show_uint u | Decimal.D7 u => 55 :: show_uint u
  | Decimal.D8 u => 56 :: show_uint u | Decimal.D9 u => 57 :: show_uint u
  end%N.

Definition push_digit (c : N) (u : Decimal.uint) : option Decimal.uint :=
  match c with
  | 48 => Some (Decimal.D0 u) | 49 => Some (Decimal.D1 u)
  | 50 => Some (Decimal.D2 u) | 51 => Some (Decimal.D3 u)
  | 52 => Some (Decimal.D4 u) | 53 => Some (Decimal.D5 u)
  | 54 => Some (Decimal.D6 u) | 55 => Some (Decimal.D7 u)
  | 56 => Some (Decimal.D8 u) | 57 => Some (Decimal.D9 u)
  | _ => None
  end%N.

Fixpoint read_uint (s : str) : option Decimal.uint :=
  match s with
  | [] => Some Decimal.Nil
  | c :: s => read_uint s ≫= push_digit c
  end.

(** [to_string] on an integer. *)
Definition show_Z (z : Z) : str :=
  match z with
  | Z0 => [48%N]
  | Zpos p => show_uint (N.to_uint (Npos p))
  | Zneg p => 45%N :: show_uint (N.to_uint (Npos p))
  end.

(** A non-empty run of digits. *)
Definition parse_digits (s : str) : option Z :=
  match s with
  | [] => None
  | _ => (λ u, Z.of_N (N.of_uint u)) <$> read_uint s
  end.

(** [str::parse] for a signed type of range [lo .. hi]: an optional sign, at
    least one digit, nothing else, and no overflow. *)
Definition parse_signed (lo hi : Z) (s : str) : option Z :=
  z ← match s with
      | [] => None
      | c :: s' =>
          if decide (c = 45%N) then Z.opp <$> parse_digits s'
          else if decide (c = 43%N) then parse_digits s'
          else parse_digits s
      end;
  if (lo <=? z)%Z && (z <=? hi)%Z then Some z else None.

(** ** Lower-casing *)

(** [str::to_lowercase], by what the code relies on: on ASCII text it is
    [to_ascii_case]; it is idempotent; it neither makes nor removes
    white space at either end; only the empty string is mapped to the empty
    string. *)
Class UnicodeCase := {
  to_lowercase : str → str;
  lower_ascii s : forallb is_ascii s = true → to_lowercase s = ascii_lower <$> s;
  lower_idemp s : to_lowercase (to_lowercase s) = to_lowercase s;
  lower_trim s : to_lowercase (trim s) = trim (to_lowercase s);
  lower_nil s : to_lowercase s = [] → s = [];
  to_uppercase : str → str;
  upper_ascii s : forallb is_ascii s = true → to_uppercase s = ascii_upper <$> s;
}.

(** ** Lemmas *)

Section while_lemmas.
Context {A : Type} (p : A → bool).

Lemma drop_while_idemp l : drop_while p (drop_while p l) = drop_while p l.
Proof. induction l as [|x l IH]; simpl; [done|]. destruct (p x) eqn:E; [done|]. simpl. by rewrite E. Qed.

Lemma drop_while_suffix l : ∃ k, l = k ++ drop_while p l ∧ Forall (λ x, p x) k.
Proof.
  induction l as [|x l (k & Hk & IH)]; simpl; [by exists []|].
  destruct (p x) eqn:E; [|by exists []].
  exists (x :: k). simpl. split; [by f_equal|constructor; [by rewrite E|done]].
Qed.

Lemma drop_while_head l x k : drop_while p l = x :: k → p x = false.
Proof. induction l as [|y l IH]; simpl; [done|]. destruct (p y) eqn:E; [done|]. by intros [= -> _]. Qed.

Lemma drop_while_stop x l : p x = false → drop_while p (x :: l) = x :: l.
Proof. intros E. simpl. by rewrite E. Qed.

Lemma drop_while_end_idemp l :
  drop_while_end p (drop_while_end p l) = drop_while_end p l.
Proof. unfold drop_while_end. by rewrite reverse_involutive, drop_while_idemp. Qed.

Lemma drop_while_end_snoc_stop l x :
  p x = false → drop_while_end p (l ++ [x]) = l ++ [x].
Proof.
  intros E. unfold drop_while_end. rewrite reverse_app. simpl.
  rewrite E. simpl. by rewrite reverse_cons, reverse_involutive.
Qed.

Lemma drop_while_end_cons_stop l x :
  p x = false → drop_while_end p (x :: l) = x :: drop_while_end p l.
Proof.
  intros E. unfold drop_while_end. rewrite reverse_cons.
  destruct (drop_while_suffix (reverse l)) as (k & Hk & Hall).
  remember (drop_while p (reverse l)) as t eqn:Ht.
  rewrite Hk, <-app_assoc. clear Hk.
  assert (drop_while p (k ++ t ++ [x]) = drop_while p (t ++ [x])) as ->.
  { induction Hall as [|y k Hy _ IH]; simpl; [done|]. by destruct (p y). }
  destruct t as [|y t]; simpl; [by rewrite E|].
  symmetry in Ht. rewrite (drop_while_head _ _ _ Ht). simpl.
  by rewrite app_comm_cons, reverse_app.
Qed.

(** Dropping at both ends commutes. *)
Lemma drop_while_end_start l :
  drop_while p (drop_while_end p (drop_while p l)) = drop_while_end p (drop_while p l).
Proof.
  destruct (drop_while p l) as [|x k] eqn:E; [done|].
  pose proof (drop_while_head _ _ _ E) as Hx.
  rewrite drop_while_end_cons_stop by done. by rewrite drop_while_stop.
Qed.
End while_lemmas.

Lemma trim_idemp s : trim (trim s) = trim s.
Proof.
  unfold trim, trim_end, trim_start.
  by rewrite drop_while_end_start, drop_while_end_idemp.
Qed.

Lemma join_split c s : join [c] (split c s) = s.
Proof.
  unfold split. induction s as [|x s IH]; simpl; [done|].
  destruct (N.eqb_spec c x) as [->|Hne].
  - destruct (split_by (N.eqb x) s) as [|l ls] eqn:E.
    + by destruct s as [|y s]; simpl in E; [|destruct (N.eqb x y); [|destruct (split_by _ s)]].
    + simpl. simpl in IH. by rewrite <-IH.
  - destruct (split_by (N.eqb c) s) as [|l ls] eqn:E.
    + simpl in IH. by rewrite <-IH.
    + simpl in *. rewrite <-IH. by destruct ls.
Qed.

Lemma split_once_Some c s a b :
  split_once c s = Some (a, b) → s = a ++ c :: b ∧ c ∉ a.
Proof.
  revert a. induction s as [|x s IH]; intros a; simpl; [done|].
  destruct (decide (x = c)) as [->|Hne]; [by intros [= <- <-]; split; [|set_solver]|].
  destruct (split_once c s) as [[a' b']|]; simpl; [|done].
  intros [= <- <-]. destruct (IH a') as [-> Ha]; [done|]. split; [done|set_solver].
Qed.

Lemma split_once_app c a b : c ∉ a → split_once c (a ++ c :: b) = Some (a, b).
Proof.
  induction a as [|x a IH]; intros Ha; simpl.
  - by rewrite decide_True.
  - rewrite decide_False by set_solver. rewrite IH by set_solver. done.
Qed.

Lemma contains_elem c s : contains c s = true ↔ c ∈ s.
Proof.
  unfold contains. rewrite existsb_exists. setoid_rewrite N.eqb_eq.
  setoid_rewrite <-list_elem_of_In. naive_solver.
Qed.

Lemma split_once_None c s : split_once c s = None ↔ c ∉ s.
Proof.
  induction s as [|x s IH]; simpl; [set_solver|].
  destruct (decide (x = c)) as [->|Hne]; [split; [done|set_solver]|].
  destruct (split_once c s) as [[??]|]; simpl; set_solver.
Qed.

Lemma split_none c s : c ∉ s → split c s = [s].
Proof.
  unfold split. induction s as [|x s IH]; intros Hn; simpl; [done|].
  destruct (N.eqb_spec c x); [set_solver|]. by rewrite IH by set_solver.
Qed.

(** Printing a number and reading it back. *)
Lemma read_show_uint u : read_uint (show_uint u) = Some u.
Proof. induction u as [|u IH|u IH|u IH|u IH|u IH|u IH|u IH|u IH|u IH|u IH]; simpl; [done|..]; by rewrite IH. Qed.

Lemma show_uint_head u c s : show_uint u = c :: s → is_ascii_digit c = true.
Proof. by destruct u; intros [= <- _]. Qed.

Lemma parse_digits_show p :
  parse_digits (show_uint (N.to_uint (Npos p))) = Some (Zpos p).
Proof.
  pose proof (DecimalN.Unsigned.of_to (Npos p)) as H.
  assert (parse_digits (show_uint (N.to_uint (Npos p)))
          = (λ u, Z.of_N (N.of_uint u)) <$> read_uint (show_uint (N.to_uint (Npos p)))) as ->.
  { destruct (show_uint (N.to_uint (Npos p))) eqn:E; [|done].
    destruct (N.to_uint (Npos p)); done. }
  rewrite read_show_uint.
  change (Some (Z.of_N (N.of_uint (N.to_uint (Npos p)))) = Some (Zpos p)).
  by rewrite H.
Qed.

Lemma parse_signed_show lo hi z :
  parse_signed lo hi (show_Z z)
  = if (lo <=? z)%Z && (z <=? hi)%Z then Some z else None.
Proof.
  unfold parse_signed. destruct z as [|p|p]; [done| |].
  - cbv beta iota delta [show_Z]. pose proof (parse_digits_show p) as Hp.
    destruct (show_uint (N.to_uint (N.pos p))) as [|c s] eqn:E; [done|].
    pose proof (show_uint_head _ _ _ E) as Hd. unfold is_ascii_digit in Hd.
    apply andb_prop in Hd as [Hd1%N.leb_le Hd2%N.leb_le].
    assert (c ≠ 45%N ∧ c ≠ 43%N) as [H1 H2] by (clear E; lia).
    cbv beta iota. rewrite decide_False, decide_False, Hp by done. done.
  - cbv beta iota delta [show_Z]. rewrite decide_True, parse_digits_show by done. done.
Qed.

(** An instance: lower-casing of ASCII letters only. *)
Lemma ascii_lower_whitespace c : is_whitespace (ascii_lower c) = is_whitespace c.
Proof.
  unfold ascii_lower. destruct ((65 <=? c)%N && (c <=? 90)%N) eqn:E; [|done].
  assert (∀ d, (65 <= d <= 122)%N → is_whitespace d = false) as H.
  { intros d Hd. unfold is_whitespace.
    repeat match goal with
    | |- _ || _ = false => apply orb_false_intro
    | |- (_ =? _)%N = false => apply N.eqb_neq; lia
    | |- _ && _ = false => apply andb_false_iff; rewrite !N.leb_gt; lia
    end. }
  apply andb_prop in E as [E1%N.leb_le E2%N.leb_le]. rewrite !H by lia. done.
Qed.

Lemma ascii_lower_ascii s :
  forallb is_ascii (ascii_lower <$> s) = true → forallb is_ascii s = true.
Proof.
  induction s as [|c s IH]; simpl; [done|]. intros [Hc Hs]%andb_prop. rewrite IH, andb_true_r by done.
  unfold is_ascii, ascii_lower in *. destruct ((65 <=? c)%N && (c <=? 90)%N) eqn:E; [|done].
  apply andb_prop in E as [_ E%N.leb_le]. apply N.ltb_lt. lia.
Qed.

Lemma ascii_lower_idemp c : ascii_lower (ascii_lower c) = ascii_lower c.
Proof.
  unfold ascii_lower at 2 3. destruct ((65 <=? c)%N && (c <=? 90)%N) eqn:E.
  - apply andb_prop in E as [E1%N.leb_le E2%N.leb_le]. unfold ascii_lower.
    destruct (N.leb_spec (c + 32) 90); [lia|]. by rewrite andb_false_r.
  - unfold ascii_lower. by rewrite E.
Qed.

Lemma fmap_drop_while_lower s :
  ascii_lower <$> trim_start s = trim_start (ascii_lower <$> s).
Proof.
  unfold trim_start. induction s as [|c s IH]; simpl; [done|].
  rewrite ascii_lower_whitespace. by destruct (is_whitespace c).
Qed.

#[refine] Definition ascii_case : UnicodeCase := {|
  to_lowercase := fmap ascii_lower;
  to_uppercase := fmap ascii_upper;
|}.
Proof.
  - done.
  - intros s. rewrite <-list_fmap_compose. apply list_fmap_ext. intros. apply ascii_lower_idemp.
  - intros s. unfold trim, trim_end, drop_while_end.
    fold (trim_start (reverse (trim_start s))).
    rewrite fmap_reverse, fmap_drop_while_lower, fmap_reverse, fmap_drop_while_lower. done.
  - by intros [|c s].
  - done.
Defined.
