(* ===== verification/Substr.v ===== *)
(** * Substr: Rust's string operations with a string as the pattern, and UTF-8.

    [starts_with], [strip_prefix], [find], [rfind], [contains], [replace] and
    [splitn(2, c)] of [str], [as_bytes], and the patterns of SQLite's [LIKE]. *)

From S2P Require Import Prelude Text.

(** ** Searching *)

(** [s.strip_prefix(p)] *)
Fixpoint strip_prefix_str (p s : str) : option str :=
  match p, s with
  | [], _ => Some s
  | x :: p, y :: s => if (x =? y)%N then strip_prefix_str p s else None
  | _ :: _, [] => None
  end.

Definition starts_with (p s : str) : bool :=
  match strip_prefix_str p s with Some _ => true | None => false end.

(** [s.strip_suffix(p)], [s.ends_with(p)] *)
Definition strip_suffix_str (p s : str) : option str :=
  reverse <$> strip_prefix_str (reverse p) (reverse s).

Definition ends_with_str (p s : str) : bool :=
  match strip_suffix_str p s with Some _ => true | None => false end.

(** [s.split_once(p)]: around the first occurrence. *)
Fixpoint split_once_str (p s : str) : option (str * str) :=
  match strip_prefix_str p s with
  | Some rest => Some ([], rest)
  | None =>
      match s with
      | [] => None
      | x :: s' => prod_map (cons x) id <$> split_once_str p s'
      end
  end.

Definition contains_str (p s : str) : bool :=
  match split_once_str p s with Some _ => true | None => false end.

(** Around the last occurrence, what [rfind] and [split_at] give together. *)
Fixpoint rsplit_once_str (p s : str) : option (str * str) :=
  match s with
  | [] => match p with [] => Some ([], []) | _ :: _ => None end
  | x :: s' =>
      match rsplit_once_str p s' with
      | Some (a, b) => Some (x :: a, b)
      | None => (λ rest, ([], rest)) <$> strip_prefix_str p s
      end
  end.

(** [s.replace(pat, by_)] for a non-empty [pat]: occurrences from left to right,
    not overlapping; [skip] characters belong to the occurrence just replaced. *)
Fixpoint replace_from (pat by_ : str) (skip : nat) (s : str) : str :=
  match s with
  | [] => []
  | c :: s' =>
      match skip with
      | S k => replace_from pat by_ k s'
      | O => if starts_with pat s
             then by_ ++ replace_from pat by_ (pred (length pat)) s'
             else c :: replace_from pat by_ 0 s'
      end
  end.

Definition replace_str (pat by_ s : str) : str := replace_from pat by_ 0 s.

(** ** UTF-8 *)

Definition utf8_char (c : N) : list N :=
  (if c <? 128 then [c]
   else if c <? 2048 then [192 + N.shiftr c 6; 128 + N.land c 63]
   else if c <? 65536 then
     [224 + N.shiftr c 12; 128 + N.land (N.shiftr c 6) 63; 128 + N.land c 63]
   else [240 + N.shiftr c 18; 128 + N.land (N.shiftr c 12) 63;
         128 + N.land (N.shiftr c 6) 63; 128 + N.land c 63])%N.

(** [s.as_bytes()] *)
Definition as_bytes (s : str) : list N := s ≫= utf8_char.

(** [s.get(a..b)]: [None] when the range is not inside [s] or an end is not on
    a character boundary. *)
Fixpoint split_at_byte (s : str) (n : nat) : option (str * str) :=
  match n, s with
  | O, _ => Some ([], s)
  | S _, [] => None
  | S _, c :: s' =>
      if (len_utf8 c <=? n)%nat
      then (λ p, (c :: p.1, p.2)) <$> split_at_byte s' (n - len_utf8 c)
      else None
  end.

Definition str_get (s : str) (a b : nat) : option str :=
  if (b <? a)%nat then None
  else p ← split_at_byte s a; fst <$> split_at_byte p.2 (b - a).

(** ** Lemmas *)

Lemma strip_prefix_str_Some p s r : strip_prefix_str p s = Some r ↔ s = p ++ r.
Proof.
  revert s. induction p as [|x p IH]; intros [|y s]; simpl; [naive_solver..|].
  destruct (N.eqb_spec x y) as [->|Hne]; [rewrite IH; naive_solver|]. split; [done|naive_solver].
Qed.

Lemma strip_prefix_str_app p r : strip_prefix_str p (p ++ r) = Some r.
Proof. by apply strip_prefix_str_Some. Qed.

Lemma starts_with_iff p s : starts_with p s = true ↔ ∃ r, s = p ++ r.
Proof.
  unfold starts_with. destruct (strip_prefix_str p s) as [r|] eqn:E.
  - apply strip_prefix_str_Some in E. split; [eauto|done].
  - split; [done|]. intros [r ->]. by rewrite strip_prefix_str_app in E.
Qed.

Lemma starts_with_app p r : starts_with p (p ++ r) = true.
Proof. apply starts_with_iff. eauto. Qed.

Lemma starts_with_cons x p y s : starts_with (x :: p) (y :: s) = (x =? y)%N && starts_with p s.
Proof. unfold starts_with. simpl. by destruct (x =? y)%N. Qed.

Lemma contains_str_iff p s : contains_str p s = true ↔ ∃ a b, s = a ++ p ++ b.
Proof.
  unfold contains_str. induction s as [|x s IH].
  - simpl. destruct p as [|y p]; simpl; [|by split; [|intros ([|]&?&?)]].
    split; [|done]. by exists [], [].
  - cbn [split_once_str]. destruct (strip_prefix_str p (x :: s)) as [r|] eqn:E.
    + split; [|done]. intros _. apply strip_prefix_str_Some in E. by exists [], r.
    + assert ((∃ a b, x :: s = a ++ p ++ b) ↔ ∃ a b, s = a ++ p ++ b) as ->.
      { split; [|intros (a & b & ->); by exists (x :: a), b].
        intros ([|y a] & b & H); simpl in H; [|naive_solver].
        by rewrite H, strip_prefix_str_app in E. }
      rewrite <-IH. by destruct (split_once_str p s).
Qed.

Lemma contains_str_false p s : contains_str p s = false ↔ ¬ ∃ a b, s = a ++ p ++ b.
Proof. rewrite <-contains_str_iff. by destruct (contains_str p s). Qed.

Lemma contains_str_cons p x s : contains_str p s = true → contains_str p (x :: s) = true.
Proof. rewrite !contains_str_iff. intros (a & b & ->). by exists (x :: a), b. Qed.

(** An occurrence that is replaced, and a character that begins none. *)
Lemma replace_str_hit pat by_ r :
  pat ≠ [] → replace_str pat by_ (pat ++ r) = by_ ++ replace_str pat by_ r.
Proof.
  intros Hp. unfold replace_str. destruct pat as [|x pat]; [done|].
  cbn [app replace_from]. rewrite (starts_with_app (x :: pat) r : starts_with (x :: pat) (x :: pat ++ r) = true).
  f_equal. cbn [length pred].
  assert (∀ q l, replace_from (x :: pat) by_ (length q) (q ++ l) = replace_from (x :: pat) by_ 0 l) as H.
  { induction q as [|y q IHq]; intros l; [done|]. cbn [length app replace_from]. apply IHq. }
  apply H.
Qed.

Lemma replace_str_miss pat by_ c s :
  starts_with pat (c :: s) = false → replace_str pat by_ (c :: s) = c :: replace_str pat by_ s.
Proof. intros H. unfold replace_str. cbn [replace_from]. by rewrite H. Qed.

Lemma replace_str_none pat by_ s : pat ≠ [] → contains_str pat s = false → replace_str pat by_ s = s.
Proof.
  intros Hp. induction s as [|c s IH]; [done|]. intros Hc. rewrite replace_str_miss.
  - rewrite IH; [done|]. destruct (contains_str pat s) eqn:E; [|done].
    by rewrite (contains_str_cons _ _ _ E) in Hc.
  - destruct (starts_with pat (c :: s)) eqn:E; [|done]. apply starts_with_iff in E as [r E].
    apply contains_str_false in Hc. destruct Hc. by exists [], r.
Qed.

(** ASCII text is its own encoding. *)
Lemma as_bytes_ascii s : forallb is_ascii s = true → as_bytes s = s.
Proof.
  induction s as [|c s IH]; [done|]. cbn [forallb]. intros [Hc Hs]%andb_prop.
  unfold as_bytes. rewrite bind_cons. fold (as_bytes s). rewrite IH by done.
  unfold utf8_char. unfold is_ascii in Hc. by rewrite Hc.
Qed.

Lemma length_as_bytes s : length (as_bytes s) = byte_len s.
Proof.
  induction s as [|c s IH]; [done|]. unfold as_bytes. rewrite bind_cons. fold (as_bytes s).
  rewrite length_app, IH. unfold byte_len. cbn [sum_list_with]. f_equal.
  unfold utf8_char, len_utf8. by repeat case_match.
Qed.

(** ** Lines *)

Lemma as_bytes_cons c s : as_bytes (c :: s) = utf8_char c ++ as_bytes s.
Proof. done. Qed.

Lemma as_bytes_app a b : as_bytes (a ++ b) = as_bytes a ++ as_bytes b.
Proof. unfold as_bytes. apply bind_app. Qed.

Lemma byte_len_cons c s : byte_len (c :: s) = len_utf8 c + byte_len s.
Proof. done. Qed.

Lemma byte_len_app a b : byte_len (a ++ b) = byte_len a + byte_len b.
Proof. unfold byte_len. apply sum_list_with_app. Qed.

Lemma len_utf8_low c : (c < 128)%N → len_utf8 c = 1.
Proof. intros Hc. unfold len_utf8. by destruct (N.ltb_spec c 128); [|lia]. Qed.

Lemma length_utf8_char c : length (utf8_char c) = len_utf8 c.
Proof. unfold utf8_char, len_utf8. by repeat case_match. Qed.

#[local] Arguments byte_len : simpl never.

Lemma split_at_byte_app a b : split_at_byte (a ++ b) (byte_len a) = Some (a, b).
Proof.
  induction a as [|c a IH]; [by destruct b|]. rewrite byte_len_cons. cbn [app].
  assert (∃ n, len_utf8 c = S n) as [n Hn]
    by (unfold len_utf8; repeat case_match; eexists; reflexivity).
  rewrite Hn. cbn [Nat.add split_at_byte]. rewrite Hn.
  destruct (Nat.leb_spec (S n) (S (n + byte_len a))); [|lia].
  replace (S (n + byte_len a) - S n) with (byte_len a) by lia. by rewrite IH.
Qed.

(** A slice between two ends of characters is the text between them. *)
Lemma str_get_app a b c : str_get (a ++ b ++ c) (byte_len a) (byte_len a + byte_len b) = Some b.
Proof.
  unfold str_get. destruct (Nat.ltb_spec (byte_len a + byte_len b) (byte_len a)); [lia|].
  rewrite split_at_byte_app. cbn. replace (byte_len a + byte_len b - byte_len a) with (byte_len b) by lia.
  by rewrite split_at_byte_app.
Qed.

Lemma split_app c a b : split c (a ++ c :: b) = split c a ++ split c b.
Proof.
  unfold split. induction a as [|x a IH]; simpl; [by rewrite N.eqb_refl|].
  destruct (c =? x)%N; [by rewrite IH|]. rewrite IH.
  destruct (split_by (N.eqb c) a) as [|l ls] eqn:E; [|done].
  by destruct a as [|y a]; simpl in E; [|destruct (c =? y)%N; [|destruct (split_by _ a)]].
Qed.

Lemma split_nonempty c s : split c s ≠ [].
Proof. unfold split. destruct s as [|x s]; simpl; [done|]. destruct (c =? x)%N; [done|]. by destruct (split_by _ s). Qed.

Lemma split_pieces c s : Forall (λ l, c ∉ l) (split c s).
Proof.
  unfold split. induction s as [|x s IH]; simpl; [constructor; [set_solver|done]|].
  destruct (N.eqb_spec c x) as [->|Hne]; [constructor; [set_solver|done]|].
  destruct (split_by (N.eqb c) s) as [|l ls]; [constructor; [set_solver|done]|].
  apply Forall_cons in IH as [Hl Hls]. constructor; [set_solver|done].
Qed.

Lemma split_join_bind c ls : ls ≠ [] → split c (join [c] ls) = ls ≫= split c.
Proof.
  induction ls as [|l ls IH]; [done|]. intros _. destruct ls as [|l' ls]; [by rewrite bind_cons, app_nil_r|].
  change (join [c] (l :: l' :: ls)) with (l ++ c :: join [c] (l' :: ls)).
  rewrite split_app, IH by done. by rewrite bind_cons.
Qed.

(** Replacing inside the lines: a pattern that starts with the separator and has
    no other is replaced at the start of every line but the first. *)
Definition sub_prefix (p q l : str) : str :=
  match strip_prefix_str p l with Some r => q ++ r | None => l end.

Lemma split_cons_ne c x s :
  c ≠ x → split c (x :: s) = match split c s with [] => [[x]] | l :: ls => (x :: l) :: ls end.
Proof. intros Hne. unfold split. cbn [split_by]. by rewrite (proj2 (N.eqb_neq c x) Hne). Qed.

Lemma split_cons_eq c s : split c (c :: s) = [] :: split c s.
Proof. unfold split. cbn [split_by]. by rewrite N.eqb_refl. Qed.

Lemma split_prefix c p s :
  c ∉ p → split c (p ++ s) = match split c s with [] => [p] | l :: ls => (p ++ l) :: ls end.
Proof.
  intros Hp. induction p as [|x p IH]; [by destruct (split c s) eqn:E; [destruct (split_nonempty c s)|]|].
  cbn [app]. rewrite split_cons_ne by set_solver. rewrite IH by set_solver. by destruct (split c s).
Qed.

Lemma split_head c s l ls : split c s = l :: ls → ∃ r, s = l ++ r.
Proof.
  intros E. rewrite <-(join_split c s), E. destruct ls as [|l' ls]; [exists []; by rewrite app_nil_r|].
  by eexists.
Qed.

Lemma split_replace c p q s l ls :
  c ∉ p → c ∉ q → split c s = l :: ls →
  split c (replace_str (c :: p) (c :: q) s) = l :: (sub_prefix p q <$> ls).
Proof.
  intros Hp Hq. remember (length s) as n eqn:Hn. revert s l ls Hn.
  induction (lt_wf n) as [n _ IH]; intros s l ls ->.
  destruct s as [|x s]; [by intros [= <- <-]|].
  destruct (decide (c = x)) as [<-|Hne].
  - rewrite split_cons_eq. intros [= <- <-].
    destruct (strip_prefix_str p s) as [r|] eqn:E.
    + apply strip_prefix_str_Some in E as ->.
      change (c :: p ++ r) with ((c :: p) ++ r). rewrite replace_str_hit by done.
      cbn [app]. rewrite split_cons_eq. f_equal.
      destruct (split c r) as [|h t] eqn:Er; [by destruct (split_nonempty c r)|].
      rewrite split_prefix, (split_prefix c p r), Er by done.
      rewrite (IH (length r)) with (l := h) (ls := t); [|simpl; rewrite length_app; lia|done..].
      rewrite fmap_cons. unfold sub_prefix at 2. by rewrite strip_prefix_str_app.
    + rewrite replace_str_miss; [|rewrite starts_with_cons; unfold starts_with; by rewrite E, andb_false_r].
      rewrite split_cons_eq. f_equal.
      destruct (split c s) as [|h t] eqn:Es; [by destruct (split_nonempty c s)|].
      rewrite (IH (length s)) with (l := h) (ls := t); [|simpl; lia|done..].
      rewrite fmap_cons. f_equal. unfold sub_prefix.
      destruct (strip_prefix_str p h) as [r|] eqn:Eh; [|done].
      apply strip_prefix_str_Some in Eh. apply split_head in Es as [r' ->]. subst h.
      by rewrite <-app_assoc, strip_prefix_str_app in E.
  - rewrite split_cons_ne by done. destruct (split c s) as [|h t] eqn:Es; [by destruct (split_nonempty c s)|].
    intros [= <- <-]. rewrite replace_str_miss.
    + rewrite split_cons_ne by done. by rewrite (IH (length s)) with (l := h) (ls := t); [|simpl; lia|..].
    + rewrite starts_with_cons. by rewrite (proj2 (N.eqb_neq c x) Hne).
Qed.

(** ** [LIKE] and [LOWER] of SQLite *)

Definition PERCENT : N := 37.
Definition UNDERSCORE : N := 95.

(** [s LIKE p]: [%] is any text, [_] any character, letters compare without
    regard to ASCII case. *)
Fixpoint like (p : str) : str → bool :=
  match p with
  | [] => is_empty
  | c :: p' =>
      if (c =? PERCENT)%N then
        fix star (s : str) : bool :=
          like p' s || match s with [] => false | _ :: s' => star s' end
      else λ s,
        match s with
        | [] => false
        | x :: s' => ((c =? UNDERSCORE)%N || (ascii_lower c =? ascii_lower x)%N) && like p' s'
        end
  end.

(** [LOWER], which knows ASCII only. *)
Definition sql_lower (s : str) : str := ascii_lower <$> s.

Lemma sql_lower_idemp s : sql_lower (sql_lower s) = sql_lower s.
Proof.
  unfold sql_lower. rewrite <-list_fmap_compose. apply list_fmap_ext. intros i x _.
  apply ascii_lower_idemp.
Qed.

Lemma like_star p s : like (PERCENT :: p) s = true ↔ ∃ a b, s = a ++ b ∧ like p b = true.
Proof.
  induction s as [|x s IH].
  - simpl. rewrite orb_false_r. split; [by exists [], []|]. by intros ([|] & [|] & ? & ?).
  - change (like (PERCENT :: p) (x :: s)) with (like p (x :: s) || like (PERCENT :: p) s).
    rewrite orb_true_iff, IH. split.
    + intros [Hl|(a & b & -> & Hl)]; [by exists [], (x :: s)|by exists (x :: a), b].
    + intros ([|y a] & b & E & Hl); simpl in E; [left; by rewrite E|]. right.
      injection E as _ ->. eauto.
Qed.

Definition no_wildcard (c : N) : bool := negb (c =? PERCENT)%N && negb (c =? UNDERSCORE)%N.

Lemma like_literal p q s :
  forallb no_wildcard p = true →
  like (p ++ q) s = true
  ↔ ∃ a b, s = a ++ b ∧ sql_lower a = sql_lower p ∧ like q b = true.
Proof.
  revert s. induction p as [|c p IH]; intros s Hw.
  - simpl. split; [by exists [], s|]. by intros ([|] & b & -> & ? & ?).
  - cbn [forallb] in Hw. apply andb_prop in Hw as [Hc Hp]. unfold no_wildcard in Hc.
    apply andb_prop in Hc as [H1%negb_true_iff H2%negb_true_iff].
    cbn [app like]. rewrite H1, H2. cbn [orb]. destruct s as [|x s].
    + split; [done|]. by intros ([|] & b & ? & ? & ?).
    + rewrite andb_true_iff, N.eqb_eq, IH by done. split.
      * intros [Hx (a & b & -> & Ha & Hb)]. exists (x :: a), b. split_and!; [done| |done].
        unfold sql_lower in *. rewrite !fmap_cons. congruence.
      * intros ([|y a] & b & E & Ha & Hb); [done|]. simpl in E. injection E as -> ->.
        unfold sql_lower in Ha. rewrite !fmap_cons in Ha. injection Ha as Hy Ha. split; [done|]. eauto.
Qed.

(** Without wildcards of its own, a needle is found exactly where it occurs, up
    to ASCII case. *)
Lemma like_contains needle s :
  forallb no_wildcard needle = true →
  like ([PERCENT] ++ needle ++ [PERCENT]) s = true
  ↔ contains_str (sql_lower needle) (sql_lower s) = true.
Proof.
  intros Hw. cbn [app]. rewrite like_star, contains_str_iff.
  assert (∀ b, like [PERCENT] b = true) as Hall.
  { intros b. apply like_star. exists b, []. by rewrite app_nil_r. }
  split.
  - intros (a & b & -> & Hl). apply like_literal in Hl as (b1 & b2 & -> & Hb & _); [|done].
    exists (sql_lower a), (sql_lower b2). unfold sql_lower in *. by rewrite !fmap_app, Hb.
  - intros (a & b & E). unfold sql_lower in E.
    apply fmap_app_inv in E as (a' & r & Ha & E & ->). symmetry in E.
    apply fmap_app_inv in E as (n' & b' & Hn & Hb & ->).
    exists a', (n' ++ b'). split; [done|]. apply like_literal; [done|]. exists n', b'. eauto.
Qed.

