(* ===== verification/Store.v ===== *)
(** * Store: the account database, configuration and contacts.

    [Ctx] is the state every operation of [core/src/email/] reads and writes:
    the tables of [core/src/sql/migrations.rs] and [core/src/sql/tables.sql]
    the email layer uses, restricted to the columns it uses, with the
    configuration table, the queue of outgoing sync items and the clock. *)

From S2P Require Import Prelude Text.

(** ** Machine integers *)

Definition i64_min : Z := -9223372036854775808.
Definition i64_max : Z := 9223372036854775807.
Definition i32_min : Z := -2147483648.
Definition i32_max : Z := 2147483647.
Definition u32_max : Z := 4294967295.

Definition clamp_i64 (z : Z) : Z := Z.max i64_min (Z.min i64_max z).

(** [i64::saturating_add], [saturating_sub], [saturating_mul] *)
Definition sat_add (a b : Z) : Z := clamp_i64 (a + b).
Definition sat_sub (a b : Z) : Z := clamp_i64 (a - b).
Definition sat_mul (a b : Z) : Z := clamp_i64 (a * b).

Definition in_i64 (z : Z) : Prop := (i64_min ≤ z ≤ i64_max)%Z.
Definition in_i32 (z : Z) : Prop := (i32_min ≤ z ≤ i32_max)%Z.

Definition parse_i32 : str → option Z := parse_signed i32_min i32_max.
Definition parse_i64 : str → option Z := parse_signed i64_min i64_max.

(** [str::parse::<u32>] *)
Definition parse_u32 (s : str) : option Z :=
  z ← parse_digits (match s with 43%N :: s' => s' | _ => s end);
  if (z <=? u32_max)%Z then Some z else None.

Lemma sat_add_exact a b : in_i64 (a + b) → sat_add a b = (a + b)%Z.
Proof. unfold sat_add, clamp_i64, in_i64. lia. Qed.

Lemma sat_sub_exact a b : in_i64 (a - b) → sat_sub a b = (a - b)%Z.
Proof. unfold sat_sub, clamp_i64, in_i64. lia. Qed.

Lemma sat_mul_exact a b : in_i64 (a * b) → sat_mul a b = (a * b)%Z.
Proof. unfold sat_mul, clamp_i64, in_i64. lia. Qed.

(** ** Constants *)

Definition DC_CHAT_ID_TRASH : Z := 3.
Definition DC_CHAT_ID_LAST_SPECIAL : Z := 9.

Module ContactId.
Definition UNDEFINED : Z := 0.
Definition SELF : Z := 1.
Definition INFO : Z := 2.
Definition DEVICE : Z := 5.
Definition LAST_SPECIAL : Z := 9.
Definition DEVICE_ADDR : str := lit "device@localhost".

Definition is_special (id : Z) : bool := (id <=? LAST_SPECIAL)%Z.
End ContactId.

(** ** Enumerations stored as integers *)

Module MessageState.
Inductive t :=
  | Undefined | InFresh | InNoticed | InSeen | OutDraft | OutPending
  | OutFailed | OutDelivered | OutMdnRcvd.

#[global] Instance eq_dec : EqDecision t.
Proof. solve_decision. Defined.

Definition to_i64 (s : t) : Z :=
  match s with
  | Undefined => 0 | InFresh => 10 | InNoticed => 13 | InSeen => 16
  | OutDraft => 19 | OutPending => 20 | OutFailed => 24
  | OutDelivered => 26 | OutMdnRcvd => 28
  end.

Definition all : list t :=
  [Undefined; InFresh; InNoticed; InSeen; OutDraft; OutPending; OutFailed;
   OutDelivered; OutMdnRcvd].

(** [FromSql]: [None] stands for the error [OutOfRange]. *)
Definition from_i64 (z : Z) : option t :=
  List.find (λ s, to_i64 s =? z)%Z all.

Definition is_outgoing (s : t) : bool :=
  match s with
  | OutDraft | OutPending | OutFailed | OutDelivered | OutMdnRcvd => true
  | _ => false
  end.

(** [PartialOrd]: the order of the declaration, which is that of the
    discriminants. *)
Definition le (a b : t) : bool := (to_i64 a <=? to_i64 b)%Z.
Definition lt (a b : t) : bool := (to_i64 a <? to_i64 b)%Z.
End MessageState.

Module Origin.
Inductive t :=
  | Unknown | MailinglistAddress | Hidden | IncomingUnknownFrom
  | IncomingUnknownCc | IncomingUnknownTo | UnhandledQrScan
  | UnhandledSecurejoinQrScan | IncomingReplyTo | IncomingCc | IncomingTo
  | CreateChat | OutgoingBcc | OutgoingCc | OutgoingTo | Internal
  | AddressBook | SecurejoinInvited | SecurejoinJoined | ManuallyCreated.

#[global] Instance eq_dec : EqDecision t.
Proof. solve_decision. Defined.

Definition to_i64 (o : t) : Z :=
  match o with
  | Unknown => 0 | MailinglistAddress => 2 | Hidden => 8
  | IncomingUnknownFrom => 16 | IncomingUnknownCc => 32
  | IncomingUnknownTo => 64 | UnhandledQrScan => 128
  | UnhandledSecurejoinQrScan => 129 | IncomingReplyTo => 256
  | IncomingCc => 512 | IncomingTo => 1024 | CreateChat => 2048
  | OutgoingBcc => 4096 | OutgoingCc => 8192 | OutgoingTo => 16384
  | Internal => 262144 | AddressBook => 524288
  | SecurejoinInvited => 16777216 | SecurejoinJoined => 33554432
  | ManuallyCreated => 67108864
  end.

Definition all : list t :=
  [Unknown; MailinglistAddress; Hidden; IncomingUnknownFrom;
   IncomingUnknownCc; IncomingUnknownTo; UnhandledQrScan;
   UnhandledSecurejoinQrScan; IncomingReplyTo; IncomingCc; IncomingTo;
   CreateChat; OutgoingBcc; OutgoingCc; OutgoingTo; Internal; AddressBook;
   SecurejoinInvited; SecurejoinJoined; ManuallyCreated].

Definition from_i64 (z : Z) : option t :=
  List.find (λ o, to_i64 o =? z)%Z all.

Definition is_known (o : t) : bool :=
  (to_i64 IncomingReplyTo <=? to_i64 o)%Z.
End Origin.

(** [Sync]: whether a change is queued for the user's other devices. *)
Module Sync.
Inductive t := Nosync | Sync.
#[global] Instance eq_dec : EqDecision t.
Proof. solve_decision. Defined.
End Sync.

(** ** Configuration keys

    The keys the email layer reads; every one of them is stored by the general
    arm of [set_config_ext]. *)
Module Config.
Inductive t :=
  | BccSelf | MdnsEnabled | DeleteDeviceAfter | Bot | RawMimeRetentionDays
  | EncryptionMode | ServerRetentionDays | MdnPolicy | BlobEncryption
  | InboxGating | UnverifiedTrashDays | TrashPurgeDays
  | EphemeralDefaultSeconds | SubjectInBody | EmailSignature
  | EmailSignatureHtml | SyncMsgs | ForceEncryption | TeamProfile | DownloadLimit.

#[global] Instance eq_dec : EqDecision t.
Proof. solve_decision. Defined.

(** The keyname in the table [config] (strum, [snake_case]). *)
Definition as_ref (k : t) : str :=
  lit match k with
      | BccSelf => "bcc_self" | MdnsEnabled => "mdns_enabled"
      | DeleteDeviceAfter => "delete_device_after" | Bot => "bot"
      | RawMimeRetentionDays => "raw_mime_retention_days"
      | EncryptionMode => "encryption_mode"
      | ServerRetentionDays => "server_retention_days"
      | MdnPolicy => "mdn_policy" | BlobEncryption => "blob_encryption"
      | InboxGating => "inbox_gating"
      | UnverifiedTrashDays => "unverified_trash_days"
      | TrashPurgeDays => "trash_purge_days"
      | EphemeralDefaultSeconds => "ephemeral_default_seconds"
      | SubjectInBody => "subject_in_body"
      | EmailSignature => "email_signature"
      | EmailSignatureHtml => "email_signature_html"
      | SyncMsgs => "sync_msgs" | ForceEncryption => "force_encryption"
      | TeamProfile => "team_profile" | DownloadLimit => "download_limit"
      end.

(** [#[strum(props(default = ..))]] *)
Definition default (k : t) : option str :=
  match k with
  | BccSelf => Some (lit "0") | MdnsEnabled => Some (lit "1")
  | DeleteDeviceAfter => Some (lit "0") | Bot => None
  | RawMimeRetentionDays => Some (lit "30")
  | EncryptionMode => Some (lit "1") | ServerRetentionDays => Some (lit "0")
  | MdnPolicy => Some (lit "2") | BlobEncryption => Some (lit "0")
  | InboxGating => Some (lit "0") | UnverifiedTrashDays => Some (lit "0")
  | TrashPurgeDays => Some (lit "0")
  | EphemeralDefaultSeconds => Some (lit "0")
  | SubjectInBody => Some (lit "1") | EmailSignature => None
  | EmailSignatureHtml => None | SyncMsgs => Some (lit "1")
  | ForceEncryption => Some (lit "1") | TeamProfile => None
  | DownloadLimit => Some (lit "0")
  end.

Definition is_synced (k : t) : bool :=
  match k with
  | MdnsEnabled | ForceEncryption | EmailSignature | EmailSignatureHtml => true
  | _ => false
  end.
End Config.

(** ** Sync items *)

(** [labels::LabelSyncItem] *)
Inductive LabelSyncItem :=
  | LCreate (name : str) (color : option Z)
  | LRename (from to : str)
  | LDelete (name : str)
  | LSetColor (name : str) (color : option Z)
  | LApply (msgs : list str) (label : str)
  | LUnapply (msgs : list str) (label : str).

(** [chat::SyncId], the two forms used for a contact. *)
Inductive SyncId :=
  | ContactAddr (addr : str)
  | ContactFingerprint (hex : str).

(** [sync::SyncData], the variants the modelled code queues. *)
Inductive SyncData :=
  | SyncEmailLabel (item : LabelSyncItem)
  | SyncConfig (key : Config.t) (val : str)
  | SyncAlterChat (id : SyncId) (block : bool)
  | SyncRenameChat (id : SyncId) (name : str)
  | SyncDeleteMessages (msgs : list str).

(** ** Rows *)

(** A row of [msgs].  The columns the code reads through [IFNULL] are
    optional. *)
Module Msg.
Record t := mk {
  rfc724_mid : option str;
  pre_rfc724_mid : option str;
  mime_in_reply_to : option str;
  mime_references : option str;
  subject : option str;
  txt : str;
  txt_normalized : option str;
  timestamp : option Z;
  timestamp_sent : Z;
  timestamp_rcvd : Z;
  chat_id : Z;
  from_id : Z;
  to_id : Z;
  state : Z;
  hidden : bool;
  param : str; (** packed, [Params.from_str] reads it *)
  ephemeral_timer : Z;
  ephemeral_timestamp : Z;
  deleted : bool;
  typ : Z; (** column [type], a [Viewtype] *)
  download_state : Z;
}.
End Msg.

(** A row of [contacts]. *)
Module ContactRow.
Record t := mk {
  name : str;
  addr : str;
  origin : Z;
  blocked : bool;
  last_seen : Z;
  authname : str;
  fingerprint : str;
  verifier : Z;
}.
End ContactRow.

(** A row of [chats]; [blocked] is 0, 1 or 2. *)
Module ChatRow.
Record t := mk {
  typ : Z;
  name : str;
  grpid : str;
  blocked : Z;
  ephemeral_timer : Z;
  param : str; (** packed *)
  archived : Z;
  muted_until : Z;
}.
End ChatRow.

Module LabelRow.
Record t := mk {
  name : str;
  name_norm : str;
  color : option Z;
  system : bool;
  created : Z;
}.
End LabelRow.

Module TrashedRow.
Record t := mk { trashed_at : Z; purge_at : Z; reason : Z }.
End TrashedRow.

Module BlockRow.
Record t := mk { pattern : str; pattern_norm : str; added : Z; reason : str }.
End BlockRow.

Module ThreadRow.
Record t := mk { subject_norm : str; last_activity : Z }.
End ThreadRow.

Module PolicyRow.
Record t := mk {
  encryption_mode : option Z;
  mdn_enabled : option Z;
  ephemeral_secs : option Z;
}.
End PolicyRow.

Module RawMimeRow.
Record t := mk { blobname : str; size : Z; stored_at : Z; expires_at : option Z }.
End RawMimeRow.

Module SendOptionsRow.
Record t := mk { encryption : Z; signature_in_body : bool; signature : option str }.
End SendOptionsRow.

(** A row of [smtp]: a message to be sent, with its recipients joined by blanks. *)
Module SmtpRow.
Record t := mk { id : Z; rfc724_mid : str; recipients : str; mime : str; msg_id : Z; retries : Z }.
End SmtpRow.

Module MdnRow.
Record t := mk { msg_id : Z; from_id : Z; rfc724_mid : str; retries : Z }.
End MdnRow.

(** A row of [imap]: a message on a server, by its place there, and the folder
    it is to be in; the empty target means that it is to be deleted. *)
Module ImapRow.
Record t := mk { transport_id : Z; rfc724_mid : str; folder : str; target : str; uid : Z; uidvalidity : Z }.
End ImapRow.

Module ImapSyncRow.
Record t := mk { uidvalidity : Z; uid_next : Z }.
End ImapSyncRow.

Module DetailsRow.
Record t := mk { organisation : str; job_title : str; postal : str; website : str; notes : str }.
End DetailsRow.

Module CategoryRow.
Record t := mk { name : str; name_norm : str; color : option Z }.
End CategoryRow.

Module StructuredRow.
Record t := mk { json : str; trusted : Z; source : Z }.
End StructuredRow.

(** ** The state *)

Record Ctx := MkCtx {
  clock : Z; (** seconds since the epoch, what [time()] returns during a call *)
  env : gmap str str; (** environment variables *)
  config : gmap str str; (** [config]: keyname, value *)
  transports : list (str * bool); (** addresses of the rows of [transports] with [is_published], newest first *)
  multi_device_sync : list (Z * SyncData); (** outgoing sync items: timestamp, item; oldest first *)
  msgs : gmap Z Msg.t;
  contacts : gmap Z ContactRow.t;
  contacts_seq : Z; (** last id given out by AUTOINCREMENT *)
  chats : gmap Z ChatRow.t;
  chats_contacts : gset (Z * Z); (** chat_id, contact_id *)
  labels : gmap Z LabelRow.t;
  labels_seq : Z;
  msg_labels : gset (Z * Z); (** msg_id, label_id *)
  pending_msg_labels : gmap (str * Z) (bool * Z); (** (rfc724_mid, label_id) to (apply, timestamp) *)
  held_msgs : gmap Z Z; (** msg_id to held_at *)
  trashed_msgs : gmap Z TrashedRow.t;
  blocklist : gmap Z BlockRow.t;
  blocklist_seq : Z;
  threads : gmap Z ThreadRow.t;
  threads_seq : Z;
  msg_threads : gmap Z Z; (** msg_id to thread_id *)
  thread_refs : gmap str Z; (** rfc724_mid to thread_id *)
  contact_policy : gmap Z PolicyRow.t;
  server_retention : gmap str Z; (** rfc724_mid to delete_at *)
  imap_tbl : gmap Z ImapRow.t;
  msg_undelivered : gset (Z * str); (** msg_id, addr *)
  msg_recipients : gmap (Z * Z * str) (str * Z); (** (msg_id, kind, addr) to (name, ord) *)
  raw_mime : gmap Z RawMimeRow.t;
  msg_importance : gmap Z Z; (** msg_id to level *)
  msg_send_options : gmap Z SendOptionsRow.t;
  public_keys : gset str; (** fingerprints of the keys held *)
  chats_seq : Z;
  self_key : option str; (** fingerprint of the user's own key *)
  contact_details : gmap Z DetailsRow.t;
  contact_phones : gmap (Z * Z) (str * str); (** (contact_id, seq) to (label, number) *)
  contact_categories : gmap Z CategoryRow.t;
  contact_categories_seq : Z;
  contact_category_members : gset (Z * Z); (** contact_id, category_id *)
  structured_data : gmap (Z * Z) StructuredRow.t; (** msg_id, seq *)
  msgs_seq : Z; (** last id given out by AUTOINCREMENT *)
  smtp : list SmtpRow.t; (** the queue of outgoing mail, oldest first *)
  smtp_seq : Z;
  smtp_mdns : list MdnRow.t; (** the queue of read receipts *)
  imap_seq : Z;
  imap_sync : gmap (Z * str) ImapSyncRow.t; (** (transport_id, folder) to how far it was read *)
  imap_markseen : gset Z; (** ids of [imap] *)
  download : gmap str Z; (** rfc724_mid to msg_id *)
  available_post_msgs : gset str; (** rfc724_mid *)
}.

Definition eta_Ctx (c : Ctx) : Ctx := MkCtx
  (clock c) (env c) (config c) (transports c) (multi_device_sync c) (msgs c)
  (contacts c) (contacts_seq c) (chats c) (chats_contacts c) (labels c)
  (labels_seq c) (msg_labels c) (pending_msg_labels c) (held_msgs c)
  (trashed_msgs c) (blocklist c) (blocklist_seq c) (threads c)
  (threads_seq c) (msg_threads c) (thread_refs c) (contact_policy c)
  (server_retention c) (imap_tbl c) (msg_undelivered c) (msg_recipients c)
  (raw_mime c) (msg_importance c) (msg_send_options c) (public_keys c)
  (chats_seq c) (self_key c) (contact_details c) (contact_phones c)
  (contact_categories c) (contact_categories_seq c)
  (contact_category_members c) (structured_data c) (msgs_seq c) (smtp c)
  (smtp_seq c) (smtp_mdns c) (imap_seq c) (imap_sync c) (imap_markseen c)
  (download c) (available_post_msgs c).

(** [set_f g c] updates one table of [c]; the body is the eta expansion of the
    record, abstracted over the projection. *)
Ltac mk_setter proj :=
  let e := eval cbv delta [eta_Ctx] in eta_Ctx in
  match eval pattern proj in e with
  | ?g _ => exact (λ f c, g (λ c', f (proj c')) c)
  end.

Definition set_clock : (Z → Z) → Ctx → Ctx :=
  Eval cbv beta in ltac:(mk_setter clock).
Definition set_env : (gmap str str → gmap str str) → Ctx → Ctx :=
  Eval cbv beta in ltac:(mk_setter env).
Definition set_config_tbl : (gmap str str → gmap str str) → Ctx → Ctx :=
  Eval cbv beta in ltac:(mk_setter config).
Definition set_transports : (list (str * bool) → list (str * bool)) → Ctx → Ctx :=
  Eval cbv beta in ltac:(mk_setter transports).
Definition set_multi_device_sync : (list (Z * SyncData) → list (Z * SyncData)) → Ctx → Ctx :=
  Eval cbv beta in ltac:(mk_setter multi_device_sync).
Definition set_msgs : (gmap Z Msg.t → gmap Z Msg.t) → Ctx → Ctx :=
  Eval cbv beta in ltac:(mk_setter msgs).
Definition set_contacts : (gmap Z ContactRow.t → gmap Z ContactRow.t) → Ctx → Ctx :=
  Eval cbv beta in ltac:(mk_setter contacts).
Definition set_contacts_seq : (Z → Z) → Ctx → Ctx :=
  Eval cbv beta in ltac:(mk_setter contacts_seq).
Definition set_chats : (gmap Z ChatRow.t → gmap Z ChatRow.t) → Ctx → Ctx :=
  Eval cbv beta in ltac:(mk_setter chats).
Definition set_chats_contacts : (gset (Z * Z) → gset (Z * Z)) → Ctx → Ctx :=
  Eval cbv beta in ltac:(mk_setter chats_contacts).
Definition set_labels : (gmap Z LabelRow.t → gmap Z LabelRow.t) → Ctx → Ctx :=
  Eval cbv beta in ltac:(mk_setter labels).
Definition set_labels_seq : (Z → Z) → Ctx → Ctx :=
  Eval cbv beta in ltac:(mk_setter labels_seq).
Definition set_msg_labels : (gset (Z * Z) → gset (Z * Z)) → Ctx → Ctx :=
  Eval cbv beta in ltac:(mk_setter msg_labels).
Definition set_pending_msg_labels : (gmap (str * Z) (bool * Z) → gmap (str * Z) (bool * Z)) → Ctx → Ctx :=
  Eval cbv beta in ltac:(mk_setter pending_msg_labels).
Definition set_held_msgs : (gmap Z Z → gmap Z Z) → Ctx → Ctx :=
  Eval cbv beta in ltac:(mk_setter held_msgs).
Definition set_trashed_msgs : (gmap Z TrashedRow.t → gmap Z TrashedRow.t) → Ctx → Ctx :=
  Eval cbv beta in ltac:(mk_setter trashed_msgs).
Definition set_blocklist : (gmap Z BlockRow.t → gmap Z BlockRow.t) → Ctx → Ctx :=
  Eval cbv beta in ltac:(mk_setter blocklist).
Definition set_blocklist_seq : (Z → Z) → Ctx → Ctx :=
  Eval cbv beta in ltac:(mk_setter blocklist_seq).
Definition set_threads : (gmap Z ThreadRow.t → gmap Z ThreadRow.t) → Ctx → Ctx :=
  Eval cbv beta in ltac:(mk_setter threads).
Definition set_threads_seq : (Z → Z) → Ctx → Ctx :=
  Eval cbv beta in ltac:(mk_setter threads_seq).
Definition set_msg_threads : (gmap Z Z → gmap Z Z) → Ctx → Ctx :=
  Eval cbv beta in ltac:(mk_setter msg_threads).
Definition set_thread_refs : (gmap str Z → gmap str Z) → Ctx → Ctx :=
  Eval cbv beta in ltac:(mk_setter thread_refs).
Definition set_contact_policy : (gmap Z PolicyRow.t → gmap Z PolicyRow.t) → Ctx → Ctx :=
  Eval cbv beta in ltac:(mk_setter contact_policy).
Definition set_server_retention : (gmap str Z → gmap str Z) → Ctx → Ctx :=
  Eval cbv beta in ltac:(mk_setter server_retention).
Definition set_imap : (gmap Z ImapRow.t → gmap Z ImapRow.t) → Ctx → Ctx :=
  Eval cbv beta in ltac:(mk_setter imap_tbl).
Definition set_msg_undelivered : (gset (Z * str) → gset (Z * str)) → Ctx → Ctx :=
  Eval cbv beta in ltac:(mk_setter msg_undelivered).
Definition set_msg_recipients : (gmap (Z * Z * str) (str * Z) → gmap (Z * Z * str) (str * Z)) → Ctx → Ctx :=
  Eval cbv beta in ltac:(mk_setter msg_recipients).
Definition set_raw_mime : (gmap Z RawMimeRow.t → gmap Z RawMimeRow.t) → Ctx → Ctx :=
  Eval cbv beta in ltac:(mk_setter raw_mime).
Definition set_msg_importance : (gmap Z Z → gmap Z Z) → Ctx → Ctx :=
  Eval cbv beta in ltac:(mk_setter msg_importance).
Definition set_msg_send_options : (gmap Z SendOptionsRow.t → gmap Z SendOptionsRow.t) → Ctx → Ctx :=
  Eval cbv beta in ltac:(mk_setter msg_send_options).
Definition set_public_keys : (gset str → gset str) → Ctx → Ctx :=
  Eval cbv beta in ltac:(mk_setter public_keys).
Definition set_chats_seq : (Z → Z) → Ctx → Ctx :=
  Eval cbv beta in ltac:(mk_setter chats_seq).
Definition set_self_key : (option str → option str) → Ctx → Ctx :=
  Eval cbv beta in ltac:(mk_setter self_key).
Definition set_contact_details : (gmap Z DetailsRow.t → gmap Z DetailsRow.t) → Ctx → Ctx :=
  Eval cbv beta in ltac:(mk_setter contact_details).
Definition set_contact_phones : (gmap (Z * Z) (str * str) → gmap (Z * Z) (str * str)) → Ctx → Ctx :=
  Eval cbv beta in ltac:(mk_setter contact_phones).
Definition set_contact_categories : (gmap Z CategoryRow.t → gmap Z CategoryRow.t) → Ctx → Ctx :=
  Eval cbv beta in ltac:(mk_setter contact_categories).
Definition set_contact_categories_seq : (Z → Z) → Ctx → Ctx :=
  Eval cbv beta in ltac:(mk_setter contact_categories_seq).
Definition set_contact_category_members : (gset (Z * Z) → gset (Z * Z)) → Ctx → Ctx :=
  Eval cbv beta in ltac:(mk_setter contact_category_members).
Definition set_structured_data : (gmap (Z * Z) StructuredRow.t → gmap (Z * Z) StructuredRow.t) → Ctx → Ctx :=
  Eval cbv beta in ltac:(mk_setter structured_data).
Definition set_msgs_seq : (Z → Z) → Ctx → Ctx :=
  Eval cbv beta in ltac:(mk_setter msgs_seq).
Definition set_smtp : (list SmtpRow.t → list SmtpRow.t) → Ctx → Ctx :=
  Eval cbv beta in ltac:(mk_setter smtp).
Definition set_smtp_seq : (Z → Z) → Ctx → Ctx :=
  Eval cbv beta in ltac:(mk_setter smtp_seq).
Definition set_smtp_mdns : (list MdnRow.t → list MdnRow.t) → Ctx → Ctx :=
  Eval cbv beta in ltac:(mk_setter smtp_mdns).
Definition set_imap_seq : (Z → Z) → Ctx → Ctx :=
  Eval cbv beta in ltac:(mk_setter imap_seq).
Definition set_imap_sync : (gmap (Z * str) ImapSyncRow.t → gmap (Z * str) ImapSyncRow.t) → Ctx → Ctx :=
  Eval cbv beta in ltac:(mk_setter imap_sync).
Definition set_imap_markseen : (gset Z → gset Z) → Ctx → Ctx :=
  Eval cbv beta in ltac:(mk_setter imap_markseen).
Definition set_download : (gmap str Z → gmap str Z) → Ctx → Ctx :=
  Eval cbv beta in ltac:(mk_setter download).
Definition set_available_post_msgs : (gset str → gset str) → Ctx → Ctx :=
  Eval cbv beta in ltac:(mk_setter available_post_msgs).

(** ** Configuration *)

Definition env_key (keyname : str) : str :=
  lit "DELTACHAT_" ++ (ascii_upper <$> keyname).

Definition get_raw_config (c : Ctx) (keyname : str) : option str :=
  config c !! keyname.

Definition set_raw_config (keyname : str) (value : option str) : Ctx → Ctx :=
  set_config_tbl (match value with
              | Some v => <[keyname := v]>
              | None => delete keyname
              end).

(** The environment wins over the table. *)
Definition get_config_key (c : Ctx) (keyname : str) : option str :=
  match env c !! env_key keyname with
  | Some v => Some v
  | None => get_raw_config c keyname
  end.

Definition get_config_opt (c : Ctx) (key : Config.t) : option str :=
  get_config_key c (Config.as_ref key).

Definition get_config (c : Ctx) (key : Config.t) : option str :=
  match get_config_opt c key with
  | Some v => Some v
  | None => Config.default key
  end.

(** [get_config_parsed::<i32>().unwrap_or_default()]: a value that does not
    parse as an [i32] reads as 0. *)
Definition get_config_int (c : Ctx) (key : Config.t) : Z :=
  default 0%Z (get_config c key ≫= parse_i32).

Definition get_config_bool (c : Ctx) (key : Config.t) : bool :=
  match get_config c key ≫= parse_i32 with
  | Some x => negb (x =? 0)%Z
  | None => false
  end.

Definition get_config_bool_opt (c : Ctx) (key : Config.t) : option bool :=
  (λ x, negb (x =? 0)%Z) <$> (get_config_opt c key ≫= parse_i32).

Lemma get_config_int_bounds c key : in_i32 (get_config_int c key).
Proof.
  unfold get_config_int. destruct (get_config c key) as [v|]; simpl; [|by vm_compute].
  unfold parse_i32, parse_signed. destruct (match v with [] => _ | _ :: _ => _ end) as [z|];
    simpl; [|by vm_compute].
  destruct ((i32_min <=? z)%Z && (z <=? i32_max)%Z) eqn:E; simpl; [|by vm_compute].
  apply andb_prop in E as [E1%Z.leb_le E2%Z.leb_le]. by split.
Qed.

Definition is_configured (c : Ctx) : bool :=
  match transports c with [] => false | _ :: _ => true end.

Definition should_send_sync_msgs (c : Ctx) : bool :=
  get_config_bool c Config.SyncMsgs && get_config_bool c Config.BccSelf
  && negb (get_config_bool c Config.Bot).

(** [add_sync_item]: queued only when device synchronization is on. *)
Definition push_sync_item (data : SyncData) (c : Ctx) : Ctx :=
  if should_send_sync_msgs c
  then set_multi_device_sync (λ q, q ++ [(clock c, data)]) c
  else c.

Definition add_sync_item (data : SyncData) : cmd Ctx unit :=
  modify (push_sync_item data).

Definition check_config (key : Config.t) (value : option str) : bool :=
  match key with
  | Config.BccSelf | Config.MdnsEnabled | Config.Bot | Config.SyncMsgs =>
      match value with
      | None => true
      | Some v => bool_decide (v = lit "0") || bool_decide (v = lit "1")
      end
  | _ => true
  end.

Definition set_config_ext (sync : Sync.t) (key : Config.t) (value : option str)
    : cmd Ctx unit :=
  ensure (check_config key value) "Boolean value must be either 0 or 1" ;;
  c ← gets id;
  let sync := bool_decide (sync = Sync.Sync) && Config.is_synced key && is_configured c in
  modify (set_raw_config (Config.as_ref key) value) ;;
  match sync, value with
  | true, Some val => add_sync_item (SyncConfig key val)
  | _, _ => mret tt
  end.

Definition set_config (key : Config.t) (value : option str) : cmd Ctx unit :=
  ensure (check_config key value) "Boolean value must be either 0 or 1" ;;
  set_config_ext Sync.Sync key value.

Definition from_bool (b : bool) : option str :=
  Some (if b then lit "1" else lit "0").

Definition set_config_bool (key : Config.t) (value : bool) : cmd Ctx unit :=
  set_config key (from_bool value).

(** Only the configuration table and the sync queue change. *)
Lemma set_config_run key v c :
  check_config key (Some v) = true →
  ∃ q, set_config key (Some v) c
       = (set_multi_device_sync (λ _, q) (set_raw_config (Config.as_ref key) (Some v) c), Ok tt).
Proof.
  intros Hck. set (d := set_raw_config (Config.as_ref key) (Some v) c).
  assert (d = set_multi_device_sync (λ _, multi_device_sync d) d) as Hid by done.
  assert (set_config key (Some v) c
    = (if Config.is_synced key && is_configured c then add_sync_item (SyncConfig key v) d
       else (d, Ok tt))) as ->.
  { unfold set_config, set_config_ext. rewrite Hck. cbn [ensure].
    rewrite !run_bind_ret, run_bind_gets, run_bind_modify. cbn zeta. fold d.
    rewrite bool_decide_true by done. cbn [andb]. unfold id.
    by destruct (Config.is_synced key && is_configured c). }
  destruct (Config.is_synced key && is_configured c); [|eexists; by rewrite <-Hid].
  unfold add_sync_item. rewrite run_modify. unfold push_sync_item.
  destruct (should_send_sync_msgs d); [by eexists|]. eexists. by rewrite <-Hid.
Qed.

#[global] Instance Config_as_ref_inj : Inj (=) (=) Config.as_ref.
Proof. intros k1 k2. destruct k1; destruct k2; (reflexivity || (vm_compute; intros ?; discriminate)). Qed.

(** What was set is what is read, unless the environment overrides the key. *)
Lemma get_config_after_set key key' v q c :
  get_config (set_multi_device_sync (λ _, q) (set_raw_config (Config.as_ref key) (Some v) c)) key'
  = if decide (key = key') then
      match env c !! env_key (Config.as_ref key) with Some e => Some e | None => Some v end
    else get_config c key'.
Proof.
  unfold get_config, get_config_opt, get_config_key, get_raw_config.
  change (env (set_multi_device_sync _ _)) with (env c).
  change (config (set_multi_device_sync _ _)) with (<[Config.as_ref key := v]> (config c)).
  case_decide as Hk.
  - subst key'. rewrite lookup_insert_eq. by destruct (env c !! _).
  - rewrite lookup_insert_ne; [done|]. intros E. by apply (inj Config.as_ref) in E.
Qed.

(** ** Ordering of query results

    [ORDER BY] with a complete key; a query without one returns its rows in
    the order of the table's enumeration, which no theorem depends on. *)
Definition sort_by {A} (le : A → A → bool) (l : list A) : list A :=
  merge_sort (λ a b, le a b) l.

Lemma elem_of_sort_by {A} (le : A → A → bool) (l : list A) x : x ∈ sort_by le l ↔ x ∈ l.
Proof. unfold sort_by. by rewrite merge_sort_Permutation. Qed.

(** Sorting by an integer key. *)
Section sort_key.
Context {A : Type} (f : A → Z).

Definition key_le (a b : A) : Prop := Is_true (f a <=? f b)%Z.

Lemma key_le_iff a b : key_le a b ↔ (f a ≤ f b)%Z.
Proof. unfold key_le. by rewrite Is_true_true, Z.leb_le. Qed.

#[local] Instance key_le_trans : Transitive key_le.
Proof. intros x y z. rewrite !key_le_iff. lia. Qed.

#[local] Instance key_le_total : Total key_le.
Proof. intros x y. rewrite !key_le_iff. lia. Qed.

Lemma sort_by_key_sorted l : StronglySorted key_le (sort_by (λ a b, (f a <=? f b)%Z) l).
Proof. by apply (StronglySorted_merge_sort key_le); apply _. Qed.

(** Two sorted arrangements of rows with different keys are the same. *)
Lemma key_sorted_unique l n :
  l ≡ₚ n → NoDup (f <$> l) → StronglySorted key_le l → StronglySorted key_le n → l = n.
Proof.
  intros Hl Hnd Hsl Hsn. apply (StronglySorted_unique_strong key_le); [|done..]. intros x y Hx Hy Hxy Hyx.
  rewrite key_le_iff in Hxy, Hyx. rewrite <-Hl in Hy. clear - Hnd Hx Hy Hxy Hyx.
  induction l as [|z l IH]; [by apply not_elem_of_nil in Hx|].
  rewrite fmap_cons in Hnd. apply NoDup_cons in Hnd as [Hz Hnd].
  assert (∀ w, w ∈ l → f w ≠ f z) as Hne
    by (intros w Hw E; apply Hz; rewrite <-E; by apply list_elem_of_fmap_2).
  apply elem_of_cons in Hx as [->|Hx], Hy as [->|Hy]; auto.
  - destruct (Hne y Hy). lia.
  - destruct (Hne x Hx). lia.
Qed.

(** Sorting finds the one strictly increasing order. *)
Lemma sort_by_key l n :
  l ≡ₚ n → StronglySorted (λ a b, (f a < f b)%Z) n →
  sort_by (λ a b, (f a <=? f b)%Z) l = n.
Proof.
  intros Hl Hn. symmetry. apply key_sorted_unique.
  - unfold sort_by. by rewrite merge_sort_Permutation, Hl.
  - clear Hl. induction Hn as [|x n _ IH Hx]; [constructor|]. rewrite fmap_cons. constructor; [|done].
    rewrite list_elem_of_fmap. intros (y & E & Hy). rewrite Forall_forall in Hx.
    specialize (Hx y Hy). cbn in Hx. lia.
  - rewrite <-(list_fmap_id n). eapply StronglySorted_fmap; [|exact Hn].
    intros a b Hab. apply key_le_iff, Z.lt_le_incl, Hab.
  - apply sort_by_key_sorted.
Qed.

(** The order in which the rows are enumerated does not matter. *)
Lemma sort_by_perm l n :
  l ≡ₚ n → NoDup (f <$> l) →
  sort_by (λ a b, (f a <=? f b)%Z) l = sort_by (λ a b, (f a <=? f b)%Z) n.
Proof.
  intros Hl Hnd. apply key_sorted_unique; [| |apply sort_by_key_sorted..].
  - unfold sort_by. by rewrite !merge_sort_Permutation.
  - unfold sort_by. by rewrite merge_sort_Permutation.
Qed.
End sort_key.

(** *** Rows numbered within an owner: the primary key is the owner's id and a
    sequence number. *)
Definition numbered {V} (key : Z) (start : nat) (l : list V) : list ((Z * Z) * V) :=
  imap (λ i v, ((key, Z.of_nat (start + i)), v)) l.

Lemma numbered_cons {V} key start (v : V) l :
  numbered key start (v :: l) = ((key, Z.of_nat start), v) :: numbered key (S start) l.
Proof.
  unfold numbered. rewrite imap_cons, Nat.add_0_r. f_equal. apply imap_ext. intros i x _.
  unfold compose. do 2 f_equal. lia.
Qed.

Lemma elem_of_numbered {V} key start (l : list V) x :
  x ∈ numbered key start l → x.1.1 = key ∧ (Z.of_nat start ≤ x.1.2)%Z.
Proof.
  revert start. induction l as [|v l IH]; intros start; [by intros ?%not_elem_of_nil|].
  rewrite numbered_cons. intros [->|Hx]%elem_of_cons; [by split|]. apply IH in Hx as [-> ?].
  split; [done|lia].
Qed.

Lemma numbered_sorted {V} key start (l : list V) :
  StronglySorted (λ a b : (Z * Z) * V, (a.1.2 < b.1.2)%Z) (numbered key start l).
Proof.
  revert start. induction l as [|v l IH]; intros start; [constructor|]. rewrite numbered_cons.
  constructor; [done|]. apply Forall_forall. intros x [_ ?]%elem_of_numbered. cbn. lia.
Qed.

Lemma numbered_NoDup {V} key start (l : list V) : NoDup (numbered key start l).*1.
Proof.
  revert start. induction l as [|v l IH]; intros start; [constructor|]. rewrite numbered_cons.
  rewrite fmap_cons. constructor; [|done]. cbn [fst]. rewrite list_elem_of_fmap.
  intros (x & E & [_ Hx]%elem_of_numbered). rewrite <-E in Hx. cbn in Hx. lia.
Qed.

Lemma numbered_snd {V} key start (l : list V) : (numbered key start l).*2 = l.
Proof.
  revert start. induction l as [|v l IH]; intros start; [done|]. rewrite numbered_cons, fmap_cons.
  by rewrite IH.
Qed.

(** The rows of one owner, by sequence number. *)
Definition rows_of {V} (key : Z) (t : gmap (Z * Z) V) : list ((Z * Z) * V) :=
  sort_by (λ a b, (a.1.2 <=? b.1.2)%Z) (filter (λ r, r.1.1 = key) (map_to_list t)).

(** Numbered rows added to a table that had none of the owner are read back in
    their order. *)
Lemma read_numbered {V} (key : Z) (l : list V) (t : gmap (Z * Z) V) :
  (∀ x, is_Some (t !! x) → x.1 ≠ key) →
  rows_of key ((list_to_map (numbered key 0 l) : gmap (Z * Z) V) ∪ t) = numbered key 0 l.
Proof.
  intros Ht. unfold rows_of. apply (sort_by_key (λ r : (Z * Z) * V, r.1.2)); [|apply numbered_sorted].
  apply NoDup_Permutation.
  { apply NoDup_filter, NoDup_map_to_list. }
  { eapply NoDup_fmap_1, (numbered_NoDup key 0). }
  intros [k v]. rewrite list_elem_of_filter, elem_of_map_to_list. cbn [fst].
  rewrite lookup_union_Some_raw. split.
  - intros [Hk [Hl|[_ Hl]]]; [by apply elem_of_list_to_map_2|]. destruct (Ht k); eauto.
  - intros Hin. destruct (elem_of_numbered _ _ _ _ Hin) as [Hk _]. split; [done|]. left.
    apply elem_of_list_to_map_1; [apply numbered_NoDup|done].
Qed.

(** They are determined by the entries of that owner. *)
Lemma rows_of_ext {V} (key : Z) (t t' : gmap (Z * Z) V) :
  (∀ i, t !! (key, i) = t' !! (key, i)) → rows_of key t = rows_of key t'.
Proof.
  intros Ht. apply (sort_by_perm (λ r : (Z * Z) * V, r.1.2)).
  - apply NoDup_Permutation; [apply NoDup_filter, NoDup_map_to_list..|].
    intros [[k i] v]. rewrite !list_elem_of_filter, !elem_of_map_to_list. cbn [fst].
    split; (intros [-> Hl]; split; [done|]); congruence.
  - assert (NoDup (fst <$> filter (λ r : (Z * Z) * V, r.1.1 = key) (map_to_list t))) as Hnd.
    { apply NoDup_fmap_fst; [|apply NoDup_filter, NoDup_map_to_list].
      intros x y1 y2 [_ H1]%list_elem_of_filter [_ H2]%list_elem_of_filter.
      apply elem_of_map_to_list in H1, H2. congruence. }
    change (λ r : (Z * Z) * V, r.1.2) with (snd ∘ fst : (Z * Z) * V → Z).
    rewrite list_fmap_compose. apply NoDup_fmap_2_strong; [|done].
    intros [k1 i1] [k2 i2] [[[? ?] ?] [E1 [Hk1 _]%list_elem_of_filter]]%list_elem_of_fmap
      [[[? ?] ?] [E2 [Hk2 _]%list_elem_of_filter]]%list_elem_of_fmap E. cbn in *. congruence.
Qed.

Lemma elem_of_rows_of {V} (key : Z) (t : gmap (Z * Z) V) x :
  x ∈ rows_of key t ↔ x.1.1 = key ∧ t !! x.1 = Some x.2.
Proof.
  unfold rows_of. rewrite elem_of_sort_by, list_elem_of_filter. destruct x. by rewrite elem_of_map_to_list.
Qed.

(** SQLite orders NULL before every integer. *)
Definition null_first (o : option Z) : Z * Z :=
  match o with None => (0, 0) | Some z => (1, z) end%Z.

Definition lex_leb (a b : Z * Z) : bool :=
  ((a.1 <? b.1) || ((a.1 =? b.1) && (a.2 <=? b.2)))%Z.

(** [ORDER BY m.timestamp, m.id] on pairs of an id and its row. *)
Definition msg_time_leb (a b : Z * Msg.t) : bool :=
  let ta := null_first (Msg.timestamp a.2) in
  let tb := null_first (Msg.timestamp b.2) in
  if decide (ta = tb) then (a.1 <=? b.1)%Z else lex_leb ta tb.

(** ** Messages *)

(** Rows of [msgs] that are not tombstones: [chat_id != DC_CHAT_ID_TRASH]. *)
Definition is_live (m : Msg.t) : bool := negb (Msg.chat_id m =? DC_CHAT_ID_TRASH)%Z.

Definition live_msg (c : Ctx) (id : Z) : bool :=
  match msgs c !! id with Some m => is_live m | None => false end.

(** [MsgId::trash]: the row is replaced by a tombstone that keeps the
    Message-ID and the timestamp; every column [INSERT OR REPLACE] does not
    name takes the default of the schema. *)
Definition tombstone (on_server : bool) (m : Msg.t) : Msg.t := {|
  Msg.rfc724_mid := Msg.rfc724_mid m;
  Msg.pre_rfc724_mid := Msg.pre_rfc724_mid m;
  Msg.mime_in_reply_to := None;
  Msg.mime_references := None;
  Msg.subject := Some [];
  Msg.txt := [];
  Msg.txt_normalized := None;
  Msg.timestamp := Msg.timestamp m;
  Msg.timestamp_sent := 0;
  Msg.timestamp_rcvd := 0;
  Msg.chat_id := DC_CHAT_ID_TRASH;
  Msg.from_id := 0;
  Msg.to_id := 0;
  Msg.state := 0;
  Msg.hidden := false;
  Msg.param := [];
  Msg.ephemeral_timer := 0;
  Msg.ephemeral_timestamp := 0;
  Msg.deleted := on_server;
  Msg.typ := 0;
  Msg.download_state := 0;
|}.

Definition trash_msg (on_server : bool) (id : Z) : Ctx → Ctx :=
  set_msgs (alter (tombstone on_server) id).

Definition with_ephemeral_timestamp (t : Z) (m : Msg.t) : Msg.t := {|
  Msg.rfc724_mid := Msg.rfc724_mid m;
  Msg.pre_rfc724_mid := Msg.pre_rfc724_mid m;
  Msg.mime_in_reply_to := Msg.mime_in_reply_to m;
  Msg.mime_references := Msg.mime_references m;
  Msg.subject := Msg.subject m;
  Msg.txt := Msg.txt m;
  Msg.txt_normalized := Msg.txt_normalized m;
  Msg.timestamp := Msg.timestamp m;
  Msg.timestamp_sent := Msg.timestamp_sent m;
  Msg.timestamp_rcvd := Msg.timestamp_rcvd m;
  Msg.chat_id := Msg.chat_id m;
  Msg.from_id := Msg.from_id m;
  Msg.to_id := Msg.to_id m;
  Msg.state := Msg.state m;
  Msg.hidden := Msg.hidden m;
  Msg.param := Msg.param m;
  Msg.ephemeral_timer := Msg.ephemeral_timer m;
  Msg.ephemeral_timestamp := t;
  Msg.deleted := Msg.deleted m;
  Msg.typ := Msg.typ m;
  Msg.download_state := Msg.download_state m;
|}.

Definition with_state (st : Z) (m : Msg.t) : Msg.t := {|
  Msg.rfc724_mid := Msg.rfc724_mid m;
  Msg.pre_rfc724_mid := Msg.pre_rfc724_mid m;
  Msg.mime_in_reply_to := Msg.mime_in_reply_to m;
  Msg.mime_references := Msg.mime_references m;
  Msg.subject := Msg.subject m;
  Msg.txt := Msg.txt m;
  Msg.txt_normalized := Msg.txt_normalized m;
  Msg.timestamp := Msg.timestamp m;
  Msg.timestamp_sent := Msg.timestamp_sent m;
  Msg.timestamp_rcvd := Msg.timestamp_rcvd m;
  Msg.chat_id := Msg.chat_id m;
  Msg.from_id := Msg.from_id m;
  Msg.to_id := Msg.to_id m;
  Msg.state := st;
  Msg.hidden := Msg.hidden m;
  Msg.param := Msg.param m;
  Msg.ephemeral_timer := Msg.ephemeral_timer m;
  Msg.ephemeral_timestamp := Msg.ephemeral_timestamp m;
  Msg.deleted := Msg.deleted m;
  Msg.typ := Msg.typ m;
  Msg.download_state := Msg.download_state m;
|}.

(** A query that keeps one row where several qualify, none of its [ORDER BY]
    and [LIMIT] saying which: the engine may choose any. *)
Class SqlChoice := {
  pick : ∀ {A : Type}, list A → option A;
  pick_in {A} (l : list A) x : pick l = Some x → x ∈ l;
  pick_None {A} (l : list A) : pick l = None → l = [];
}.

Definition first_choice : SqlChoice.
Proof.
  refine {| pick A l := head l |}.
  - intros A [|y l] x; [done|]. intros [= <-]. left.
  - by intros A [|y l].
Defined.

Section lookup_by_mid.
Context `{!SqlChoice}.

Definition mid_matches (mid : str) (m : Msg.t) : bool :=
  bool_decide (Msg.rfc724_mid m = Some mid)
  || bool_decide (Msg.pre_rfc724_mid m = Some mid).

(** [rfc724_mid_exists]: brackets are stripped and the empty id names
    nothing.  [SELECT id, .., MIN(1) .. HAVING COUNT( * ) > 0] yields one row
    whose bare [id] column is that of any row with this Message-ID. *)
Definition rfc724_mid_exists (c : Ctx) (rfc724_mid : str) : option Z :=
  let mid := trim_end_matches 62 (trim_start_matches 60 rfc724_mid) in
  if is_empty mid then None
  else fst <$> pick (filter (λ r, mid_matches mid r.2) (map_to_list (msgs c))).
End lookup_by_mid.

(** ** Contacts *)

(** [Contact], the fields the email layer reads. *)
Module Contact.
Record t := mk {
  id : Z;
  addr : str;
  origin : Origin.t;
  blocked : bool;
  fingerprint : option str;
}.
End Contact.

(** [Contact::get_by_id]; [None] is its error: no such row, or an origin that
    is not in the enumeration.  The address of SELF and of the device contact
    is not the row's. *)
Definition get_contact (c : Ctx) (id : Z) : option Contact.t :=
  row ← contacts c !! id;
  origin ← Origin.from_i64 (ContactRow.origin row);
  Some {|
    Contact.id := id;
    Contact.addr :=
      if decide (id = ContactId.SELF) then default [] (get_config_key c (lit "configured_addr"))
      else if decide (id = ContactId.DEVICE) then ContactId.DEVICE_ADDR
      else ContactRow.addr row;
    Contact.origin := origin;
    Contact.blocked := ContactRow.blocked row;
    Contact.fingerprint :=
      if is_empty (ContactRow.fingerprint row) then None
      else Some (ContactRow.fingerprint row);
  |}.

(** [Contact::is_verified]: for another contact than SELF, a verifier is
    recorded.  The error of a missing row is [None]. *)
Definition is_verified (c : Ctx) (id : Z) : option bool :=
  if decide (id = ContactId.SELF) then Some true
  else (λ r, negb (ContactRow.verifier r =? 0)%Z) <$> contacts c !! id.

(** Rows of [contacts] as a query enumerates them. *)
Definition contact_rows (c : Ctx) : list (Z * ContactRow.t) :=
  map_to_list (contacts c).

(** A fresh account: every table empty. *)
Definition empty_ctx : Ctx :=
  MkCtx 0 ∅ ∅ [] [] ∅ ∅ ContactId.LAST_SPECIAL ∅ ∅ ∅ 0 ∅ ∅ ∅ ∅ ∅ 0 ∅ 0 ∅ ∅ ∅ ∅ ∅ ∅ ∅ ∅ ∅ ∅ ∅
    DC_CHAT_ID_LAST_SPECIAL None ∅ ∅ ∅ 0 ∅ ∅ 9 [] 0 [] 0 ∅ ∅ ∅ ∅.

(** A received message, for concrete instances. *)
Definition incoming (mid : str) (chat from ts : Z) : Msg.t :=
  Msg.mk (Some mid) None None None None [] None (Some ts) ts ts chat from ContactId.SELF
    (MessageState.to_i64 MessageState.InFresh) false [] 0 0 false 10 0.
