(* ===== verification/Labels.v ===== *)
(** * Labels, tags and archive: [core/src/email/labels.rs].

    The tables [labels], [msg_labels] and [pending_msg_labels], the operations
    of the user, and the replay of changes synced from another device. *)

From S2P Require Import Prelude Text Store.

Definition ARCHIVE : str := lit "Archive".
Definition TRASH : str := lit "Trash".
Definition UNVERIFIED : str := lit "Unverified".
Definition RESERVED : list str := [ARCHIVE; TRASH; UNVERIFIED].

Definition PENDING_TTL : Z := 90 * 86400.

(** [Label], a label as the user sees it. *)
Module Label.
Record t := mk { id : Z; name : str; color : option Z; is_system : bool }.
End Label.

(** [c.and_then(|c| u32::try_from(c).ok())] *)
Definition u32_try_from (z : Z) : option Z :=
  if ((0 <=? z) && (z <=? u32_max))%Z then Some z else None.

Definition row_to_label (r : Z * LabelRow.t) : Label.t := {|
  Label.id := r.1;
  Label.name := LabelRow.name r.2;
  Label.color := LabelRow.color r.2 ≫= u32_try_from;
  Label.is_system := LabelRow.system r.2;
|}.

(** The order of TEXT under SQLite's BINARY collation. *)
Fixpoint str_leb (a b : str) : bool :=
  match a, b with
  | [], _ => true
  | _ :: _, [] => false
  | x :: a, y :: b => if (x =? y)%N then str_leb a b else (x <? y)%N
  end.

(** [ORDER BY system DESC, name_norm] *)
Definition label_leb (a b : Z * LabelRow.t) : bool :=
  match LabelRow.system a.2, LabelRow.system b.2 with
  | true, false => true
  | false, true => false
  | _, _ => str_leb (LabelRow.name_norm a.2) (LabelRow.name_norm b.2)
  end.

(** [ORDER BY m.timestamp DESC, m.id DESC] *)
Definition msg_time_geb (a b : Z * Msg.t) : bool := msg_time_leb b a.

(** Run [m] only for [Sync::Sync]. *)
Definition when_sync (sync : Sync.t) (m : cmd Ctx unit) : cmd Ctx unit :=
  match sync with Sync.Sync => m | Sync.Nosync => mret tt end.

Section labels.
Context `{!UnicodeCase, !SqlChoice}.

Definition normalize (name : str) : str := to_lowercase (trim name).

Definition rows_with_norm (c : Ctx) (norm : str) : list (Z * LabelRow.t) :=
  filter (λ r, LabelRow.name_norm r.2 = norm) (map_to_list (labels c)).

Definition list_labels (c : Ctx) : list Label.t :=
  row_to_label <$> sort_by label_leb (map_to_list (labels c)).

Definition by_name (c : Ctx) (name : str) : option Label.t :=
  row_to_label <$> pick (rows_with_norm c (normalize name)).

Definition reserved (name : str) : cmd Ctx Label.t :=
  l ← gets (λ c, by_name c name);
  or_bail l "reserved label is missing; the database was not migrated".

Definition archive_label : cmd Ctx Label.t := reserved ARCHIVE.

(** [INSERT INTO labels .. ON CONFLICT(name_norm) DO NOTHING] *)
Definition insert_label (row : LabelRow.t) (c : Ctx) : Ctx :=
  match rows_with_norm c (LabelRow.name_norm row) with
  | [] =>
      let id := (labels_seq c + 1)%Z in
      set_labels_seq (λ _, id) (set_labels <[id := row]> c)
  | _ => c
  end.

Definition create_ext (name : str) (color : option Z) (sync : Sync.t)
    : cmd Ctx Label.t :=
  let trimmed := trim name in
  ensure (negb (is_empty trimmed)) "label name cannot be empty" ;;
  let name_norm := normalize trimmed in
  existing ← gets (λ c, by_name c name_norm);
  match existing with
  | Some l => mret l
  | None =>
      now ← gets clock;
      modify (insert_label (LabelRow.mk trimmed name_norm color false now)) ;;
      when_sync sync (add_sync_item (SyncEmailLabel (LCreate trimmed color))) ;;
      l ← gets (λ c, by_name c name_norm);
      or_bail l "label vanished immediately after being created"
  end.

Definition create (name : str) (color : option Z) : cmd Ctx Label.t :=
  create_ext name color Sync.Sync.

Definition load (id : Z) : cmd Ctx Label.t :=
  row ← gets (λ c, labels c !! id);
  or_bail ((λ r, row_to_label (id, r)) <$> row) "no label with this id".

(** [UPDATE labels SET name=.., name_norm=.. WHERE id=..]; the statement
    fails when another row has this [name_norm]. *)
Definition update_label_name (id : Z) (name name_norm : str) : cmd Ctx unit := λ c,
  if decide (Forall (λ r, r.1 = id) (rows_with_norm c name_norm)) then
    (set_labels (alter (λ r, LabelRow.mk name name_norm (LabelRow.color r)
                               (LabelRow.system r) (LabelRow.created r)) id) c, Ok tt)
  else (c, Err "UNIQUE constraint failed: labels.name_norm").

Definition rename_ext (label : Label.t) (new_name : str) (sync : Sync.t)
    : cmd Ctx unit :=
  ensure (negb (Label.is_system label)) "reserved label cannot be renamed" ;;
  let trimmed := trim new_name in
  ensure (negb (is_empty trimmed)) "label name cannot be empty" ;;
  let name_norm := normalize trimmed in
  existing ← gets (λ c, by_name c name_norm);
  ensure (match existing with
          | Some e => bool_decide (Label.id e = Label.id label)
          | None => true
          end) "a label with this name already exists" ;;
  update_label_name (Label.id label) trimmed name_norm ;;
  when_sync sync
    (add_sync_item (SyncEmailLabel (LRename (Label.name label) trimmed))).

Definition rename (id : Z) (new_name : str) : cmd Ctx unit :=
  label ← load id; rename_ext label new_name Sync.Sync.

Definition set_color_ext (label : Label.t) (color : option Z) (sync : Sync.t)
    : cmd Ctx unit :=
  modify (set_labels (alter (λ r, LabelRow.mk (LabelRow.name r) (LabelRow.name_norm r)
                               color (LabelRow.system r) (LabelRow.created r))
                        (Label.id label))) ;;
  when_sync sync
    (add_sync_item (SyncEmailLabel (LSetColor (Label.name label) color))).

Definition set_color (id : Z) (color : option Z) : cmd Ctx unit :=
  label ← load id; set_color_ext label color Sync.Sync.

(** The transaction of [delete_ext]. *)
Definition delete_label (id : Z) (c : Ctx) : Ctx :=
  set_labels (delete id)
    (set_pending_msg_labels (filter (λ kv, kv.1.2 ≠ id))
       (set_msg_labels (filter (λ ml, ml.2 ≠ id)) c)).

Definition delete_ext (label : Label.t) (sync : Sync.t) : cmd Ctx unit :=
  ensure (negb (Label.is_system label)) "reserved label cannot be deleted" ;;
  modify (delete_label (Label.id label)) ;;
  when_sync sync (add_sync_item (SyncEmailLabel (LDelete (Label.name label)))).

Definition delete_ (id : Z) : cmd Ctx unit :=
  label ← load id; delete_ext label Sync.Sync.

(** One statement of [set_ext]'s and [drain_pending]'s transactions. *)
Definition set_msg_label (apply : bool) (msg_id label_id : Z) : Ctx → Ctx :=
  set_msg_labels (λ s, if apply then {[ (msg_id, label_id) ]} ∪ s
                       else s ∖ {[ (msg_id, label_id) ]}).

Definition rfc724_mids (c : Ctx) (ids : list Z) : list str :=
  omap (λ id, m ← msgs c !! id;
              let mid := default [] (Msg.rfc724_mid m) in
              if is_empty mid then None else Some mid) ids.

Definition set_ext (ids : list Z) (label : Label.t) (apply : bool) (sync : Sync.t)
    : cmd Ctx unit :=
  if is_empty ids then mret tt
  else
    for_each ids (λ id, modify (set_msg_label apply id (Label.id label))) ;;
    when_sync sync
      (mids ← gets (λ c, rfc724_mids c ids);
       if is_empty mids then mret tt
       else add_sync_item (SyncEmailLabel
              (if apply then LApply mids (Label.name label)
               else LUnapply mids (Label.name label)))).

Definition apply (ids : list Z) (id : Z) : cmd Ctx unit :=
  label ← load id; set_ext ids label true Sync.Sync.

Definition unapply (ids : list Z) (id : Z) : cmd Ctx unit :=
  label ← load id; set_ext ids label false Sync.Sync.

Definition of_msg (c : Ctx) (msg_id : Z) : list Label.t :=
  row_to_label <$>
    sort_by label_leb (filter (λ r, (msg_id, r.1) ∈ msg_labels c) (map_to_list (labels c))).

(** Live, visible messages carrying the label, newest first. *)
Definition msgs_with (c : Ctx) (id : Z) : list Z :=
  fst <$>
    sort_by msg_time_geb
      (filter (λ r, (r.1, id) ∈ msg_labels c ∧ is_live r.2 = true ∧ Msg.hidden r.2 = false)
         (map_to_list (msgs c))).

Definition archive (ids : list Z) : cmd Ctx unit :=
  label ← archive_label; set_ext ids label true Sync.Sync.

Definition unarchive (ids : list Z) : cmd Ctx unit :=
  label ← archive_label; set_ext ids label false Sync.Sync.

Definition is_archived (c : Ctx) (msg_id : Z) : bool :=
  negb (is_empty (filter (λ r, (msg_id, r.1) ∈ msg_labels c)
                         (rows_with_norm c (normalize ARCHIVE)))).

(** ** Device sync *)

(** [INSERT INTO pending_msg_labels .. ON CONFLICT DO UPDATE .. WHERE
    excluded.timestamp >= pending_msg_labels.timestamp] *)
Definition park (label_id : Z) (apply : bool) (timestamp : Z) (mid : str) : Ctx → Ctx :=
  set_pending_msg_labels (λ t,
    match t !! (mid, label_id) with
    | Some (_, old) =>
        if (old <=? timestamp)%Z then <[(mid, label_id) := (apply, timestamp)]> t else t
    | None => <[(mid, label_id) := (apply, timestamp)]> t
    end).

(** The label a replayed change names; created when this device does not have
    it yet. *)
Definition find_or_create (name : str) (color : option Z) : cmd Ctx Label.t :=
  found ← gets (λ c, by_name c name);
  match found with
  | Some label => mret label
  | None => create_ext name color Sync.Nosync
  end.

Definition sync_set (mids : list str) (label_name : str) (apply : bool) (timestamp : Z)
    : cmd Ctx unit :=
  label ← find_or_create label_name None;
  c ← gets id;
  let resolved := omap (rfc724_mid_exists c) mids in
  let pending := filter (λ mid, rfc724_mid_exists c mid = None) mids in
  set_ext resolved label apply Sync.Nosync ;;
  for_each pending (λ mid, modify (park (Label.id label) apply timestamp mid)).

Definition execute_sync_item (item : LabelSyncItem) (timestamp : Z) : cmd Ctx unit :=
  match item with
  | LCreate name color => create_ext name color Sync.Nosync ;; mret tt
  | LRename from to =>
      found ← gets (λ c, by_name c from);
      match found with
      | Some label => rename_ext label to Sync.Nosync
      | None => create_ext to None Sync.Nosync ;; mret tt
      end
  | LDelete name =>
      found ← gets (λ c, by_name c name);
      match found with
      | Some label => delete_ext label Sync.Nosync
      | None => mret tt
      end
  | LSetColor name color =>
      label ← find_or_create name color;
      set_color_ext label color Sync.Nosync
  | LApply mids label => sync_set mids label true timestamp
  | LUnapply mids label => sync_set mids label false timestamp
  end.

Definition pending_for (c : Ctx) (mid : str) : list (Z * bool) :=
  (λ kv, (kv.1.2, kv.2.1)) <$>
    filter (λ kv, kv.1.1 = mid) (map_to_list (pending_msg_labels c)).

Definition drain_pending (msg_id : Z) : cmd Ctx unit :=
  c ← gets id;
  match msgs c !! msg_id with
  | None => mret tt
  | Some m =>
      let mid := default [] (Msg.rfc724_mid m) in
      if is_empty mid then mret tt
      else
        let pending := pending_for c mid in
        if is_empty pending then mret tt
        else
          for_each pending (λ la, modify (set_msg_label la.2 msg_id la.1)) ;;
          modify (set_pending_msg_labels (filter (λ kv, kv.1.1 ≠ mid)))
  end.

Definition prune : cmd Ctx unit :=
  modify (λ c, set_msg_labels (filter (λ ml, live_msg c ml.1 = true)) c) ;;
  now ← gets clock;
  modify (set_pending_msg_labels
            (filter (λ kv, (sat_sub now PENDING_TTL <= kv.2.2)%Z))).

(** ** The invariant of the label tables *)

(** [wf_labels R]: names are unique up to case and normalized, ids come from the
    sequence, and the labels [R] exist and are the system labels. *)
Record wf_labels (R : list str) (c : Ctx) : Prop := {
  lok_unique i j r s :
    labels c !! i = Some r → labels c !! j = Some s →
    LabelRow.name_norm r = LabelRow.name_norm s → i = j;
  lok_norm i r :
    labels c !! i = Some r → LabelRow.name_norm r = normalize (LabelRow.name r);
  lok_seq i r : labels c !! i = Some r → (i ≤ labels_seq c)%Z;
  lok_reserved n :
    n ∈ R →
    ∃ i r, labels c !! i = Some r ∧ LabelRow.name r = n ∧ LabelRow.system r = true;
  lok_system i r :
    labels c !! i = Some r → LabelRow.system r = true → LabelRow.name r ∈ R;
}.

Definition labels_ok : Ctx → Prop := wf_labels RESERVED.

(** The same as a computation. *)
Definition wf_labelsb (R : list str) (c : Ctx) : bool :=
  let rows := map_to_list (labels c) in
  forallb (λ x, forallb (λ y,
    implb (bool_decide (LabelRow.name_norm x.2 = LabelRow.name_norm y.2))
          (bool_decide (x.1 = y.1))) rows) rows
  && forallb (λ x, bool_decide (LabelRow.name_norm x.2 = normalize (LabelRow.name x.2))
                   && (x.1 <=? labels_seq c)%Z) rows
  && forallb (λ n, existsb (λ x, bool_decide (LabelRow.name x.2 = n)
                                 && LabelRow.system x.2) rows) R
  && forallb (λ x, implb (LabelRow.system x.2) (bool_decide (LabelRow.name x.2 ∈ R))) rows.

Lemma wf_labelsb_sound R c : wf_labelsb R c = true → wf_labels R c.
Proof.
  unfold wf_labelsb. rewrite !andb_true_iff, !forallb_forall.
  setoid_rewrite <-list_elem_of_In. intros [[[Hu Hn] Hr] Hsys].
  assert (∀ i r, labels c !! i = Some r → (i, r) ∈ map_to_list (labels c)) as Hin.
  { intros i r. by rewrite elem_of_map_to_list. }
  split.
  - intros i j r s Hi Hj E. specialize (Hu _ (Hin _ _ Hi)). rewrite forallb_forall in Hu.
    specialize (Hu (j, s)). rewrite <-list_elem_of_In in Hu. specialize (Hu (Hin _ _ Hj)).
    simpl in Hu. rewrite bool_decide_true in Hu by done. by apply bool_decide_eq_true in Hu.
  - intros i r Hi. specialize (Hn _ (Hin _ _ Hi)). apply andb_prop in Hn as [Hn _].
    by apply bool_decide_eq_true in Hn.
  - intros i r Hi. specialize (Hn _ (Hin _ _ Hi)). apply andb_prop in Hn as [_ Hn].
    simpl in Hn. lia.
  - intros n Hn'. specialize (Hr n Hn'). apply existsb_exists in Hr as ([i r] & Hi & Hb).
    apply andb_prop in Hb as [Hb ?]. apply bool_decide_eq_true in Hb.
    rewrite <-list_elem_of_In, elem_of_map_to_list in Hi. by exists i, r.
  - intros i r Hi Hs. specialize (Hsys _ (Hin _ _ Hi)). simpl in Hsys. rewrite Hs in Hsys.
    by apply bool_decide_eq_true in Hsys.
Qed.

(** Every reserved label keeps its row, its name and its system mark. *)
Definition sys_kept (c c' : Ctx) : Prop :=
  ∀ i r, labels c !! i = Some r → LabelRow.system r = true →
  ∃ r', labels c' !! i = Some r' ∧ LabelRow.name r' = LabelRow.name r
        ∧ LabelRow.name_norm r' = LabelRow.name_norm r ∧ LabelRow.system r' = true.

#[global] Instance sys_kept_preorder : PreOrder sys_kept.
Proof.
  split.
  - intros c i r Hi Hs. eauto 10.
  - intros c1 c2 c3 H12 H23 i r Hi Hs.
    destruct (H12 i r Hi Hs) as (r2 & Hr2 & Hn2 & Hm2 & Hs2).
    destruct (H23 i r2 Hr2 Hs2) as (r3 & Hr3 & Hn3 & Hm3 & Hs3).
    exists r3. split_and!; congruence.
Qed.

(** A label value that agrees with the table. *)
Definition label_at (c : Ctx) (l : Label.t) : Prop :=
  ∃ r, labels c !! Label.id l = Some r ∧ l = row_to_label (Label.id l, r).

Lemma normalize_trim s : normalize (trim s) = normalize s.
Proof. unfold normalize. by rewrite trim_idemp. Qed.

Lemma normalize_idemp s : normalize (normalize s) = normalize s.
Proof. unfold normalize. by rewrite !lower_trim, lower_idemp, trim_idemp. Qed.

Lemma elem_of_rows_with_norm c norm r :
  r ∈ rows_with_norm c norm ↔ labels c !! r.1 = Some r.2 ∧ LabelRow.name_norm r.2 = norm.
Proof.
  unfold rows_with_norm. rewrite list_elem_of_filter. destruct r as [i r].
  rewrite elem_of_map_to_list. naive_solver.
Qed.

Lemma by_name_Some c name l :
  by_name c name = Some l →
  ∃ r, labels c !! Label.id l = Some r ∧ LabelRow.name_norm r = normalize name
       ∧ l = row_to_label (Label.id l, r).
Proof.
  unfold by_name. destruct (pick _) as [[i r]|] eqn:E; [|done]. intros [= <-].
  apply pick_in, elem_of_rows_with_norm in E as [Hi Hn]. by exists r.
Qed.

Lemma by_name_label_at c name l : by_name c name = Some l → label_at c l.
Proof. intros (r & Hr & _ & Hl)%by_name_Some. by exists r. Qed.

Lemma by_name_None c name i r :
  by_name c name = None → labels c !! i = Some r → LabelRow.name_norm r ≠ normalize name.
Proof.
  unfold by_name. destruct (pick _) as [[? ?]|] eqn:E; [done|]. intros _ Hi Hn.
  apply pick_None in E. assert ((i, r) ∈ rows_with_norm c (normalize name)) as Hin
    by by apply elem_of_rows_with_norm. rewrite E in Hin. by apply not_elem_of_nil in Hin.
Qed.

(** In a table with unique names the lookup is the row, whatever the engine
    picks. *)
Lemma by_name_at c name i r :
  labels_ok c → labels c !! i = Some r → LabelRow.name_norm r = normalize name →
  by_name c name = Some (row_to_label (i, r)).
Proof.
  intros Hok Hi Hn. destruct (by_name c name) as [l|] eqn:E.
  - apply by_name_Some in E as (r' & Hr' & Hn' & ->).
    assert (Label.id l = i) as Heq by (eapply (lok_unique _ c Hok); eauto; congruence).
    rewrite Heq in *. congruence.
  - by destruct (by_name_None _ _ _ _ E Hi).
Qed.

Lemma by_name_normalize c name : by_name c (normalize name) = by_name c name.
Proof. unfold by_name. by rewrite normalize_idemp. Qed.

Lemma rows_with_norm_nil c name :
  by_name c name = None → rows_with_norm c (normalize name) = [].
Proof.
  unfold by_name. destruct (pick _) as [[? ?]|] eqn:E; [done|]. by apply pick_None in E.
Qed.

Lemma elem_of_msgs_with c l id :
  id ∈ msgs_with c l ↔
  ∃ m, msgs c !! id = Some m ∧ (id, l) ∈ msg_labels c ∧ is_live m = true ∧ Msg.hidden m = false.
Proof.
  unfold msgs_with. rewrite list_elem_of_fmap. split.
  - intros ([i m] & -> & Hin). rewrite elem_of_sort_by, list_elem_of_filter in Hin.
    destruct Hin as [Hp Hin]. apply elem_of_map_to_list in Hin. by exists m.
  - intros (m & Hm & Hp). exists (id, m). split; [done|].
    rewrite elem_of_sort_by, list_elem_of_filter. split; [done|]. by apply elem_of_map_to_list.
Qed.

Lemma elem_of_of_msg c id l :
  l ∈ of_msg c id ↔
  ∃ i r, labels c !! i = Some r ∧ (id, i) ∈ msg_labels c ∧ l = row_to_label (i, r).
Proof.
  unfold of_msg. rewrite list_elem_of_fmap. split.
  - intros ([i r] & -> & Hin). rewrite elem_of_sort_by, list_elem_of_filter in Hin.
    destruct Hin as [Hp Hin]. apply elem_of_map_to_list in Hin. by exists i, r.
  - intros (i & r & Hr & Hp & ->). exists (i, r). split; [done|].
    rewrite elem_of_sort_by, list_elem_of_filter. split; [done|]. by apply elem_of_map_to_list.
Qed.

(** *** The statements *)

Lemma labels_ok_ext c c' :
  labels c' = labels c → labels_seq c' = labels_seq c → labels_ok c → labels_ok c'.
Proof.
  intros E1 E2 [Hu Hn Hs Hr Hy]. split; rewrite ?E1, ?E2; assumption.
Qed.

Lemma sys_kept_ext c c' : labels c' = labels c → sys_kept c c'.
Proof. intros E i r Hi Hs. rewrite E. eauto 10. Qed.

Lemma insert_label_ok c row :
  labels_ok c → LabelRow.system row = false → LabelRow.name_norm row = normalize (LabelRow.name row) →
  labels_ok (insert_label row c) ∧ sys_kept c (insert_label row c).
Proof.
  intros Hok Hrs Hnorm. unfold insert_label.
  destruct (rows_with_norm c _) as [|x xs] eqn:E; [|by split].
  assert (∀ i r, labels c !! i = Some r → LabelRow.name_norm r ≠ LabelRow.name_norm row) as Hfresh.
  { intros i r Hi Hn. assert ((i, r) ∈ rows_with_norm c (LabelRow.name_norm row)) as Hin
      by by apply elem_of_rows_with_norm. rewrite E in Hin. by apply not_elem_of_nil in Hin. }
  assert (labels c !! (labels_seq c + 1)%Z = None) as Hnew.
  { apply eq_None_not_Some. intros [r Hr]. apply (lok_seq _ c Hok) in Hr. lia. }
  destruct Hok as [Hu Hn Hs Hr Hy]. split; [split|]; simpl.
  - intros i j r s. rewrite !lookup_insert. repeat case_decide; naive_solver.
  - intros i r. rewrite lookup_insert. case_decide; naive_solver.
  - intros i r. rewrite lookup_insert. case_decide; [lia|]. intros ?%Hs. lia.
  - intros n (i & r & Hi & Hnm & Hsys)%Hr. exists i, r.
    rewrite lookup_insert_ne by congruence. done.
  - intros i r. rewrite lookup_insert. case_decide; [congruence|eauto].
  - intros i r Hi Hsys. exists r. simpl. rewrite lookup_insert_ne by congruence. done.
Qed.

Lemma update_label_name_ok c l name sync_norm :
  labels_ok c → label_at c l → Label.is_system l = false →
  sync_norm = normalize name →
  labels_ok (final (update_label_name (Label.id l) name sync_norm) c)
  ∧ sys_kept c (final (update_label_name (Label.id l) name sync_norm) c).
Proof.
  intros Hok (r0 & Hr0 & Hl) Hns ->. unfold update_label_name, final.
  destruct (decide _) as [Hall|]; [|by split].
  assert (LabelRow.system r0 = false) as Hsys0 by (by rewrite Hl in Hns).
  assert (∀ i r, labels c !! i = Some r → LabelRow.name_norm r = normalize name → i = Label.id l)
    as Honly.
  { intros i r Hi Hn. rewrite Forall_forall in Hall.
    by apply (Hall (i, r)), elem_of_rows_with_norm. }
  destruct Hok as [Hu Hn Hs Hr Hy]. split; [split|]; simpl.
  - intros i j r s. rewrite !lookup_alter. repeat case_decide; subst; rewrite ?Hr0; simpl;
      naive_solver.
  - intros i r. rewrite lookup_alter. case_decide; subst; rewrite ?Hr0; simpl; naive_solver.
  - intros i r. rewrite lookup_alter. case_decide; subst; rewrite ?Hr0; simpl; naive_solver.
  - intros n (i & r & Hi & Hnm & Hsys)%Hr. exists i, r.
    rewrite lookup_alter_ne by congruence. done.
  - intros i r. rewrite lookup_alter. case_decide; [|eauto]. subst. rewrite Hr0. simpl.
    intros [= <-]. simpl. congruence.
  - intros i r Hi Hsys. exists r. simpl. rewrite lookup_alter_ne by congruence. done.
Qed.

Lemma recolor_ok c id color :
  let f r := LabelRow.mk (LabelRow.name r) (LabelRow.name_norm r) color
               (LabelRow.system r) (LabelRow.created r) in
  labels_ok c →
  labels_ok (set_labels (alter f id) c) ∧ sys_kept c (set_labels (alter f id) c).
Proof.
  intros f [Hu Hn Hs Hr Hy].
  assert (∀ i r, alter f id (labels c) !! i = Some r →
    ∃ r', labels c !! i = Some r' ∧ LabelRow.name r' = LabelRow.name r
          ∧ LabelRow.name_norm r' = LabelRow.name_norm r
          ∧ LabelRow.system r' = LabelRow.system r) as Hback.
  { intros i r. rewrite lookup_alter. case_decide; subst; [|naive_solver].
    destruct (labels c !! i) as [r'|]; simpl; naive_solver. }
  assert (∀ i r, labels c !! i = Some r →
    ∃ r', alter f id (labels c) !! i = Some r' ∧ LabelRow.name r' = LabelRow.name r
          ∧ LabelRow.name_norm r' = LabelRow.name_norm r
          ∧ LabelRow.system r' = LabelRow.system r) as Hfwd.
  { intros i r Hi. rewrite lookup_alter. case_decide; subst; rewrite Hi; simpl; eauto 10. }
  split; [split|]; simpl.
  - intros i j r s (r' & ? & ? & ? & ?)%Hback (s' & ? & ? & ? & ?)%Hback ?.
    eapply Hu; eauto. congruence.
  - intros i r (r' & ? & <- & <- & _)%Hback. eauto.
  - intros i r (r' & ? & _)%Hback. eauto.
  - intros n (i & r & (r' & ? & ? & ? & ?)%Hfwd & ? & ?)%Hr. exists i, r'.
    split_and!; congruence.
  - intros i r (r' & ? & <- & _ & <-)%Hback. eauto.
  - intros i r (r' & ? & ? & ? & ?)%Hfwd ?. exists r'. simpl. split_and!; congruence.
Qed.

Lemma delete_label_ok c l :
  labels_ok c → label_at c l → Label.is_system l = false →
  labels_ok (delete_label (Label.id l) c) ∧ sys_kept c (delete_label (Label.id l) c).
Proof.
  intros [Hu Hn Hs Hr Hy] (r0 & Hr0 & Hl) Hns.
  assert (LabelRow.system r0 = false) as Hsys0 by (by rewrite Hl in Hns).
  split; [split|]; simpl.
  - intros i j r s. rewrite !lookup_delete_Some. naive_solver.
  - intros i r. rewrite lookup_delete_Some. naive_solver.
  - intros i r. rewrite lookup_delete_Some. naive_solver.
  - intros n (i & r & Hi & Hnm & Hsys)%Hr. exists i, r.
    rewrite lookup_delete_ne by congruence. done.
  - intros i r. rewrite lookup_delete_Some. naive_solver.
  - intros i r Hi Hsys. exists r. simpl. rewrite lookup_delete_ne by congruence. done.
Qed.

(** What [set_ext] does to [msg_labels]. *)
Definition mark (b : bool) (ids : list Z) (label_id : Z) (s : gset (Z * Z)) : gset (Z * Z) :=
  foldl (λ s id, if b then {[ (id, label_id) ]} ∪ s else s ∖ {[ (id, label_id) ]}) s ids.

Lemma elem_of_mark b ids l s x k :
  (x, k) ∈ mark b ids l s ↔ if decide (x ∈ ids ∧ k = l) then b = true else (x, k) ∈ s.
Proof.
  revert s. induction ids as [|i ids IH]; intros s; unfold mark in *; cbn [foldl].
  - rewrite decide_False by set_solver. done.
  - rewrite IH. clear IH. destruct (decide (x ∈ ids ∧ k = l)) as [Hd|Hd].
    + by rewrite decide_True by set_solver.
    + destruct (decide (x = i ∧ k = l)) as [[-> ->]|Hne].
      * rewrite decide_True by set_solver. destruct b; set_solver.
      * rewrite decide_False by set_solver. destruct b; set_solver.
Qed.

Lemma set_ext_run ids l b sync c :
  ∃ q, set_ext ids l b sync c
       = (set_multi_device_sync (λ _, q) (set_msg_labels (mark b ids (Label.id l)) c), Ok tt)
     ∧ (sync = Sync.Nosync → q = multi_device_sync c).
Proof.
  unfold set_ext. destruct (is_empty ids) eqn:E.
  { exists (multi_device_sync c). destruct ids; [|done]. split; [by destruct c|done]. }
  rewrite run_bind, for_each_modify.
  assert (∀ d, foldl (λ s x, set_msg_label b x (Label.id l) s) d ids
               = set_msg_labels (mark b ids (Label.id l)) d) as Hf.
  { clear E. induction ids as [|i ids IH]; intros d; simpl; [by destruct d|]. rewrite IH. done. }
  rewrite Hf. set (d := set_msg_labels _ c).
  assert (set_multi_device_sync (λ _, multi_device_sync c) d = d) as Hd by by destruct c.
  destruct sync; simpl; [exists (multi_device_sync c); by rewrite Hd|].
  rewrite run_bind_gets. destruct (is_empty (rfc724_mids d ids)).
  { exists (multi_device_sync c). by rewrite Hd. }
  unfold add_sync_item, push_sync_item, modify.
  destruct (should_send_sync_msgs d); [|exists (multi_device_sync c); by rewrite Hd].
  eexists. split; [reflexivity|done].
Qed.

(** The reserved labels are found by name. *)
Lemma reserved_run c n :
  labels_ok c → n ∈ RESERVED →
  ∃ i r, labels c !! i = Some r ∧ LabelRow.name_norm r = normalize n ∧ LabelRow.system r = true
    ∧ reserved n c = (c, Ok (row_to_label (i, r))).
Proof.
  intros Hok Hn. destruct (lok_reserved _ c Hok n Hn) as (i & r & Hr & Hname & Hsys).
  pose proof (lok_norm _ c Hok i r Hr) as Hnorm. rewrite Hname in Hnorm.
  exists i, r. split_and!; [done..|]. unfold reserved. rewrite run_bind_gets.
  by rewrite (by_name_at c n i r).
Qed.

(** *** The operations *)

(** [labels_ok] now, and no reserved label lost since [c0]. *)
Definition kept (c0 c : Ctx) : Prop := labels_ok c ∧ sys_kept c0 c.

Lemma kept_step c0 c c' :
  kept c0 c → (labels_ok c → labels_ok c' ∧ sys_kept c c') → kept c0 c'.
Proof. intros [Hok Hk] Hstep. destruct (Hstep Hok) as [? ?]. split; [done|]. by etrans. Qed.

Lemma kept_ext c0 c c' :
  labels c' = labels c → labels_seq c' = labels_seq c → kept c0 c → kept c0 c'.
Proof.
  intros E1 E2 Hc0. eapply kept_step; [done|]. intros Hok.
  split; [by eapply labels_ok_ext|by apply sys_kept_ext].
Qed.

Lemma label_at_ext c c' l : labels c' = labels c → label_at c l → label_at c' l.
Proof. intros E (r & Hr & Hl). exists r. by rewrite E. Qed.

Lemma push_sync_item_labels d c :
  labels (push_sync_item d c) = labels c ∧ labels_seq (push_sync_item d c) = labels_seq c.
Proof. unfold push_sync_item. by destruct (should_send_sync_msgs c). Qed.

Lemma preserves_when_sync c0 sync d :
  preserves (kept c0) (when_sync sync (add_sync_item d)).
Proof.
  destruct sync; simpl; [apply preserves_ret|]. apply preserves_modify. intros c.
  destruct (push_sync_item_labels d c). by apply kept_ext.
Qed.

Lemma preserves_set_ext c0 ids l b sync : preserves (kept c0) (set_ext ids l b sync).
Proof.
  unfold set_ext. destruct (is_empty ids); [apply preserves_ret|].
  apply preserves_bind.
  - apply preserves_for_each. intros id. apply preserves_modify. intros c. by apply kept_ext.
  - intros _. destruct sync; simpl; [apply preserves_ret|].
    apply preserves_bind; [apply preserves_gets|]. intros mids.
    destruct (is_empty mids); [apply preserves_ret|apply (preserves_when_sync c0 Sync.Sync)].
Qed.

Lemma spec_by_name c0 name :
  spec (kept c0) (gets (λ c, by_name c name))
    (λ o c, kept c0 c ∧ match o with Some l => label_at c l | None => True end) (kept c0).
Proof.
  intros c Hc. simpl. split; [done|].
  destruct (by_name c name) eqn:E; [|done]. by eapply by_name_label_at.
Qed.

Lemma spec_load c0 id :
  spec (kept c0) (load id) (λ l c, kept c0 c ∧ label_at c l) (kept c0).
Proof.
  intros c Hc. unfold load. rewrite run_bind_gets.
  destruct (labels c !! id) as [r|] eqn:E; simpl; [|done]. split; [done|]. by exists r.
Qed.

Lemma spec_create_ext c0 name color sync :
  spec (kept c0) (create_ext name color sync) (λ l c, kept c0 c ∧ label_at c l) (kept c0).
Proof.
  intros c Hc. unfold create_ext. rewrite run_bind.
  destruct (negb (is_empty (trim name))) eqn:Ht; simpl; [|done].
  rewrite run_bind_gets.
  destruct (by_name c (normalize (trim name))) as [l|] eqn:E; simpl.
  { split; [done|]. by eapply by_name_label_at. }
  rewrite run_bind_gets, run_bind_modify, run_bind.
  set (row := LabelRow.mk _ _ _ _ _).
  assert (kept c0 (insert_label row c)) as Hi.
  { eapply kept_step; [done|]. intros Hok. by apply insert_label_ok. }
  pose proof (preserves_when_sync c0 sync (SyncEmailLabel (LCreate (trim name) color)) _ Hi) as Hw.
  destruct (when_sync _ _ _) as [c' [u|e]]; [|done]. rewrite run_bind_gets.
  destruct (by_name c' (normalize (trim name))) as [l|] eqn:E'; simpl; [|done].
  split; [done|]. by eapply by_name_label_at.
Qed.

Lemma spec_rename_ext c0 l new_name sync :
  spec (λ c, kept c0 c ∧ label_at c l) (rename_ext l new_name sync) (λ _, kept c0) (kept c0).
Proof.
  intros c [Hc Hl]. unfold rename_ext. rewrite run_bind.
  destruct (Label.is_system l) eqn:Hs; simpl; [done|]. rewrite run_bind.
  destruct (is_empty (trim new_name)) eqn:Ht; simpl; [done|].
  rewrite run_bind_gets, run_bind.
  destruct (match by_name _ _ with Some _ => _ | None => _ end); simpl; [|done].
  rewrite run_bind.
  assert (kept c0 (final (update_label_name (Label.id l) (trim new_name) (normalize (trim new_name))) c)) as Hu.
  { eapply kept_step; [done|]. intros Hok. by apply update_label_name_ok. }
  unfold final in Hu. destruct (update_label_name _ _ _ _) as [c' [u|e]]; [|done].
  by apply preserves_when_sync.
Qed.

Lemma spec_delete_ext c0 l sync :
  spec (λ c, kept c0 c ∧ label_at c l) (delete_ext l sync) (λ _, kept c0) (kept c0).
Proof.
  intros c [Hc Hl]. unfold delete_ext. rewrite run_bind.
  destruct (Label.is_system l) eqn:Hs; simpl; [done|]. rewrite run_bind_modify.
  apply preserves_when_sync. eapply kept_step; [done|]. intros Hok. by apply delete_label_ok.
Qed.

Lemma preserves_set_color_ext c0 l color sync : preserves (kept c0) (set_color_ext l color sync).
Proof.
  unfold set_color_ext. apply preserves_bind; [|intros _; apply preserves_when_sync].
  apply preserves_modify. intros c Hc. eapply kept_step; [done|]. intros Hok. by apply recolor_ok.
Qed.

(** Weaken the postcondition of a call that produces a label. *)
Lemma preserves_forget c0 {A} (m : cmd Ctx A) (R : A → Ctx → Prop) :
  spec (kept c0) m (λ a c, kept c0 c ∧ R a c) (kept c0) → preserves (kept c0) m.
Proof. intros Hm c Hc. specialize (Hm c Hc). destruct (m c) as [c' [a|e]]; [by destruct Hm|done]. Qed.

Lemma spec_find_or_create c0 name color :
  spec (kept c0) (find_or_create name color) (λ l c, kept c0 c ∧ label_at c l) (kept c0).
Proof.
  unfold find_or_create. eapply spec_bind; [apply spec_by_name|]. intros [l|]; [by intros c ?|].
  intros c [Hc _]. by apply spec_create_ext.
Qed.

Lemma preserves_sync_set c0 mids name b ts : preserves (kept c0) (sync_set mids name b ts).
Proof.
  unfold sync_set. apply preserves_bind; [eapply preserves_forget, spec_find_or_create|].
  intros l. apply preserves_bind; [apply preserves_gets|]. intros c'.
  apply preserves_bind; [apply preserves_set_ext|]. intros _.
  apply preserves_for_each. intros mid. apply preserves_modify. intros c. by apply kept_ext.
Qed.

Lemma preserves_execute_sync_item c0 item ts :
  preserves (kept c0) (execute_sync_item item ts).
Proof.
  destruct item as [name color|from to|name|name color|mids name|mids name]; simpl;
    try apply preserves_sync_set.
  - apply preserves_bind; [eapply preserves_forget, spec_create_ext|intros; apply preserves_ret].
  - eapply spec_bind; [apply spec_by_name|]. intros [l|]; [apply spec_rename_ext|].
    intros c [Hc _]. apply (preserves_bind (kept c0)); [|intros; apply preserves_ret|done].
    eapply preserves_forget, spec_create_ext.
  - eapply spec_bind; [apply spec_by_name|]. intros [l|]; [apply spec_delete_ext|].
    by intros c [Hc _].
  - apply preserves_bind; [eapply preserves_forget, spec_find_or_create|].
    intros l. apply preserves_set_color_ext.
Qed.

Lemma preserves_drain_pending c0 id : preserves (kept c0) (drain_pending id).
Proof.
  unfold drain_pending. preserve; apply preserves_modify; intros c; by apply kept_ext.
Qed.

Lemma preserves_prune c0 : preserves (kept c0) prune.
Proof. unfold prune. preserve; apply preserves_modify; intros c; by apply kept_ext. Qed.

(** Every entry point of the module. *)
Inductive label_op :=
  | OpCreate (name : str) (color : option Z)
  | OpRename (id : Z) (new_name : str)
  | OpSetColor (id : Z) (color : option Z)
  | OpDelete (id : Z)
  | OpApply (ids : list Z) (id : Z)
  | OpUnapply (ids : list Z) (id : Z)
  | OpArchive (ids : list Z)
  | OpUnarchive (ids : list Z)
  | OpSyncItem (item : LabelSyncItem) (timestamp : Z)
  | OpDrain (msg_id : Z)
  | OpPrune.

Definition run_op (o : label_op) : cmd Ctx unit :=
  match o with
  | OpCreate name color => create name color ;; mret tt
  | OpRename id new_name => rename id new_name
  | OpSetColor id color => set_color id color
  | OpDelete id => delete_ id
  | OpApply ids id => apply ids id
  | OpUnapply ids id => unapply ids id
  | OpArchive ids => archive ids
  | OpUnarchive ids => unarchive ids
  | OpSyncItem item ts => execute_sync_item item ts
  | OpDrain id => drain_pending id
  | OpPrune => prune
  end.

Lemma preserves_run_op c0 o : preserves (kept c0) (run_op o).
Proof.
  destruct o; simpl; auto using preserves_execute_sync_item, preserves_drain_pending, preserves_prune.
  - apply preserves_bind; [eapply preserves_forget, spec_create_ext|intros; apply preserves_ret].
  - eapply spec_bind; [apply spec_load|]. intros l. apply spec_rename_ext.
  - apply preserves_bind; [eapply preserves_forget, spec_load|]. intros l. apply preserves_set_color_ext.
  - eapply spec_bind; [apply spec_load|]. intros l. apply spec_delete_ext.
  - apply preserves_bind; [eapply preserves_forget, spec_load|]. intros l. apply preserves_set_ext.
  - apply preserves_bind; [eapply preserves_forget, spec_load|]. intros l. apply preserves_set_ext.
  - unfold archive, archive_label, reserved. preserve. apply preserves_set_ext.
  - unfold unarchive, archive_label, reserved. preserve. apply preserves_set_ext.
Qed.
(** A history of calls; a call that fails leaves what it wrote. *)
Definition run_ops (ops : list label_op) (c : Ctx) : Ctx :=
  foldl (λ c o, final (run_op o) c) c ops.

(** Whatever the user does, whatever another device sends and in whichever
    order, label names stay unique up to case, every stored normalized name is
    the one of the displayed name, ids stay below the sequence, and the labels
    Archive, Trash and Unverified exist under their name; no call renames,
    deletes or demotes any reserved label. *)
Theorem label_history_invariant (ops : list label_op) (c : Ctx) :
  labels_ok c → labels_ok (run_ops ops c) ∧ sys_kept c (run_ops ops c).
Proof.
  intros Hc. change (kept c (run_ops ops c)). unfold run_ops.
  assert (kept c c) as Hk by by split. revert Hk. generalize c at 2 4 as d.
  induction ops as [|o ops IH]; intros d Hd; simpl; [done|].
  apply IH. eapply preserves_final, Hd. apply preserves_run_op.
Qed.
End labels.
