(* ===== verification/Migrations.v ===== *)
(** * Migrations: the rows of [labels] and [config] written by
    [core/src/sql/migrations.rs].

    Versions 166, 169 and 171 create the reserved labels the email layer looks
    up by name.  Each version is one transaction ([execute_migration]); the
    tables a version creates start empty. *)

From S2P Require Import Prelude Text Store Labels.

(** [INSERT INTO labels (name, name_norm, system, created) VALUES (.., 1, 0)]:
    no conflict clause, so a taken [name_norm] fails the statement. *)
Definition insert_reserved (name name_norm : str) : cmd Ctx unit :=
  rows ← gets (λ c, rows_with_norm c name_norm);
  ensure (is_empty rows) "UNIQUE constraint failed: labels.name_norm" ;;
  modify (λ c, let id := (labels_seq c + 1)%Z in
    set_labels_seq (λ _, id)
      (set_labels <[id := LabelRow.mk name name_norm None true 0]> c)).

Definition migrate_166 : cmd Ctx unit :=
  transaction
    (modify (set_labels (λ _, ∅)) ;; modify (set_labels_seq (λ _, 0%Z)) ;;
     modify (set_msg_labels (λ _, ∅)) ;; modify (set_pending_msg_labels (λ _, ∅)) ;;
     insert_reserved (lit "Archive") (lit "archive")).

Definition migrate_169 : cmd Ctx unit :=
  transaction
    (modify (set_held_msgs (λ _, ∅)) ;; modify (set_trashed_msgs (λ _, ∅)) ;;
     insert_reserved (lit "Trash") (lit "trash") ;;
     insert_reserved (lit "Holding") (lit "holding")).

(** [UPDATE labels SET name, name_norm WHERE name_norm='holding' AND system=1],
    then the rename of a configuration key. *)
Definition rename_reserved (old_norm name name_norm : str) : cmd Ctx unit :=
  rows ← gets (λ c, rows_with_norm c old_norm);
  for_each rows (λ r,
    if LabelRow.system r.2 then update_label_name r.1 name name_norm else mret tt).

Definition rename_config_key (old new : str) (t : gmap str str) : gmap str str :=
  match t !! old with
  | Some v => <[new := v]> (delete old t)
  | None => t
  end.

Definition migrate_171 : cmd Ctx unit :=
  transaction
    (rename_reserved (lit "holding") (lit "Unverified") (lit "unverified") ;;
     modify (set_config_tbl
       (rename_config_key (lit "ephemeral_trash_days") (lit "trash_purge_days")))).

(** The label rows after all the versions, on an account that had none. *)
Definition migrate : cmd Ctx unit := migrate_166 ;; migrate_169 ;; migrate_171.

(** A new account, migrated. *)
Definition new_account : Ctx := final migrate empty_ctx.

Definition HOLDING : str := lit "Holding".

Section migrations.
Context `{!UnicodeCase, !SqlChoice}.

(** No label of the account is called [name]. *)
Definition name_free (name : str) (c : Ctx) : Prop :=
  ∀ i r, labels c !! i = Some r → LabelRow.name_norm r ≠ normalize name.

Lemma name_free_rows name c : name_free name c ↔ rows_with_norm c (normalize name) = [].
Proof.
  split.
  - intros Hf. destruct (rows_with_norm _ _) as [|[i r] l] eqn:E; [done|].
    assert ((i, r) ∈ rows_with_norm c (normalize name)) as [Hi Hn]%elem_of_rows_with_norm
      by (rewrite E; set_solver). by destruct (Hf i r).
  - intros E i r Hi Hn. assert ((i, r) ∈ rows_with_norm c (normalize name)) as Hin
      by by apply elem_of_rows_with_norm. rewrite E in Hin. by apply not_elem_of_nil in Hin.
Qed.

(** A taken name fails the insertion; a free one adds exactly one row. *)
Lemma insert_reserved_taken name norm c :
  norm = normalize name → ¬ name_free name c →
  ∃ e, insert_reserved name norm c = (c, Err e).
Proof.
  intros -> Hn. unfold insert_reserved. rewrite run_bind_gets, run_bind.
  rewrite name_free_rows in Hn. destruct (rows_with_norm _ _); [done|]. simpl. eauto.
Qed.

Lemma insert_reserved_free R name norm c :
  norm = normalize name → wf_labels R c → name_free name c →
  ∃ c', insert_reserved name norm c = (c', Ok tt) ∧ wf_labels (name :: R) c'
    ∧ labels c' = <[(labels_seq c + 1)%Z := LabelRow.mk name norm None true 0]> (labels c)
    ∧ labels c !! (labels_seq c + 1)%Z = None.
Proof.
  intros -> Hwf Hf. unfold insert_reserved. rewrite run_bind_gets.
  rewrite (proj1 (name_free_rows _ _) Hf). eexists. split; [reflexivity|].
  assert (labels c !! (labels_seq c + 1)%Z = None) as Hnew.
  { apply eq_None_not_Some. intros [r Hr]. apply (lok_seq _ c Hwf) in Hr. lia. }
  destruct Hwf as [Hu Hn Hs Hr Hy]. split; [|done]. split; simpl.
  - intros i j r s. rewrite !lookup_insert. unfold name_free in Hf.
    repeat case_decide; naive_solver.
  - intros i r. rewrite lookup_insert. case_decide; naive_solver.
  - intros i r. rewrite lookup_insert. case_decide; [lia|]. intros ?%Hs. lia.
  - intros n [->|Hin]%elem_of_cons.
    + eexists _, _. by rewrite lookup_insert_eq.
    + apply Hr in Hin as (i & r & Hi & ? & ?). exists i, r.
      by rewrite lookup_insert_ne by congruence.
  - intros i r. rewrite lookup_insert. case_decide; [intros [= <-]; set_solver|].
    intros Hi Hsys. specialize (Hy i r Hi Hsys). set_solver.
Qed.

Lemma name_free_insert name c c' i r :
  labels c' = <[i := r]> (labels c) → labels c !! i = None →
  LabelRow.name_norm r ≠ normalize name → name_free name c' ↔ name_free name c.
Proof.
  unfold name_free. intros -> Hi Hr. split; intros Hf j s.
  - intros Hj. apply (Hf j). rewrite lookup_insert_ne; [done|congruence].
  - rewrite lookup_insert. case_decide; naive_solver.
Qed.
Lemma norm_literal name norm :
  forallb is_ascii (trim name) = true → ascii_lower <$> trim name = norm →
  normalize name = norm.
Proof. intros Ha <-. unfold normalize. by apply lower_ascii. Qed.

Lemma norm_trash : normalize TRASH = lit "trash".
Proof. by apply norm_literal; vm_compute. Qed.
Lemma norm_holding : normalize HOLDING = lit "holding".
Proof. by apply norm_literal; vm_compute. Qed.
Lemma norm_unverified : normalize UNVERIFIED = lit "unverified".
Proof. by apply norm_literal; vm_compute. Qed.

(** In a well-formed table a normalized name has at most one row. *)
Lemma rows_with_norm_single R c i r :
  wf_labels R c → labels c !! i = Some r →
  rows_with_norm c (LabelRow.name_norm r) = [(i, r)].
Proof.
  intros Hwf Hi.
  assert ((i, r) ∈ rows_with_norm c (LabelRow.name_norm r)) as Hin
    by by apply elem_of_rows_with_norm.
  assert (NoDup (rows_with_norm c (LabelRow.name_norm r))) as Hnd
    by apply NoDup_filter, NoDup_map_to_list.
  assert (∀ x, x ∈ rows_with_norm c (LabelRow.name_norm r) → x = (i, r)) as Hall.
  { intros [j s] [Hj Hs]%elem_of_rows_with_norm. simpl in *.
    assert (j = i) as -> by (eapply (lok_unique _ c Hwf); eauto). congruence. }
  destruct (rows_with_norm _ _) as [|x [|y l]]; [set_solver| |].
  - by rewrite (Hall x) by set_solver.
  - rewrite (Hall x), (Hall y) in Hnd by set_solver.
    apply NoDup_cons in Hnd. set_solver.
Qed.

(** Renaming the reserved row [i] away from [r]'s name, onto a free one. *)
Lemma rename_reserved_free R c i r old name :
  wf_labels (LabelRow.name r :: R) c → labels c !! i = Some r → LabelRow.system r = true →
  LabelRow.name_norm r = old → name_free name c → LabelRow.name r ∉ R →
  ∃ c', rename_reserved old name (normalize name) c = (c', Ok tt) ∧ wf_labels (name :: R) c'
    ∧ ∀ j s, j ≠ i → labels c !! j = Some s → labels c' !! j = Some s.
Proof.
  intros Hwf Hi Hs <- Hf HR. unfold rename_reserved. rewrite run_bind_gets.
  rewrite (rows_with_norm_single _ _ _ _ Hwf Hi). simpl. rewrite Hs, run_bind.
  unfold update_label_name. rewrite (proj1 (name_free_rows _ _) Hf).
  rewrite decide_True by done. eexists. split; [reflexivity|].
  destruct Hwf as [Hu Hn Hq Hr Hy]. unfold name_free in Hf. split; [split|]; simpl.
  - intros j k s t. rewrite !lookup_alter.
    repeat case_decide; subst; rewrite ?Hi; simpl; naive_solver.
  - intros j s. rewrite lookup_alter. case_decide; subst; rewrite ?Hi; simpl; naive_solver.
  - intros j s. rewrite lookup_alter. case_decide; subst; rewrite ?Hi; simpl; naive_solver.
  - intros n [->|Hin]%elem_of_cons.
    + exists i. rewrite lookup_alter_eq, Hi. simpl. eauto.
    + destruct (Hr n) as (j & s & Hj & <- & ?); [set_solver|]. exists j, s.
      rewrite lookup_alter_ne; [done|]. intros ->. congruence.
  - intros j s. rewrite lookup_alter. case_decide; subst.
    + rewrite Hi. simpl. intros [= <-]. set_solver.
    + intros Hj Hsys. pose proof (Hy j s Hj Hsys) as [He|He]%elem_of_cons; [|set_solver].
      assert (j = i); [|congruence]. eapply Hu; [done..|].
      by rewrite (Hn j s Hj), (Hn i r Hi), He.
  - intros j s Hj Hl. by rewrite lookup_alter_ne.
Qed.

Lemma rename_reserved_taken R c i r name :
  wf_labels R c → labels c !! i = Some r → LabelRow.system r = true →
  LabelRow.name_norm r ≠ normalize name → ¬ name_free name c →
  ∃ e, rename_reserved (LabelRow.name_norm r) name (normalize name) c = (c, Err e).
Proof.
  intros Hwf Hi Hs Hne Hf. unfold rename_reserved. rewrite run_bind_gets.
  rewrite (rows_with_norm_single _ _ _ _ Hwf Hi). simpl. rewrite Hs, run_bind.
  unfold update_label_name. rewrite decide_False; [by eexists|].
  rewrite Forall_forall. intros Hall. apply Hf. intros j s Hj Hn.
  assert (j = i) as ->.
  { apply (Hall (j, s)). by apply elem_of_rows_with_norm. }
  congruence.
Qed.

Definition holding_row : LabelRow.t := LabelRow.mk HOLDING (lit "holding") None true 0.

Lemma migrate_169_free c :
  wf_labels [ARCHIVE] c → name_free TRASH c → name_free HOLDING c →
  ∃ c' i, migrate_169 c = (c', Ok tt) ∧ wf_labels [HOLDING; TRASH; ARCHIVE] c'
    ∧ labels c' !! i = Some holding_row ∧ labels c !! i = None
    ∧ (name_free UNVERIFIED c' ↔ name_free UNVERIFIED c)
    ∧ ∀ j s, labels c !! j = Some s → labels c' !! j = Some s.
Proof.
  intros Hwf HT HH.
  set (c0 := set_trashed_msgs (λ _, ∅) (set_held_msgs (λ _, ∅) c)).
  destruct (insert_reserved_free [ARCHIVE] TRASH (lit "trash") c0) as (c1 & E1 & Hwf1 & L1 & N1);
    [by rewrite norm_trash|by destruct Hwf|done|].
  assert (name_free HOLDING c1) as HH1.
  { rewrite name_free_insert; [exact HH|exact L1|exact N1|]. by rewrite norm_holding. }
  destruct (insert_reserved_free [TRASH; ARCHIVE] HOLDING (lit "holding") c1)
    as (c2 & E2 & Hwf2 & L2 & N2); [by rewrite norm_holding|done|done|].
  exists c2, (labels_seq c1 + 1)%Z. split_and!; [|done|..].
  - unfold migrate_169, transaction. rewrite !run_bind_modify. fold c0.
    change (lit "Trash") with TRASH. change (lit "Holding") with HOLDING.
    rewrite run_bind, E1, E2. done.
  - by rewrite L2, lookup_insert_eq.
  - rewrite L1 in N2. apply lookup_insert_None in N2. apply N2.
  - rewrite name_free_insert; [|exact L2|exact N2|by rewrite norm_unverified].
    rewrite name_free_insert; [|exact L1|exact N1|by rewrite norm_unverified]. done.
  - intros j s Hj. rewrite L2, L1. rewrite !lookup_insert_ne; [done|..].
    + intros <-. change (labels c0) with (labels c) in N1. congruence.
    + intros <-. rewrite L1 in N2. apply lookup_insert_None in N2.
      change (labels c0) with (labels c) in N2. destruct N2. congruence.
Qed.

Lemma migrate_169_taken c :
  wf_labels [ARCHIVE] c → ¬ (name_free TRASH c ∧ name_free HOLDING c) →
  ∃ e, migrate_169 c = (c, Err e).
Proof.
  intros Hwf Hn. unfold migrate_169, transaction. rewrite !run_bind_modify.
  set (c0 := set_trashed_msgs (λ _, ∅) (set_held_msgs (λ _, ∅) c)).
  change (lit "Trash") with TRASH. change (lit "Holding") with HOLDING. rewrite run_bind.
  destruct (decide (rows_with_norm c (normalize TRASH) = [])) as [HT|HT];
    rewrite <-name_free_rows in HT.
  - destruct (insert_reserved_free [ARCHIVE] TRASH (lit "trash") c0) as (c1 & E1 & Hwf1 & L1 & N1);
      [by rewrite norm_trash|by destruct Hwf|done|]. rewrite E1.
    destruct (insert_reserved_taken HOLDING (lit "holding") c1) as [e E2];
      [by rewrite norm_holding| |by rewrite E2; eauto].
    rewrite name_free_insert; [|exact L1|exact N1|by rewrite norm_holding].
    intros HH. by apply Hn.
  - destruct (insert_reserved_taken TRASH (lit "trash") c0) as [e E];
      [by rewrite norm_trash|done|]. rewrite E. eauto.
Qed.

Lemma migrate_171_spec c i :
  wf_labels [HOLDING; TRASH; ARCHIVE] c → labels c !! i = Some holding_row →
  (name_free UNVERIFIED c →
   ∃ c', migrate_171 c = (c', Ok tt) ∧ labels_ok c'
     ∧ ∀ j s, j ≠ i → labels c !! j = Some s → labels c' !! j = Some s)
  ∧ (¬ name_free UNVERIFIED c → ∃ e, migrate_171 c = (c, Err e)).
Proof.
  intros Hwf Hi. unfold migrate_171, transaction. rewrite run_bind.
  change (lit "Unverified") with UNVERIFIED. rewrite <-norm_unverified. split; intros Hf.
  - destruct (rename_reserved_free [TRASH; ARCHIVE] c i holding_row (lit "holding") UNVERIFIED)
      as (c' & E & Hc' & Hk); [done..|by vm_compute; set_solver|].
    rewrite E. eexists. split; [reflexivity|]. split; [|exact Hk].
    destruct Hc' as [Hu Hn Hs Hr Hy]. split; simpl; [exact Hu|exact Hn|exact Hs|..].
    + intros n Hn'. apply Hr. unfold RESERVED in Hn'. set_solver.
    + intros j s Hj Hsys. specialize (Hy j s Hj Hsys). unfold RESERVED. set_solver.
  - destruct (rename_reserved_taken [HOLDING; TRASH; ARCHIVE] c i holding_row UNVERIFIED)
      as [e E]; [done..| |done|]; [by rewrite norm_unverified|].
    change (LabelRow.name_norm holding_row) with (lit "holding") in E. rewrite E. eauto.
Qed.

(** The upgrade of an account of version 166 to 168. *)
Definition upgrade : cmd Ctx unit := migrate_169 ;; migrate_171.

(** The upgrade to reserved labels goes through exactly when the user has
    no label called Trash, Holding or Unverified, in any case; when it does,
    the label tables satisfy the invariant of the label layer and every label
    the user had is unchanged. *)
Theorem upgrade_succeeds_iff (c : Ctx) :
  wf_labels [ARCHIVE] c →
  (outcome upgrade c = Ok tt ↔
     name_free TRASH c ∧ name_free HOLDING c ∧ name_free UNVERIFIED c)
  ∧ (outcome upgrade c = Ok tt →
     labels_ok (final upgrade c)
     ∧ ∀ j s, labels c !! j = Some s → labels (final upgrade c) !! j = Some s).
Proof.
  intros Hwf. unfold upgrade, outcome, final. rewrite run_bind.
  destruct (decide (rows_with_norm c (normalize TRASH) = []
                    ∧ rows_with_norm c (normalize HOLDING) = [])) as [H1|H1];
    rewrite <-!name_free_rows in H1.
  - destruct (migrate_169_free c Hwf (proj1 H1) (proj2 H1)) as (c1 & i & -> & Hwf1 & Hi & Hi0 & Hu & Hk).
    destruct (migrate_171_spec c1 i Hwf1 Hi) as [Hok Herr].
    destruct (decide (rows_with_norm c1 (normalize UNVERIFIED) = [])) as [H2|H2];
      rewrite <-name_free_rows in H2.
    + destruct (Hok H2) as (c2 & -> & Hc2 & Hk2). simpl. split; [tauto|]. intros _.
      split; [done|]. intros j s Hj. apply Hk2; [congruence|by apply Hk].
    + destruct (Herr H2) as [e ->]. simpl. split; [|done]. split; [done|]. tauto.
  - destruct (migrate_169_taken c Hwf H1) as [e ->]. simpl. split; [|done]. split; [done|]. tauto.
Qed.
End migrations.

(** An account that upgrades, with a label of its own. *)
Definition account_166 : Ctx :=
  final (@create ascii_case first_choice (lit "Work") None) (final migrate_166 empty_ctx).

Lemma upgrade_succeeds_iff_witness :
  @wf_labels ascii_case [ARCHIVE] account_166
  ∧ @labels_ok ascii_case (final upgrade account_166).
Proof.
  assert (@wf_labels ascii_case [ARCHIVE] account_166) as Hwf
    by (apply wf_labelsb_sound; vm_compute; reflexivity).
  split; [exact Hwf|].
  apply (@upgrade_succeeds_iff ascii_case account_166 Hwf). vm_compute. reflexivity.
Defined.

(** A user label called Trash stops the upgrade. *)
Example upgrade_blocked :
  outcome upgrade (final (@create ascii_case first_choice (lit "trash") None)
                     (final migrate_166 empty_ctx))
  = Err "UNIQUE constraint failed: labels.name_norm".
Proof. vm_compute. reflexivity. Qed.

Lemma new_account_ok : @labels_ok ascii_case new_account.
Proof. apply wf_labelsb_sound. vm_compute. reflexivity. Qed.

(** A history with every kind of call, replayed changes included. *)
Definition some_history : list label_op :=
  [OpCreate (lit "Work") (Some 255%Z); OpCreate (lit "  WORK ") None; OpRename 4 (lit "Job");
   OpRename 1 (lit "Attic"); OpDelete 2; OpSetColor 2 (Some 1%Z);
   OpSyncItem (LRename (lit "trash") (lit "bin")) 5;
   OpSyncItem (LApply [lit "m@x"] (lit "Later")) 6; OpPrune].

Lemma label_history_invariant_witness :
  let c := @run_ops ascii_case first_choice some_history new_account in
  @labels_ok ascii_case c ∧ sys_kept new_account c
  ∧ size (labels c) = 5 ∧ size (pending_msg_labels c) = 1.
Proof.
  destruct (@label_history_invariant ascii_case first_choice some_history new_account
              new_account_ok) as [H1 H2].
  split; [exact H1|]. split; [exact H2|]. vm_compute. done.
Defined.

(** An account with one received message. *)
Definition one_message : Ctx :=
  set_msgs <[20%Z := incoming (lit "a@b") 12 10 5]> new_account.

Lemma one_message_ok : @labels_ok ascii_case one_message.
Proof. apply wf_labelsb_sound. vm_compute. reflexivity. Qed.
