(* ===== verification/LabelSync.v ===== *)
(** * LabelSync: what device synchronization of labels achieves.

    Three contracts of the sync half of [core/src/email/labels.rs]: a replayed
    change is never sent again, a change to the set of labels makes the two
    devices agree, and a change that arrives before the message it names has
    the effect it would have had after. *)

From S2P Require Import Prelude Text Store Labels Migrations.

Section sync.
Context `{!UnicodeCase, !SqlChoice}.

(** ** Replaying is silent *)

(** The queue of outgoing items is [q]. *)
Definition queue_is (q : list (Z * SyncData)) (c : Ctx) : Prop := multi_device_sync c = q.

Lemma insert_label_queue q row c : queue_is q c → queue_is q (insert_label row c).
Proof. unfold insert_label. by destruct (rows_with_norm _ _). Qed.

Lemma preserves_create_nosync q name color :
  preserves (queue_is q) (create_ext name color Sync.Nosync).
Proof.
  unfold create_ext, when_sync. preserve.
  apply preserves_modify. intros c. apply insert_label_queue.
Qed.

Lemma preserves_find_or_create q name color :
  preserves (queue_is q) (find_or_create name color).
Proof. unfold find_or_create. preserve. apply preserves_create_nosync. Qed.

Lemma preserves_set_nosync q ids l b : preserves (queue_is q) (set_ext ids l b Sync.Nosync).
Proof. unfold set_ext, when_sync. preserve. by apply preserves_modify. Qed.

Lemma preserves_update_label_name q id name norm :
  preserves (queue_is q) (update_label_name id name norm).
Proof. intros c Hc. unfold update_label_name. by destruct (decide _). Qed.

(** Replaying a change that came from another device queues nothing for
    the user's devices, whatever the change and the state, also when it
    creates the label it names or fails: devices never echo each other. *)
Theorem execute_sync_item_silent (item : LabelSyncItem) (timestamp : Z) (c : Ctx) :
  multi_device_sync (final (execute_sync_item item timestamp) c) = multi_device_sync c.
Proof.
  apply (preserves_final (queue_is (multi_device_sync c))); [|done].
  assert (∀ mids name b, preserves (queue_is (multi_device_sync c))
                           (sync_set mids name b timestamp)) as Hset.
  { intros mids name b. unfold sync_set. apply preserves_bind; [apply preserves_find_or_create|].
    intros l. apply preserves_bind; [apply preserves_gets|]. intros c'.
    apply preserves_bind; [apply preserves_set_nosync|]. intros _.
    apply preserves_for_each. intros mid. by apply preserves_modify. }
  destruct item; simpl; try apply Hset.
  - preserve. apply preserves_create_nosync.
  - preserve; try apply preserves_create_nosync. unfold rename_ext.
    unfold when_sync. preserve. apply preserves_update_label_name.
  - preserve. unfold delete_ext, when_sync. preserve. by apply preserves_modify.
  - apply preserves_bind; [apply preserves_find_or_create|]. intros l.
    unfold set_color_ext, when_sync. preserve. by apply preserves_modify.
Qed.

(** ** Devices converge *)

(** The labels of a device, without its row ids: what every device shares. *)
Definition label_view (c : Ctx) (norm : str) : option (str * option Z * bool) :=
  (λ r, (LabelRow.name r.2, LabelRow.color r.2, LabelRow.system r.2))
    <$> pick (rows_with_norm c norm).

Definition attrs (r : LabelRow.t) : str * option Z * bool :=
  (LabelRow.name r, LabelRow.color r, LabelRow.system r).

Lemma label_view_at R c i r :
  wf_labels R c → labels c !! i = Some r → label_view c (LabelRow.name_norm r) = Some (attrs r).
Proof.
  intros Hwf Hi. unfold label_view. rewrite (rows_with_norm_single _ _ _ _ Hwf Hi).
  destruct (pick [(i, r)]) as [x|] eqn:E; [|by apply pick_None in E].
  apply pick_in in E. assert (x = (i, r)) as -> by set_solver. done.
Qed.

Lemma label_view_Some c n a :
  label_view c n = Some a →
  ∃ i r, labels c !! i = Some r ∧ LabelRow.name_norm r = n ∧ a = attrs r.
Proof.
  unfold label_view. destruct (pick _) as [[i r]|] eqn:E; [|done]. intros [= <-].
  apply pick_in, elem_of_rows_with_norm in E as [? ?]. by exists i, r.
Qed.

Lemma label_view_None c n :
  label_view c n = None ↔ ∀ i r, labels c !! i = Some r → LabelRow.name_norm r ≠ n.
Proof.
  split.
  - unfold label_view. destruct (pick _) as [[i r]|] eqn:E; [done|]. intros _ i r Hi Hn.
    apply pick_None in E. assert ((i, r) ∈ rows_with_norm c n) as Hin
      by by apply elem_of_rows_with_norm. rewrite E in Hin. by apply not_elem_of_nil in Hin.
  - intros Hn. destruct (label_view c n) eqn:E; [|done].
    apply label_view_Some in E as (i & r & Hi & Hr & _). by destruct (Hn i r).
Qed.

Lemma label_view_iff R c n a :
  wf_labels R c →
  label_view c n = Some a ↔
  ∃ i r, labels c !! i = Some r ∧ LabelRow.name_norm r = n ∧ a = attrs r.
Proof.
  intros Hwf. split; [apply label_view_Some|]. intros (i & r & Hi & <- & ->).
  by eapply label_view_at.
Qed.

Lemma by_name_view c name : by_name c name = None ↔ label_view c (normalize name) = None.
Proof. unfold by_name, label_view. by destruct (pick _). Qed.

Lemma label_view_labels c c' n : labels c' = labels c → label_view c' n = label_view c n.
Proof. intros E. unfold label_view, rows_with_norm. by rewrite E. Qed.

(** *** The abstract effect of a change *)

Abbreviation view := (str → option (str * option Z * bool)).

Definition abs_create (name : str) (color : option Z) (v : view) : view := λ n,
  if is_empty (trim name) then v n
  else match v (normalize name) with
       | Some _ => v n
       | None => if decide (n = normalize name) then Some (trim name, color, false) else v n
       end.

Definition abs_rename (from to : str) (v : view) : view := λ n,
  match v (normalize from) with
  | None => abs_create to None v n
  | Some (nm, col, sys) =>
      if sys || is_empty (trim to) then v n
      else if decide (normalize to ≠ normalize from ∧ is_Some (v (normalize to))) then v n
      else if decide (n = normalize to) then Some (trim to, col, sys)
      else if decide (n = normalize from) then None
      else v n
  end.

Definition abs_delete (name : str) (v : view) : view := λ n,
  match v (normalize name) with
  | Some (_, _, false) => if decide (n = normalize name) then None else v n
  | _ => v n
  end.

Definition abs_set_color (name : str) (color : option Z) (v : view) : view := λ n,
  match v (normalize name) with
  | Some (nm, _, sys) => if decide (n = normalize name) then Some (nm, color, sys) else v n
  | None => abs_create name color v n
  end.

Definition abs_step (item : LabelSyncItem) : view → view :=
  match item with
  | LCreate name color => abs_create name color
  | LRename from to => abs_rename from to
  | LDelete name => abs_delete name
  | LSetColor name color => abs_set_color name color
  | LApply _ label | LUnapply _ label => abs_create label None
  end.

(** *** The statements implement it *)

Lemma insert_label_view c row n :
  labels_ok c → LabelRow.system row = false →
  LabelRow.name_norm row = normalize (LabelRow.name row) →
  label_view c (LabelRow.name_norm row) = None →
  label_view (insert_label row c) n
  = if decide (n = LabelRow.name_norm row) then Some (attrs row) else label_view c n.
Proof.
  intros Hok Hrs Hn Hf. destruct (insert_label_ok c row Hok Hrs Hn) as [Hok' _].
  assert (labels (insert_label row c) = <[(labels_seq c + 1)%Z := row]> (labels c)) as E.
  { unfold insert_label. destruct (rows_with_norm _ _) as [|[i r] l] eqn:E; [done|].
    assert ((i, r) ∈ rows_with_norm c (LabelRow.name_norm row)) as [Hi Hr]%elem_of_rows_with_norm
      by (rewrite E; set_solver).
    rewrite label_view_None in Hf. by destruct (Hf i r). }
  assert (labels c !! (labels_seq c + 1)%Z = None) as Hnew.
  { apply eq_None_not_Some. intros [r Hr]. apply (lok_seq _ c Hok) in Hr. lia. }
  apply option_eq. intros a. rewrite (label_view_iff _ _ _ _ Hok'), E.
  case_decide as Hd; [subst n|rewrite (label_view_iff _ _ _ _ Hok)].
  - rewrite label_view_None in Hf. split.
    + intros (i & r & Hi & Hr & ->). rewrite lookup_insert in Hi.
      case_decide; [naive_solver|]. by destruct (Hf i r).
    + intros [= <-]. eexists _, _. by rewrite lookup_insert_eq.
  - split.
    + intros (i & r & Hi & Hr & ->). rewrite lookup_insert in Hi.
      case_decide; [naive_solver|eauto].
    + intros (i & r & Hi & Hr & ->). exists i, r. by rewrite lookup_insert_ne by congruence.
Qed.

Lemma alter_label_view c i r f n :
  labels_ok c → labels_ok (set_labels (alter f i) c) → labels c !! i = Some r →
  label_view (set_labels (alter f i) c) n
  = if decide (n = LabelRow.name_norm (f r)) then Some (attrs (f r))
    else if decide (n = LabelRow.name_norm r) then None else label_view c n.
Proof.
  intros Hok Hok' Hi. apply option_eq. intros a. rewrite (label_view_iff _ _ _ _ Hok'). simpl.
  assert (alter f i (labels c) !! i = Some (f r)) as Hi' by by rewrite lookup_alter_eq, Hi.
  case_decide as Hd; [subst n|case_decide as Hd'; [subst n|rewrite (label_view_iff _ _ _ _ Hok)]].
  - split; [|intros [= <-]; eauto]. intros (j & s & Hj & Hs & ->).
    assert (j = i) as -> by (eapply (lok_unique _ _ Hok'); eauto). congruence.
  - split; [|done]. intros (j & s & Hj & Hs & ->). rewrite lookup_alter in Hj.
    case_decide; [subst; rewrite Hi in Hj; naive_solver|].
    by destruct (lok_unique _ _ Hok j i s r Hj Hi Hs).
  - split; intros (j & s & Hj & Hs & ->); exists j, s.
    + rewrite lookup_alter in Hj. case_decide; [subst; rewrite Hi in Hj; naive_solver|done].
    + rewrite lookup_alter_ne by naive_solver. done.
Qed.

Lemma delete_label_view c i r n :
  labels_ok c → labels_ok (delete_label i c) → labels c !! i = Some r →
  label_view (delete_label i c) n
  = if decide (n = LabelRow.name_norm r) then None else label_view c n.
Proof.
  intros Hok Hok' Hi. apply option_eq. intros a. rewrite (label_view_iff _ _ _ _ Hok'). simpl.
  setoid_rewrite lookup_delete_Some.
  case_decide as Hd; [subst n|rewrite (label_view_iff _ _ _ _ Hok)].
  - split; [|done]. intros (j & s & [Hne Hj] & Hs & ->).
    by destruct (lok_unique _ _ Hok j i s r Hj Hi Hs).
  - split; intros (j & s & Hj & Hs & ->); exists j, s; naive_solver.
Qed.
(** *** The operations implement it *)

Lemma run_when_sync sync d c :
  when_sync sync (add_sync_item d) c
  = (match sync with Sync.Sync => push_sync_item d c | Sync.Nosync => c end, Ok tt).
Proof. by destruct sync. Qed.

Lemma when_sync_view sync d c n :
  label_view match sync with Sync.Sync => push_sync_item d c | Sync.Nosync => c end n
  = label_view c n.
Proof. destruct sync; [done|]. apply label_view_labels, push_sync_item_labels. Qed.

Lemma create_ext_run name color sync c :
  is_empty (trim name) = false → by_name c name = None →
  final (create_ext name color sync) c
  = let c1 := insert_label (LabelRow.mk (trim name) (normalize name) color false (clock c)) c in
    match sync with
    | Sync.Sync => push_sync_item (SyncEmailLabel (LCreate (trim name) color)) c1
    | Sync.Nosync => c1
    end.
Proof.
  intros Ht Hn. unfold final, create_ext. rewrite Ht. simpl.
  rewrite run_bind_ret, run_bind_gets, normalize_trim, by_name_normalize, Hn.
  rewrite run_bind_gets, run_bind_modify, run_bind, run_when_sync, run_bind_gets.
  cbv zeta. destruct (by_name match sync with Sync.Nosync => _ | Sync.Sync => _ end _); destruct sync; done.
Qed.

Lemma create_ext_noop name color sync c :
  is_empty (trim name) = true ∨ by_name c name ≠ None →
  final (create_ext name color sync) c = c.
Proof.
  intros Hcase. unfold final, create_ext.
  destruct (is_empty (trim name)) eqn:Ht; [done|]. simpl.
  rewrite run_bind_ret, run_bind_gets, normalize_trim, by_name_normalize.
  destruct (by_name c name); [done|]. naive_solver.
Qed.

Lemma create_ext_view name color sync c n :
  labels_ok c →
  label_view (final (create_ext name color sync) c) n = abs_create name color (label_view c) n.
Proof.
  intros Hok. unfold abs_create. destruct (is_empty (trim name)) eqn:Ht.
  { rewrite create_ext_noop by auto. done. }
  destruct (label_view c (normalize name)) eqn:E.
  { rewrite create_ext_noop; [done|]. right. rewrite by_name_view. congruence. }
  rewrite create_ext_run by (done || by apply by_name_view). cbv zeta.
  rewrite when_sync_view, insert_label_view; simpl; [done|done|done|by rewrite normalize_trim|done].
Qed.

Lemma label_at_view c l :
  labels_ok c → label_at c l →
  ∃ r, labels c !! Label.id l = Some r ∧ LabelRow.name_norm r = normalize (Label.name l)
    ∧ Label.is_system l = LabelRow.system r
    ∧ label_view c (normalize (Label.name l)) = Some (attrs r).
Proof.
  intros Hok (r & Hr & Hl). exists r.
  assert (LabelRow.name_norm r = normalize (Label.name l)) as Hn
    by (rewrite Hl; apply (lok_norm _ _ Hok _ _ Hr)).
  split_and!; [done..|by rewrite Hl|]. rewrite <-Hn. by eapply label_view_at.
Qed.

Lemma set_color_ext_view l color sync c n :
  labels_ok c → label_at c l →
  label_view (final (set_color_ext l color sync) c) n
  = abs_set_color (Label.name l) color (label_view c) n.
Proof.
  intros Hok Hl. destruct (label_at_view c l Hok Hl) as (r & Hr & Hn & _ & Hv).
  unfold final, set_color_ext. rewrite run_bind_modify, run_when_sync. simpl.
  rewrite when_sync_view, (alter_label_view c _ r); [|done|by apply recolor_ok|done].
  unfold abs_set_color. rewrite Hv. simpl. rewrite Hn. by repeat case_decide.
Qed.

Lemma delete_ext_view l sync c n :
  labels_ok c → label_at c l →
  label_view (final (delete_ext l sync) c) n = abs_delete (Label.name l) (label_view c) n.
Proof.
  intros Hok Hl. destruct (label_at_view c l Hok Hl) as (r & Hr & Hn & Hs & Hv).
  unfold abs_delete. rewrite Hv. unfold attrs. rewrite <-Hs.
  destruct (Label.is_system l) eqn:Hsys; unfold final, delete_ext; rewrite Hsys; [done|]. simpl.
  rewrite run_bind_ret, run_bind_modify, run_when_sync. simpl.
  rewrite when_sync_view, (delete_label_view c _ r); [by rewrite Hn|done|by apply delete_label_ok|done].
Qed.

Lemma rename_ext_view l to sync c n :
  labels_ok c → label_at c l →
  label_view (final (rename_ext l to sync) c) n = abs_rename (Label.name l) to (label_view c) n.
Proof.
  intros Hok Hl. destruct (label_at_view c l Hok Hl) as (r & Hr & Hn & Hs & Hv).
  unfold abs_rename. rewrite Hv. unfold attrs. rewrite <-Hs.
  unfold final, rename_ext. destruct (Label.is_system l) eqn:Hsys; [done|].
  destruct (is_empty (trim to)) eqn:Ht; [done|]. simpl.
  rewrite !run_bind_ret, run_bind_gets, normalize_trim, by_name_normalize, run_bind.
  destruct (by_name c to) as [e|] eqn:E.
  - apply by_name_Some in E as (s & Hse & Hsn & He).
    assert (label_view c (normalize to) = Some (attrs s)) as Hvt
      by (rewrite <-Hsn; by eapply label_view_at).
    destruct (decide (Label.id e = Label.id l)) as [Hid|Hid].
    + rewrite bool_decide_true by done. assert (s = r) as -> by congruence.
      rewrite decide_False by (intros [? _]; congruence). simpl. rewrite run_bind.
      pose proof (update_label_name_ok c l (trim to) (normalize to) Hok Hl Hsys) as Hu.
      rewrite normalize_trim in Hu. destruct (Hu eq_refl) as [Hu1 _].
      unfold final, update_label_name in *. destruct (decide _) as [Hd|Hd].
      * rewrite run_when_sync. simpl. rewrite when_sync_view, (alter_label_view c _ r); [|done..].
        unfold attrs. simpl. rewrite Hn, <-Hs. done.
      * destruct Hd. rewrite <-Hsn, (rows_with_norm_single _ _ _ _ Hok Hr). by repeat constructor.
    + rewrite bool_decide_false by done. simpl.
      rewrite decide_True; [done|]. split; [|by rewrite Hvt].
      intros Heq. apply Hid. eapply (lok_unique _ _ Hok); [done..|]. congruence.
  - pose proof (proj1 (by_name_view _ _) E) as Hvt.
    rewrite decide_False by (rewrite Hvt; intros [_ []]; done). simpl. rewrite run_bind.
    pose proof (update_label_name_ok c l (trim to) (normalize to) Hok Hl Hsys) as Hu.
    rewrite normalize_trim in Hu. destruct (Hu eq_refl) as [Hu1 _].
    unfold final, update_label_name in *. rewrite rows_with_norm_nil in * by done.
    rewrite decide_True in * by done. rewrite run_when_sync. simpl.
    rewrite when_sync_view, (alter_label_view c _ r); [|done..].
    unfold attrs. simpl. by rewrite Hn, <-Hs.
Qed.
Lemma find_or_create_state name color c :
  final (find_or_create name color) c = final (create_ext name color Sync.Nosync) c.
Proof.
  unfold final, find_or_create. rewrite run_bind_gets. destruct (by_name c name) as [l|] eqn:E; [|done].
  symmetry. apply (create_ext_noop name color Sync.Nosync c). right. by rewrite E.
Qed.

Lemma for_each_writes {A} (f : A → Ctx → Ctx) (xs : list A) c n :
  (∀ x c, labels (f x c) = labels c) →
  label_view (final (for_each xs (λ x, modify (f x))) c) n = label_view c n.
Proof.
  intros Hf. unfold final. rewrite for_each_modify. simpl. revert c.
  induction xs as [|x xs IH]; intros c; simpl; [done|].
  rewrite IH. by apply label_view_labels.
Qed.

Lemma sync_set_view mids name b ts c n :
  labels_ok c →
  label_view (final (sync_set mids name b ts) c) n = abs_create name None (label_view c) n.
Proof.
  intros Hok. rewrite <-(create_ext_view name None Sync.Nosync c n Hok), <-find_or_create_state.
  unfold final, sync_set. rewrite run_bind.
  destruct (find_or_create name None c) as [c' [l|e]]; [|done]. simpl. rewrite run_bind_gets.
  set (resolved := omap _ _). set (parked := filter _ _). rewrite run_bind. unfold set_ext.
  destruct (is_empty resolved).
  - simpl. by apply (for_each_writes (park (Label.id l) b ts)).
  - rewrite run_bind, for_each_modify. simpl.
    pose proof (for_each_writes (park (Label.id l) b ts) parked) as Hp. unfold final in Hp.
    rewrite Hp by done.
    pose proof (for_each_writes (λ id, set_msg_label b id (Label.id l)) resolved c' n) as Hs.
    unfold final in Hs. rewrite for_each_modify in Hs. by apply Hs.
Qed.

Lemma final_bind_ret {A} (m : cmd Ctx A) c : final (m ;; mret tt) c = final m c.
Proof. unfold final. rewrite run_bind. by destruct (m c) as [c' [a|e]]. Qed.

(** The label found under [name] has that name, up to case. *)
Lemma by_name_found c name l :
  labels_ok c → by_name c name = Some l →
  label_at c l ∧ normalize (Label.name l) = normalize name.
Proof.
  intros Hok E. pose proof (by_name_label_at _ _ _ E) as Hl. split; [done|].
  destruct (label_at_view _ _ Hok Hl) as (r & Hr & Hn & _).
  destruct (by_name_Some _ _ _ E) as (s & Hs & Hsn & _). congruence.
Qed.

Lemma sync_rename_view from to ts c n :
  labels_ok c →
  label_view (final (execute_sync_item (LRename from to) ts) c) n
  = abs_rename from to (label_view c) n.
Proof.
  intros Hok. unfold final. cbn [execute_sync_item]. rewrite run_bind_gets.
  destruct (by_name c from) as [l|] eqn:E.
  - destruct (by_name_found _ _ _ Hok E) as [Hl Hn]. fold (final (rename_ext l to Sync.Nosync) c).
    rewrite rename_ext_view by done. unfold abs_rename. by rewrite Hn.
  - fold (final (create_ext to None Sync.Nosync ;; mret tt) c).
    rewrite final_bind_ret, create_ext_view by done. rewrite by_name_view in E.
    unfold abs_rename. by rewrite E.
Qed.

Lemma sync_delete_view name ts c n :
  labels_ok c →
  label_view (final (execute_sync_item (LDelete name) ts) c) n = abs_delete name (label_view c) n.
Proof.
  intros Hok. unfold final. cbn [execute_sync_item]. rewrite run_bind_gets.
  destruct (by_name c name) as [l|] eqn:E.
  - destruct (by_name_found _ _ _ Hok E) as [Hl Hn]. fold (final (delete_ext l Sync.Nosync) c).
    rewrite delete_ext_view by done. unfold abs_delete. by rewrite Hn.
  - rewrite by_name_view in E. unfold abs_delete. by rewrite E.
Qed.

(** A label created by a replayed change carries the requested colour. *)
Lemma find_or_create_new name color c c' l :
  labels_ok c → by_name c name = None → find_or_create name color c = (c', Ok l) →
  labels_ok c' ∧ label_at c' l ∧ normalize (Label.name l) = normalize name
  ∧ (∀ n, label_view c' n = abs_create name color (label_view c) n)
  ∧ label_view c' (normalize name) = Some (trim name, color, false).
Proof.
  intros Hok E F. assert (kept c c) as Hkc by by split.
  pose proof (spec_find_or_create c name color c Hkc) as Hspec. rewrite F in Hspec.
  destruct Hspec as [[Hok' _] Hl].
  assert (∀ n, label_view c' n = abs_create name color (label_view c) n) as Hv.
  { intros n. rewrite <-(create_ext_view name color Sync.Nosync c n Hok), <-find_or_create_state.
    unfold final. by rewrite F. }
  revert F. unfold find_or_create. rewrite run_bind_gets, E. unfold create_ext. rewrite run_bind.
  destruct (is_empty (trim name)) eqn:Ht; [done|]. simpl.
  rewrite run_bind_gets, normalize_trim, by_name_normalize, E.
  rewrite run_bind_gets, run_bind_modify, run_bind. simpl. rewrite run_bind_gets, by_name_normalize.
  set (c1 := insert_label _ _). destruct (by_name c1 name) as [l'|] eqn:G; [|done]. intros [= <- <-].
  destruct (by_name_found _ _ _ Hok' G) as [_ Hn]. split_and!; try done.
  rewrite Hv. unfold abs_create. rewrite Ht, (proj1 (by_name_view _ _) E). by rewrite decide_True.
Qed.

Lemma sync_set_color_view name color ts c n :
  labels_ok c →
  label_view (final (execute_sync_item (LSetColor name color) ts) c) n
  = abs_set_color name color (label_view c) n.
Proof.
  intros Hok. unfold final. cbn [execute_sync_item]. rewrite run_bind.
  destruct (by_name c name) as [l|] eqn:E.
  - destruct (by_name_found _ _ _ Hok E) as [Hl Hn].
    assert (find_or_create name color c = (c, Ok l)) as ->
      by (unfold find_or_create; by rewrite run_bind_gets, E).
    fold (final (set_color_ext l color Sync.Nosync) c).
    rewrite set_color_ext_view by done. unfold abs_set_color. 
    destruct (label_at_view _ _ Hok Hl) as (r & _ & _ & _ & Hv). by rewrite Hn in Hv |- *; rewrite Hv.
  - unfold abs_set_color. rewrite (proj1 (by_name_view _ _) E).
    destruct (find_or_create name color c) as [c' [l|e]] eqn:F.
    + destruct (find_or_create_new _ _ _ _ _ Hok E F) as (Hok' & Hl & Hn & Hv & Hat).
      fold (final (set_color_ext l color Sync.Nosync) c').
      rewrite set_color_ext_view by done. unfold abs_set_color. rewrite Hn, Hat, <-Hv.
      case_decide as Hd; [subst n; by rewrite Hat|done].
    + rewrite <-(create_ext_view name color Sync.Nosync c n Hok), <-find_or_create_state.
      unfold final. by rewrite F.
Qed.

Lemma execute_sync_item_view (item : LabelSyncItem) (timestamp : Z) (c : Ctx) (n : str) :
  labels_ok c →
  label_view (final (execute_sync_item item timestamp) c) n = abs_step item (label_view c) n.
Proof.
  intros Hok. destruct item as [name color|from to|name|name color|mids name|mids name].
  - simpl. by rewrite final_bind_ret, create_ext_view.
  - by apply (sync_rename_view from to timestamp).
  - by apply (sync_delete_view name timestamp).
  - by apply (sync_set_color_view name color timestamp).
  - by apply (sync_set_view mids name true timestamp).
  - by apply (sync_set_view mids name false timestamp).
Qed.

(** *** Convergence *)

(** The changes to the set of labels a user can make. *)
Definition is_label_change (o : label_op) : bool :=
  match o with
  | OpCreate _ _ | OpRename _ _ | OpSetColor _ _ | OpDelete _ => true
  | _ => false
  end.

(** Another device replays what it receives. *)
Definition replay (items : list (Z * SyncData)) (c : Ctx) : Ctx :=
  foldl (λ c it, match it.2 with
                 | SyncEmailLabel item => final (execute_sync_item item it.1) c
                 | _ => c
                 end) c items.

(** What the user's call [o] puts on the queue and does to the labels. *)
Definition sends (o : label_op) (a : Ctx) (items : list LabelSyncItem) : Prop :=
  multi_device_sync (final (run_op o) a)
    = multi_device_sync a ++ ((λ i, (clock a, SyncEmailLabel i)) <$> items)
  ∧ match items with
    | [] => ∀ n, label_view (final (run_op o) a) n = label_view a n
    | [i] => ∀ n, label_view (final (run_op o) a) n = abs_step i (label_view a) n
    | _ => False
    end.

Lemma push_sync_item_queue d c :
  should_send_sync_msgs c = true →
  multi_device_sync (push_sync_item d c) = multi_device_sync c ++ [(clock c, d)].
Proof. unfold push_sync_item. by intros ->. Qed.

Lemma insert_label_frame row c :
  should_send_sync_msgs (insert_label row c) = should_send_sync_msgs c
  ∧ clock (insert_label row c) = clock c
  ∧ multi_device_sync (insert_label row c) = multi_device_sync c.
Proof. unfold insert_label. by destruct (rows_with_norm _ _). Qed.

Lemma create_sends name color a :
  labels_ok a → should_send_sync_msgs a = true → outcome (run_op (OpCreate name color)) a = Ok tt →
  ∃ items, sends (OpCreate name color) a items.
Proof.
  intros Hok Hs Ho. unfold sends. cbn [run_op]. unfold create. rewrite final_bind_ret.
  assert (is_empty (trim name) = false) as Ht.
  { revert Ho. unfold outcome, run_op, create, create_ext. rewrite !run_bind.
    by destruct (is_empty (trim name)). }
  destruct (by_name a name) eqn:E.
  - exists []. rewrite create_ext_noop by (right; congruence). by rewrite app_nil_r.
  - exists [LCreate (trim name) color]. split.
    + rewrite create_ext_run by done. cbv zeta. set (row := LabelRow.mk _ _ _ _ _).
      destruct (insert_label_frame row a) as (F1 & F2 & F3).
      by rewrite push_sync_item_queue, F2, F3 by by rewrite F1.
    + intros n. rewrite create_ext_view by done. unfold abs_step, abs_create.
      by rewrite trim_idemp, normalize_trim.
Qed.

(** The label a call loads by its id. *)
Lemma load_run id a (k : Label.t → cmd Ctx unit) :
  outcome (l ← load id; k l) a = Ok tt →
  ∃ l, label_at a l ∧ outcome (k l) a = Ok tt ∧ final (l ← load id; k l) a = final (k l) a.
Proof.
  unfold outcome, final, load. rewrite run_bind, run_bind_gets.
  destruct (labels a !! id) as [r|] eqn:E; simpl; [|done]. intros Ho.
  exists (row_to_label (id, r)). split; [by exists r|done].
Qed.

Lemma rename_sends id to a :
  labels_ok a → should_send_sync_msgs a = true → outcome (run_op (OpRename id to)) a = Ok tt →
  ∃ items, sends (OpRename id to) a items.
Proof.
  intros Hok Hs (l & Hl & Ho & Hf)%load_run. exists [LRename (Label.name l) (trim to)].
  unfold sends. cbn [run_op]. unfold rename. rewrite Hf. split.
  - revert Ho. unfold outcome, final, rename_ext. rewrite !run_bind.
    destruct (negb (Label.is_system l)); [|done]. simpl. rewrite !run_bind.
    destruct (negb (is_empty (trim to))); [|done]. simpl. rewrite run_bind_gets, !run_bind.
    destruct (match by_name _ _ with Some _ => _ | None => _ end); [|done]. simpl. rewrite !run_bind.
    unfold update_label_name. destruct (decide _); [|done]. intros _. simpl.
    by rewrite push_sync_item_queue.
  - intros n. rewrite rename_ext_view by done. unfold abs_step, abs_rename, abs_create.
    by rewrite normalize_trim, trim_idemp.
Qed.

Lemma set_color_sends id color a :
  labels_ok a → should_send_sync_msgs a = true → outcome (run_op (OpSetColor id color)) a = Ok tt →
  ∃ items, sends (OpSetColor id color) a items.
Proof.
  intros Hok Hs (l & Hl & Ho & Hf)%load_run. exists [LSetColor (Label.name l) color].
  unfold sends. cbn [run_op]. unfold set_color. rewrite Hf. split.
  - unfold final, set_color_ext. rewrite run_bind_modify. simpl. by rewrite push_sync_item_queue.
  - intros n. by rewrite set_color_ext_view.
Qed.

Lemma delete_sends id a :
  labels_ok a → should_send_sync_msgs a = true → outcome (run_op (OpDelete id)) a = Ok tt →
  ∃ items, sends (OpDelete id) a items.
Proof.
  intros Hok Hs (l & Hl & Ho & Hf)%load_run. exists [LDelete (Label.name l)].
  unfold sends. cbn [run_op]. unfold delete_. rewrite Hf. split.
  - revert Ho. unfold outcome, final, delete_ext. rewrite !run_bind.
    destruct (negb (Label.is_system l)); [|done]. intros _. simpl.
    by rewrite push_sync_item_queue.
  - intros n. by rewrite delete_ext_view.
Qed.

Lemma abs_step_ext i v w : (∀ n, v n = w n) → ∀ n, abs_step i v n = abs_step i w n.
Proof.
  intros E n. destruct i; simpl; unfold abs_rename, abs_delete, abs_set_color, abs_create;
    by rewrite !E.
Qed.

(** The abstract effect of a received queue. *)
Definition abs_replay (items : list (Z * SyncData)) (v : view) : view :=
  foldl (λ v it, match it.2 with SyncEmailLabel item => abs_step item v | _ => v end) v items.

Lemma abs_replay_ext items v w :
  (∀ n, v n = w n) → ∀ n, abs_replay items v n = abs_replay items w n.
Proof.
  revert v w. unfold abs_replay. induction items as [|[t [i|k x|i b|i b|ms]] items IH]; intros v w E n; simpl;
    [done| |by apply IH..]. apply IH. by apply abs_step_ext.
Qed.

Lemma execute_sync_item_ok item ts c :
  labels_ok c → labels_ok (final (execute_sync_item item ts) c).
Proof.
  intros Hok. assert (kept c c) as Hk by by split.
  by destruct (preserves_final (kept c) (execute_sync_item item ts) c
                 (preserves_execute_sync_item c item ts) Hk).
Qed.

(** C32: replaying the changes received from another device has exactly the
    effect the abstract specification [abs_step] gives them on the set of
    labels (names, colours, reserved marks), in every case: label present or
    not, reserved, name empty, name already taken. *)
Theorem replay_refines (items : list (Z * SyncData)) (c : Ctx) (n : str) :
  labels_ok c → label_view (replay items c) n = abs_replay items (label_view c) n.
Proof.
  revert c. induction items as [|[t [i|k x|i b|i b|ms]] items IH]; intros c Hok; [done| |by apply IH..].
  change (label_view (replay items (final (execute_sync_item i t) c)) n
          = abs_replay items (abs_step i (label_view c)) n).
  rewrite IH by by apply execute_sync_item_ok.
  apply abs_replay_ext. intros m. by apply execute_sync_item_view.
Qed.

(** C17: two devices that agree on the labels (names, colours, reserved marks)
    agree again after one of them creates, renames, recolours or deletes a
    label and the other replays what the first put on its sync queue, whatever
    row ids each uses; the call queues at most one item. *)
Theorem label_change_converges (o : label_op) (a b : Ctx) :
  labels_ok a → labels_ok b → (∀ n, label_view a n = label_view b n) →
  should_send_sync_msgs a = true → is_label_change o = true →
  outcome (run_op o) a = Ok tt →
  ∃ items, multi_device_sync (final (run_op o) a) = multi_device_sync a ++ items
    ∧ (length items ≤ 1)%nat
    ∧ ∀ n, label_view (final (run_op o) a) n = label_view (replay items b) n.
Proof.
  intros Ha Hb Hab Hs Ho Hok.
  assert (∃ items, sends o a items) as (items & Hq & Hv)
    by (destruct o; try done; eauto using create_sends, rename_sends, set_color_sends, delete_sends).
  eexists. split; [exact Hq|].
  destruct items as [|i [|]]; [| |done]; simpl; split; try lia; intros n; rewrite Hv.
  - apply Hab.
  - rewrite execute_sync_item_view by done. by apply abs_step_ext.
Qed.

(** ** A change that overtakes its message *)

(** The message [m] arrives as row [id] and the receive path drains what waits
    for it. *)
Definition arrive (id : Z) (m : Msg.t) (c : Ctx) : Ctx :=
  final (drain_pending id) (set_msgs <[id := m]> c).

Definition with_labels (L : gmap Z LabelRow.t) (q : Z) (c : Ctx) : Ctx :=
  set_labels_seq (λ _, q) (set_labels (λ _, L) c).

Lemma with_labels_id c : with_labels (labels c) (labels_seq c) c = c.
Proof. by destruct c. Qed.

Lemma by_name_labels c d name : labels c = labels d → by_name c name = by_name d name.
Proof. intros E. unfold by_name, rows_with_norm. by rewrite E. Qed.

(** Finding or creating a label reads and writes the label table only. *)
Lemma find_or_create_frame name color c d :
  labels c = labels d → labels_seq c = labels_seq d → clock c = clock d →
  ∃ L q r, find_or_create name color c = (with_labels L q c, r)
         ∧ find_or_create name color d = (with_labels L q d, r).
Proof.
  intros E1 E2 E3. unfold find_or_create. rewrite !run_bind_gets, <-(by_name_labels c d name E1).
  destruct (by_name c name) as [l|] eqn:E.
  { exists (labels c), (labels_seq c), (Ok l). rewrite with_labels_id.
    by rewrite E1, E2, with_labels_id. }
  unfold create_ext. rewrite !run_bind. destruct (is_empty (trim name)).
  { exists (labels c), (labels_seq c), (Err "label name cannot be empty"). rewrite with_labels_id.
    by rewrite E1, E2, with_labels_id. }
  simpl. rewrite !run_bind_gets, normalize_trim, !by_name_normalize, <-(by_name_labels c d name E1), E.
  rewrite !run_bind_gets, !run_bind_modify. simpl. rewrite !run_bind_ret, !run_bind_gets, !by_name_normalize.
  rewrite <-E3. set (row := LabelRow.mk _ _ _ _ _).
  unfold insert_label. simpl. assert (rows_with_norm c (normalize name) = []) as Hr
    by by apply rows_with_norm_nil.
  assert (rows_with_norm d (normalize name) = []) as Hr'
    by (apply rows_with_norm_nil; by rewrite <-(by_name_labels c d name E1)).
  rewrite Hr, Hr', <-E2.
  exists (<[(labels_seq c + 1)%Z := row]> (labels c)), (labels_seq c + 1)%Z.
  set (f := λ x, set_labels_seq (λ _, (labels_seq c + 1)%Z) (set_labels <[(labels_seq c + 1)%Z := row]> x)).
  assert (by_name (f c) name = by_name (f d) name) as Hb by (apply by_name_labels; simpl; by rewrite E1).
  exists (match by_name (f c) name with
          | Some l => Ok l
          | None => Err "label vanished immediately after being created"
          end).
  unfold f in *. rewrite <-Hb.
  assert (∀ x, labels x = labels c →
    set_labels_seq (λ _, (labels_seq c + 1)%Z) (set_labels <[(labels_seq c + 1)%Z := row]> x)
    = with_labels (<[(labels_seq c + 1)%Z := row]> (labels c)) (labels_seq c + 1) x) as Hw
    by (intros x <-; by destruct x).
  rewrite !Hw by done. by match goal with |- context [by_name ?x name] => destruct (by_name x name) end.
Qed.

Lemma foldl_set_msg_label id (ps : list (Z * bool)) c x l :
  NoDup ps.*1 →
  (x, l) ∈ msg_labels (foldl (λ s la, set_msg_label la.2 id la.1 s) c ps)
  ↔ (x = id ∧ (l, true) ∈ ps) ∨ ((x ≠ id ∨ l ∉ ps.*1) ∧ (x, l) ∈ msg_labels c).
Proof.
  revert c. induction ps as [|[k b] ps IH]; intros c Hnd; simpl; [set_solver|].
  apply NoDup_cons in Hnd as [Hk Hnd]. rewrite IH by done. simpl.
  assert (∀ b', (k, b') ∈ ps → False) as Hk'.
  { intros b' Hin. apply Hk, list_elem_of_fmap. by exists (k, b'). }
  destruct b; set_unfold; destruct (decide (x = id)), (decide (l = k)); subst; naive_solver.
Qed.

Lemma elem_of_pending_for c mid l b :
  (l, b) ∈ pending_for c mid ↔ ∃ t, pending_msg_labels c !! (mid, l) = Some (b, t).
Proof.
  unfold pending_for. rewrite list_elem_of_fmap. split.
  - intros ([[mid' l'] [b' t]] & Heq & Hin). simpl in Heq. apply list_elem_of_filter in Hin as [Hm Hin].
    simpl in Hm. subst. apply elem_of_map_to_list in Hin. simplify_eq. eauto.
  - intros [t Ht]. exists ((mid, l), (b, t)). split; [done|]. apply list_elem_of_filter.
    split; [done|]. by apply elem_of_map_to_list.
Qed.

Lemma NoDup_pending_for c mid : NoDup (pending_for c mid).*1.
Proof.
  unfold pending_for. rewrite <-list_fmap_compose.
  assert (∀ L : list (str * Z * (bool * Z)), NoDup L.*1 →
            NoDup ((λ kv, kv.1.2) <$> filter (λ kv, kv.1.1 = mid) L)) as Hgen.
  { induction L as [|[[m l] v] L IH]; simpl; [constructor|]. intros [Hn Hnd]%NoDup_cons.
    rewrite filter_cons. case_decide as Hm; [|by apply IH]. simpl in *. subst.
    apply NoDup_cons. split; [|by apply IH]. intros ([[m' l'] v'] & Heq & Hin)%list_elem_of_fmap.
    simpl in Heq. subst. apply list_elem_of_filter in Hin as [Hm' Hin]. simpl in Hm'. subst.
    apply Hn, list_elem_of_fmap. by exists (mid, l', v'). }
  apply Hgen. apply NoDup_fst_map_to_list.
Qed.

Lemma drain_msg_labels id m mid c x l :
  msgs c !! id = Some m → Msg.rfc724_mid m = Some mid → mid ≠ [] →
  (x, l) ∈ msg_labels (final (drain_pending id) c)
  ↔ (x = id ∧ ∃ t, pending_msg_labels c !! (mid, l) = Some (true, t))
    ∨ ((x ≠ id ∨ pending_msg_labels c !! (mid, l) = None) ∧ (x, l) ∈ msg_labels c).
Proof.
  intros Hm Hmid Hne.
  assert (pending_msg_labels c !! (mid, l) = None ↔ l ∉ (pending_for c mid).*1) as HN.
  { rewrite list_elem_of_fmap, eq_None_not_Some. split.
    - intros Hn ([l' b] & -> & Hin). apply elem_of_pending_for in Hin as [t Ht]. apply Hn. by eexists.
    - intros Hn [[b t] Hb]. apply Hn. exists (l, b). split; [done|].
      apply elem_of_pending_for. by exists t. }
  unfold final, drain_pending. rewrite run_bind_gets. simpl. rewrite Hm, Hmid. simpl.
  assert (is_empty mid = false) as -> by by destruct mid. rewrite HN, <-elem_of_pending_for.
  pose proof (foldl_set_msg_label id (pending_for c mid) c x l (NoDup_pending_for _ _)) as Hf.
  assert (is_empty (pending_for c mid) = true → pending_for c mid = []) as He
    by by destruct (pending_for c mid).
  destruct (is_empty (pending_for c mid)).
  - rewrite He by done. simpl. set_solver.
  - rewrite run_bind, for_each_modify. exact Hf.
Qed.

Lemma drain_frame id c :
  let d := final (drain_pending id) c in
  labels d = labels c ∧ labels_seq d = labels_seq c ∧ clock d = clock c ∧ msgs d = msgs c.
Proof.
  apply (preserves_final (λ d, labels d = labels c ∧ labels_seq d = labels_seq c
                               ∧ clock d = clock c ∧ msgs d = msgs c)); [|done].
  unfold drain_pending. preserve; by apply preserves_modify.
Qed.

(** The replayed change on a message this device does not have: parked. *)
Lemma sync_set_parks mid name b ts c :
  rfc724_mid_exists c mid = None →
  (∀ L q, rfc724_mid_exists (with_labels L q c) mid = rfc724_mid_exists c mid) →
  final (sync_set [mid] name b ts) c
  = match find_or_create name None c with
    | (c', Ok l) => park (Label.id l) b ts mid c'
    | (c', Err _) => c'
    end.
Proof.
  intros Hn Hframe. destruct (find_or_create_frame name None c c) as (L & q & r & E & _); [done..|].
  unfold final, sync_set. rewrite run_bind, E. destruct r as [l|e]; [|done]. rewrite run_bind_gets.
  unfold id. simpl. rewrite filter_cons, filter_nil. by rewrite !Hframe, Hn.
Qed.

(** On a message it has: the label is set at once. *)
Lemma sync_set_resolves mid i name b ts c :
  (∀ L q, rfc724_mid_exists (with_labels L q c) mid = Some i) →
  final (sync_set [mid] name b ts) c
  = match find_or_create name None c with
    | (c', Ok l) => set_msg_label b i (Label.id l) c'
    | (c', Err _) => c'
    end.
Proof.
  intros Hframe. destruct (find_or_create_frame name None c c) as (L & q & r & E & _); [done..|].
  unfold final, sync_set. rewrite run_bind, E. destruct r as [l|e]; [|done]. rewrite run_bind_gets.
  unfold id. simpl. rewrite filter_cons, filter_nil, !Hframe. done.
Qed.

(** A message a device does not have, under a plain Message-ID. *)
Record unseen (mid : str) (c : Ctx) : Prop := {
  unseen_plain : trim_end_matches 62 (trim_start_matches 60 mid) = mid;
  unseen_ne : mid ≠ [];
  unseen_rows j r : msgs c !! j = Some r → mid_matches mid r = false;
}.

Lemma unseen_exists mid c : unseen mid c → rfc724_mid_exists c mid = None.
Proof.
  intros [Hp Hne Hr]. unfold rfc724_mid_exists. rewrite Hp. destruct mid as [|k mid]; [done|].
  cbn -[mid_matches]. destruct (pick _) as [[j r]|] eqn:E; [|done].
  apply pick_in, list_elem_of_filter in E as [Hm Hj]. apply elem_of_map_to_list in Hj.
  simpl in Hm. by rewrite (Hr j r) in Hm.
Qed.

Lemma arrived_exists mid c id m :
  unseen mid c → Msg.rfc724_mid m = Some mid → msgs c !! id = None →
  rfc724_mid_exists (set_msgs <[id := m]> c) mid = Some id.
Proof.
  intros [Hp Hne Hr] Hm Hid. unfold rfc724_mid_exists. rewrite Hp. destruct mid as [|k mid]; [done|].
  cbn -[mid_matches]. destruct (pick _) as [[j r]|] eqn:E.
  - apply pick_in, list_elem_of_filter in E as [Hmm Hj]. apply elem_of_map_to_list in Hj.
    simpl in *. rewrite lookup_insert in Hj. case_decide; [by subst|].
    by rewrite (Hr j r) in Hmm.
  - apply pick_None in E.
    assert ((id, m) ∈ filter (λ r : Z * Msg.t, mid_matches (k :: mid) r.2)
                        (map_to_list (<[id := m]> (msgs c)))) as Hin.
    { apply list_elem_of_filter. split; [|by apply elem_of_map_to_list, lookup_insert_eq].
      simpl. unfold mid_matches. by rewrite Hm, bool_decide_true. }
    rewrite E in Hin. by apply not_elem_of_nil in Hin.
Qed.

Lemma elem_of_set_msg_label b i k c x l :
  (x, l) ∈ msg_labels (set_msg_label b i k c)
  ↔ (if decide ((x, l) = (i, k)) then b = true else (x, l) ∈ msg_labels c).
Proof. unfold set_msg_label. simpl. case_decide; destruct b; set_solver. Qed.

Lemma park_lookup k b ts mid c mid' l :
  (∀ b' t, pending_msg_labels c !! (mid, k) = Some (b', t) → (t ≤ ts)%Z) →
  pending_msg_labels (park k b ts mid c) !! (mid', l)
  = if decide ((mid', l) = (mid, k)) then Some (b, ts) else pending_msg_labels c !! (mid', l).
Proof.
  intros Hold. unfold park. simpl.
  destruct (pending_msg_labels c !! (mid, k)) as [[b' t]|] eqn:E.
  - specialize (Hold b' t eq_refl). rewrite (proj2 (Z.leb_le t ts)) by done.
    rewrite lookup_insert. by repeat case_decide.
  - rewrite lookup_insert. by repeat case_decide.
Qed.

Lemma park_older k b ts mid c b' t :
  pending_msg_labels c !! (mid, k) = Some (b', t) → (ts < t)%Z →
  pending_msg_labels (park k b ts mid c) = pending_msg_labels c.
Proof. intros E Ht. unfold park. cbn. rewrite E. by rewrite (proj2 (Z.leb_gt t ts)). Qed.

(** A newer change of the same label already waits for the message. *)
Definition superseded (mid name : str) (ts : Z) (c : Ctx) : bool :=
  match outcome (find_or_create name None) c with
  | Ok l => match pending_msg_labels c !! (mid, Label.id l) with Some (_, t) => (ts <? t)%Z | None => false end
  | Err _ => false
  end.

(** C20: a label change that another device made on a message this device does
    not have yet waits for it.  When the message arrives, the labels of every
    message are those of the other order, message first and change second; but
    when a newer change of that label was waiting already, they are those of the
    newer one alone, as if the older had not been made.  The other order applies
    the older change all the same ([older_change_wins]). *)
Theorem sync_commutes_with_arrival
    (mid name : str) (b : bool) (ts id : Z) (m : Msg.t) (c : Ctx) :
  unseen mid c → msgs c !! id = None → Msg.rfc724_mid m = Some mid →
  let change := execute_sync_item (if b then LApply [mid] name else LUnapply [mid] name) ts in
  msg_labels (arrive id m (final change c))
  = if superseded mid name ts c then msg_labels (arrive id m c) else msg_labels (final change (arrive id m c)).
Proof.
  intros Hun Hid Hm change.
  assert (∀ d, final change d = final (sync_set [mid] name b ts) d) as Hch by by destruct b.
  rewrite !Hch. unfold arrive. set (d := set_msgs <[id := m]> c).
  assert (msgs d !! id = Some m) as Hmd by apply lookup_insert_eq.
  assert (mid ≠ []) as Hne by by apply unseen_ne in Hun.
  set (e := final (drain_pending id) d).
  assert (labels e = labels c ∧ labels_seq e = labels_seq c ∧ clock e = clock c ∧ msgs e = msgs d)
    as (F1 & F2 & F3 & F4) by exact (drain_frame id d).
  destruct (find_or_create_frame name None c e) as (L & q & r & Ec & Ee); [done..|].
  rewrite (sync_set_parks mid name b ts c), Ec by (by apply unseen_exists || done).
  rewrite (sync_set_resolves mid id name b ts e), Ee.
  2:{ intros L' q'. unfold rfc724_mid_exists. simpl. rewrite F4. by apply arrived_exists. }
  unfold superseded, outcome. rewrite Ec. cbn [snd]. destruct r as [lab|err].
  2:{ apply set_eq. intros [x l]. rewrite (drain_msg_labels id m mid _ x l) by (apply lookup_insert_eq || done). simpl.
      unfold e. by rewrite (drain_msg_labels id m mid d x l). }
  destruct (match pending_msg_labels c !! (mid, Label.id lab) with Some (_, t) => (ts <? t)%Z | None => false end) eqn:Hsup.
  - destruct (pending_msg_labels c !! (mid, Label.id lab)) as [[b' t]|] eqn:Hp; [|done]. apply Z.ltb_lt in Hsup.
    apply set_eq. intros [x l]. rewrite (drain_msg_labels id m mid _ x l) by (apply lookup_insert_eq || done).
    cbn [pending_msg_labels set_msgs]. rewrite (park_older _ _ _ _ _ b' t) by done.
    unfold e. by rewrite (drain_msg_labels id m mid d x l).
  - assert (∀ b' t, pending_msg_labels c !! (mid, Label.id lab) = Some (b', t) → (t ≤ ts)%Z) as Hold.
    { intros b' t Hp. rewrite Hp in Hsup. by apply Z.ltb_ge in Hsup. }
    apply set_eq. intros [x l].
    set (c1 := set_msgs <[id := m]> (park (Label.id lab) b ts mid (with_labels L q c))).
    rewrite elem_of_set_msg_label. change (msg_labels (with_labels L q e)) with (msg_labels e).
    rewrite (drain_msg_labels id m mid c1 x l) by (apply lookup_insert_eq || done).
    change (pending_msg_labels c1) with
      (pending_msg_labels (park (Label.id lab) b ts mid (with_labels L q c))).
    rewrite park_lookup by (simpl; eauto).
    destruct (decide ((x, l) = (id, Label.id lab))) as [Hd|Hd].
    + simplify_eq. rewrite decide_True by done. destruct b; naive_solver.
    + unfold e. rewrite (drain_msg_labels id m mid d x l) by done.
      change (msg_labels c1) with (msg_labels c). change (msg_labels d) with (msg_labels c).
      change (pending_msg_labels d) with (pending_msg_labels c). simpl.
      case_decide; naive_solver.
Qed.

(** Agreement of two devices as a computation. *)
Definition views_agreeb (a b : Ctx) : bool :=
  forallb (λ r, bool_decide (label_view a (LabelRow.name_norm r.2)
                             = label_view b (LabelRow.name_norm r.2)))
    (map_to_list (labels a) ++ map_to_list (labels b)).

Lemma views_agreeb_sound a b :
  views_agreeb a b = true → ∀ n, label_view a n = label_view b n.
Proof.
  unfold views_agreeb. rewrite forallb_forall. intros Hall n.
  assert (∀ i r, labels a !! i = Some r ∨ labels b !! i = Some r → LabelRow.name_norm r = n →
                 label_view a n = label_view b n) as Hrow.
  { intros i r Hr <-. specialize (Hall (i, r)). apply bool_decide_eq_true in Hall; [done|].
    rewrite <-list_elem_of_In, elem_of_app, !elem_of_map_to_list. done. }
  destruct (label_view a n) eqn:Ea.
  { apply label_view_Some in Ea as Ha. destruct Ha as (i & r & Hi & Hn & _). eauto. }
  destruct (label_view b n) eqn:Eb; [|done].
  apply label_view_Some in Eb as Hb. destruct Hb as (i & r & Hi & Hn & _). eauto.
Qed.
End sync.

(** Two devices with different row ids for the same label. *)
Definition sync_on : Ctx := set_config_tbl <[lit "bcc_self" := lit "1"]> new_account.
Definition device_a : Ctx :=
  final (@create ascii_case first_choice (lit "Work") None) sync_on.
Definition device_b : Ctx :=
  foldl (λ c o, final (@run_op ascii_case first_choice o) c) new_account
    [OpCreate (lit "Old") None; OpDelete 4; OpCreate (lit "Work") None].

Lemma label_change_converges_witness :
  ∃ items, multi_device_sync (final (@run_op ascii_case first_choice (OpRename 4 (lit " Job "))) device_a)
             = multi_device_sync device_a ++ items
    ∧ (length items ≤ 1)%nat
    ∧ ∀ n, @label_view first_choice
             (final (@run_op ascii_case first_choice (OpRename 4 (lit " Job "))) device_a) n
           = @label_view first_choice (@replay ascii_case first_choice items device_b) n.
Proof.
  apply (@label_change_converges ascii_case first_choice (OpRename 4 (lit " Job ")) device_a device_b).
  - apply wf_labelsb_sound. vm_compute. reflexivity.
  - apply wf_labelsb_sound. vm_compute. reflexivity.
  - apply views_agreeb_sound. vm_compute. reflexivity.
  - vm_compute. reflexivity.
  - reflexivity.
  - vm_compute. reflexivity.
Defined.

Definition received : list (Z * SyncData) :=
  [(1%Z, SyncEmailLabel (LCreate (lit "Work") (Some 3%Z)));
   (2%Z, SyncEmailLabel (LRename (lit "work") (lit "Trash")));
   (3%Z, SyncEmailLabel (LRename (lit "WORK") (lit "Job")));
   (4%Z, SyncEmailLabel (LDelete (lit "archive")));
   (5%Z, SyncEmailLabel (LSetColor (lit "new") (Some 7%Z)))].

Lemma replay_refines_witness :
  @label_view first_choice (@replay ascii_case first_choice received new_account) (lit "job")
  = Some (lit "Job", Some 3%Z, false).
Proof.
  rewrite (@replay_refines ascii_case first_choice received new_account (lit "job") new_account_ok).
  vm_compute. reflexivity.
Defined.

(** A device that heard of a removal made at 9 before it has the message. *)
Definition removal_waits : Ctx :=
  final (@execute_sync_item ascii_case first_choice (LUnapply [lit "a@b"] (lit "Work")) 9) new_account.

Lemma sync_commutes_with_arrival_witness :
  let change := @execute_sync_item ascii_case first_choice (LApply [lit "a@b"] (lit "Work")) 7 in
  let m := incoming (lit "a@b") 12 10 5 in
  msg_labels (arrive 20 m (final change new_account))
  = msg_labels (final change (arrive 20 m new_account))
  ∧ (20%Z, 4%Z) ∈ msg_labels (arrive 20 m (final change new_account))
  ∧ msg_labels (arrive 20 m (final change removal_waits)) = msg_labels (arrive 20 m removal_waits).
Proof.
  split; [|split; [vm_compute; reflexivity|]].
  - apply (@sync_commutes_with_arrival ascii_case first_choice (lit "a@b") (lit "Work") true 7 20
             (incoming (lit "a@b") 12 10 5) new_account).
    + split; [reflexivity|discriminate|]. intros j r. change (msgs new_account) with (∅ : gmap Z Msg.t). by rewrite lookup_empty.
    + reflexivity.
    + reflexivity.
  - apply (@sync_commutes_with_arrival ascii_case first_choice (lit "a@b") (lit "Work") true 7 20
             (incoming (lit "a@b") 12 10 5) removal_waits).
    + split; [reflexivity|discriminate|]. intros j r. change (msgs removal_waits) with (∅ : gmap Z Msg.t). by rewrite lookup_empty.
    + vm_compute. reflexivity.
    + reflexivity.
Defined.

(** Once the message is there, the timestamps of changes are not compared: an
    older change that comes late undoes the newer one, and a device that got the
    message later disagrees. *)
Example older_change_wins :
  let change := @execute_sync_item ascii_case first_choice (LApply [lit "a@b"] (lit "Work")) 7 in
  let m := incoming (lit "a@b") 12 10 5 in
  ((20%Z, 4%Z) ∈ msg_labels (final change (arrive 20 m removal_waits)))
  ∧ ((20%Z, 4%Z) ∉ msg_labels (arrive 20 m (final change removal_waits))).
Proof. split; [vm_compute; reflexivity|]. intros H. vm_compute in H. discriminate H. Qed.
