(* ===== verification/Tags.v ===== *)
(** * Tags: the system tags of a message, [core/src/email/tags.rs].

    Inbox, Sent and Drafts are derived from the state of the message; Archive,
    Trash and Unverified are reserved labels.  The same rule is written twice
    in the source, per message ([of_msg]) and per view ([messages]). *)

From S2P Require Import Prelude Text Store Labels Migrations.

Module SystemTag.
Inductive t := Inbox | Unverified | Sent | Drafts | Archive | Trash.

#[global] Instance eq_dec : EqDecision t.
Proof. solve_decision. Defined.

Definition ALL : list t := [Inbox; Unverified; Sent; Drafts; Archive; Trash].

Definition stored_name (tag : t) : option str :=
  match tag with
  | Archive => Some ARCHIVE
  | Trash => Some TRASH
  | Unverified => Some UNVERIFIED
  | Inbox | Sent | Drafts => None
  end.

Definition as_str (tag : t) : str :=
  match tag with
  | Inbox => lit "inbox"
  | Unverified => lit "unverified"
  | Sent => lit "sent"
  | Drafts => lit "drafts"
  | Archive => lit "archive"
  | Trash => lit "trash"
  end.

Definition parse (s : str) : option t :=
  List.find (λ tag, eq_ignore_ascii_case (as_str tag) (trim s)) ALL.
End SystemTag.

Module Tags.
Record t := mk { system : list SystemTag.t; user : list Label.t }.
End Tags.

Definition is_incoming (state : MessageState.t) : bool :=
  MessageState.le MessageState.InFresh state && MessageState.lt state MessageState.OutDraft.

(** [query_get_value::<MessageState>]: a stored value outside the enumeration
    is an error. *)
Definition state_of (msg_id : Z) : cmd Ctx (option MessageState.t) :=
  row ← gets (λ c, msgs c !! msg_id);
  match row with
  | None => mret None
  | Some m =>
      st ← or_bail (MessageState.from_i64 (Msg.state m)) "out of range";
      mret (Some st)
  end.

Definition derived (msg_id : Z) (tag : SystemTag.t) (stored : list str) : cmd Ctx bool :=
  st ← state_of msg_id;
  match st with
  | None => mret false
  | Some state =>
      mret match tag with
           | SystemTag.Drafts => bool_decide (state = MessageState.OutDraft)
           | SystemTag.Sent =>
               MessageState.is_outgoing state && negb (bool_decide (state = MessageState.OutDraft))
           | SystemTag.Inbox => is_incoming state && is_empty stored
           | SystemTag.Archive | SystemTag.Trash | SystemTag.Unverified => false
           end
  end.

(** [SELECT .. WHERE EXISTS (.. msg_labels JOIN labels .. l.system=1)] *)
Definition filed (c : Ctx) (msg_id : Z) : bool :=
  existsb (λ r, bool_decide ((msg_id, r.1) ∈ msg_labels c) && LabelRow.system r.2)
    (map_to_list (labels c)).

Section tags.
Context `{!UnicodeCase, !SqlChoice}.

Definition of_msg (msg_id : Z) : cmd Ctx Tags.t :=
  labels ← gets (λ c, Labels.of_msg c msg_id);
  let stored := Label.name <$> filter (λ l, Label.is_system l = true) labels in
  system ← filter_each (λ tag,
      match SystemTag.stored_name tag with
      | Some name => mret (existsb (λ s, eq_ignore_ascii_case s name) stored)
      | None => derived msg_id tag stored
      end) SystemTag.ALL;
  mret (Tags.mk system (filter (λ l, Label.is_system l = false) labels)).

(** The derived half of [messages]: the rows a query selects. *)
Definition selects (c : Ctx) (tag : SystemTag.t) (r : Z * Msg.t) : bool :=
  is_live r.2
  && match tag with
     | SystemTag.Drafts => (Msg.state r.2 =? MessageState.to_i64 MessageState.OutDraft)%Z
     | SystemTag.Sent =>
         negb (Msg.hidden r.2)
         && (MessageState.to_i64 MessageState.OutDraft <? Msg.state r.2)%Z
     | SystemTag.Inbox =>
         negb (Msg.hidden r.2)
         && (MessageState.to_i64 MessageState.InFresh <=? Msg.state r.2)%Z
         && (Msg.state r.2 <? MessageState.to_i64 MessageState.OutDraft)%Z
         && negb (filed c r.1)
     | _ => false
     end.

Definition messages (tag : SystemTag.t) : cmd Ctx (list Z) :=
  match SystemTag.stored_name tag with
  | Some name =>
      label ← reserved name;
      gets (λ c, msgs_with c (Label.id label))
  | None =>
      gets (λ c, fst <$> sort_by msg_time_geb
                           (filter (λ r, selects c tag r = true) (map_to_list (msgs c))))
  end.

(** ** The two readings agree *)

(** Whether a tag applies, as a function of the tables. *)
Definition tagb (c : Ctx) (msg_id : Z) (st : MessageState.t) (tag : SystemTag.t) : bool :=
  let stored := Label.name <$> filter (λ l, Label.is_system l = true) (Labels.of_msg c msg_id) in
  match tag with
  | SystemTag.Drafts => bool_decide (st = MessageState.OutDraft)
  | SystemTag.Sent => MessageState.is_outgoing st && negb (bool_decide (st = MessageState.OutDraft))
  | SystemTag.Inbox => is_incoming st && is_empty stored
  | SystemTag.Archive => existsb (λ s, eq_ignore_ascii_case s ARCHIVE) stored
  | SystemTag.Trash => existsb (λ s, eq_ignore_ascii_case s TRASH) stored
  | SystemTag.Unverified => existsb (λ s, eq_ignore_ascii_case s UNVERIFIED) stored
  end.

Lemma of_msg_run c id m st :
  msgs c !! id = Some m → MessageState.from_i64 (Msg.state m) = Some st →
  of_msg id c = (c, Ok (Tags.mk (filter (λ tag, tagb c id st tag = true) SystemTag.ALL)
                          (filter (λ l, Label.is_system l = false) (Labels.of_msg c id)))).
Proof.
  intros Hm Hst. unfold of_msg. rewrite run_bind_gets, run_bind.
  rewrite (filter_each_reads _ (tagb c id st)); [done|].
  intros tag _. destruct tag; simpl; try done;
    unfold derived, state_of; rewrite run_bind, run_bind_gets, Hm, run_bind, Hst; done.
Qed.

Lemma stored_empty c id :
  is_empty (Label.name <$> filter (λ l, Label.is_system l = true) (Labels.of_msg c id))
  = negb (filed c id).
Proof.
  assert (filed c id = true ↔ ∃ l, l ∈ Labels.of_msg c id ∧ Label.is_system l = true) as Hf.
  { unfold filed. rewrite existsb_exists. setoid_rewrite elem_of_of_msg. split.
    - intros ([i r] & Hin & Hb). apply andb_prop in Hb as [Hb Hs]. apply bool_decide_eq_true in Hb.
      rewrite <-list_elem_of_In, elem_of_map_to_list in Hin. exists (row_to_label (i, r)). eauto 10.
    - intros (l & (i & r & Hr & Hin & ->) & Hs). exists (i, r).
      rewrite <-list_elem_of_In, elem_of_map_to_list. simpl in *.
      by rewrite bool_decide_true by done. }
  destruct (filter _ _) as [|l ls] eqn:E; simpl; destruct (filed c id) eqn:F; try done.
  - destruct (proj1 Hf eq_refl) as (l & Hl & Hs).
    assert (l ∈ filter (λ l, Label.is_system l = true) (Labels.of_msg c id)) as Hin
      by by apply list_elem_of_filter. rewrite E in Hin. by apply not_elem_of_nil in Hin.
  - assert (l ∈ filter (λ l, Label.is_system l = true) (Labels.of_msg c id)) as Hin
      by (rewrite E; set_solver). apply list_elem_of_filter in Hin.
    assert (false = true) by (apply Hf; exists l; tauto). done.
Qed.

(** A system label whose name matches a reserved one is that label. *)
Lemma stored_match c id n norm :
  labels_ok c → n ∈ RESERVED → normalize n = norm → ascii_lower <$> n = norm → trim norm = norm →
  existsb (λ s, eq_ignore_ascii_case s n)
    (Label.name <$> filter (λ l, Label.is_system l = true) (Labels.of_msg c id)) = true
  ↔ ∃ i r, labels c !! i = Some r ∧ LabelRow.name_norm r = normalize n ∧ (id, i) ∈ msg_labels c.
Proof.
  intros Hok Hn Hnorm Hlow Htrim. rewrite existsb_exists. split.
  - intros (s & Hin & Heq). rewrite <-list_elem_of_In, list_elem_of_fmap in Hin.
    destruct Hin as (l & -> & Hl). apply list_elem_of_filter in Hl as [Hs Hl].
    apply elem_of_of_msg in Hl as (i & r & Hr & Hil & ->). exists i, r. split_and!; [done| |done].
    rewrite (lok_norm _ c Hok i r Hr), Hnorm. unfold eq_ignore_ascii_case in Heq.
    apply bool_decide_eq_true in Heq. simpl in Heq. rewrite Hlow in Heq.
    unfold normalize. rewrite lower_trim.
    rewrite (lower_ascii (LabelRow.name r)); [by rewrite Heq|].
    assert (forallb is_ascii (ascii_lower <$> LabelRow.name r) = true) as Ha.
    { rewrite Heq, <-Hlow. clear -Hn. unfold RESERVED in Hn.
      repeat (apply elem_of_cons in Hn as [->|Hn]; [by vm_compute|]). by apply not_elem_of_nil in Hn. }
    by apply ascii_lower_ascii.
  - intros (i & r & Hr & Hnr & Hin).
    destruct (reserved_run c n Hok Hn) as (j & s & Hs & Hns & Hsys & _).
    assert (i = j) as -> by (eapply (lok_unique _ c Hok); eauto; congruence).
    assert (s = r) as -> by congruence.
    destruct (lok_reserved _ c Hok n Hn) as (k & t & Ht & Htn & Hts).
    assert (k = j) as -> by (eapply (lok_unique _ c Hok); eauto;
      rewrite (lok_norm _ c Hok _ _ Ht), Htn; done).
    assert (t = r) as -> by congruence.
    exists n. split; [|unfold eq_ignore_ascii_case; by apply bool_decide_eq_true].
    rewrite <-list_elem_of_In, list_elem_of_fmap. exists (row_to_label (j, r)). split; [done|].
    apply list_elem_of_filter. split; [done|]. apply elem_of_of_msg. eauto 10.
Qed.

Lemma from_i64_Some z st : MessageState.from_i64 z = Some st → z = MessageState.to_i64 st.
Proof. unfold MessageState.from_i64. intros [_ Hz%Z.eqb_eq]%List.find_some. done. Qed.

Lemma messages_stored c tag name :
  labels_ok c → SystemTag.stored_name tag = Some name →
  ∃ i r, labels c !! i = Some r ∧ LabelRow.name_norm r = normalize name
    ∧ messages tag c = (c, Ok (msgs_with c i)).
Proof.
  intros Hok Hname. assert (name ∈ RESERVED) as Hn.
  { destruct tag; try done; injection Hname as <-; unfold RESERVED; set_solver. }
  destruct (reserved_run c name Hok Hn) as (i & r & Hr & Hnr & _ & Hrun).
  exists i, r. split_and!; [done..|]. unfold messages. rewrite Hname, run_bind, Hrun. done.
Qed.

Lemma elem_of_messages c tag id m st :
  labels_ok c → msgs c !! id = Some m → MessageState.from_i64 (Msg.state m) = Some st →
  is_live m = true → Msg.hidden m = false ∨ tag = SystemTag.Drafts →
  ∃ ids, messages tag c = (c, Ok ids) ∧ (id ∈ ids ↔ tagb c id st tag = true).
Proof.
  intros Hok Hm Hst Hlive Hvis. destruct (SystemTag.stored_name tag) as [name|] eqn:Hname.
  - destruct (messages_stored c tag name Hok Hname) as (i & r & Hr & Hnr & ->).
    eexists. split; [done|]. rewrite elem_of_msgs_with.
    assert (Msg.hidden m = false) as Hh by (destruct Hvis; [done|by subst]).
    assert (tagb c id st tag = true ↔
      ∃ i r, labels c !! i = Some r ∧ LabelRow.name_norm r = normalize name ∧ (id, i) ∈ msg_labels c) as ->.
    { assert (∀ n, SystemTag.stored_name tag = Some n → n ∈ RESERVED) as Hres
        by (intros n Hn; destruct tag; try done; injection Hn as <-; unfold RESERVED; set_solver).
      destruct tag; try done; injection Hname as <-; unfold tagb.
      - eapply stored_match; [done|by apply Hres|apply norm_unverified|reflexivity|reflexivity].
      - eapply (stored_match _ _ _ (lit "archive"));
          [done|by apply Hres|by apply norm_literal; vm_compute|reflexivity|reflexivity].
      - eapply stored_match; [done|by apply Hres|apply norm_trash|reflexivity|reflexivity]. }
    split.
    + intros (m' & _ & Hin & _). by exists i, r.
    + intros (j & s & Hs & Hns & Hin). exists m.
      assert (i = j) as -> by (eapply (lok_unique _ c Hok); eauto; congruence). done.
  - exists (fst <$> sort_by msg_time_geb (filter (λ r, selects c tag r = true) (map_to_list (msgs c)))).
    split; [unfold messages; by rewrite Hname|].
    assert (selects c tag (id, m) = tagb c id st tag) as <-.
    { apply from_i64_Some in Hst. unfold selects, tagb. cbn [fst snd]. rewrite Hlive, stored_empty, Hst. simpl.
      destruct tag; try done.
      - destruct Hvis as [->|]; [|done]. destruct st; simpl; by rewrite ?andb_true_r, ?andb_false_r.
      - destruct Hvis as [->|]; [|done]. by destruct st.
      - by destruct st. }
    rewrite list_elem_of_fmap. split.
    + intros ([i m'] & -> & Hin). rewrite elem_of_sort_by, list_elem_of_filter in Hin.
      destruct Hin as [Hp Hin]. apply elem_of_map_to_list in Hin. simpl in *. congruence.
    + intros Hs. exists (id, m). split; [done|].
      rewrite elem_of_sort_by, list_elem_of_filter. split; [done|]. by apply elem_of_map_to_list.
Qed.

(** Mail a system label files is listed by the view of that label. *)
Lemma filed_has_view c id st : labels_ok c → filed c id = true → ∃ tag, tagb c id st tag = true.
Proof.
  intros Hok Hf. unfold filed in Hf. apply existsb_exists in Hf as ([i r] & Hin & Hb).
  apply andb_prop in Hb as [Hb Hs]. apply bool_decide_eq_true in Hb. simpl in Hb, Hs.
  rewrite <-list_elem_of_In, elem_of_map_to_list in Hin.
  pose proof (lok_system _ c Hok i r Hin Hs) as Hn.
  assert (LabelRow.name r ∈ Label.name <$> filter (λ l, Label.is_system l = true) (Labels.of_msg c id))
    as Hl.
  { apply list_elem_of_fmap. exists (row_to_label (i, r)). split; [done|]. apply list_elem_of_filter.
    split; [done|]. apply elem_of_of_msg. eauto 10. }
  assert (∀ n, LabelRow.name r = n →
    existsb (λ s, eq_ignore_ascii_case s n)
      (Label.name <$> filter (λ l, Label.is_system l = true) (Labels.of_msg c id)) = true) as Hex.
  { intros n <-. apply existsb_exists. exists (LabelRow.name r). rewrite <-list_elem_of_In.
    split; [done|]. unfold eq_ignore_ascii_case. by apply bool_decide_eq_true. }
  unfold RESERVED in Hn. apply elem_of_cons in Hn as [Hn|Hn]; [by exists SystemTag.Archive; apply Hex|].
  apply elem_of_cons in Hn as [Hn|Hn]; [by exists SystemTag.Trash; apply Hex|].
  apply list_elem_of_singleton in Hn. by exists SystemTag.Unverified; apply Hex.
Qed.

(** The tags shown on a message and the views that list messages agree: for
    every message that is not a tombstone (and not hidden, unless the view is
    Drafts) and every system tag, the message carries the tag exactly when the
    view of the tag lists it. *)
Theorem tags_agree_with_views (c : Ctx) (tag : SystemTag.t) (id : Z) (m : Msg.t) (st : MessageState.t) :
  labels_ok c → msgs c !! id = Some m → MessageState.from_i64 (Msg.state m) = Some st →
  is_live m = true → Msg.hidden m = false ∨ tag = SystemTag.Drafts →
  ∃ tags ids, outcome (of_msg id) c = Ok tags ∧ outcome (messages tag) c = Ok ids
    ∧ (tag ∈ Tags.system tags ↔ id ∈ ids).
Proof.
  intros Hok Hm Hst Hlive Hvis.
  destruct (elem_of_messages c tag id m st Hok Hm Hst Hlive Hvis) as (ids & Hrun & Hin).
  eexists _, ids. unfold outcome. rewrite (of_msg_run c id m st Hm Hst), Hrun.
  split_and!; [done..|]. rewrite Hin. simpl Tags.system. rewrite list_elem_of_filter.
  unfold SystemTag.ALL. destruct tag; set_solver.
Qed.

(** No mail is invisible and none is in two mailboxes at once: a message
    that is not a tombstone, not hidden, and has a state, is listed by at least
    one system view, and by at most one of Inbox, Sent and Drafts. *)
Theorem every_message_has_a_view (c : Ctx) (id : Z) (m : Msg.t) (st : MessageState.t) :
  labels_ok c → msgs c !! id = Some m → MessageState.from_i64 (Msg.state m) = Some st →
  st ≠ MessageState.Undefined → is_live m = true → Msg.hidden m = false →
  (∃ tag ids, outcome (messages tag) c = Ok ids ∧ id ∈ ids)
  ∧ ∀ t1 t2 ids1 ids2,
      SystemTag.stored_name t1 = None → SystemTag.stored_name t2 = None →
      outcome (messages t1) c = Ok ids1 → outcome (messages t2) c = Ok ids2 →
      id ∈ ids1 → id ∈ ids2 → t1 = t2.
Proof.
  intros Hok Hm Hst Hne Hlive Hvis.
  assert (∀ tag, ∃ ids, messages tag c = (c, Ok ids) ∧ (id ∈ ids ↔ tagb c id st tag = true)) as Hrun
    by (intros tag; by apply (elem_of_messages c tag id m st); auto).
  unfold outcome. split.
  - assert (∃ tag, tagb c id st tag = true) as [tag Ht].
    { destruct (is_empty (Label.name <$> filter (λ l, Label.is_system l = true) (Labels.of_msg c id)))
        eqn:E.
      - unfold tagb. destruct st; try done;
          first [by exists SystemTag.Inbox; simpl; rewrite E|by exists SystemTag.Sent|by exists SystemTag.Drafts].
      - apply (filed_has_view c id st Hok). by rewrite stored_empty in E; destruct (filed c id). }
    destruct (Hrun tag) as (ids & E & Hin). exists tag, ids. rewrite E. split; [done|]. by apply Hin.
  - intros t1 t2 ids1 ids2 H1 H2. destruct (Hrun t1) as (i1 & -> & Hi1), (Hrun t2) as (i2 & -> & Hi2).
    intros [= <-] [= <-]. rewrite Hi1, Hi2. by destruct t1, t2, st.
Qed.
End tags.

Lemma as_str_lower tag : ascii_lower <$> SystemTag.as_str tag = SystemTag.as_str tag.
Proof. by destruct tag. Qed.

Lemma as_str_inj t u : SystemTag.as_str t = SystemTag.as_str u → t = u.
Proof. by destruct t, u. Qed.

(** Parsing inverts printing, up to surrounding blanks and ASCII case, and
    accepts nothing else: no string names two tags. *)
Theorem system_tag_parse_iff (s : str) (tag : SystemTag.t) :
  SystemTag.parse s = Some tag ↔ ascii_lower <$> trim s = SystemTag.as_str tag.
Proof.
  assert (∀ u, eq_ignore_ascii_case (SystemTag.as_str u) (trim s) = true
               ↔ ascii_lower <$> trim s = SystemTag.as_str u) as Heq.
  { intros u. unfold eq_ignore_ascii_case. rewrite bool_decide_eq_true, as_str_lower.
    split; congruence. }
  unfold SystemTag.parse. split.
  - intros [_ Hf]%List.find_some. by apply Heq.
  - intros Ht. destruct (List.find _ _) as [u|] eqn:E.
    + apply List.find_some in E as [_ Hu%Heq]. f_equal. apply as_str_inj. congruence.
    + apply List.find_none with (x := tag) in E; [|by destruct tag; simpl; tauto].
      rewrite (proj2 (Heq tag) Ht) in E. done.
Qed.

Lemma tags_agree_with_views_witness :
  ∃ tags ids, outcome (of_msg 20) one_message = Ok tags
    ∧ outcome (@messages ascii_case first_choice SystemTag.Inbox) one_message = Ok ids
    ∧ (SystemTag.Inbox ∈ Tags.system tags ↔ 20%Z ∈ ids).
Proof.
  apply (@tags_agree_with_views ascii_case first_choice one_message SystemTag.Inbox 20
           (incoming (lit "a@b") 12 10 5) MessageState.InFresh one_message_ok).
  - reflexivity.
  - reflexivity.
  - reflexivity.
  - left. reflexivity.
Defined.

Lemma every_message_has_a_view_witness :
  ∃ tag ids, outcome (@messages ascii_case first_choice tag) one_message = Ok ids ∧ 20%Z ∈ ids.
Proof.
  apply (@every_message_has_a_view ascii_case first_choice one_message 20
           (incoming (lit "a@b") 12 10 5) MessageState.InFresh one_message_ok).
  - reflexivity.
  - reflexivity.
  - discriminate.
  - reflexivity.
  - reflexivity.
Defined.
