(* ===== verification/Trash.v ===== *)
(** * Trash: the recoverable trash, [core/src/email/ephemeral.rs], and core's
    expiry sweep, [core/src/ephemeral.rs], which it intercepts.

    The reserved label [Trash] says what is in the trash; the table
    [trashed_msgs] says until when it can be taken back.  A message is
    destroyed by rewriting its row into a tombstone ([Store.tombstone]). *)

From S2P Require Import Prelude Text Store Labels Migrations.

(** [ephemeral::Timer]; a duration is never 0. *)
Module Timer.
Inductive t := Disabled | Enabled (duration : Z).

#[global] Instance eq_dec : EqDecision t.
Proof. solve_decision. Defined.

Definition to_u32 (timer : t) : Z :=
  match timer with Disabled => 0 | Enabled duration => duration end.

Definition from_u32 (duration : Z) : t :=
  if (duration =? 0)%Z then Disabled else Enabled duration.
End Timer.

(** Why a message is in the trash. *)
Module Reason.
Inductive t := Deleted | Expired | Unaccepted | Blocked.

#[global] Instance eq_dec : EqDecision t.
Proof. solve_decision. Defined.

Definition to_i64 (r : t) : Z :=
  match r with Deleted => 0 | Expired => 1 | Unaccepted => 2 | Blocked => 3 end.

Definition from_i64 (value : Z) : t :=
  match value with 1 => Expired | 2 => Unaccepted | 3 => Blocked | _ => Deleted end%Z.
End Reason.

(** What the trash knows about a message. *)
Module Trashed.
Record t := mk { trashed_at : Z; purge_at : Z; reason : Reason.t }.
End Trashed.

Definition DEFAULT_PURGE_DAYS : Z := 30.

Definition purge_days (c : Ctx) : Z := get_config_int c Config.TrashPurgeDays.

Definition set_purge_days (days : Z) : cmd Ctx unit :=
  set_config Config.TrashPurgeDays (Some (show_Z (Z.max days 0))).

Definition purge_secs (c : Ctx) : Z := sat_mul (purge_days c) 86400.

(** Rows whose ephemeral timer has fired: the query [divert] and
    [select_expired_messages] share. *)
Definition timer_fired (now : Z) (m : Msg.t) : bool :=
  negb (Msg.ephemeral_timestamp m =? 0)%Z && (Msg.ephemeral_timestamp m <=? now)%Z && is_live m.

Definition clear_timer (id : Z) : Ctx → Ctx :=
  set_msgs (alter (with_ephemeral_timestamp 0) id).

(** [INSERT INTO trashed_msgs .. ON CONFLICT(msg_id) DO NOTHING] *)
Definition insert_trashed (row : TrashedRow.t) (id : Z) : Ctx → Ctx :=
  set_trashed_msgs (λ t, match t !! id with Some _ => t | None => <[id := row]> t end).

Section trash.
Context `{!UnicodeCase, !SqlChoice}.

Definition to_trash (ids : list Z) (reason : Reason.t) (now : Z) : cmd Ctx unit :=
  if is_empty ids then mret tt
  else
    trash_label ← reserved TRASH;
    let sync := match reason with
                | Reason.Deleted => Sync.Sync
                | Reason.Expired | Reason.Unaccepted | Reason.Blocked => Sync.Nosync
                end in
    set_ext ids trash_label true sync ;;
    secs ← gets purge_secs;
    let purge_at := sat_add now secs in
    for_each ids (λ id,
      modify (insert_trashed (TrashedRow.mk now purge_at (Reason.to_i64 reason)) id)).

Definition divert (now : Z) : cmd Ctx nat :=
  days ← gets purge_days;
  if (days <=? 0)%Z then mret 0
  else
    expired ← gets (λ c, fst <$> filter (λ r, timer_fired now r.2 = true) (map_to_list (msgs c)));
    if is_empty expired then mret 0
    else
      to_trash expired Reason.Expired now ;;
      for_each expired (λ id, modify (clear_timer id)) ;;
      mret (length expired).

Definition trash (ids : list Z) : cmd Ctx unit :=
  now ← gets clock; to_trash ids Reason.Deleted now.

Definition restore (ids : list Z) : cmd Ctx unit :=
  if is_empty ids then mret tt
  else
    trash_label ← reserved TRASH;
    set_ext ids trash_label false Sync.Sync ;;
    for_each ids (λ id,
      modify (set_trashed_msgs (delete id)) ;; modify (clear_timer id)).

Definition trashed (c : Ctx) (id : Z) : option Trashed.t :=
  (λ r, Trashed.mk (TrashedRow.trashed_at r) (TrashedRow.purge_at r)
          (Reason.from_i64 (TrashedRow.reason r))) <$> trashed_msgs c !! id.

Definition set_message_timer (id : Z) (timer : Timer.t) : cmd Ctx unit :=
  now ← gets clock;
  let expires_at := match timer with
                    | Timer.Disabled => 0%Z
                    | Timer.Enabled duration => sat_add now duration
                    end in
  modify (set_msgs (alter (with_ephemeral_timestamp expires_at) id)).

Definition message_expires_at (c : Ctx) (id : Z) : option Z :=
  m ← msgs c !! id;
  if (Msg.ephemeral_timestamp m =? 0)%Z then None else Some (Msg.ephemeral_timestamp m).

Definition in_trash : cmd Ctx (list Z) :=
  trash_label ← reserved TRASH; gets (λ c, msgs_with c (Label.id trash_label)).

(** The messages a label is on. *)
Definition labelled (c : Ctx) (label_id : Z) : gset Z :=
  set_map fst (filter (λ ml, ml.2 = label_id) (msg_labels c)).

(** The two statements of [reconcile]'s transaction. *)
Definition drop_unlabelled (label_id : Z) (c : Ctx) : Ctx :=
  set_trashed_msgs (filter (λ kv, kv.1 ∈ labelled c label_id)) c.

Definition add_labelled (label_id : Z) (row : TrashedRow.t) (c : Ctx) : Ctx :=
  set_trashed_msgs (λ t, t ∪ gset_to_gmap row (labelled c label_id)) c.

Definition reconcile (now : Z) : cmd Ctx unit :=
  trash_label ← reserved TRASH;
  secs ← gets purge_secs;
  let purge_at := sat_add now secs in
  modify (drop_unlabelled (Label.id trash_label)) ;;
  modify (add_labelled (Label.id trash_label)
            (TrashedRow.mk now purge_at (Reason.to_i64 Reason.Deleted))).

Definition destroy (ids : list Z) : cmd Ctx nat :=
  if is_empty ids then mret 0
  else
    for_each ids (λ id, modify (trash_msg true id)) ;;
    for_each ids (λ id, modify (set_trashed_msgs (delete id))) ;;
    mret (length ids).

(** [DELETE FROM trashed_msgs WHERE msg_id NOT IN (SELECT id FROM msgs WHERE
    chat_id!=3)], which returns the number of rows deleted. *)
Definition drop_tombstoned : cmd Ctx nat := λ c,
  let gone := filter (λ kv : Z * TrashedRow.t, live_msg c kv.1 = false) (trashed_msgs c) in
  (set_trashed_msgs (filter (λ kv, live_msg c kv.1 = true)) c, Ok (size gone)).

Definition purge : cmd Ctx nat :=
  now ← gets clock;
  reconcile now ;;
  due ← gets (λ c, fst <$> filter (λ r, (TrashedRow.purge_at r.2 <= now)%Z)
                                  (map_to_list (trashed_msgs c)));
  if is_empty due then drop_tombstoned else destroy due.

Definition destroy_now (ids : list Z) : cmd Ctx nat :=
  if is_empty ids then mret 0
  else
    now ← gets clock;
    reconcile now ;;
    trashed ← gets (λ c, filter (λ id, is_Some (trashed_msgs c !! id)) ids);
    destroy trashed.

Definition empty : cmd Ctx nat :=
  now ← gets clock;
  reconcile now ;;
  ids ← in_trash;
  destroy ids.

(** ** Core's expiry sweep *)

Definition get_config_delete_device_after (c : Ctx) : option Z :=
  let x := get_config_int c Config.DeleteDeviceAfter in
  if (x =? 0)%Z then None else Some x.

(** [ChatIdBlocked::lookup_by_contact]: the 1:1 chat with a contact.  A stored
    [blocked] outside its enumeration is an error. *)
Definition lookup_by_contact (contact_id : Z) : cmd Ctx (option (Z * Z)) :=
  ensure (negb (contact_id =? ContactId.UNDEFINED)%Z) "Invalid contact id requested" ;;
  c ← gets id;
  match pick (filter (λ r, ChatRow.typ r.2 = 100%Z ∧ (DC_CHAT_ID_LAST_SPECIAL < r.1)%Z
                           ∧ (r.1, contact_id) ∈ chats_contacts c)
                     (map_to_list (chats c))) with
  | Some (i, row) =>
      ensure ((0 <=? ChatRow.blocked row) && (ChatRow.blocked row <=? 2))%Z "out of range" ;;
      mret (Some (i, ChatRow.blocked row))
  | None => mret None
  end.

(** [.map(|c| c.id).unwrap_or_default()] *)
Definition chat_id_or_default (o : option (Z * Z)) : Z := from_option fst 0%Z o.

(** A NULL timestamp is not less than anything. *)
Definition older_than (threshold : Z) (m : Msg.t) : bool :=
  match Msg.timestamp m with Some t => (t <? threshold)%Z | None => false end
  && (Msg.timestamp_rcvd m <? threshold)%Z.

Definition select_expired_messages (now : Z) : cmd Ctx (list Z) :=
  rows ← gets (λ c, fst <$> filter (λ r, timer_fired now r.2 = true) (map_to_list (msgs c)));
  after ← gets get_config_delete_device_after;
  match after with
  | None => mret rows
  | Some delete_device_after =>
      self ← lookup_by_contact ContactId.SELF;
      device ← lookup_by_contact ContactId.DEVICE;
      let threshold := sat_sub now delete_device_after in
      rows_expired ← gets (λ c,
        fst <$> filter (λ r, older_than threshold r.2 = true
                             ∧ (DC_CHAT_ID_LAST_SPECIAL < Msg.chat_id r.2)%Z
                             ∧ Msg.chat_id r.2 ≠ chat_id_or_default self
                             ∧ Msg.chat_id r.2 ≠ chat_id_or_default device)
                       (map_to_list (msgs c)));
      mret (rows ++ rows_expired)
  end.

Definition delete_expired_messages (now : Z) : cmd Ctx unit :=
  attempt (divert now) ;;
  rows ← select_expired_messages now;
  for_each rows (λ id, modify (trash_msg false id)).

(** ** What the statements do *)

(** The row of the reserved label [n]. *)
Definition label_row (c : Ctx) (n : str) (i : Z) : Prop :=
  ∃ r, labels c !! i = Some r ∧ LabelRow.name_norm r = normalize n.

(** The message is in the trash the user sees. *)
Definition trashed_label (c : Ctx) (id : Z) : Prop :=
  ∃ i, label_row c TRASH i ∧ (id, i) ∈ msg_labels c.

Lemma label_row_unique c n i j : labels_ok c → label_row c n i → label_row c n j → i = j.
Proof. intros Hok (r & Hr & Hn) (s & Hs & Hm). eapply (lok_unique _ c Hok); eauto; congruence. Qed.

Lemma reserved_at c n :
  labels_ok c → n ∈ RESERVED →
  ∃ l, reserved n c = (c, Ok l) ∧ label_row c n (Label.id l).
Proof.
  intros Hok Hn. destruct (reserved_run c n Hok Hn) as (i & r & Hr & Hnr & _ & Hrun).
  eexists. split; [exact Hrun|]. by exists r.
Qed.

Lemma trash_reserved : TRASH ∈ RESERVED.
Proof. unfold RESERVED. set_solver. Qed.

Lemma elem_of_labelled c i x : x ∈ labelled c i ↔ (x, i) ∈ msg_labels c.
Proof.
  unfold labelled. rewrite elem_of_map. split.
  - intros ([y j] & -> & Hin). apply elem_of_filter in Hin as [Hj Hin]. simpl in *. by subst.
  - intros Hin. exists (x, i). split; [done|]. by apply elem_of_filter.
Qed.

Lemma foldl_insert_trashed row ids c :
  let t := trashed_msgs (foldl (λ c id, insert_trashed row id c) c ids) in
  foldl (λ c id, insert_trashed row id c) c ids = set_trashed_msgs (λ _, t) c
  ∧ ∀ x, t !! x = match trashed_msgs c !! x with
                  | Some r => Some r
                  | None => if decide (x ∈ ids) then Some row else None
                  end.
Proof.
  revert c. induction ids as [|i ids IH]; intros c; simpl.
  - split; [by destruct c|]. intros x. by destruct (_ !! x).
  - destruct (IH (insert_trashed row i c)) as [E L]. split.
    + rewrite E at 1. by destruct c.
    + intros x. rewrite L. unfold insert_trashed. simpl.
      destruct (trashed_msgs c !! i) as [r|] eqn:Ei.
      * destruct (trashed_msgs c !! x) eqn:Ex; [done|]. assert (x ≠ i) by congruence.
        destruct (decide (x ∈ ids)), (decide (x ∈ i :: ids)); set_solver.
      * rewrite lookup_insert. case_decide; subst.
        { rewrite Ei, decide_True by set_solver. done. }
        destruct (trashed_msgs c !! x); [done|].
        destruct (decide (x ∈ ids)), (decide (x ∈ i :: ids)); set_solver.
Qed.

Lemma to_trash_run ids reason now c :
  labels_ok c → ids ≠ [] →
  ∃ i q t, label_row c TRASH i
    ∧ to_trash ids reason now c
      = (set_trashed_msgs (λ _, t)
           (set_multi_device_sync (λ _, q) (set_msg_labels (mark true ids i) c)), Ok tt)
    ∧ (∀ x, t !! x = match trashed_msgs c !! x with
                     | Some r => Some r
                     | None => if decide (x ∈ ids)
                               then Some (TrashedRow.mk now (sat_add now (purge_secs c))
                                            (Reason.to_i64 reason))
                               else None
                     end)
    ∧ (reason ≠ Reason.Deleted → q = multi_device_sync c).
Proof.
  intros Hok Hne. destruct (reserved_at c TRASH Hok trash_reserved) as (l & Hrun & Hl).
  unfold to_trash. assert (is_empty ids = false) as -> by by destruct ids.
  rewrite run_bind, Hrun. set (sync := match reason with Reason.Deleted => _ | _ => _ end).
  destruct (set_ext_run ids l true sync c) as (q & Hset & Hq).
  rewrite run_bind, Hset, run_bind_gets, for_each_modify.
  set (d := set_multi_device_sync _ _).
  set (row := TrashedRow.mk _ _ _).
  destruct (foldl_insert_trashed row ids d) as [E L].
  exists (Label.id l), q, (trashed_msgs (foldl (λ c id, insert_trashed row id c) d ids)).
  split_and!; [done| |exact L|].
  - by rewrite E at 1.
  - intros Hr. apply Hq. by destruct reason.
Qed.

Lemma reconcile_run now c :
  labels_ok c →
  ∃ i t, label_row c TRASH i
    ∧ reconcile now c = (set_trashed_msgs (λ _, t) c, Ok tt)
    ∧ ∀ x, t !! x = if decide ((x, i) ∈ msg_labels c)
                    then Some (default (TrashedRow.mk now (sat_add now (purge_secs c)) 0)
                                 (trashed_msgs c !! x))
                    else None.
Proof.
  intros Hok. destruct (reserved_at c TRASH Hok trash_reserved) as (l & Hrun & Hl).
  unfold reconcile. rewrite run_bind, Hrun, run_bind_gets, run_bind_modify, run_modify.
  set (row := TrashedRow.mk _ _ _). set (i := Label.id l) in *.
  exists i, (trashed_msgs (add_labelled i row (drop_unlabelled i c))).
  split_and!; [done|by destruct c|]. intros x. simpl.
  rewrite lookup_union, lookup_gset_to_gmap.
  change (labelled (drop_unlabelled i c) i) with (labelled c i).
  destruct (decide ((x, i) ∈ msg_labels c)) as [Hin|Hin]; rewrite <-elem_of_labelled in Hin.
  - rewrite option_guard_True by done. destruct (trashed_msgs c !! x) as [r|] eqn:E; simpl.
    + rewrite (map_lookup_filter_Some_2 _ _ x r) by done. done.
    + rewrite map_lookup_filter, E. done.
  - rewrite option_guard_False by done. rewrite map_lookup_filter_None_2; [done|].
    right. intros r _. done.
Qed.

Lemma tombstone_idemp b m : tombstone b (tombstone b m) = tombstone b m.
Proof. done. Qed.

(** A loop that updates rows by an idempotent function. *)
Lemma foldl_alter_msgs (f : Msg.t → Msg.t) ids c :
  (∀ m, f (f m) = f m) →
  let M := msgs (foldl (λ c id, set_msgs (alter f id) c) c ids) in
  foldl (λ c id, set_msgs (alter f id) c) c ids = set_msgs (λ _, M) c
  ∧ ∀ x, M !! x = if decide (x ∈ ids) then f <$> msgs c !! x else msgs c !! x.
Proof.
  intros Hf. revert c.
  induction ids as [|i ids IH]; intros c; cbn [foldl]; [by split; [destruct c|]|].
  destruct (IH (set_msgs (alter f i) c)) as [E L]. split.
  - rewrite E at 1. by destruct c.
  - intros x. rewrite L. unfold set_msgs. cbn [msgs]. rewrite lookup_alter.
    destruct (decide (i = x)), (decide (x ∈ ids)), (decide (x ∈ i :: ids));
      try set_solver; subst; destruct (msgs c !! _); simpl; congruence.
Qed.

Lemma foldl_delete_trashed ids c :
  foldl (λ c id, set_trashed_msgs (delete id) c) c ids
  = set_trashed_msgs (λ t, filter (λ kv, kv.1 ∉ ids) t) c.
Proof.
  revert c. induction ids as [|i ids IH]; intros c; simpl.
  - destruct c. unfold set_trashed_msgs. simpl. f_equal.
    symmetry. apply map_filter_id. set_solver.
  - rewrite IH. unfold set_trashed_msgs at 1 2 3. simpl. f_equal. apply map_eq. intros x.
    apply option_eq. intros r. rewrite !map_lookup_filter_Some, lookup_delete_Some. simpl.
    rewrite not_elem_of_cons. naive_solver.
Qed.

Lemma destroy_run ids c :
  ∃ M, destroy ids c
       = (set_trashed_msgs (λ t, filter (λ kv, kv.1 ∉ ids) t) (set_msgs (λ _, M) c), Ok (length ids))
     ∧ ∀ x, M !! x = if decide (x ∈ ids) then tombstone true <$> msgs c !! x else msgs c !! x.
Proof.
  unfold destroy. destruct ids as [|i ids'] eqn:E; [|rewrite <-E].
  { exists (msgs c). split; [|done]. simpl. unfold mret, cmd_ret. f_equal.
    destruct c. unfold set_trashed_msgs, set_msgs. simpl. f_equal.
    symmetry. apply map_filter_id. set_solver. }
  assert (is_empty ids = false) as -> by by subst.
  destruct (foldl_alter_msgs (tombstone true) ids c (tombstone_idemp true)) as [F L].
  rewrite run_bind, for_each_modify, run_bind, for_each_modify, foldl_delete_trashed.
  unfold trash_msg. eexists. split; [by rewrite F at 1|exact L].
Qed.

(** ** Only the trash destroys mail, and exactly what it should *)

(** The three calls that destroy messages. *)
Inductive destroyer := Purge | DestroyNow (ids : list Z) | Empty.

Definition run_destroyer (d : destroyer) : cmd Ctx nat :=
  match d with Purge => purge | DestroyNow ids => destroy_now ids | Empty => empty end.

(** When a message stops being recoverable: the recorded deadline, or, for one
    that came into the trash through another device, a full window from now. *)
Definition deadline (c : Ctx) (id : Z) : Z :=
  match trashed_msgs c !! id with
  | Some r => TrashedRow.purge_at r
  | None => sat_add (clock c) (purge_secs c)
  end.

Definition doomed (d : destroyer) (c : Ctx) (id : Z) (m : Msg.t) : Prop :=
  trashed_label c id
  ∧ match d with
    | Purge => (deadline c id ≤ clock c)%Z
    | DestroyNow ids => id ∈ ids
    | Empty => is_live m = true ∧ Msg.hidden m = false
    end.

Lemma trashed_label_row c i id :
  labels_ok c → label_row c TRASH i → trashed_label c id ↔ (id, i) ∈ msg_labels c.
Proof.
  intros Hok Hi. split; [|by exists i]. intros (j & Hj & Hin).
  by rewrite (label_row_unique c TRASH i j).
Qed.

(** A call that reconciles and then destroys [ids]. *)
Lemma destroy_outcome ids c d id m (P : Prop) :
  destroy ids c = d → msgs c !! id = Some m → (id ∈ ids ↔ P) →
  (∃ n, d.2 = Ok n) ∧ (P → msgs d.1 !! id = Some (tombstone true m))
  ∧ (¬ P → msgs d.1 !! id = Some m).
Proof.
  intros <- Hm HP. destruct (destroy_run ids c) as (M & -> & HM). simpl.
  split; [eauto|]. rewrite HM. split; intros HP'.
  - by rewrite decide_True, Hm by tauto.
  - by rewrite decide_False by tauto.
Qed.

Lemma purge_spec c id m :
  labels_ok c → msgs c !! id = Some m →
  (∃ n, (purge c).2 = Ok n)
  ∧ (trashed_label c id ∧ (deadline c id ≤ clock c)%Z →
     msgs (purge c).1 !! id = Some (tombstone true m))
  ∧ (¬ (trashed_label c id ∧ (deadline c id ≤ clock c)%Z) → msgs (purge c).1 !! id = Some m).
Proof.
  intros Hok Hm. destruct (reconcile_run (clock c) c Hok) as (i & t & Hi & Hrec & Ht).
  rewrite (trashed_label_row c i id Hok Hi).
  unfold purge. rewrite run_bind_gets, run_bind, Hrec, run_bind_gets. simpl trashed_msgs.
  set (due := fst <$> _).
  assert (id ∈ due ↔ (id, i) ∈ msg_labels c ∧ (deadline c id ≤ clock c)%Z) as Hdue.
  { unfold due, deadline. rewrite list_elem_of_fmap. split.
    - intros ([x r] & -> & Hin). apply list_elem_of_filter in Hin as [Hp Hin].
      apply elem_of_map_to_list in Hin. simpl in *. rewrite Ht in Hin.
      case_decide as Hc; [|done]. split; [done|]. injection Hin as <-.
      by destruct (trashed_msgs c !! x).
    - intros [Hc Hd]. eexists (id, _). split; [done|]. apply list_elem_of_filter.
      rewrite elem_of_map_to_list, Ht, decide_True by done. split; [|done]. simpl.
      by destruct (trashed_msgs c !! id). }
  destruct (is_empty due) eqn:He.
  - assert (id ∉ due) by (destruct due; [set_solver|done]). simpl.
    split; [eauto|]. split; [tauto|done].
  - by eapply destroy_outcome.
Qed.

(** What purging leaves: only messages and deadlines change, and the deadline of
    a live message in the trash that has not passed is kept. *)
Lemma purge_frame c :
  labels_ok c →
  ∃ M T, (purge c).1 = set_msgs (λ _, M) (set_trashed_msgs (λ _, T) c)
    ∧ ∀ x r, trashed_label c x → live_msg c x = true → trashed_msgs c !! x = Some r →
        (clock c < TrashedRow.purge_at r)%Z → T !! x = Some r.
Proof.
  intros Hok. destruct (reconcile_run (clock c) c Hok) as (i & t & Hi & Hrec & Ht).
  unfold purge. rewrite run_bind_gets, run_bind, Hrec, run_bind_gets. cbn [set_trashed_msgs trashed_msgs].
  set (due := fst <$> _).
  assert (∀ x r, trashed_label c x → trashed_msgs c !! x = Some r → t !! x = Some r) as Hkeep.
  { intros x r Hx Hr. rewrite Ht, decide_True, Hr; [done|]. by apply trashed_label_row. }
  destruct (is_empty due).
  - exists (msgs c), (filter (λ kv, live_msg c kv.1 = true) t). split; [by destruct c|].
    intros x r Hx Hl Hr _. apply map_lookup_filter_Some. split; [by apply Hkeep|done].
  - destruct (destroy_run due (set_trashed_msgs (λ _, t) c)) as (M & -> & _).
    exists M, (filter (λ kv, kv.1 ∉ due) t). split; [done|].
    intros x r Hx Hl Hr Hlt. apply map_lookup_filter_Some. split; [by apply Hkeep|]. cbn.
    unfold due. rewrite list_elem_of_fmap. intros ([y r'] & -> & [Hle Hin]%list_elem_of_filter).
    apply elem_of_map_to_list in Hin. cbn in *. rewrite (Hkeep y r Hx Hr) in Hin. injection Hin as <-. lia.
Qed.

(** C8: purging, destroying on request and emptying the trash turn exactly the
    doomed messages into tombstones and change no other: a message is doomed
    only if it carries the Trash label, and then when its deadline has passed
    (purge), when it was named (destroy on request), or when the trash shows it
    (empty).  The calls always succeed. *)
Theorem trash_destroys_exactly (d : destroyer) (c : Ctx) (id : Z) (m : Msg.t) :
  labels_ok c → msgs c !! id = Some m →
  (∃ n, outcome (run_destroyer d) c = Ok n)
  ∧ (doomed d c id m → msgs (final (run_destroyer d) c) !! id = Some (tombstone true m))
  ∧ (¬ doomed d c id m → msgs (final (run_destroyer d) c) !! id = Some m).
Proof.
  intros Hok Hm. unfold doomed, outcome, final.
  destruct (reconcile_run (clock c) c Hok) as (i & t & Hi & Hrec & Ht).
  assert (∀ x, is_Some (t !! x) ↔ (x, i) ∈ msg_labels c) as Hdom.
  { intros x. rewrite Ht. case_decide; simpl; [by split; [|eauto]|].
    split; [by intros [? ?]|done]. }
  destruct d as [|ids|]; simpl run_destroyer; [by apply purge_spec|..];
    rewrite (trashed_label_row c i id Hok Hi).
  - unfold destroy_now. destruct (is_empty ids) eqn:He.
    + destruct ids; [|done]. simpl. split; [eauto|]. split; [set_solver|done].
    + rewrite run_bind_gets, run_bind, Hrec, run_bind_gets. eapply destroy_outcome; [done|exact Hm|].
      rewrite list_elem_of_filter. simpl trashed_msgs. rewrite Hdom. done.
  - unfold empty. rewrite run_bind_gets, run_bind, Hrec, run_bind.
    unfold in_trash. rewrite run_bind. set (c1 := set_trashed_msgs _ c).
    assert (labels_ok c1) as Hok1 by (by eapply labels_ok_ext; [..|exact Hok]).
    destruct (reserved_at c1 TRASH Hok1 trash_reserved) as (l & Hrun & Hl). rewrite Hrun.
    assert (Label.id l = i) as Hli by (by eapply (label_row_unique c TRASH)).
    unfold gets. eapply destroy_outcome; [done|exact Hm|].
    rewrite elem_of_msgs_with, Hli. split.
    + intros (m' & Hm' & Hin & ? & ?). simpl in *. simplify_eq. done.
    + intros (Hin & Hlv & Hh). by exists m.
Qed.

(** ** The window of a trashed message *)

Lemma purge_secs_exact c : purge_secs c = (purge_days c * 86400)%Z.
Proof.
  unfold purge_secs, purge_days. pose proof (get_config_int_bounds c Config.TrashPurgeDays) as Hb.
  apply sat_mul_exact. unfold in_i32, in_i64, i32_min, i32_max, i64_min, i64_max in *. lia.
Qed.

(** The recoverable window is exact: a message the user throws away at time
    [clock c] survives every purge before [clock c] plus the configured number
    of days, and is destroyed by a purge from then on. *)
Theorem trash_window_exact (c : Ctx) (ids : list Z) (id t : Z) (m : Msg.t) :
  labels_ok c → msgs c !! id = Some m → id ∈ ids → trashed_msgs c !! id = None →
  (0 ≤ clock c ≤ 4611686018427387904)%Z →
  msgs (final purge (set_clock (λ _, t) (final (trash ids) c))) !! id
  = Some (if (clock c + purge_days c * 86400 <=? t)%Z then tombstone true m else m).
Proof.
  intros Hok Hm Hin Hnew Hclock. unfold final at 2, trash. rewrite run_bind_gets.
  destruct (to_trash_run ids Reason.Deleted (clock c) c Hok) as (i & q & T & Hi & -> & HT & _);
    [by intros ->; set_solver|].
  set (c1 := set_clock (λ _, t) _).
  assert (labels_ok c1) as Hok1 by (by eapply labels_ok_ext; [..|exact Hok]).
  assert (trashed_label c1 id) as Htr.
  { exists i. split; [exact Hi|]. simpl. rewrite elem_of_mark. by rewrite decide_True. }
  assert (deadline c1 id = (clock c + purge_days c * 86400)%Z) as Hd.
  { unfold deadline. simpl. rewrite HT, Hnew, decide_True by done. simpl.
    rewrite <-purge_secs_exact. apply sat_add_exact. rewrite purge_secs_exact.
    pose proof (get_config_int_bounds c Config.TrashPurgeDays) as Hb. unfold purge_days.
    unfold in_i32, in_i64, i32_min, i32_max, i64_min, i64_max in *. lia. }
  destruct (purge_spec c1 id m Hok1 Hm) as (_ & Hyes & Hno). unfold final. rewrite Hd in *.
  change (clock c1) with t in *. destruct (Z.leb_spec (clock c + purge_days c * 86400) t).
  - by apply Hyes.
  - apply Hno. intros [_ ?]. lia.
Qed.

Lemma restore_loop xs d :
  for_each xs (λ id, modify (set_trashed_msgs (delete id)) ;; modify (clear_timer id)) d
  = (foldl (λ c id, clear_timer id c)
       (foldl (λ c id, set_trashed_msgs (delete id) c) d xs) xs, Ok tt).
Proof.
  revert d. induction xs as [|x xs IH]; intros d; cbn [for_each foldl]; [done|].
  rewrite run_bind, run_bind_modify, run_modify, IH. do 2 f_equal.
  change (clear_timer x (set_trashed_msgs (delete x) d))
    with (set_trashed_msgs (delete x) (clear_timer x d)).
  by rewrite !foldl_delete_trashed.
Qed.

(** Taking messages back undoes throwing them away: for messages that were
    not in the trash, trashing and restoring leaves every label and every purge
    deadline as it was; the only change to the messages is that a running
    ephemeral countdown of theirs is stopped. *)
Theorem restore_undoes_trash (c : Ctx) (ids : list Z) :
  labels_ok c →
  (∀ id, id ∈ ids → ¬ trashed_label c id ∧ trashed_msgs c !! id = None) →
  let c' := final (restore ids) (final (trash ids) c) in
  msg_labels c' = msg_labels c ∧ trashed_msgs c' = trashed_msgs c
  ∧ ∀ id, msgs c' !! id = if decide (id ∈ ids) then with_ephemeral_timestamp 0 <$> msgs c !! id
                          else msgs c !! id.
Proof.
  intros Hok Hout c'. destruct (is_empty ids) eqn:He.
  { destruct ids; [|done]. by split_and!. }
  destruct (to_trash_run ids Reason.Deleted (clock c) c Hok) as (i & q & T & Hi & Hrun & HT & _);
    [by intros ->|].
  assert (final (trash ids) c = set_trashed_msgs (λ _, T)
            (set_multi_device_sync (λ _, q) (set_msg_labels (mark true ids i) c))) as E1.
  { unfold final, trash. by rewrite run_bind_gets, Hrun. }
  set (c1 := set_trashed_msgs _ _) in E1.
  assert (labels_ok c1) as Hok1 by (by eapply labels_ok_ext; [..|exact Hok]).
  destruct (reserved_at c1 TRASH Hok1 trash_reserved) as (l & Hres & Hl).
  assert (Label.id l = i) as Hli by (by eapply (label_row_unique c TRASH)).
  unfold c', final at 1 3 5, restore. rewrite E1, He, run_bind, Hres, run_bind.
  destruct (set_ext_run ids l false Sync.Sync c1) as (q' & -> & _). rewrite Hli.
  set (c2 := set_multi_device_sync _ _).
  rewrite restore_loop. cbn [fst]. rewrite foldl_delete_trashed.
  destruct (foldl_alter_msgs (with_ephemeral_timestamp 0) ids
              (set_trashed_msgs (λ t, filter (λ kv, kv.1 ∉ ids) t) c2)) as [F L]; [done|].
  unfold clear_timer. split_and!; [..|exact L]; rewrite F; simpl.
  - apply set_eq. intros [x k]. rewrite elem_of_mark. case_decide as Hd1.
    + split; [done|]. intros Hin. destruct Hd1 as [Hx ->]. destruct (Hout x Hx) as [Hn _].
      destruct Hn. by exists i.
    + rewrite elem_of_mark. by rewrite decide_False.
  - apply map_eq. intros x. apply option_eq. intros r. rewrite map_lookup_filter_Some. simpl.
    rewrite HT. split.
    + intros [Hr Hx]. destruct (trashed_msgs c !! x); [done|]. by rewrite decide_False in Hr.
    + intros Hr. rewrite Hr. split; [done|]. intros Hx. destruct (Hout x Hx) as [_ Hn]. congruence.
Qed.

(** ** Expiry *)

(** The rows [divert] takes. *)
Definition fired_ids (now : Z) (c : Ctx) : list Z :=
  fst <$> filter (λ r, timer_fired now r.2 = true) (map_to_list (msgs c)).

Lemma elem_of_fired_ids now c id :
  id ∈ fired_ids now c ↔ ∃ m, msgs c !! id = Some m ∧ timer_fired now m = true.
Proof.
  unfold fired_ids. rewrite list_elem_of_fmap. split.
  - intros ([x m] & -> & Hin). apply list_elem_of_filter in Hin as [Hf Hin].
    apply elem_of_map_to_list in Hin. by exists m.
  - intros (m & Hm & Hf). exists (id, m). split; [done|]. apply list_elem_of_filter.
    split; [done|]. by apply elem_of_map_to_list.
Qed.

Lemma fired_cleared now m : timer_fired now (with_ephemeral_timestamp 0 m) = false.
Proof. done. Qed.

Lemma no_fired_left now c c1 :
  (∀ id, msgs c1 !! id = if decide (id ∈ fired_ids now c)
                         then with_ephemeral_timestamp 0 <$> msgs c !! id else msgs c !! id) →
  fired_ids now c1 = [].
Proof.
  intros Hmsgs. destruct (fired_ids now c1) as [|x xs] eqn:E; [done|].
  assert (x ∈ fired_ids now c1) as (m' & Hm' & Hf)%elem_of_fired_ids by (rewrite E; set_solver).
  rewrite Hmsgs in Hm'. case_decide as Hx.
  - destruct (msgs c !! x); [|done]. injection Hm' as <-. by rewrite fired_cleared in Hf.
  - destruct Hx. apply elem_of_fired_ids. eauto.
Qed.

(** [divert] takes every fired message into the trash and stops its timer. *)
Lemma divert_run now c :
  labels_ok c → (0 < purge_days c)%Z →
  ∃ c1, divert now c = (c1, Ok (length (fired_ids now c)))
    ∧ config c1 = config c ∧ env c1 = env c
    ∧ (∀ id, msgs c1 !! id = if decide (id ∈ fired_ids now c)
                             then with_ephemeral_timestamp 0 <$> msgs c !! id else msgs c !! id)
    ∧ (∀ id, id ∈ fired_ids now c → trashed_label c1 id ∧ is_Some (trashed_msgs c1 !! id))
    ∧ clock c1 = clock c ∧ imap_tbl c1 = imap_tbl c ∧ fired_ids now c1 = [].
Proof.
  intros Hok Hdays. unfold divert. rewrite run_bind_gets.
  destruct (Z.leb_spec (purge_days c) 0); [lia|]. rewrite run_bind_gets.
  fold (fired_ids now c). destruct (is_empty (fired_ids now c)) eqn:He.
  { destruct (fired_ids now c) eqn:E; [|done]. exists c. split_and!; try done. intros id Hid.
    by apply not_elem_of_nil in Hid. }
  destruct (to_trash_run (fired_ids now c) Reason.Expired now c Hok) as (i & q & T & Hi & Hrun & HT & _);
    [by intros E; rewrite E in He|].
  rewrite run_bind, Hrun, run_bind, for_each_modify. set (c1 := set_trashed_msgs _ _).
  destruct (foldl_alter_msgs (with_ephemeral_timestamp 0) (fired_ids now c) c1) as [F L]; [done|].
  unfold clear_timer. eexists. split; [reflexivity|]. rewrite F. split_and!; [done..| | |done|done|].
  - intros id. exact (L id).
  - intros id Hid. split.
    + exists i. split; [exact Hi|]. simpl. rewrite elem_of_mark. by rewrite decide_True.
    + simpl. rewrite HT. destruct (trashed_msgs c !! id); [done|]. by rewrite decide_True.
  - apply (no_fired_left now c). intros id. exact (L id).
Qed.

(** With a window and no disk-reclaiming limit, [divert] is the whole sweep. *)
Lemma sweep_is_divert now c :
  labels_ok c → (0 < purge_days c)%Z → get_config_delete_device_after c = None →
  ∃ c1, delete_expired_messages now c = (c1, Ok tt) ∧ divert now c = (c1, Ok (length (fired_ids now c))).
Proof.
  intros Hok Hdays Hdev. destruct (divert_run now c Hok Hdays) as (c1 & Hrun & Hc & He & _ & _ & _ & _ & Hnone).
  assert (get_config_delete_device_after c1 = None) as Hdev1.
  { rewrite <-Hdev. unfold get_config_delete_device_after, get_config_int, get_config,
      get_config_opt, get_config_key, get_raw_config. by rewrite Hc, He. }
  exists c1. split; [|done]. unfold delete_expired_messages, attempt. rewrite run_bind, Hrun, run_bind.
  unfold select_expired_messages. rewrite run_bind_gets, run_bind_gets, Hdev1.
  fold (fired_ids now c1). by rewrite Hnone.
Qed.

(** C18: with a recoverable window configured and no disk-reclaiming limit set,
    core's expiry sweep destroys nothing: every message whose ephemeral timer
    has fired ends in the trash with a deadline and its content intact, every
    other message is unchanged, and the sweep succeeds. *)
Theorem expiry_is_recoverable (now : Z) (c : Ctx) (id : Z) (m : Msg.t) :
  labels_ok c → (0 < purge_days c)%Z → get_config_delete_device_after c = None →
  msgs c !! id = Some m →
  let c' := final (delete_expired_messages now) c in
  outcome (delete_expired_messages now) c = Ok tt
  ∧ if timer_fired now m
    then msgs c' !! id = Some (with_ephemeral_timestamp 0 m)
         ∧ trashed_label c' id ∧ is_Some (trashed_msgs c' !! id)
    else msgs c' !! id = Some m.
Proof.
  intros Hok Hdays Hdev Hm. destruct (divert_run now c Hok Hdays) as (c1 & Hrun & _ & _ & Hmsgs & Htr & _).
  destruct (sweep_is_divert now c Hok Hdays Hdev) as (c2 & Hall & Hrun2). rewrite Hrun in Hrun2. injection Hrun2 as <-.
  unfold final, outcome. rewrite Hall. split; [done|]. cbn [fst].
  rewrite Hmsgs. destruct (timer_fired now m) eqn:Hf.
  - assert (id ∈ fired_ids now c) as Hin by (apply elem_of_fired_ids; eauto).
    rewrite decide_True, Hm by done. by destruct (Htr id Hin).
  - rewrite decide_False; [done|]. intros (m' & Hm' & Hf')%elem_of_fired_ids. congruence.
Qed.
End trash.

(** ** The configured window *)

(** The number of days set is the number of days in force, for every value
    an [i32] holds, a negative one counting as 0; a larger value, which the
    setter accepts, is read back as 0, which destroys trashed mail at once. *)
Theorem purge_days_read_back (c : Ctx) (days : Z) :
  env c !! env_key (Config.as_ref Config.TrashPurgeDays) = None →
  purge_days (final (set_purge_days days) c)
  = if (days <=? i32_max)%Z then Z.max days 0 else 0%Z.
Proof.
  intros He. unfold set_purge_days, set_config, final. rewrite run_bind.
  cbn [check_config ensure]. unfold mret, cmd_ret. unfold set_config_ext. rewrite run_bind.
  cbn [check_config ensure]. unfold mret, cmd_ret. rewrite run_bind_gets, run_bind_modify.
  unfold Config.is_synced. rewrite andb_false_r. simpl.
  unfold purge_days, get_config_int, get_config, get_config_opt, get_config_key, get_raw_config.
  cbn [set_raw_config set_config_tbl config env]. rewrite He.
  rewrite lookup_insert_eq. simpl. unfold parse_i32. rewrite parse_signed_show.
  unfold i32_min, i32_max. destruct (Z.leb_spec days 2147483647).
  - rewrite (proj2 (Z.leb_le _ _)), (proj2 (Z.leb_le _ _)) by lia. done.
  - rewrite andb_comm, (proj2 (Z.leb_gt _ _)) by lia. done.
Qed.

(** ** Instances *)

(** A message thrown away at time 1000, with a window of 30 days. *)
Definition with_window : Ctx :=
  final (set_purge_days DEFAULT_PURGE_DAYS) (set_clock (λ _, 1000%Z) one_message).

Definition the_message : Msg.t := incoming (lit "a@b") 12 10 5.

Lemma with_window_ok : @labels_ok ascii_case with_window.
Proof. apply wf_labelsb_sound. vm_compute. reflexivity. Qed.

Lemma trash_destroys_exactly_witness :
  let c := set_clock (λ _, 9000000%Z) (final (@trash ascii_case first_choice [20%Z]) with_window) in
  @doomed ascii_case Purge c 20 the_message
  ∧ msgs (final (@run_destroyer ascii_case first_choice Purge) c) !! 20%Z
    = Some (tombstone true the_message).
Proof.
  intros c. assert (@doomed ascii_case Purge c 20 the_message) as Hd.
  { split; [|vm_compute; discriminate]. exists 2%Z. split; [|vm_compute; reflexivity].
    eexists. split; vm_compute; reflexivity. }
  split; [exact Hd|].
  apply (@trash_destroys_exactly ascii_case first_choice Purge c 20 the_message).
  - apply wf_labelsb_sound. vm_compute. reflexivity.
  - vm_compute. reflexivity.
  - exact Hd.
Defined.

Lemma trash_window_exact_witness :
  msgs (final (@purge ascii_case first_choice)
          (set_clock (λ _, 2592999%Z) (final (@trash ascii_case first_choice [20%Z]) with_window)))
    !! 20%Z = Some the_message.
Proof.
  rewrite (@trash_window_exact ascii_case first_choice with_window [20%Z] 20 2592999 the_message
             with_window_ok).
  - vm_compute. reflexivity.
  - vm_compute. reflexivity.
  - set_solver.
  - vm_compute. reflexivity.
  - vm_compute. split; discriminate.
Defined.

Lemma restore_undoes_trash_witness :
  let c' := final (@restore ascii_case first_choice [20%Z])
              (final (@trash ascii_case first_choice [20%Z]) with_window) in
  msg_labels c' = ∅ ∧ trashed_msgs c' = ∅.
Proof.
  destruct (@restore_undoes_trash ascii_case first_choice with_window [20%Z] with_window_ok)
    as (H1 & H2 & _).
  - intros id _. change (trashed_msgs with_window) with (∅ : gmap Z TrashedRow.t).
    split; [|by rewrite lookup_empty]. intros (i & _ & Hin). by apply not_elem_of_empty in Hin.
  - split; [exact H1|exact H2].
Defined.

Definition with_timer : Ctx :=
  final (set_message_timer 20 (Timer.Enabled 60)) with_window.

Lemma expiry_is_recoverable_witness :
  let c' := final (@delete_expired_messages ascii_case first_choice 1060) with_timer in
  outcome (@delete_expired_messages ascii_case first_choice 1060) with_timer = Ok tt
  ∧ msgs c' !! 20%Z = Some the_message ∧ is_Some (trashed_msgs c' !! 20%Z).
Proof.
  destruct (@expiry_is_recoverable ascii_case first_choice 1060 with_timer 20
              (with_ephemeral_timestamp 1060 the_message)) as [H1 H2].
  - apply wf_labelsb_sound. vm_compute. reflexivity.
  - vm_compute. reflexivity.
  - vm_compute. reflexivity.
  - vm_compute. reflexivity.
  - destruct H2 as (H2 & _ & H3). split; [exact H1|]. split; [exact H2|exact H3].
Defined.

Lemma purge_days_read_back_witness :
  purge_days (final (set_purge_days 2147483648) one_message) = 0%Z.
Proof.
  rewrite (purge_days_read_back one_message 2147483648); [reflexivity|]. vm_compute. reflexivity.
Defined.
