(* ===== verification/Gating.v ===== *)
(** * Gating: mail from strangers waits, [core/src/email/gating.rs].

    A message whose sender is neither verified nor known is tagged Unverified
    and recorded in [held_msgs]; accepting the sender releases it, and the
    sweep moves what waited too long to the trash. *)

From S2P Require Import Prelude Text Store Labels Migrations Trash.

Definition DEFAULT_HOLD_DAYS : Z := 30.

Definition hold_days (c : Ctx) : Z := get_config_int c Config.UnverifiedTrashDays.

Definition set_hold_days (days : Z) : cmd Ctx unit :=
  set_config Config.UnverifiedTrashDays (Some (show_Z (Z.max days 0))).

(** The other rows of the same person: same address up to ASCII case, not
    blocked, not special. *)
Definition same_person (c : Ctx) (contact : Contact.t) : list Z :=
  let addr := Contact.addr contact in
  if is_empty addr then []
  else fst <$> filter (λ r, eq_ignore_ascii_case (ContactRow.addr r.2) addr = true
                            ∧ r.1 ≠ Contact.id contact ∧ (ContactId.LAST_SPECIAL < r.1)%Z
                            ∧ ContactRow.blocked r.2 = false)
                      (contact_rows c).

(** [if let Ok(other) = get_by_id(..) && other.origin.is_known()] *)
Definition is_known_contact (c : Ctx) (id : Z) : bool :=
  match get_contact c id with
  | Some other => Origin.is_known (Contact.origin other)
  | None => false
  end.

Definition is_trusted (contact_id : Z) : cmd Ctx bool :=
  if (contact_id =? ContactId.SELF)%Z then mret true
  else
    loaded ← gets (λ c, get_contact c contact_id);
    match loaded with
    | None => mret false
    | Some contact =>
        if Origin.is_known (Contact.origin contact) then mret true
        else
          v ← gets (λ c, is_verified c contact_id);
          verified ← or_bail v "contact does not exist";
          if verified : bool then mret true
          else gets (λ c, existsb (is_known_contact c) (same_person c contact))
    end.

Definition is_enabled (c : Ctx) : bool := get_config_bool c Config.InboxGating.

Definition sender_of (c : Ctx) (msg_id : Z) : option (Z * bool) :=
  (λ m, (Msg.from_id m, (Msg.to_id m =? ContactId.SELF)%Z)) <$> msgs c !! msg_id.

(** [INSERT INTO held_msgs .. ON CONFLICT(msg_id) DO NOTHING] *)
Definition insert_held (id now : Z) : Ctx → Ctx :=
  set_held_msgs (λ t, match t !! id with Some _ => t | None => <[id := now]> t end).

Section gating.
Context `{!UnicodeCase, !SqlChoice}.

Definition unhold (ids : list Z) : cmd Ctx nat :=
  if is_empty ids then mret 0
  else
    unverified ← reserved UNVERIFIED;
    set_ext ids unverified false Sync.Nosync ;;
    for_each ids (λ id, modify (set_held_msgs (delete id))) ;;
    mret (length ids).

Definition apply (msg_id : Z) : cmd Ctx unit :=
  enabled ← gets is_enabled;
  if negb enabled then mret tt
  else
    sender ← gets (λ c, sender_of c msg_id);
    match sender with
    | None => mret tt
    | Some (from_id, is_incoming) =>
        if negb is_incoming || (from_id =? ContactId.SELF)%Z then mret tt
        else
          trusted ← is_trusted from_id;
          if trusted : bool then mret tt
          else
            now ← gets clock;
            unverified ← reserved UNVERIFIED;
            set_ext [msg_id] unverified true Sync.Nosync ;;
            modify (insert_held msg_id now)
    end.

(** [SELECT h.msg_id FROM held_msgs h JOIN msgs m ON m.id=h.msg_id WHERE
    m.from_id=?] *)
Definition held_from (c : Ctx) (from_id : Z) : list Z :=
  filter (λ id, Msg.from_id <$> msgs c !! id = Some from_id) (map_to_list (held_msgs c)).*1.

(** The inner loop of [release], over the rows of one person. *)
Fixpoint release_rows (sender_rows : list Z) (released : nat) : cmd Ctx nat :=
  match sender_rows with
  | [] => mret released
  | from_id :: rest =>
      ids ← gets (λ c, held_from c from_id);
      n ← unhold ids;
      release_rows rest (released + n)
  end.

Fixpoint release_loop (contact_ids : list Z) (released : nat) : cmd Ctx nat :=
  match contact_ids with
  | [] => mret released
  | contact_id :: rest =>
      if (contact_id =? ContactId.SELF)%Z then release_loop rest released
      else
        trusted ← is_trusted contact_id;
        if negb trusted then release_loop rest released
        else
          sender_rows ← gets (λ c, contact_id :: match get_contact c contact_id with
                                                | Some contact => same_person c contact
                                                | None => []
                                                end);
          released ← release_rows sender_rows released;
          release_loop rest released
  end.

Definition release (contact_ids : list Z) : cmd Ctx nat := release_loop contact_ids 0.

Definition release_all : cmd Ctx nat :=
  ids ← gets (λ c, (map_to_list (held_msgs c)).*1);
  unhold ids.

Definition set_enabled (enabled : bool) : cmd Ctx unit :=
  set_config_bool Config.InboxGating enabled ;;
  if negb enabled then release_all ;; mret tt else mret tt.

Definition held : cmd Ctx (list Z) :=
  unverified ← reserved UNVERIFIED; gets (λ c, msgs_with c (Label.id unverified)).

Definition prune : cmd Ctx nat :=
  modify (λ c, set_held_msgs (filter (λ kv, live_msg c kv.1 = true)) c) ;;
  mret 0.

Definition sweep : cmd Ctx nat :=
  days ← gets hold_days;
  if (days <=? 0)%Z then prune
  else
    now ← gets clock;
    let cutoff := sat_sub now (sat_mul days 86400) in
    expired ← gets (λ c, (filter (λ kv, (kv.2 <= cutoff)%Z) (map_to_list (held_msgs c))).*1);
    if is_empty expired then prune
    else
      to_trash expired Reason.Unaccepted now ;;
      unhold expired.

(** ** Trust *)

(** Another unblocked row with the address of [contact] is a known contact. *)
Definition known_elsewhere (c : Ctx) (contact : Contact.t) : Prop :=
  Contact.addr contact ≠ []
  ∧ ∃ other row, contacts c !! other = Some row
    ∧ eq_ignore_ascii_case (ContactRow.addr row) (Contact.addr contact) = true
    ∧ other ≠ Contact.id contact ∧ (ContactId.LAST_SPECIAL < other)%Z
    ∧ ContactRow.blocked row = false ∧ is_known_contact c other = true.

(** Whose mail reaches the inbox. *)
Definition trusted (c : Ctx) (id : Z) : Prop :=
  id = ContactId.SELF
  ∨ ∃ contact, get_contact c id = Some contact
    ∧ (Origin.is_known (Contact.origin contact) = true ∨ is_verified c id = Some true
       ∨ known_elsewhere c contact).

Lemma elem_of_same_person c contact x :
  x ∈ same_person c contact ↔
  Contact.addr contact ≠ [] ∧ ∃ row, contacts c !! x = Some row
    ∧ eq_ignore_ascii_case (ContactRow.addr row) (Contact.addr contact) = true
    ∧ x ≠ Contact.id contact ∧ (ContactId.LAST_SPECIAL < x)%Z ∧ ContactRow.blocked row = false.
Proof.
  unfold same_person. destruct (Contact.addr contact) as [|a l] eqn:E; [set_solver|].
  cbn [is_empty]. rewrite list_elem_of_fmap. unfold contact_rows. split.
  - intros ([y row] & -> & Hin). apply list_elem_of_filter in Hin as [Hp Hin].
    apply elem_of_map_to_list in Hin. split; [done|]. by exists row.
  - intros (_ & row & Hr & Hp). exists (x, row). split; [done|]. apply list_elem_of_filter.
    split; [done|]. by apply elem_of_map_to_list.
Qed.

Lemma is_trusted_run c id :
  ∃ b, is_trusted id c = (c, Ok b) ∧ (b = true ↔ trusted c id).
Proof.
  unfold is_trusted, trusted. destruct (Z.eqb_spec id ContactId.SELF) as [->|Hne].
  { exists true. split; [done|]. tauto. }
  rewrite run_bind_gets. destruct (get_contact c id) as [contact|] eqn:Hc.
  2:{ exists false. split; [done|]. split; [done|]. intros [|(? & ? & _)]; [done|congruence]. }
  destruct (Origin.is_known (Contact.origin contact)) eqn:Hk.
  { exists true. split; [done|]. split; [|done]. intros _. right. eauto. }
  rewrite run_bind_gets.
  assert (∃ v, is_verified c id = Some v) as [v Hv].
  { unfold get_contact in Hc. unfold is_verified. rewrite decide_False by done.
    destruct (contacts c !! id); [by eexists|done]. }
  rewrite run_bind, Hv. simpl. destruct v.
  { exists true. split; [done|]. split; [|done]. intros _. right. eauto. }
  eexists. split; [reflexivity|]. rewrite existsb_exists. setoid_rewrite <-list_elem_of_In.
  setoid_rewrite elem_of_same_person. split.
  - intros (x & (Ha & row & Hr & ? & ? & ? & ?) & Hx). right. exists contact. split; [done|].
    right. right. split; [done|]. by exists x, row.
  - intros [|(contact' & Hc' & [|[|(Ha & x & row & ? & ? & ? & ? & ? & ?)]])]; simplify_eq; try congruence.
    exists x. split; [|done]. split; [done|]. by exists row.
Qed.

(** A correspondent is trusted exactly when they are the user, or their
    contact can be loaded and is known, or verified, or another unblocked row
    with the same address (up to ASCII case) is a known contact: verification
    does not carry over between rows, and a contact that cannot be loaded is
    not trusted. *)
Theorem is_trusted_iff (c : Ctx) (id : Z) :
  (outcome (is_trusted id) c = Ok true ↔ trusted c id)
  ∧ (outcome (is_trusted id) c = Ok false ↔ ¬ trusted c id)
  ∧ final (is_trusted id) c = c.
Proof.
  destruct (is_trusted_run c id) as (b & Hrun & Hb). unfold outcome, final. rewrite Hrun, <-Hb.
  destruct b; simpl; naive_solver.
Qed.

(** ** Holding *)

Definition unverified_label (c : Ctx) (id : Z) : Prop :=
  ∃ i, label_row c UNVERIFIED i ∧ (id, i) ∈ msg_labels c.

Lemma unverified_reserved : UNVERIFIED ∈ RESERVED.
Proof. unfold RESERVED. set_solver. Qed.

(** [set_ext] without sync leaves the queue alone. *)
Lemma set_ext_nosync ids l b c :
  set_ext ids l b Sync.Nosync c = (set_msg_labels (mark b ids (Label.id l)) c, Ok tt).
Proof.
  destruct (set_ext_run ids l b Sync.Nosync c) as (q & -> & Hq). rewrite Hq by done. by destruct c.
Qed.

Lemma apply_holds c id m :
  labels_ok c → msgs c !! id = Some m → is_enabled c = true →
  Msg.to_id m = ContactId.SELF → ¬ trusted c (Msg.from_id m) →
  ∃ i, label_row c UNVERIFIED i
    ∧ apply id c = (set_held_msgs (λ t, <[id := default (clock c) (t !! id)]> t)
                      (set_msg_labels (λ s, {[ (id, i) ]} ∪ s) c), Ok tt).
Proof.
  intros Hok Hm He Hto Hn. unfold apply. rewrite run_bind_gets, He. cbn [negb].
  rewrite run_bind_gets. unfold sender_of. rewrite Hm. cbn [fmap option_fmap option_map].
  rewrite (proj2 (Z.eqb_eq _ _) Hto). cbn [negb orb].
  destruct (Z.eqb_spec (Msg.from_id m) ContactId.SELF) as [Hself|Hself]; [by destruct Hn; left|].
  destruct (is_trusted_run c (Msg.from_id m)) as (b & Hrun & Hb). rewrite run_bind, Hrun.
  destruct b; [by destruct Hn; apply Hb|].
  destruct (reserved_at c UNVERIFIED Hok unverified_reserved) as (l & Hres & Hl).
  rewrite run_bind_gets, run_bind, Hres, run_bind, set_ext_nosync.
  exists (Label.id l). split; [done|]. unfold modify, insert_held, set_held_msgs. simpl. do 2 f_equal.
  destruct (held_msgs c !! id) eqn:E; simpl; [|done]. by rewrite insert_id.
Qed.

Lemma apply_passes c id m :
  msgs c !! id = Some m →
  ¬ (is_enabled c = true ∧ Msg.to_id m = ContactId.SELF ∧ ¬ trusted c (Msg.from_id m)) →
  apply id c = (c, Ok tt).
Proof.
  intros Hm Hn. unfold apply. rewrite run_bind_gets. destruct (is_enabled c); [|done]. cbn [negb].
  rewrite run_bind_gets. unfold sender_of. rewrite Hm. cbn [fmap option_fmap option_map].
  destruct (Z.eqb_spec (Msg.to_id m) ContactId.SELF) as [Hto|Hto]; [|done]. cbn [negb orb].
  destruct (Z.eqb_spec (Msg.from_id m) ContactId.SELF) as [Hself|Hself]; [done|].
  destruct (is_trusted_run c (Msg.from_id m)) as (b & Hrun & Hb). rewrite run_bind, Hrun.
  destruct b; [done|]. destruct Hn. split_and!; [done..|]. rewrite <-Hb. done.
Qed.

(** With gating on, an incoming message is held exactly when its sender is
    not trusted: then it carries the label Unverified and its first holding
    time is kept; in every other case nothing at all changes.  Holding never
    touches the message, other labels or the sync queue. *)
Theorem gating_holds_exactly (c : Ctx) (id : Z) (m : Msg.t) :
  labels_ok c → msgs c !! id = Some m →
  let holds := is_enabled c = true ∧ Msg.to_id m = ContactId.SELF ∧ ¬ trusted c (Msg.from_id m) in
  outcome (apply id) c = Ok tt
  ∧ (holds → ∃ i, label_row c UNVERIFIED i
       ∧ final (apply id) c
         = set_held_msgs (λ t, <[id := default (clock c) (t !! id)]> t)
             (set_msg_labels (λ s, {[ (id, i) ]} ∪ s) c))
  ∧ (¬ holds → final (apply id) c = c).
Proof.
  intros Hok Hm holds. unfold outcome, final.
  destruct (is_trusted_run c (Msg.from_id m)) as (b & _ & Hb).
  assert (holds ∨ ¬ holds) as [Hh|Hh].
  { unfold holds. rewrite <-Hb. destruct (is_enabled c), b, (Z.eq_dec (Msg.to_id m) ContactId.SELF);
      naive_solver. }
  - destruct Hh as (He & Hto & Hn). destruct (apply_holds c id m Hok Hm He Hto Hn) as (i & Hi & ->).
    split; [done|]. split; [eauto|]. unfold holds. tauto.
  - rewrite (apply_passes c id m Hm Hh). split; [done|]. split; [tauto|done].
Qed.

(** ** Releasing *)

(** [c'] is [c] after releasing the held messages that satisfy [S]. *)
Record unheld (S : Z → Prop) (c c' : Ctx) : Prop := {
  unheld_frame : ∃ h s, c' = set_held_msgs (λ _, h) (set_msg_labels (λ _, s) c);
  unheld_held x t : held_msgs c' !! x = Some t ↔ held_msgs c !! x = Some t ∧ ¬ S x;
  unheld_labels x l :
    (x, l) ∈ msg_labels c' ↔
    (x, l) ∈ msg_labels c ∧ ¬ (label_row c UNVERIFIED l ∧ S x ∧ is_Some (held_msgs c !! x));
}.

Lemma unheld_same S c c' :
  unheld S c c' → msgs c' = msgs c ∧ contacts c' = contacts c ∧ labels c' = labels c
                  ∧ labels_seq c' = labels_seq c ∧ config c' = config c ∧ env c' = env c.
Proof. by intros [(h & s & ->) _ _]. Qed.

Lemma unheld_refl S c : (∀ x, S x → held_msgs c !! x = None) → unheld S c c.
Proof.
  intros HS. split.
  - exists (held_msgs c), (msg_labels c). by destruct c.
  - intros x t. split; [|tauto]. intros Ht. split; [done|]. intros Hx%HS. congruence.
  - intros x l. split; [|tauto]. intros Hin. split; [done|]. intros (_ & Hx%HS & [t Ht]). congruence.
Qed.

Lemma unheld_trans S T c c1 c2 :
  unheld S c c1 → unheld T c1 c2 → unheld (λ x, S x ∨ T x) c c2.
Proof.
  intros H1 H2. pose proof (unheld_same _ _ _ H1) as (_ & _ & El & _).
  destruct H1 as [(h1 & s1 & E1) Hh1 Hl1], H2 as [(h2 & s2 & E2) Hh2 Hl2]. split.
  - exists h2, s2. subst. by destruct c.
  - intros x t. rewrite Hh2, Hh1. tauto.
  - intros x l. rewrite Hl2, Hl1. unfold label_row. rewrite El.
    assert (is_Some (held_msgs c1 !! x) ↔ is_Some (held_msgs c !! x) ∧ ¬ S x) as Hsome.
    { unfold is_Some. setoid_rewrite Hh1. naive_solver. }
    rewrite Hsome. naive_solver.
Qed.

Lemma unheld_ext S T c c' : (∀ x, is_Some (held_msgs c !! x) → S x ↔ T x) → unheld S c c' → unheld T c c'.
Proof.
  intros HST [Hf Hh Hl]. split; [done|..].
  - intros x t. rewrite Hh. split; intros [Hx Hn]; (split; [done|]);
      intros HS; apply Hn; by apply HST.
  - intros x l. rewrite Hl. split; intros [Hx Hn]; (split; [done|]);
      intros (? & HS & ?); apply Hn; split_and!; try done; by apply HST.
Qed.

Lemma foldl_delete_held ids c :
  foldl (λ c id, set_held_msgs (delete id) c) c ids
  = set_held_msgs (λ _, filter (λ kv, kv.1 ∉ ids) (held_msgs c)) c.
Proof.
  revert c. induction ids as [|i ids IH]; intros c; simpl.
  - destruct c. unfold set_held_msgs. simpl. f_equal. symmetry. apply map_filter_id. set_solver.
  - rewrite IH. unfold set_held_msgs at 1 2 4. simpl. f_equal. apply map_eq. intros x.
    apply option_eq. intros r. rewrite !map_lookup_filter_Some. simpl.
    rewrite lookup_delete_Some, not_elem_of_cons. naive_solver.
Qed.

Lemma unhold_run ids c :
  labels_ok c → (∀ x, x ∈ ids → is_Some (held_msgs c !! x)) →
  ∃ c', unhold ids c = (c', Ok (length ids)) ∧ unheld (λ x, x ∈ ids) c c'.
Proof.
  intros Hok Hids. unfold unhold. destruct (is_empty ids) eqn:He.
  { destruct ids; [|done]. exists c. split; [done|]. apply unheld_refl. set_solver. }
  destruct (reserved_at c UNVERIFIED Hok unverified_reserved) as (l & Hres & Hl).
  rewrite run_bind, Hres, run_bind, set_ext_nosync, run_bind, for_each_modify, foldl_delete_held.
  eexists. split; [reflexivity|]. split.
  - simpl. eexists _, _. by destruct c.
  - intros x t. simpl. rewrite map_lookup_filter_Some. done.
  - intros x k. simpl. rewrite elem_of_mark. case_decide as Hd.
    + destruct Hd as [Hx ->]. split; [done|]. intros [_ Hn]. destruct Hn. auto.
    + split; [|tauto]. intros Hin. split; [done|]. intros (Hk & Hx & _). apply Hd. split; [done|].
      by apply (label_row_unique c UNVERIFIED).
Qed.

(** The message comes from one of the rows [P]. *)
Definition sent_by (c : Ctx) (P : Z → Prop) (x : Z) : Prop :=
  ∃ m, msgs c !! x = Some m ∧ P (Msg.from_id m).

Lemma elem_of_held_from c f x :
  x ∈ held_from c f ↔ is_Some (held_msgs c !! x) ∧ sent_by c (λ g, g = f) x.
Proof.
  unfold held_from, sent_by. rewrite list_elem_of_filter, list_elem_of_fmap. split.
  - intros (Hf & [y t] & -> & Hin). apply elem_of_map_to_list in Hin. simpl in *.
    destruct (msgs c !! y) as [m|]; [|done]. simpl in Hf. injection Hf as <-. eauto.
  - intros ([t Ht] & m & Hm & <-). rewrite Hm. split; [done|]. exists (x, t).
    split; [done|]. by apply elem_of_map_to_list.
Qed.

Lemma release_rows_run rows n c :
  labels_ok c →
  ∃ c' n', release_rows rows n c = (c', Ok n') ∧ unheld (sent_by c (λ g, g ∈ rows)) c c'.
Proof.
  revert n c. induction rows as [|f rows IH]; intros n c Hok; simpl.
  { exists c, n. split; [done|]. apply unheld_refl. intros x (m & _ & Hin). set_solver. }
  rewrite run_bind_gets.
  destruct (unhold_run (held_from c f) c Hok) as (c1 & Hrun & Hu).
  { intros x Hx. by apply elem_of_held_from in Hx as [? _]. }
  rewrite run_bind, Hrun. pose proof (unheld_same _ _ _ Hu) as (Em & _ & El & Es & _).
  destruct (IH (n + length (held_from c f)) c1) as (c2 & n2 & Hrun2 & Hu2);
    [by eapply labels_ok_ext|].
  exists c2, n2. split; [done|]. eapply unheld_ext; [|by eapply unheld_trans].
  intros x Hx. cbn beta. rewrite elem_of_held_from. unfold sent_by. rewrite Em. set_solver.
Qed.

(** The rows of the person a contact belongs to. *)
Definition person_rows (c : Ctx) (id : Z) : list Z :=
  id :: match get_contact c id with Some contact => same_person c contact | None => [] end.

Lemma person_rows_ext c c' id :
  contacts c' = contacts c → config c' = config c → env c' = env c →
  person_rows c' id = person_rows c id.
Proof.
  intros E1 E2 E3. unfold person_rows, get_contact, same_person, contact_rows, get_config_key,
    get_raw_config. by rewrite E1, E2, E3.
Qed.

Lemma is_trusted_ext c c' id :
  contacts c' = contacts c → config c' = config c → env c' = env c →
  trusted c' id ↔ trusted c id.
Proof.
  intros E1 E2 E3.
  assert (∀ x, get_contact c' x = get_contact c x) as Hg.
  { intros x. unfold get_contact, get_config_key, get_raw_config. by rewrite E1, E2, E3. }
  unfold trusted, known_elsewhere, is_verified, is_known_contact.
  setoid_rewrite Hg. by rewrite E1.
Qed.

(** The held messages a call to [release] lets go. *)
Definition releasable (c : Ctx) (ids : list Z) : Z → Prop :=
  sent_by c (λ g, ∃ id, id ∈ ids ∧ id ≠ ContactId.SELF ∧ trusted c id ∧ g ∈ person_rows c id).

Lemma release_loop_run ids n c :
  labels_ok c → ∃ c' n', release_loop ids n c = (c', Ok n') ∧ unheld (releasable c ids) c c'.
Proof.
  revert n c. induction ids as [|id ids IH]; intros n c Hok; cbn [release_loop].
  { exists c, n. split; [done|]. apply unheld_refl. intros x (m & _ & y & Hin & _). set_solver. }
  assert (∀ n, ¬ (id ≠ ContactId.SELF ∧ trusted c id) →
    ∃ c' n', release_loop ids n c = (c', Ok n') ∧ unheld (releasable c (id :: ids)) c c') as Hskip.
  { intros n0 Hn. destruct (IH n0 c Hok) as (c' & n' & Hrun & Hu). exists c', n'. split; [done|].
    eapply unheld_ext; [|exact Hu]. intros x _. unfold releasable, sent_by. set_solver. }
  destruct (Z.eqb_spec id ContactId.SELF) as [Hs|Hs]; [apply Hskip; naive_solver|].
  destruct (is_trusted_run c id) as (b & Hrun & Hb). rewrite run_bind, Hrun.
  destruct b; cbn [negb]; [|apply Hskip; rewrite <-Hb; naive_solver].
  rewrite run_bind_gets. fold (person_rows c id). rewrite run_bind.
  destruct (release_rows_run (person_rows c id) n c Hok) as (c1 & n1 & Hrun1 & Hu1).
  rewrite Hrun1. pose proof (unheld_same _ _ _ Hu1) as (Em & Ec & El & Es & Ef & Ee).
  destruct (IH n1 c1) as (c2 & n2 & Hrun2 & Hu2); [by eapply labels_ok_ext|].
  exists c2, n2. split; [done|]. eapply unheld_ext; [|by eapply unheld_trans].
  assert (trusted c id) as Ht by by apply Hb.
  intros x _. unfold releasable, sent_by. rewrite Em.
  setoid_rewrite (is_trusted_ext c c1 _ Ec Ef Ee).
  setoid_rewrite (λ y, person_rows_ext c c1 y Ec Ef Ee).
  split.
  - intros [(m & Hm & Hg)|(m & Hm & y & Hy & Hg)]; exists m; (split; [done|]).
    + exists id. split_and!; [set_solver|done..].
    + exists y. split; [set_solver|done].
  - intros (m & Hm & y & [->|Hy]%elem_of_cons & ? & ? & ?).
    + left. by exists m.
    + right. exists m. split; [done|]. by exists y.
Qed.

(** C33: accepting senders releases exactly the mail it should: a held message
    is let go when its sender is a row of the same person as one of the given
    contacts that is now trusted, and stays held otherwise; a released message
    loses the label Unverified and no other label of any message changes;
    nothing else of the account changes. *)
Theorem release_exact (c : Ctx) (ids : list Z) :
  labels_ok c →
  (∃ n, outcome (release ids) c = Ok n) ∧ unheld (releasable c ids) c (final (release ids) c).
Proof.
  intros Hok. destruct (release_loop_run ids 0 c Hok) as (c' & n & Hrun & Hu).
  unfold outcome, final, release. rewrite Hrun. eauto.
Qed.

(** ** Sweeping *)

(** Mail whose hold has elapsed. *)
Definition overdue (c : Ctx) (t : Z) : bool := (t + hold_days c * 86400 <=? clock c)%Z.

Lemma cutoff_exact c t :
  (0 ≤ clock c ≤ i64_max)%Z → (0 < hold_days c)%Z →
  (t <= sat_sub (clock c) (sat_mul (hold_days c) 86400))%Z ↔ overdue c t = true.
Proof.
  intros Hc Hd. pose proof (get_config_int_bounds c Config.UnverifiedTrashDays) as Hb.
  unfold overdue, hold_days in *. rewrite Z.leb_le.
  rewrite sat_mul_exact by (unfold in_i32, in_i64, i32_min, i32_max, i64_min, i64_max in *; lia).
  rewrite sat_sub_exact by (unfold in_i32, in_i64, i32_min, i32_max, i64_min, i64_max in *; lia).
  lia.
Qed.

(** The rows [sweep] takes. *)
Definition expired_holds (c : Ctx) : list Z :=
  (filter (λ kv, (kv.2 <= sat_sub (clock c) (sat_mul (hold_days c) 86400))%Z)
     (map_to_list (held_msgs c))).*1.

Lemma elem_of_expired_holds c x :
  (0 ≤ clock c ≤ i64_max)%Z → (0 < hold_days c)%Z →
  x ∈ expired_holds c ↔ ∃ t, held_msgs c !! x = Some t ∧ overdue c t = true.
Proof.
  intros Hc Hd. unfold expired_holds. rewrite list_elem_of_fmap. split.
  - intros ([y t] & -> & Hin). apply list_elem_of_filter in Hin as [Hp Hin].
    apply elem_of_map_to_list in Hin. exists t. split; [done|]. by apply cutoff_exact.
  - intros (t & Ht & Ho). exists (x, t). split; [done|]. apply list_elem_of_filter.
    split; [by apply cutoff_exact|]. by apply elem_of_map_to_list.
Qed.

Lemma prune_run c :
  prune c = (set_held_msgs (λ _, filter (λ kv, live_msg c kv.1 = true) (held_msgs c)) c, Ok 0).
Proof. done. Qed.

Lemma sweep_moves c :
  labels_ok c → expired_holds c ≠ [] → (0 < hold_days c)%Z →
  ∃ c1 c', sweep c = (c', Ok (length (expired_holds c))) ∧ held_msgs c1 = held_msgs c
    ∧ msgs c1 = msgs c ∧ labels c1 = labels c
    ∧ (∀ x, x ∈ expired_holds c → trashed_label c1 x ∧ is_Some (trashed_msgs c1 !! x))
    ∧ unheld (λ x, x ∈ expired_holds c) c1 c'.
Proof.
  intros Hok Hne Hd. unfold sweep. rewrite run_bind_gets.
  destruct (Z.leb_spec (hold_days c) 0); [lia|]. rewrite !run_bind_gets. fold (expired_holds c).
  assert (is_empty (expired_holds c) = false) as -> by by destruct (expired_holds c).
  destruct (to_trash_run (expired_holds c) Reason.Unaccepted (clock c) c Hok Hne)
    as (i & q & T & Hi & Hrun & HT & _).
  rewrite run_bind, Hrun. set (c1 := set_trashed_msgs _ _).
  destruct (unhold_run (expired_holds c) c1) as (c' & Hun & Hu).
  { by eapply labels_ok_ext; [..|exact Hok]. }
  { intros x Hx. unfold expired_holds in Hx. apply list_elem_of_fmap in Hx as ([y t] & -> & Hin).
    apply list_elem_of_filter in Hin as [_ Hin]. apply elem_of_map_to_list in Hin. by exists t. }
  exists c1, c'. split_and!; try done. intros x Hx. split.
  - exists i. split; [exact Hi|]. simpl. rewrite elem_of_mark. by rewrite decide_True.
  - simpl. rewrite HT. destruct (trashed_msgs c !! x); [done|]. by rewrite decide_True.
Qed.

(** The trash and the hold use different labels. *)
Lemma trash_not_unverified c i : label_row c TRASH i → ¬ label_row c UNVERIFIED i.
Proof.
  intros (r & Hr & Hn) (s & Hs & Hm). rewrite norm_trash in Hn. rewrite norm_unverified in Hm.
  simplify_eq. rewrite Hn in Hm. done.
Qed.

(** The sweep never destroys mail: no row of [msgs] changes.  Every message
    held for the configured number of days or longer is moved: it carries the
    label Trash, has a purge deadline, is no longer held and no longer carries
    Unverified; a live message held for less stays held since the same time. *)
Theorem sweep_moves_overdue (c : Ctx) (x t : Z) :
  labels_ok c → (0 < hold_days c)%Z → (0 ≤ clock c ≤ i64_max)%Z →
  held_msgs c !! x = Some t →
  let c' := final sweep c in
  msgs c' = msgs c
  ∧ (overdue c t = true →
     trashed_label c' x ∧ is_Some (trashed_msgs c' !! x) ∧ held_msgs c' !! x = None
     ∧ ¬ unverified_label c' x)
  ∧ (overdue c t = false → live_msg c x = true → held_msgs c' !! x = Some t).
Proof.
  intros Hok Hd Hclock Hx. cbv zeta. unfold final.
  pose proof (elem_of_expired_holds c x Hclock Hd) as Hel.
  destruct (is_empty (expired_holds c)) eqn:He.
  - assert (sweep c = prune c) as ->.
    { unfold sweep. rewrite run_bind_gets.
      destruct (Z.leb_spec (hold_days c) 0); [lia|]. rewrite !run_bind_gets.
      fold (expired_holds c). by rewrite He. }
    rewrite prune_run. simpl. split; [done|]. split.
    + intros Ho. assert (x ∈ expired_holds c) as Hin by (apply Hel; eauto).
      destruct (expired_holds c); [set_solver|done].
    + intros _ Hl. by apply map_lookup_filter_Some.
  - destruct (sweep_moves c Hok) as (c1 & c2 & Hrun & Eh & Em & El & Htr & Hu); [|done|].
    { intros E. by rewrite E in He. }
    rewrite Hrun. cbn [fst].
    pose proof (unheld_same _ _ _ Hu) as (Em' & _ & El' & _).
    assert (trashed_msgs c2 = trashed_msgs c1) as Et by (destruct Hu as [(h & s & ->) _ _]; done).
    destruct Hu as [_ Hh Hlab]. split; [congruence|]. split.
    + intros Ho. assert (x ∈ expired_holds c) as Hin by (apply Hel; eauto).
      destruct (Htr x Hin) as [(i & Hi & Hxi) Hsome]. rewrite Et.
      assert (label_row c2 TRASH i) as Hi2 by (unfold label_row in *; by rewrite El').
      split_and!; [|done|..].
      * exists i. split; [done|]. apply Hlab. split; [done|]. intros [Hn _].
        by apply (trash_not_unverified c1 i).
      * apply eq_None_not_Some. intros [t' Ht']. by apply Hh in Ht' as [_ Hn].
      * intros (k & Hk & Hxk). apply Hlab in Hxk as [_ Hn]. apply Hn.
        unfold label_row in *. rewrite El' in Hk. split_and!; [done..|]. rewrite Eh. by exists t.
    + intros Ho _. apply Hh. rewrite Eh. split; [done|]. rewrite Hel. intros (t' & Ht' & Ho').
      congruence.
Qed.

(** Switching gating off strands nothing: every held message is released,
    no released message keeps the label Unverified, no message is lost, and new
    mail is no longer held. *)
Theorem disabling_releases_all (c : Ctx) :
  labels_ok c → env c !! env_key (Config.as_ref Config.InboxGating) = None →
  let c' := final (set_enabled false) c in
  outcome (set_enabled false) c = Ok tt ∧ is_enabled c' = false
  ∧ held_msgs c' = ∅ ∧ msgs c' = msgs c
  ∧ ∀ x, is_Some (held_msgs c !! x) → ¬ unverified_label c' x.
Proof.
  intros Hok Henv.
  assert (set_config_bool Config.InboxGating false c
          = (set_raw_config (Config.as_ref Config.InboxGating) (Some (lit "0")) c, Ok tt)) as Hcfg by done.
  set (c1 := set_raw_config _ _ c) in Hcfg.
  assert (labels_ok c1) as Hok1 by (by eapply labels_ok_ext; [..|exact Hok]).
  destruct (unhold_run (map_to_list (held_msgs c1)).*1 c1 Hok1) as (c2 & Hrun & Hu).
  { intros x Hx. apply list_elem_of_fmap in Hx as ([y t] & -> & Hin).
    apply elem_of_map_to_list in Hin. by exists t. }
  assert (∀ x, x ∈ (map_to_list (held_msgs c1)).*1 ↔ is_Some (held_msgs c !! x)) as Hall.
  { intros x. rewrite list_elem_of_fmap. split.
    - intros ([y t] & -> & Hin). apply elem_of_map_to_list in Hin. by exists t.
    - intros [t Ht]. exists (x, t). split; [done|]. by apply elem_of_map_to_list. }
  assert (set_enabled false c = (c2, Ok tt)) as Hset.
  { unfold set_enabled. rewrite run_bind, Hcfg. cbn [negb]. unfold release_all.
    rewrite run_bind, run_bind_gets, Hrun. done. }
  unfold final, outcome. rewrite Hset. cbn [fst snd].
  pose proof (unheld_same _ _ _ Hu) as (Em & _ & El & _ & Ef & Ee).
  destruct Hu as [_ Hh Hlab]. split_and!; [done|..].
  - unfold is_enabled, get_config_bool, get_config, get_config_opt, get_config_key, get_raw_config.
    rewrite Ee, Ef. change (env c1) with (env c). rewrite Henv.
    change (config c1) with (<[Config.as_ref Config.InboxGating := lit "0"]> (config c)).
    by rewrite lookup_insert_eq.
  - apply map_empty. intros x. apply eq_None_not_Some. intros [t Ht]. apply Hh in Ht as [Ht Hn].
    apply Hn, Hall. by exists t.
  - done.
  - intros x Hx (k & Hk & Hin). apply Hlab in Hin as [_ Hn]. apply Hn.
    unfold label_row in *. rewrite El in Hk. split_and!; [done|by apply Hall|done].
Qed.
End gating.

(** ** Instances: one message from a stranger, contact 10 *)

Definition contact_row (addr : str) (origin : Origin.t) : ContactRow.t :=
  ContactRow.mk [] addr (Origin.to_i64 origin) false 0 [] [] 0.

Definition stranger_account : Ctx :=
  set_contacts <[10%Z := contact_row (lit "spam@example.com") Origin.IncomingUnknownFrom]>
    (final (set_config_bool Config.InboxGating true ;; set_hold_days 30) with_window).

Lemma stranger_account_ok : @labels_ok ascii_case stranger_account.
Proof. apply wf_labelsb_sound. vm_compute. reflexivity. Qed.

Lemma stranger_not_trusted : ¬ trusted stranger_account 10.
Proof.
  destruct (is_trusted_run stranger_account 10) as (b & Hrun & Hb). rewrite <-Hb.
  vm_compute in Hrun. congruence.
Qed.

Lemma gating_holds_exactly_witness :
  ∃ i, @label_row ascii_case stranger_account UNVERIFIED i
    ∧ final (@apply ascii_case first_choice 20) stranger_account
      = set_held_msgs (λ t, <[20%Z := default (clock stranger_account) (t !! 20%Z)]> t)
          (set_msg_labels (λ s, {[ (20%Z, i) ]} ∪ s) stranger_account).
Proof.
  apply (@gating_holds_exactly ascii_case first_choice stranger_account 20 the_message
           stranger_account_ok).
  - vm_compute. reflexivity.
  - split; [vm_compute; reflexivity|]. split; [reflexivity|]. exact stranger_not_trusted.
Defined.

(** The stranger's mail is held; then the user writes to them. *)
Definition held_account : Ctx := final (@apply ascii_case first_choice 20) stranger_account.
Definition accepted_account : Ctx :=
  set_contacts <[10%Z := contact_row (lit "spam@example.com") Origin.OutgoingTo]> held_account.

Lemma release_exact_witness :
  is_Some (held_msgs accepted_account !! 20%Z)
  ∧ held_msgs (final (@release ascii_case first_choice [10%Z]) accepted_account) !! 20%Z = None.
Proof.
  split; [vm_compute; eauto|].
  destruct (@release_exact ascii_case first_choice accepted_account [10%Z]) as [_ Hu].
  - apply wf_labelsb_sound. vm_compute. reflexivity.
  - apply eq_None_not_Some. intros [t Ht]. apply (unheld_held _ _ _ Hu) in Ht as [_ Hn].
    apply Hn. exists the_message. split; [vm_compute; reflexivity|]. exists 10%Z.
    split; [set_solver|]. split; [done|]. split; [|vm_compute; set_solver].
    destruct (is_trusted_run accepted_account 10) as (b & Hrun & Hb). apply Hb.
    vm_compute in Hrun. congruence.
Defined.

Definition later_account : Ctx := set_clock (λ _, 3000000%Z) held_account.

Lemma sweep_moves_overdue_witness :
  msgs (final (@sweep ascii_case first_choice) later_account) = msgs later_account
  ∧ is_Some (trashed_msgs (final (@sweep ascii_case first_choice) later_account) !! 20%Z).
Proof.
  destruct (@sweep_moves_overdue ascii_case first_choice later_account 20 1000) as (H1 & H2 & _).
  - apply wf_labelsb_sound. vm_compute. reflexivity.
  - vm_compute. reflexivity.
  - vm_compute. split; discriminate.
  - vm_compute. reflexivity.
  - split; [exact H1|]. apply H2. vm_compute. reflexivity.
Defined.

Lemma disabling_releases_all_witness :
  held_msgs (final (@set_enabled ascii_case first_choice false) held_account) = ∅.
Proof.
  apply (@disabling_releases_all ascii_case first_choice held_account).
  - apply wf_labelsb_sound. vm_compute. reflexivity.
  - vm_compute. reflexivity.
Defined.
