(* ===== verification/Blocklist.v ===== *)
(** * Blocklist: senders whose mail is trashed on arrival,
    [core/src/email/blocklist.rs], with the contact blocking of
    [core/src/contact.rs] it is paired with. *)

From S2P Require Import Prelude Text Store Labels Migrations Trash Gating.

(** ** Blocking a contact: [core/src/contact.rs], [core/src/chat.rs] *)

Definition Chattype_Single : Z := 100.
Definition Chattype_Mailinglist : Z := 140.
Definition Chattype_InBroadcast : Z := 165.
Definition Blocked_Not : Z := 0.
Definition Blocked_Yes : Z := 1.

Module Entry.
Record t := mk { id : Z; pattern : str; added : Z; reason : str }.
End Entry.

(** [UPDATE contacts SET ..]: rows rewritten in place. *)
Definition with_blocked (b : bool) (r : ContactRow.t) : ContactRow.t :=
  ContactRow.mk (ContactRow.name r) (ContactRow.addr r) (ContactRow.origin r) b
    (ContactRow.last_seen r) (ContactRow.authname r) (ContactRow.fingerprint r)
    (ContactRow.verifier r).

Definition chat_with_blocked (b : Z) (r : ChatRow.t) : ChatRow.t :=
  ChatRow.mk (ChatRow.typ r) (ChatRow.name r) (ChatRow.grpid r) b (ChatRow.ephemeral_timer r)
    (ChatRow.param r) (ChatRow.archived r) (ChatRow.muted_until r).

(** [Contact::mark_noticed] *)
Definition mark_noticed (id : Z) : Ctx → Ctx :=
  set_msgs (fmap (λ m,
    if ((Msg.from_id m =? id) && (Msg.state m =? MessageState.to_i64 MessageState.InFresh))%Z
    then with_state (MessageState.to_i64 MessageState.InNoticed) m else m)).

(** [ChatId::set_blocked] and [unblock_ext] with [Nosync]. *)
Definition chat_set_blocked (chat_id : Z) (new_blocked : Z) : cmd Ctx unit :=
  ensure (negb (chat_id <=? DC_CHAT_ID_LAST_SPECIAL)%Z) "ignoring setting of Block-status" ;;
  modify (set_chats (alter (chat_with_blocked new_blocked) chat_id)).

Definition unblock_ext (chat_id : Z) : cmd Ctx unit := chat_set_blocked chat_id Blocked_Not.

(** [UPDATE chats SET blocked=? WHERE type=100 AND id IN (SELECT chat_id ..)] *)
Definition block_single_chats (contact_id : Z) (b : bool) (c : Ctx) : Ctx :=
  set_chats (map_imap (λ i r,
    Some (if bool_decide (ChatRow.typ r = Chattype_Single ∧ (i, contact_id) ∈ chats_contacts c)
          then chat_with_blocked (if b then 1 else 0) r else r))) c.

(** The rows [UPDATE contacts .. WHERE addr=?] rewrites: the column's collation
    is NOCASE. *)
Definition mailinglist_contact (name fingerprint : str) (r : ContactRow.t) : ContactRow.t :=
  ContactRow.mk name (ContactRow.addr r) (Origin.to_i64 Origin.MailinglistAddress) true
    (ContactRow.last_seen r) (ContactRow.authname r) fingerprint (ContactRow.verifier r).

Definition block_mailinglist (row : ChatRow.t) (c : Ctx) : Ctx :=
  let grpid := ChatRow.grpid row in
  let is_it r := eq_ignore_ascii_case (ContactRow.addr r) grpid in
  let c1 :=
    if existsb (λ r, is_it r.2) (contact_rows c) then c
    else let id := (contacts_seq c + 1)%Z in
         set_contacts_seq (λ _, id)
           (set_contacts <[id := ContactRow.mk [] grpid 0 false 0 [] [] 0]> c) in
  let fingerprint := if (ChatRow.typ row =? Chattype_InBroadcast)%Z
                     then lit "Blocked_broadcast" else [] in
  set_contacts (fmap (λ r,
    if is_it r then mailinglist_contact (ChatRow.name row) fingerprint r else r)) c1.

Definition update_blocked_mailinglist_contacts : cmd Ctx unit :=
  rows ← gets (λ c, snd <$> filter (λ r,
    (ChatRow.typ r.2 = Chattype_Mailinglist ∨ ChatRow.typ r.2 = Chattype_InBroadcast)
    ∧ ChatRow.blocked r.2 = Blocked_Yes) (map_to_list (chats c)));
  for_each rows (λ row, modify (block_mailinglist row)).

(** [ORDER BY last_seen DESC, id DESC] *)
Definition last_seen_geb (a b : Z * ContactRow.t) : bool :=
  if (ContactRow.last_seen a.2 =? ContactRow.last_seen b.2)%Z then (b.1 <=? a.1)%Z
  else (ContactRow.last_seen b.2 <? ContactRow.last_seen a.2)%Z.

Definition get_all_blocked : cmd Ctx (list Z) :=
  update_blocked_mailinglist_contacts ;;
  gets (λ c, fst <$> sort_by last_seen_geb
    (filter (λ r, (ContactId.LAST_SPECIAL < r.1)%Z ∧ ContactRow.blocked r.2 = true)
       (contact_rows c))).

Section contact.
Context `{!UnicodeCase, !SqlChoice}.

(** [Fingerprint::from_str(..).ok()] followed by [hex()]: the hexadecimal digits
    of the upper-cased text, 20 or 32 bytes of them. *)
Definition fingerprint_hex (input : str) : option str :=
  let hex := filter (λ c, is_ascii_hexdigit c = true) (to_uppercase input) in
  if decide (length hex = 40 ∨ length hex = 64) then Some hex else None.

(** [chat::get_chat_id_by_grpid] *)
Definition get_chat_id_by_grpid (grpid : str) : cmd Ctx (option (Z * Z)) :=
  c ← gets id;
  match pick (filter (λ r, ChatRow.grpid r.2 = grpid) (map_to_list (chats c))) with
  | Some (i, row) =>
      ensure ((0 <=? ChatRow.blocked row) && (ChatRow.blocked row <=? 2))%Z "out of range" ;;
      mret (Some (i, ChatRow.blocked row))
  | None => mret None
  end.

(** [contact::set_blocked] *)
Definition set_blocked (sync : Sync.t) (contact_id : Z) (new_blocking : bool) : cmd Ctx unit :=
  ensure (negb (ContactId.is_special contact_id)) "Can't block special contact" ;;
  loaded ← gets (λ c, get_contact c contact_id);
  contact ← or_bail loaded "contact not found";
  if Bool.eqb (Contact.blocked contact) new_blocking then mret tt
  else
    modify (set_contacts (alter (with_blocked new_blocking) contact_id)) ;;
    modify (block_single_chats contact_id new_blocking) ;;
    modify (mark_noticed contact_id) ;;
    (if negb new_blocking && bool_decide (Contact.origin contact = Origin.MailinglistAddress)
     then
       chat ← get_chat_id_by_grpid (Contact.addr contact);
       match chat with
       | Some (chat_id, _) => unblock_ext chat_id
       | None => mret tt
       end
     else mret tt) ;;
    when_sync sync
      (add_sync_item (SyncAlterChat
         (match Contact.fingerprint contact ≫= fingerprint_hex with
          | Some hex => ContactFingerprint hex
          | None => ContactAddr (Contact.addr contact)
          end) new_blocking)).

Definition block (contact_id : Z) : cmd Ctx unit := set_blocked Sync.Sync contact_id true.
Definition unblock (contact_id : Z) : cmd Ctx unit := set_blocked Sync.Sync contact_id false.
End contact.

(** ** The blocklist *)

Section blocklist.
Context `{!UnicodeCase, !SqlChoice}.

Definition normalize (pattern : str) : str := to_lowercase (trim pattern).

Definition at_sign : N := 64.
Definition dot : N := 46.

Definition validate (pattern : str) : result str :=
  let norm := normalize pattern in
  if is_empty norm then Err "a blocklist entry needs an address or a domain"
  else match strip_prefix at_sign norm with
  | Some domain =>
      if is_empty domain || negb (contains dot domain) || contains at_sign domain
      then Err "is not a domain; write it as `@example.com`"
      else Ok norm
  | None =>
      let halves := split at_sign norm in
      let local := default [] (halves !! 0%nat) in
      let domain := default [] (halves !! 1%nat) in
      if is_empty local || is_empty domain || bool_decide (is_Some (halves !! 2%nat))
         || negb (contains dot domain)
      then Err "is neither an address nor a domain; a domain is written `@example.com`"
      else Ok norm
  end.

Definition pattern_covers (pattern_norm addr_norm : str) : bool :=
  match strip_prefix at_sign pattern_norm with
  | Some domain =>
      match split_once at_sign addr_norm with
      | Some (_, addr_domain) => bool_decide (addr_domain = domain)
      | None => false
      end
  | None => bool_decide (pattern_norm = addr_norm)
  end.

Definition entries_with (c : Ctx) (norm : str) : list (Z * BlockRow.t) :=
  filter (λ r, BlockRow.pattern_norm r.2 = norm) (map_to_list (blocklist c)).

(** [INSERT INTO blocklist .. ON CONFLICT(pattern_norm) DO NOTHING] *)
Definition insert_entry (row : BlockRow.t) (c : Ctx) : Ctx :=
  if is_empty (entries_with c (BlockRow.pattern_norm row)) then
    let id := (blocklist_seq c + 1)%Z in
    set_blocklist_seq (λ _, id) (set_blocklist <[id := row]> c)
  else c.

Definition add (pattern reason : str) : cmd Ctx unit :=
  norm ← lift (validate pattern);
  now ← gets clock;
  modify (insert_entry (BlockRow.mk (trim pattern) norm now reason)).

Definition remove (pattern : str) : cmd Ctx unit :=
  let norm := normalize pattern in
  modify (set_blocklist (filter (λ kv, BlockRow.pattern_norm kv.2 ≠ norm))) ;;
  blocked_ids ← get_all_blocked;
  for_each blocked_ids (λ contact_id,
    loaded ← gets (λ c, get_contact c contact_id);
    match loaded with
    | None => mret tt
    | Some contact =>
        if pattern_covers norm (normalize (Contact.addr contact))
        then unblock contact_id else mret tt
    end).

(** [ORDER BY added DESC, id DESC] *)
Definition added_geb (a b : Z * BlockRow.t) : bool :=
  if (BlockRow.added a.2 =? BlockRow.added b.2)%Z then (b.1 <=? a.1)%Z
  else (BlockRow.added b.2 <? BlockRow.added a.2)%Z.

Definition list_entries (c : Ctx) : list Entry.t :=
  (λ r, Entry.mk r.1 (BlockRow.pattern r.2) (BlockRow.added r.2) (BlockRow.reason r.2))
    <$> sort_by added_geb (map_to_list (blocklist c)).

Definition matches (c : Ctx) (addr : str) : bool :=
  let addr := normalize addr in
  match split_once at_sign addr with
  | None => false
  | Some (_, domain) =>
      existsb (λ r, bool_decide (BlockRow.pattern_norm r.2 = addr)
                    || bool_decide (BlockRow.pattern_norm r.2 = at_sign :: domain))
        (map_to_list (blocklist c))
  end.

Definition block_contact (contact_id : Z) : cmd Ctx unit :=
  loaded ← gets (λ c, get_contact c contact_id);
  contact ← or_bail loaded "contact not found";
  let addr := Contact.addr contact in
  block contact_id ;;
  if negb (is_empty addr) then add addr [] else mret tt.

Definition unblock_contact (contact_id : Z) : cmd Ctx unit :=
  loaded ← gets (λ c, get_contact c contact_id);
  contact ← or_bail loaded "contact not found";
  let addr := Contact.addr contact in
  unblock contact_id ;;
  if negb (is_empty addr) then remove addr else mret tt.

Definition apply (msg_id : Z) : cmd Ctx bool :=
  c ← gets id;
  match msgs c !! msg_id with
  | None => mret false
  | Some m =>
      if (negb (Msg.to_id m =? ContactId.SELF) || (Msg.from_id m =? ContactId.SELF))%Z
      then mret false
      else match get_contact c (Msg.from_id m) with
      | None => mret false
      | Some contact =>
          if negb (matches c (Contact.addr contact)) then mret false
          else
            to_trash [msg_id] Reason.Blocked (clock c) ;;
            mret true
      end
  end.

(** ** The stored patterns *)

Record blocklist_ok (c : Ctx) : Prop := {
  bok_unique i j r s :
    blocklist c !! i = Some r → blocklist c !! j = Some s →
    BlockRow.pattern_norm r = BlockRow.pattern_norm s → i = j;
  bok_valid i r :
    blocklist c !! i = Some r → validate (BlockRow.pattern r) = Ok (BlockRow.pattern_norm r);
  bok_seq i r : blocklist c !! i = Some r → (i ≤ blocklist_seq c)%Z;
}.

Lemma validate_norm p n : validate p = Ok n → n = normalize p ∧ at_sign ∈ n.
Proof.
  unfold validate. intros Hv.
  assert (n = normalize p) as Hn by (repeat case_match; congruence). split; [done|].
  rewrite <-Hn in Hv. clear Hn. destruct (is_empty n); [done|].
  destruct (strip_prefix at_sign n) as [d|] eqn:Hs.
  - unfold strip_prefix in Hs. destruct n as [|x n]; [done|]. case_decide; [|done]. set_solver.
  - destruct (split_once at_sign n) as [[a b]|] eqn:Ho; [apply split_once_Some in Ho as [-> _]; set_solver|].
    apply split_once_None in Ho. exfalso. revert Hv. rewrite (split_none at_sign n Ho). simpl.
    by rewrite orb_true_r.
Qed.

Lemma validate_trim p : validate (trim p) = validate p.
Proof. unfold validate, normalize. by rewrite trim_idemp. Qed.

Lemma pattern_covers_iff p a :
  at_sign ∈ p →
  pattern_covers p a = true ↔
  ∃ l d, split_once at_sign a = Some (l, d) ∧ (p = a ∨ p = at_sign :: d).
Proof.
  intros Hp. unfold pattern_covers. destruct p as [|x p]; [set_solver|]. cbn [strip_prefix].
  destruct (decide (x = at_sign)) as [->|Hx].
  - destruct (split_once at_sign a) as [[l d]|] eqn:Hs.
    + rewrite bool_decide_eq_true. split; [intros ->; eauto 10|].
      intros (l' & d' & [= <- <-] & [Ha|[= <-]]); [|done].
      subst a. cbn in Hs. rewrite decide_True in Hs by done. congruence.
    + split; [done|]. intros (? & ? & ? & _). congruence.
  - rewrite bool_decide_eq_true. split.
    + intros <-. destruct (split_once at_sign (x :: p)) as [[l d]|] eqn:Hs; [eauto|].
      by apply split_once_None in Hs.
    + intros (l & d & Hs & [Ha|Ha]); [done|congruence].
Qed.

(** The two indexed lookups of [matches] and the predicate [pattern_covers] used
    for removal are the same rule. *)
Lemma matches_iff_covered (c : Ctx) (addr : str) :
  blocklist_ok c →
  matches c addr = true ↔
  ∃ i r, blocklist c !! i = Some r ∧ pattern_covers (BlockRow.pattern_norm r) (normalize addr) = true.
Proof.
  intros Hok. unfold matches. cbv zeta. generalize (normalize addr) as a. intros a.
  assert (∀ i r, blocklist c !! i = Some r →
    pattern_covers (BlockRow.pattern_norm r) a = true ↔
    ∃ l d, split_once at_sign a = Some (l, d)
           ∧ (BlockRow.pattern_norm r = a ∨ BlockRow.pattern_norm r = at_sign :: d)) as Hcov.
  { intros i r Hr. destruct (validate_norm _ _ (bok_valid c Hok i r Hr)) as [_ Hat].
    by apply pattern_covers_iff. }
  split.
  - destruct (split_once at_sign a) as [[l d]|] eqn:Hs; [|done]. rewrite existsb_exists.
    intros ([i r] & Hin & Hb). rewrite <-list_elem_of_In, elem_of_map_to_list in Hin.
    exists i, r. split; [done|]. apply (Hcov i r Hin). exists l, d. split; [done|].
    apply orb_prop in Hb as [Hb|Hb]; apply bool_decide_eq_true in Hb; auto.
  - intros (i & r & Hr & (l & d & Hs & Hp)%(Hcov i r Hr)). rewrite Hs, existsb_exists.
    exists (i, r). rewrite <-list_elem_of_In, elem_of_map_to_list. split; [done|].
    cbn [fst snd]. rewrite orb_true_iff, !bool_decide_eq_true. done.
Qed.

(** *** Histories of the list *)

Inductive list_op := BAdd (pattern reason : str) | BRemove (pattern : str).

Definition run_list_op (o : list_op) : cmd Ctx unit :=
  match o with BAdd pattern reason => add pattern reason | BRemove pattern => remove pattern end.

Definition run_list_ops (ops : list list_op) (c : Ctx) : Ctx :=
  foldl (λ c o, final (run_list_op o) c) c ops.

(** What the list means: the set of normalized patterns in force. *)
Definition abs_list_op (o : list_op) (S : gset str) : gset str :=
  match o with
  | BAdd pattern _ => match validate pattern with Ok norm => {[ norm ]} ∪ S | Err _ => S end
  | BRemove pattern => S ∖ {[ normalize pattern ]}
  end.

Definition abs_list_ops (ops : list list_op) (S : gset str) : gset str :=
  foldl (λ S o, abs_list_op o S) S ops.

(** The list of [c] is [S]. *)
Definition list_is (S : gset str) (c : Ctx) : Prop :=
  blocklist_ok c ∧ ∀ n, n ∈ S ↔ ∃ i r, blocklist c !! i = Some r ∧ BlockRow.pattern_norm r = n.

Lemma list_is_ext S c c' :
  blocklist c' = blocklist c → blocklist_seq c' = blocklist_seq c → list_is S c → list_is S c'.
Proof.
  intros E1 E2 [[Hu Hv Hs] Hn]. split; [split|]; rewrite ?E1, ?E2; assumption.
Qed.

Lemma add_list_is S p reason c :
  list_is S c → list_is (abs_list_op (BAdd p reason) S) (final (add p reason) c).
Proof.
  intros [Hok HS]. unfold final, add. cbn [abs_list_op]. rewrite run_bind. unfold lift.
  destruct (validate p) as [n|e] eqn:Hv; [|done]. rewrite run_bind_gets. simpl.
  unfold insert_entry. cbn [BlockRow.pattern_norm].
  destruct (entries_with c n) as [|[j s] l] eqn:E; cbn [is_empty].
  - assert (∀ i r, blocklist c !! i = Some r → BlockRow.pattern_norm r ≠ n) as Hfresh.
    { intros i r Hi Hr. assert ((i, r) ∈ entries_with c n) as Hin.
      { apply list_elem_of_filter. split; [done|]. by apply elem_of_map_to_list. }
      rewrite E in Hin. by apply not_elem_of_nil in Hin. }
    assert (blocklist c !! (blocklist_seq c + 1)%Z = None) as Hnew.
    { apply eq_None_not_Some. intros [r Hr]. apply (bok_seq c Hok) in Hr. lia. }
    destruct Hok as [Hu Hval Hseq]. split; [split|]; simpl.
    + intros i j r t. rewrite !lookup_insert. repeat case_decide; naive_solver.
    + intros i r. rewrite lookup_insert. case_decide; [|eauto]. intros [= <-]. simpl.
      by rewrite validate_trim.
    + intros i r. rewrite lookup_insert. case_decide; [lia|]. intros ?%Hseq. lia.
    + intros m. rewrite elem_of_union, elem_of_singleton, HS. split.
      * intros [->|(i & r & Hi & <-)].
        { eexists _, _. by rewrite lookup_insert_eq. }
        exists i, r. by rewrite lookup_insert_ne by congruence.
      * intros (i & r & Hi & <-). rewrite lookup_insert in Hi. case_decide; [|eauto].
        injection Hi as <-. by left.
  - assert ((j, s) ∈ entries_with c n) as Hin by (rewrite E; set_solver).
    apply list_elem_of_filter in Hin as [Hn Hin]. apply elem_of_map_to_list in Hin. simpl in Hn.
    split; [done|]. intros m. rewrite elem_of_union, elem_of_singleton, HS. split; [|eauto].
    intros [->|]; [|done]. by exists j, s.
Qed.

(** Blocking contacts does not touch the list. *)
Lemma preserves_set_blocked S sync id b : preserves (list_is S) (set_blocked sync id b).
Proof.
  unfold set_blocked, get_chat_id_by_grpid, unblock_ext, chat_set_blocked, when_sync, add_sync_item.
  preserve; apply preserves_modify; intros c; apply list_is_ext; try done;
    unfold push_sync_item; by destruct (should_send_sync_msgs c).
Qed.

Lemma preserves_get_all_blocked S : preserves (list_is S) get_all_blocked.
Proof.
  unfold get_all_blocked, update_blocked_mailinglist_contacts. preserve.
  apply preserves_modify. intros c. unfold block_mailinglist. cbv zeta.
  destruct (existsb _ _); by apply list_is_ext.
Qed.

Lemma remove_list_is S p c :
  list_is S c → list_is (abs_list_op (BRemove p) S) (final (remove p) c).
Proof.
  intros [Hok HS]. unfold final, remove. rewrite run_bind_modify. cbn [abs_list_op].
  set (c1 := set_blocklist _ c).
  assert (list_is (S ∖ {[ normalize p ]}) c1) as H1.
  { destruct Hok as [Hu Hv Hs]. split; [split|]; simpl.
    - intros i j r t [Hi _]%map_lookup_filter_Some [Hj _]%map_lookup_filter_Some. eauto.
    - intros i r [Hi _]%map_lookup_filter_Some. eauto.
    - intros i r [Hi _]%map_lookup_filter_Some. eauto.
    - intros n. rewrite elem_of_difference, elem_of_singleton, HS.
      setoid_rewrite map_lookup_filter_Some. simpl. naive_solver. }
  apply (preserves_final (list_is (S ∖ {[ normalize p ]}))); [|done].
  apply preserves_bind; [apply preserves_get_all_blocked|]. intros ids.
  preserve. apply preserves_set_blocked.
Qed.

(** C37: after any history of additions and removals, an address is blocked
    exactly when a pattern that was accepted, and not removed since, covers it:
    an address pattern covers that address up to case, a domain pattern the
    addresses whose part after the first at sign is exactly the domain, so no
    subdomain; a rejected pattern adds nothing and adding twice is adding
    once. *)
Theorem blocklist_history_refines (ops : list list_op) (addr : str) (c : Ctx) :
  blocklist c = ∅ →
  matches (run_list_ops ops c) addr = true ↔
  ∃ n, n ∈ abs_list_ops ops ∅ ∧ pattern_covers n (normalize addr) = true.
Proof.
  intros He. assert (list_is ∅ c) as Hc.
  { split; [split|]; rewrite He; intros *; rewrite ?lookup_empty; try done.
    setoid_rewrite lookup_empty. split; [by intros ?%not_elem_of_empty|by intros (? & ? & ? & _)]. }
  assert (list_is (abs_list_ops ops ∅) (run_list_ops ops c)) as [Hok HS].
  { clear He. revert c Hc. generalize (∅ : gset str) as S. unfold run_list_ops, abs_list_ops.
    induction ops as [|o ops IH]; intros S c Hc; [done|]. simpl. apply IH.
    destruct o; [by apply add_list_is|by apply remove_list_is]. }
  rewrite matches_iff_covered by done. setoid_rewrite HS. split.
  - intros (i & r & Hr & Hp). eauto 10.
  - intros (n & (i & r & Hr & <-) & Hp). eauto.
Qed.

(** ** On arrival *)

(** The message is incoming, from another person, and its sender is blocked. *)
Definition rejected (c : Ctx) (m : Msg.t) : Prop :=
  Msg.to_id m = ContactId.SELF ∧ Msg.from_id m ≠ ContactId.SELF
  ∧ ∃ contact, get_contact c (Msg.from_id m) = Some contact
               ∧ matches c (Contact.addr contact) = true.

Lemma apply_rejects c id m :
  labels_ok c → msgs c !! id = Some m → rejected c m →
  ∃ i t, label_row c TRASH i
    ∧ apply id c = (set_trashed_msgs (λ _, t) (set_msg_labels (mark true [id] i) c), Ok true)
    ∧ t !! id = Some (default (TrashedRow.mk (clock c) (sat_add (clock c) (purge_secs c))
                                 (Reason.to_i64 Reason.Blocked)) (trashed_msgs c !! id)).
Proof.
  intros Hok Hm (Hto & Hfrom & contact & Hc & Hmatch). unfold apply. rewrite run_bind_gets.
  unfold Datatypes.id. rewrite Hm, (proj2 (Z.eqb_eq _ _) Hto), (proj2 (Z.eqb_neq _ _) Hfrom).
  cbn [negb orb]. rewrite Hc, Hmatch. cbn [negb].
  destruct (to_trash_run [id] Reason.Blocked (clock c) c Hok) as (i & q & t & Hi & Hrun & Ht & Hq); [done|].
  exists i, t. split; [done|]. rewrite run_bind, Hrun, Hq by done. split; [by destruct c|].
  rewrite Ht. destruct (trashed_msgs c !! id); [done|]. by rewrite decide_True by set_solver.
Qed.

Lemma apply_accepts c id m :
  msgs c !! id = Some m → ¬ rejected c m → apply id c = (c, Ok false).
Proof.
  intros Hm Hn. unfold apply. rewrite run_bind_gets. unfold Datatypes.id. rewrite Hm. unfold rejected in Hn.
  destruct (Z.eqb_spec (Msg.to_id m) ContactId.SELF); [|done].
  destruct (Z.eqb_spec (Msg.from_id m) ContactId.SELF); [done|]. cbn [negb orb].
  destruct (get_contact c (Msg.from_id m)) as [contact|] eqn:Hc; [|done].
  destruct (matches c (Contact.addr contact)) eqn:Hmatch; [|done]. destruct Hn. eauto 10.
Qed.

(** A just-received message goes to the trash exactly when it is incoming,
    from another person, and its sender's address is blocked; then it carries
    the label Trash and a purge deadline, its content is untouched and nothing
    is queued for other devices.  In every other case nothing changes. *)
Theorem blocklist_trashes_exactly (c : Ctx) (id : Z) (m : Msg.t) :
  labels_ok c → msgs c !! id = Some m →
  (rejected c m →
     outcome (apply id) c = Ok true
     ∧ trashed_label (final (apply id) c) id
     ∧ is_Some (trashed_msgs (final (apply id) c) !! id)
     ∧ msgs (final (apply id) c) = msgs c
     ∧ multi_device_sync (final (apply id) c) = multi_device_sync c)
  ∧ (¬ rejected c m → apply id c = (c, Ok false)).
Proof.
  intros Hok Hm. split; [|by apply apply_accepts]. intros Hr.
  destruct (apply_rejects c id m Hok Hm Hr) as (i & t & Hi & Hrun & Ht).
  unfold outcome, final. rewrite Hrun. simpl. rewrite Ht. split_and!; try done.
  exists i. split; [done|]. simpl. set_solver.
Qed.

(** A blocked sender who is also untrusted leaves the message in both views:
    after the two receive hooks, in their order, it carries Trash and it still
    carries Unverified and is still held. *)
Theorem blocked_stranger_in_both_views (c : Ctx) (id : Z) (m : Msg.t) :
  labels_ok c → msgs c !! id = Some m → is_enabled c = true →
  ¬ trusted c (Msg.from_id m) → rejected c m →
  let c' := final (apply id) (final (Gating.apply id) c) in
  trashed_label c' id ∧ unverified_label c' id ∧ is_Some (held_msgs c' !! id).
Proof.
  intros Hok Hm He Hn Hr c'. pose proof Hr as (Hto & _).
  destruct (apply_holds c id m Hok Hm He Hto Hn) as (i & Hi & Hrun).
  unfold c', final. rewrite Hrun. cbn [fst]. set (c1 := set_held_msgs _ _).
  destruct (apply_rejects c1 id m) as (j & t & Hj & Hrun1 & Ht);
    [by eapply labels_ok_ext; [..|exact Hok]|done|exact Hr|].
  rewrite Hrun1. cbn [fst]. split_and!.
  - exists j. split; [exact Hj|]. simpl. set_solver.
  - exists i. split; [exact Hi|]. simpl. set_solver.
  - simpl. by rewrite lookup_insert_eq.
Qed.

(** ** Blocking a person *)

(** What [block] leaves: the contact is blocked, the list is as it was. *)
Lemma block_run c id contact :
  ContactId.is_special id = false → get_contact c id = Some contact →
  ∃ c', block id c = (c', Ok tt) ∧ blocklist c' = blocklist c ∧ blocklist_seq c' = blocklist_seq c
    ∧ get_contact c' id = Some (Contact.mk (Contact.id contact) (Contact.addr contact)
                                  (Contact.origin contact) true (Contact.fingerprint contact)).
Proof.
  intros Hsp Hc. unfold block, set_blocked. rewrite Hsp, run_bind. cbn [ensure negb].
  unfold mret, cmd_ret. rewrite run_bind_gets, run_bind, Hc. cbn [or_bail]. unfold mret, cmd_ret.
  destruct (Contact.blocked contact) eqn:Hb; cbn [Bool.eqb].
  { exists c. split_and!; try done. rewrite Hc. f_equal. rewrite <-Hb. by destruct contact. }
  rewrite !run_bind_modify, run_bind. cbn [negb andb].
  cbn [when_sync]. unfold add_sync_item, modify. set (c1 := mark_noticed _ _).
  eexists. split; [reflexivity|].
  assert (∀ d, blocklist (push_sync_item d c1) = blocklist c1
               ∧ blocklist_seq (push_sync_item d c1) = blocklist_seq c1
               ∧ get_contact (push_sync_item d c1) id = get_contact c1 id) as Hpush.
  { intros d. unfold push_sync_item. by destruct (should_send_sync_msgs c1). }
  destruct (Hpush (SyncAlterChat match Contact.fingerprint contact ≫= fingerprint_hex with
    | Some hex => ContactFingerprint hex | None => ContactAddr (Contact.addr contact) end true))
    as (-> & -> & ->).
  split_and!; [done..|].
  unfold get_contact in *. change (contacts c1) with (alter (with_blocked true) id (contacts c)).
  rewrite lookup_alter_eq. destruct (contacts c !! id) as [row|]; [|done]. simpl in *.
  destruct (Origin.from_i64 (ContactRow.origin row)); [|done]. simpl in *. by injection Hc as <-.
Qed.

(** Blocking a person does both halves or reports an error: for a contact
    with a valid address it succeeds, the contact is blocked, and from then on
    the address is rejected on arrival. *)
Theorem block_contact_rejects (c : Ctx) (id : Z) (contact : Contact.t) (norm : str) :
  blocklist_ok c → ContactId.is_special id = false → get_contact c id = Some contact →
  validate (Contact.addr contact) = Ok norm →
  let c' := final (block_contact id) c in
  outcome (block_contact id) c = Ok tt
  ∧ (Contact.blocked <$> get_contact c' id) = Some true
  ∧ matches c' (Contact.addr contact) = true
  ∧ ∀ m, Msg.from_id m = id → Msg.to_id m = ContactId.SELF → rejected c' m.
Proof.
  intros Hok Hsp Hc Hv. destruct (block_run c id contact Hsp Hc) as (c1 & Hrun & E1 & E2 & Hc1).
  assert (negb (is_empty (Contact.addr contact)) = true) as Hne.
  { destruct (Contact.addr contact) eqn:E; [|done]. exfalso. revert Hv. unfold validate, normalize.
    replace (trim []) with (@nil N) by done.
    rewrite (lower_ascii []) by done. done. }
  destruct (validate_norm _ _ Hv) as [Hn Hat].
  set (row := BlockRow.mk (trim (Contact.addr contact)) norm (clock c1) []).
  assert (block_contact id c = (insert_entry row c1, Ok tt)) as Hall.
  { unfold block_contact. rewrite run_bind_gets, run_bind, Hc. cbn [or_bail]. unfold mret, cmd_ret.
    rewrite run_bind, Hrun, Hne. unfold add. rewrite run_bind. unfold lift. by rewrite Hv. }
  pose (S := list_to_set (BlockRow.pattern_norm <$> (map_to_list (blocklist c1)).*2) : gset str).
  assert (list_is S c1) as Hl.
  { split; [destruct Hok as [Hu Hva Hs]; split; rewrite ?E1, ?E2; assumption|]. intros n. unfold S.
    rewrite elem_of_list_to_set, list_elem_of_fmap. split.
    - intros (r & -> & Hin). apply list_elem_of_fmap in Hin as ([i r'] & -> & Hin).
      apply elem_of_map_to_list in Hin. eauto.
    - intros (i & r & Hr & <-). exists r. split; [done|]. apply list_elem_of_fmap. exists (i, r).
      split; [done|]. by apply elem_of_map_to_list. }
  pose proof (add_list_is S (Contact.addr contact) [] c1 Hl) as [Hok' HS].
  assert (final (add (Contact.addr contact) []) c1 = insert_entry row c1) as Hadd.
  { unfold final, add. rewrite run_bind. unfold lift. by rewrite Hv. }
  rewrite Hadd in Hok', HS. unfold outcome, final. rewrite Hall. cbn [fst snd].
  assert (get_contact (insert_entry row c1) id = get_contact c1 id) as Hg.
  { unfold insert_entry. by case_match. }
  assert (matches (insert_entry row c1) (Contact.addr contact) = true) as Hm.
  { apply matches_iff_covered; [done|]. destruct (proj1 (HS norm)) as (i & r & Hr & Hrn).
    { cbn [abs_list_op]. rewrite Hv. set_solver. }
    exists i, r. split; [done|]. rewrite Hrn, <-Hn. apply pattern_covers_iff; [done|].
    destruct (split_once at_sign norm) as [[l d]|] eqn:Hso; [eauto|]. by apply split_once_None in Hso. }
  split; [done|]. rewrite Hg, Hc1. split_and!; try done.
  intros m Hf Hto. split; [done|]. rewrite Hf. split.
  - intros ->. by vm_compute in Hsp.
  - rewrite Hg, Hc1. eauto.
Qed.
End blocklist.

(** ** Instances *)

(** One address of the domain and the domain itself are blocked. *)
Lemma blocklist_history_refines_witness :
  @matches ascii_case
    (@run_list_ops ascii_case first_choice
       [BAdd (lit "Spam@Example.com ") []; BAdd (lit "@junk.org") []; BAdd (lit "not an address") [];
        BRemove (lit "spam@example.com")] stranger_account) (lit "a@JUNK.org") = true.
Proof.
  apply (@blocklist_history_refines ascii_case first_choice _ (lit "a@JUNK.org") stranger_account);
    [reflexivity|].
  exists (lit "@junk.org"). split; vm_compute; reflexivity.
Defined.

Definition blocked_account : Ctx :=
  final (@block_contact ascii_case first_choice 10) stranger_account.

Lemma blocked_account_ok : @labels_ok ascii_case blocked_account.
Proof. apply wf_labelsb_sound. vm_compute. reflexivity. Qed.

Lemma block_contact_rejects_witness :
  outcome (@block_contact ascii_case first_choice 10) stranger_account = Ok tt
  ∧ @matches ascii_case blocked_account (lit "spam@example.com") = true.
Proof.
  destruct (@block_contact_rejects ascii_case first_choice stranger_account 10
              (Contact.mk 10 (lit "spam@example.com") Origin.IncomingUnknownFrom false None)
              (lit "spam@example.com")) as (H1 & _ & H3 & _).
  - split; intros *; change (blocklist stranger_account) with (∅ : gmap Z BlockRow.t);
      by rewrite lookup_empty.
  - reflexivity.
  - vm_compute. reflexivity.
  - vm_compute. reflexivity.
  - split; [exact H1|exact H3].
Defined.

Definition spam : Msg.t := with_state (MessageState.to_i64 MessageState.InNoticed) the_message.

Lemma spam_rejected : @rejected ascii_case blocked_account spam.
Proof.
  split; [reflexivity|]. split; [discriminate|].
  exists (Contact.mk 10 (lit "spam@example.com") Origin.IncomingUnknownFrom true None).
  split; vm_compute; reflexivity.
Qed.

Lemma blocklist_trashes_exactly_witness :
  outcome (@apply ascii_case first_choice 20) blocked_account = Ok true
  ∧ is_Some (trashed_msgs (final (@apply ascii_case first_choice 20) blocked_account) !! 20%Z).
Proof.
  destruct (@blocklist_trashes_exactly ascii_case first_choice blocked_account 20 spam
              blocked_account_ok) as [H1 _].
  - vm_compute. reflexivity.
  - destruct (H1 spam_rejected) as (H2 & _ & H3 & _). split; [exact H2|exact H3].
Defined.

Lemma blocked_stranger_in_both_views_witness :
  let c' := final (@apply ascii_case first_choice 20)
              (final (@Gating.apply ascii_case first_choice 20) blocked_account) in
  @trashed_label ascii_case c' 20 ∧ @unverified_label ascii_case c' 20.
Proof.
  destruct (@blocked_stranger_in_both_views ascii_case first_choice blocked_account 20 spam
              blocked_account_ok) as (H1 & H2 & _).
  - vm_compute. reflexivity.
  - vm_compute. reflexivity.
  - destruct (is_trusted_run blocked_account 10) as (b & Hrun & Hb).
    change (Msg.from_id spam) with 10%Z. rewrite <-Hb. vm_compute in Hrun. congruence.
  - exact spam_rejected.
  - split; [exact H1|exact H2].
Defined.

(** Removing a domain entry can half-undo a block: after blocking a person,
    blocking their whole domain and removing the domain entry again, the
    contact is unblocked while their own address is still rejected. *)
Example domain_removal_half_unblocks :
  let c := @run_list_ops ascii_case first_choice
             [BAdd (lit "@example.com") []; BRemove (lit "@example.com")] blocked_account in
  (Contact.blocked <$> get_contact c 10) = Some false
  ∧ @matches ascii_case c (lit "spam@example.com") = true.
Proof. vm_compute. done. Qed.
