(* ===== verification/Threading.v ===== *)
(** * Threading: grouping messages into conversations,
    [core/src/email/threading.rs].

    A conversation is a row of [threads]; [thread_refs] says which Message-IDs
    belong to it, [msg_threads] which messages. *)

From S2P Require Import Prelude Text Store.

(** [mimeparser::parse_message_ids] *)
Definition parse_message_ids (ids : str) : list str :=
  omap (λ w,
    let id := default w (strip_prefix 60 w) in
    let id := default id (strip_suffix 62 id) in
    if is_empty id then None else Some id) (split_whitespace ids).

Fixpoint starts_with (prefix s : str) : bool :=
  match prefix, s with
  | [], _ => true
  | x :: prefix, y :: s => if (x =? y)%N then starts_with prefix s else false
  | _ :: _, [] => false
  end.

(** [chars().position(|c| c == ..)] *)
Fixpoint position (p : N → bool) (s : str) : option nat :=
  match s with
  | [] => None
  | c :: s => if p c then Some 0 else S <$> position p s
  end.

(** [tools::remove_subject_prefix] *)
Definition remove_subject_prefix (last_subject : str) : str :=
  let subject_start :=
    if starts_with (lit "Chat:") last_subject then 0
    else match position (N.eqb 58) (take 5 last_subject) with
         | Some prefix_end => prefix_end + 1
         | None => 0
         end in
  trim (drop subject_start last_subject).

Module ThreadHeaders.
Record t := mk {
  rfc724_mid : str;
  in_reply_to : str;
  references : str;
  subject : str;
  timestamp : Z;
}.
End ThreadHeaders.

(** The loop of [linked_ids]: non-empty, each once. *)
Fixpoint collect_ids (seen : gset str) (ids : list str) : list str :=
  match ids with
  | [] => []
  | id :: ids =>
      if is_empty id then collect_ids seen ids
      else if decide (id ∈ seen) then collect_ids seen ids
      else id :: collect_ids ({[ id ]} ∪ seen) ids
  end.

Definition linked_ids (h : ThreadHeaders.t) : list str :=
  collect_ids ∅ (ThreadHeaders.rfc724_mid h
                 :: parse_message_ids (ThreadHeaders.references h)
                 ++ parse_message_ids (ThreadHeaders.in_reply_to h)).

(** The threads the linked Message-IDs belong to, each once, ascending. *)
Definition push_new (existing : list Z) (thread_id : Z) : list Z :=
  if decide (thread_id ∈ existing) then existing else existing ++ [thread_id].

Definition existing_threads (c : Ctx) (linked : list str) : list Z :=
  merge_sort Z.le (foldl push_new [] (omap (λ id, thread_refs c !! id) linked)).

(** [UPDATE .. SET thread_id=survivor WHERE thread_id=loser] *)
Definition redirect (survivor loser t : Z) : Z := if (t =? loser)%Z then survivor else t.

(** The four statements that merge one thread into the survivor.  A subquery
    for a thread that does not exist yields NULL, which [subject_norm] cannot
    hold. *)
Definition merge_thread (survivor loser : Z) : cmd Ctx unit :=
  modify (set_msg_threads (fmap (redirect survivor loser))) ;;
  modify (set_thread_refs (fmap (redirect survivor loser))) ;;
  c ← gets id;
  match threads c !! survivor with
  | None => mret tt
  | Some s =>
      let other := threads c !! loser in
      ensure (negb (is_empty (ThreadRow.subject_norm s)) || bool_decide (is_Some other))
        "NOT NULL constraint failed: threads.subject_norm" ;;
      modify (set_threads <[survivor := ThreadRow.mk
        (if is_empty (ThreadRow.subject_norm s)
         then from_option ThreadRow.subject_norm [] other else ThreadRow.subject_norm s)
        (Z.max (ThreadRow.last_activity s) (from_option ThreadRow.last_activity 0%Z other))]>)
  end ;;
  modify (set_threads (delete loser)).

Definition insert_thread (subject_norm : str) (timestamp : Z) : cmd Ctx Z :=
  id ← gets (λ c, (threads_seq c + 1)%Z);
  modify (set_threads <[id := ThreadRow.mk subject_norm timestamp]>) ;;
  modify (set_threads_seq (λ _, id)) ;;
  mret id.

(** The last statement: fill a blank subject, move the recency forward. *)
Definition touch_thread (thread_id : Z) (subject_norm : str) (timestamp : Z) : Ctx → Ctx :=
  set_threads (alter (λ r, ThreadRow.mk
    (if is_empty (ThreadRow.subject_norm r) then subject_norm else ThreadRow.subject_norm r)
    (Z.max (ThreadRow.last_activity r) timestamp)) thread_id).

Definition assign (msg_id : Z) (headers : ThreadHeaders.t) : cmd Ctx Z :=
  let linked := linked_ids headers in
  let subject_norm := remove_subject_prefix (ThreadHeaders.subject headers) in
  let timestamp := ThreadHeaders.timestamp headers in
  transaction
    (existing ← gets (λ c, existing_threads c linked);
     thread_id ← match existing with
                 | survivor :: losers =>
                     for_each losers (merge_thread survivor) ;; mret survivor
                 | [] => insert_thread subject_norm timestamp
                 end;
     for_each linked (λ id, modify (set_thread_refs <[id := thread_id]>)) ;;
     modify (set_msg_threads <[msg_id := thread_id]>) ;;
     modify (touch_thread thread_id subject_norm timestamp) ;;
     mret thread_id).

Definition assign_stored (msg_id : Z) : cmd Ctx (option Z) :=
  row ← gets (λ c, msgs c !! msg_id);
  match row with
  | None => mret None
  | Some m =>
      thread_id ← assign msg_id {|
        ThreadHeaders.rfc724_mid := default [] (Msg.rfc724_mid m);
        ThreadHeaders.in_reply_to := default [] (Msg.mime_in_reply_to m);
        ThreadHeaders.references := default [] (Msg.mime_references m);
        ThreadHeaders.subject := default [] (Msg.subject m);
        ThreadHeaders.timestamp := default 0%Z (Msg.timestamp m);
      |};
      mret (Some thread_id)
  end.

Definition thread_of (c : Ctx) (msg_id : Z) : option Z := msg_threads c !! msg_id.

(** Live members of a thread, [ORDER BY m.timestamp, m.id]. *)
Definition thread_rows (c : Ctx) (thread_id : Z) : list (Z * Msg.t) :=
  sort_by msg_time_leb
    (filter (λ r, msg_threads c !! r.1 = Some thread_id ∧ is_live r.2 = true)
       (map_to_list (msgs c))).

Definition messages (c : Ctx) (thread_id : Z) : list Z := (thread_rows c thread_id).*1.

Definition prune : cmd Ctx unit :=
  transaction
    (modify (λ c, set_msg_threads (filter (λ kv, live_msg c kv.1 = true)) c) ;;
     modify (λ c, set_threads (filter (λ kv, kv.1 ∈ (map_to_list (msg_threads c)).*2)) c) ;;
     modify (λ c, set_thread_refs (filter (λ kv, is_Some (threads c !! kv.2))) c)).

(** ** What the statements do *)

Record threads_ok (c : Ctx) : Prop := {
  tok_refs a t : thread_refs c !! a = Some t → is_Some (threads c !! t);
  tok_msgs i t : msg_threads c !! i = Some t → is_Some (threads c !! t);
  tok_seq t r : threads c !! t = Some r → (t ≤ threads_seq c)%Z;
}.

Lemma elem_of_push_new l t x : x ∈ push_new l t ↔ x ∈ l ∨ x = t.
Proof. unfold push_new. case_decide; set_solver. Qed.

Lemma elem_of_foldl_push ts l x : x ∈ foldl push_new l ts ↔ x ∈ l ∨ x ∈ ts.
Proof.
  revert l. induction ts as [|t ts IH]; intros l; simpl; [set_solver|].
  rewrite IH, elem_of_push_new. set_solver.
Qed.

Lemma NoDup_foldl_push ts l : NoDup l → NoDup (foldl push_new l ts).
Proof.
  revert l. induction ts as [|t ts IH]; intros l Hl; simpl; [done|]. apply IH.
  unfold push_new. case_decide; [done|]. apply NoDup_app. split_and!; [done|set_solver|].
  apply NoDup_singleton.
Qed.

Lemma elem_of_existing c linked t :
  t ∈ existing_threads c linked ↔ ∃ a, a ∈ linked ∧ thread_refs c !! a = Some t.
Proof.
  unfold existing_threads. rewrite merge_sort_Permutation, elem_of_foldl_push, list_elem_of_omap.
  set_solver.
Qed.

Lemma NoDup_existing c linked : NoDup (existing_threads c linked).
Proof.
  unfold existing_threads. rewrite merge_sort_Permutation. apply NoDup_foldl_push, NoDup_nil_2.
Qed.

Lemma existing_head_min c linked s l t :
  existing_threads c linked = s :: l → t ∈ s :: l → (s ≤ t)%Z.
Proof.
  intros E Ht. assert (Sorted Z.le (s :: l)) as Hs.
  { rewrite <-E. unfold existing_threads. apply Sorted_merge_sort. intros x y. lia. }
  apply Sorted_StronglySorted in Hs; [|intros x y z; lia].
  apply StronglySorted_inv in Hs as [_ Hall]. rewrite Forall_forall in Hall.
  apply elem_of_cons in Ht as [->|Ht]; [lia|]. by apply Hall.
Qed.

(** The redirection of a whole merge. *)
Definition redirect_all (survivor : Z) (losers : list Z) (t : Z) : Z :=
  if decide (t ∈ losers) then survivor else t.

(** The three thread tables replaced. *)
Definition with_threads (T : gmap Z ThreadRow.t) (M : gmap Z Z) (R : gmap str Z) (c : Ctx) : Ctx :=
  set_threads (λ _, T) (set_msg_threads (λ _, M) (set_thread_refs (λ _, R) c)).

Lemma with_threads_twice T M R T' M' R' c :
  with_threads T M R (with_threads T' M' R' c) = with_threads T M R c.
Proof. done. Qed.

Lemma with_threads_id c : with_threads (threads c) (msg_threads c) (thread_refs c) c = c.
Proof. by destruct c. Qed.

Lemma merge_thread_run survivor loser c :
  is_Some (threads c !! survivor) → is_Some (threads c !! loser) → survivor ≠ loser →
  ∃ T, merge_thread survivor loser c
       = (with_threads T (redirect survivor loser <$> msg_threads c)
            (redirect survivor loser <$> thread_refs c) c, Ok tt)
     ∧ ∀ x, is_Some (T !! x) ↔ is_Some (threads c !! x) ∧ x ≠ loser.
Proof.
  intros [s Hs] [o Ho] Hne. unfold merge_thread. rewrite !run_bind_modify, run_bind_gets.
  unfold id. cbn [threads set_thread_refs set_msg_threads]. rewrite Hs, Ho, !run_bind.
  rewrite bool_decide_true by done. rewrite orb_true_r. cbn [ensure]. unfold mret, cmd_ret.
  set (row := ThreadRow.mk _ _). exists (delete loser (<[survivor := row]> (threads c))).
  split; [reflexivity|]. intros x.
  rewrite lookup_delete_is_Some, lookup_insert_is_Some.
  destruct (decide (survivor = x)) as [->|]; [rewrite Hs|]; naive_solver.
Qed.

Lemma redirect_all_cons survivor l losers t :
  survivor ∉ losers →
  redirect_all survivor losers (redirect survivor l t) = redirect_all survivor (l :: losers) t.
Proof.
  intros Hni. unfold redirect_all, redirect. destruct (Z.eqb_spec t l) as [->|Htl].
  - rewrite decide_False by done. by rewrite decide_True by (by left).
  - destruct (decide (t ∈ losers)) as [Hin|Hin].
    + by rewrite decide_True by (by right).
    + rewrite decide_False; [done|]. by intros [?|?]%elem_of_cons.
Qed.

Lemma merge_all_run survivor losers c :
  is_Some (threads c !! survivor) → Forall (λ l, is_Some (threads c !! l)) losers →
  survivor ∉ losers → NoDup losers →
  ∃ T, for_each losers (merge_thread survivor) c
       = (with_threads T (redirect_all survivor losers <$> msg_threads c)
            (redirect_all survivor losers <$> thread_refs c) c, Ok tt)
     ∧ ∀ x, is_Some (T !! x) ↔ is_Some (threads c !! x) ∧ x ∉ losers.
Proof.
  revert c. induction losers as [|l losers IH]; intros c Hs Hl Hni Hnd.
  - exists (threads c). split; [|set_solver]. cbn [for_each].
    assert (redirect_all survivor [] = id) as -> by done.
    by rewrite !map_fmap_id, with_threads_id.
  - apply Forall_cons in Hl as [Hl Hls]. apply NoDup_cons in Hnd as [Hnl Hnd].
    apply not_elem_of_cons in Hni as [Hne Hni].
    destruct (merge_thread_run survivor l c Hs Hl Hne) as (T1 & Hrun & HT1).
    cbn [for_each]. rewrite run_bind, Hrun. set (c1 := with_threads _ _ _ c).
    destruct (IH c1) as (T2 & Hrun2 & HT2); [by apply HT1|..|done|done|].
    { apply Forall_forall. intros x Hx. rewrite Forall_forall in Hls. apply HT1.
      split; [by apply Hls|]. by intros ->. }
    exists T2. rewrite Hrun2. split.
    + unfold c1 at 3. rewrite with_threads_twice.
      change (msg_threads c1) with (redirect survivor l <$> msg_threads c).
      change (thread_refs c1) with (redirect survivor l <$> thread_refs c).
      rewrite <-!map_fmap_compose. do 2 f_equal; apply map_fmap_ext; intros;
        by apply redirect_all_cons.
    + intros x. rewrite HT2. change (threads c1) with T1. rewrite HT1, not_elem_of_cons. tauto.
Qed.

Lemma foldl_insert_refs linked t c :
  foldl (λ c id, set_thread_refs <[id := t]> c) c linked
  = set_thread_refs (λ _, thread_refs (foldl (λ c id, set_thread_refs <[id := t]> c) c linked)) c
  ∧ ∀ x, thread_refs (foldl (λ c id, set_thread_refs <[id := t]> c) c linked) !! x
         = if decide (x ∈ linked) then Some t else thread_refs c !! x.
Proof.
  revert c. induction linked as [|a linked IH]; intros c; cbn [foldl].
  - split; [by destruct c|]. intros x. by rewrite decide_False by set_solver.
  - destruct (IH (set_thread_refs <[a := t]> c)) as [E L]. split; [rewrite E at 1; by destruct c|].
    intros x. rewrite L. unfold set_thread_refs. cbn [thread_refs]. rewrite lookup_insert.
    destruct (decide (a = x)), (decide (x ∈ linked)), (decide (x ∈ a :: linked)); set_solver.
Qed.

(** The tables after [assign] put message [m], linked to [linked], in thread
    [tid]. *)
Record assigned (m : Z) (linked : list str) (tid : Z) (c c' : Ctx) : Prop := {
  as_tid : (tid ∈ existing_threads c linked
            ∧ ∀ t, t ∈ existing_threads c linked → (tid ≤ t)%Z)
           ∨ (existing_threads c linked = [] ∧ tid = (threads_seq c + 1)%Z);
  as_refs a : thread_refs c' !! a
              = if decide (a ∈ linked) then Some tid
                else redirect_all tid (existing_threads c linked) <$> thread_refs c !! a;
  as_msgs i : msg_threads c' !! i
              = if decide (i = m) then Some tid
                else redirect_all tid (existing_threads c linked) <$> msg_threads c !! i;
  as_threads t : is_Some (threads c' !! t)
                 ↔ t = tid ∨ (is_Some (threads c !! t) ∧ t ∉ existing_threads c linked);
  as_seq : (threads_seq c ≤ threads_seq c')%Z ∧ (tid ≤ threads_seq c')%Z;
  as_frame : ∃ T M R q, c' = with_threads T M R (set_threads_seq (λ _, q) c);
}.

Lemma redirect_all_head s l t : redirect_all s (s :: l) t = redirect_all s l t.
Proof. unfold redirect_all. destruct (decide (t ∈ l)), (decide (t ∈ s :: l)); set_solver. Qed.

(** The thread a message goes to: the oldest of its threads, which absorbs the
    others, or a new one. *)
Lemma choose_thread_run linked subject ts c :
  threads_ok c →
  ∃ tid c1,
    (match existing_threads c linked with
     | survivor :: losers => for_each losers (merge_thread survivor) ;; mret survivor
     | [] => insert_thread subject ts
     end) c = (c1, Ok tid)
    ∧ ((tid ∈ existing_threads c linked
        ∧ ∀ t, t ∈ existing_threads c linked → (tid ≤ t)%Z)
       ∨ (existing_threads c linked = [] ∧ tid = (threads_seq c + 1)%Z))
    ∧ thread_refs c1 = redirect_all tid (existing_threads c linked) <$> thread_refs c
    ∧ msg_threads c1 = redirect_all tid (existing_threads c linked) <$> msg_threads c
    ∧ (∀ t, is_Some (threads c1 !! t)
            ↔ t = tid ∨ (is_Some (threads c !! t) ∧ t ∉ existing_threads c linked))
    ∧ (threads_seq c ≤ threads_seq c1)%Z ∧ (tid ≤ threads_seq c1)%Z
    ∧ ∃ T M R q, c1 = with_threads T M R (set_threads_seq (λ _, q) c).
Proof.
  intros Hok. destruct (existing_threads c linked) as [|s l] eqn:E.
  - unfold insert_thread. rewrite run_bind_gets, !run_bind_modify.
    eexists _, _. split; [reflexivity|]. split; [by right|]. simpl.
    assert (redirect_all (threads_seq c + 1) [] = id) as -> by done. rewrite !map_fmap_id.
    split_and!; try done; try lia.
    + intros t. rewrite lookup_insert_is_Some.
      destruct (decide (t = threads_seq c + 1)%Z) as [->|Hne]; [split; by left|].
      split; [intros [?|[_ Hs]]; [congruence|]|intros [?|[Hs _]]; [congruence|]]; right; split;
        congruence || done || set_solver.
    + eexists _, _, _, _. by destruct c.
  - assert (∀ t, t ∈ s :: l → is_Some (threads c !! t)) as Hex.
    { intros t Ht. rewrite <-E, elem_of_existing in Ht. destruct Ht as (a & _ & Ha).
      by eapply tok_refs. }
    pose proof (NoDup_existing c linked) as Hnd. rewrite E in Hnd. apply NoDup_cons in Hnd as [Hsl Hnd].
    destruct (merge_all_run s l c) as (T & Hrun & HT); [apply Hex; set_solver|..|done|done|].
    { apply Forall_forall. intros t Ht. apply Hex. set_solver. }
    rewrite run_bind, Hrun. eexists _, _. split; [reflexivity|].
    assert (∀ t, t ∈ s :: l → (s ≤ t)%Z) as Hmin by (intros t; by eapply existing_head_min).
    split; [left; split; [set_solver|done]|].
    assert (redirect_all s l <$> thread_refs c = redirect_all s (s :: l) <$> thread_refs c) as <-
      by (apply map_fmap_ext; intros; by rewrite redirect_all_head).
    assert (redirect_all s l <$> msg_threads c = redirect_all s (s :: l) <$> msg_threads c) as <-
      by (apply map_fmap_ext; intros; by rewrite redirect_all_head).
    destruct (Hex s) as [r Hr]; [set_solver|]. pose proof (tok_seq c Hok s r Hr).
    split_and!; try done; simpl.
    + intros t. rewrite HT. destruct (decide (t = s)) as [->|]; [rewrite Hr|]; set_solver.
    + exists T. eexists _, _, (threads_seq c). by destruct c.
Qed.

(** What the last three statements of [assign] write. *)
Definition placed (m tid : Z) (subj : str) (ts : Z) (R : gmap str Z) (c : Ctx) : Ctx :=
  touch_thread tid subj ts (set_msg_threads <[m := tid]> (set_thread_refs (λ _, R) c)).

Lemma placed_tables m tid subj ts R c :
  thread_refs (placed m tid subj ts R c) = R
  ∧ msg_threads (placed m tid subj ts R c) = <[m := tid]> (msg_threads c)
  ∧ (∀ t, is_Some (threads (placed m tid subj ts R c) !! t) ↔ is_Some (threads c !! t))
  ∧ threads_seq (placed m tid subj ts R c) = threads_seq c.
Proof. split_and!; [done..| |done]. intros t. apply lookup_alter_is_Some. Qed.

Lemma placed_frame m tid subj ts R T M R0 c :
  ∃ T' M', placed m tid subj ts R (with_threads T M R0 c) = with_threads T' M' R c.
Proof. eexists _, _. reflexivity. Qed.

Lemma assign_run m h c :
  threads_ok c →
  ∃ tid c', assign m h c = (c', Ok tid) ∧ assigned m (linked_ids h) tid c c'.
Proof.
  intros Hok. unfold assign, transaction. set (linked := linked_ids h).
  set (subj := remove_subject_prefix _). set (ts := ThreadHeaders.timestamp h).
  destruct (choose_thread_run linked subj ts c Hok)
    as (tid & c1 & Hrun & Htid & Hrefs & Hmsgs & Hthr & Hseq & Htq & T & M & R & q & Hframe).
  rewrite run_bind_gets, run_bind, Hrun, run_bind, for_each_modify.
  destruct (foldl_insert_refs linked tid c1) as [E L]. rewrite E, !run_bind_modify.
  clear E. revert L. generalize (thread_refs (foldl (λ c id, set_thread_refs <[id := tid]> c) c1 linked))
    as R2. intros R2 L.
  exists tid, (placed m tid subj ts R2 c1). split; [reflexivity|].
  destruct (placed_tables m tid subj ts R2 c1) as (F1 & F2 & F3 & F4). split.
  - done.
  - intros a. rewrite F1, L, Hrefs, lookup_fmap. done.
  - intros i. rewrite F2, lookup_insert, Hmsgs, lookup_fmap.
    destruct (decide (m = i)), (decide (i = m)); congruence.
  - intros t. rewrite F3. apply Hthr.
  - rewrite F4. done.
  - rewrite Hframe. destruct (placed_frame m tid subj ts R2 T M R (set_threads_seq (λ _, q) c))
      as (T' & M' & E). exists T', M', R2, q. exact E.
Qed.

Lemma assigned_ok m linked tid c c' :
  threads_ok c → assigned m linked tid c c' → threads_ok c'.
Proof.
  intros Hok [Htid Hrefs Hmsgs Hthr [Hseq Htq] _].
  assert (∀ t, is_Some (threads c !! t) →
               is_Some (threads c' !! redirect_all tid (existing_threads c linked) t)) as Hre.
  { intros t Ht. apply Hthr. unfold redirect_all. case_decide; [by left|]. by right. }
  split.
  - intros a t. rewrite Hrefs. case_decide; [intros [= <-]; apply Hthr; by left|].
    destruct (thread_refs c !! a) as [t0|] eqn:E; [|done]. intros [= <-]. by eapply Hre, tok_refs.
  - intros i t. rewrite Hmsgs. case_decide; [intros [= <-]; apply Hthr; by left|].
    destruct (msg_threads c !! i) as [t0|] eqn:E; [|done]. intros [= <-]. by eapply Hre, tok_msgs.
  - intros t r Hr. assert (is_Some (threads c' !! t)) as Hs by by exists r.
    apply Hthr in Hs as [->|[[r0 Hr0] _]]; [done|]. pose proof (tok_seq c Hok t r0 Hr0). lia.
Qed.

(** ** Grouping is connectivity *)

(** Two Message-IDs some message links. *)
Definition linked_by (ls : list (list str)) (a b : str) : Prop :=
  ∃ l, l ∈ ls ∧ a ∈ l ∧ b ∈ l.

(** Two Message-IDs joined by a chain of messages. *)
Definition connected (ls : list (list str)) : relation str := rtc (linked_by ls).

Lemma linked_by_mono ls ls' a b : ls ⊆ ls' → linked_by ls a b → linked_by ls' a b.
Proof. intros Hsub (l & Hl & ?). exists l. set_solver. Qed.

Lemma connected_mono ls ls' a b : ls ⊆ ls' → connected ls a b → connected ls' a b.
Proof. intros Hsub. apply rtc_subrel. intros x y. by apply linked_by_mono. Qed.

Lemma connected_sym ls a b : connected ls a b → connected ls b a.
Proof.
  induction 1 as [x|x y z (l & Hl & Hx & Hy) _ IH]; [by apply rtc_refl|].
  eapply rtc_r; [exact IH|]. by exists l.
Qed.

(** The messages [ms], as (row, linked ids), have been assigned. *)
Record grouped (ms : list (Z * list str)) (c : Ctx) : Prop := {
  gr_ok : threads_ok c;
  gr_dom a : is_Some (thread_refs c !! a) ↔ ∃ l, l ∈ ms.*2 ∧ a ∈ l;
  gr_sound a b t :
    thread_refs c !! a = Some t → thread_refs c !! b = Some t → connected ms.*2 a b;
  gr_complete l a b : l ∈ ms.*2 → a ∈ l → b ∈ l → thread_refs c !! a = thread_refs c !! b;
  gr_msgs i l a : (i, l) ∈ ms → a ∈ l → msg_threads c !! i = thread_refs c !! a;
}.

Section step.
Context (ms : list (Z * list str)) (m : Z) (linked : list str) (tid : Z) (c c' : Ctx).
Hypothesis Hgr : grouped ms c.
Hypothesis Has : assigned m linked tid c c'.

Let ls := ms.*2.
Let ls' := ls ++ [linked].

Lemma step_sub : ls ⊆ ls'.
Proof. unfold ls'. set_solver. Qed.

(** An id ends in the thread of the message exactly when it is linked to it. *)
Lemma touched_connected a b :
  thread_refs c' !! a = Some tid → b ∈ linked → connected ls' a b.
Proof.
  intros Ha Hb. rewrite (as_refs _ _ _ _ _ Has) in Ha.
  assert (∀ x y, x ∈ linked → y ∈ linked → connected ls' x y) as Hl.
  { intros x y Hx Hy. apply rtc_once. exists linked. unfold ls'. set_solver. }
  destruct (decide (a ∈ linked)) as [Hin|Hin]; [by apply Hl|].
  destruct (thread_refs c !! a) as [t|] eqn:E; [|done]. simpl in Ha. injection Ha as Ha.
  unfold redirect_all in Ha. case_decide as Ht.
  - apply elem_of_existing in Ht as (y & Hy & Ht).
    etrans; [|by apply (Hl y b)]. eapply connected_mono; [apply step_sub|].
    by eapply (gr_sound ms c Hgr).
  - exfalso. destruct (as_tid _ _ _ _ _ Has) as [[Hex _]|[_ Hfresh]]; [congruence|].
    destruct (tok_refs c (gr_ok ms c Hgr) a t E) as [r Hr].
    pose proof (tok_seq c (gr_ok ms c Hgr) t r Hr). lia.
Qed.

Lemma step_sound a b t :
  thread_refs c' !! a = Some t → thread_refs c' !! b = Some t → connected ls' a b.
Proof.
  intros Ha Hb. destruct (decide (t = tid)) as [->|Hne].
  - destruct (head linked) as [y|] eqn:E.
    + assert (y ∈ linked) as Hy by (by apply head_Some_elem_of).
      transitivity y; [by apply (touched_connected a y)|]. apply connected_sym.
      by apply touched_connected.
    + (* nothing linked: the thread is new and empty *)
      apply head_None in E. exfalso. rewrite (as_refs _ _ _ _ _ Has), E, decide_False in Ha by set_solver.
      assert (existing_threads c [] = []) as He by done.
      rewrite He in Ha. destruct (thread_refs c !! a) as [t|] eqn:F; [|done]. injection Ha as Ha.
      destruct (as_tid _ _ _ _ _ Has) as [[Hex _]|[_ Hfresh]]; [rewrite E, He in Hex; set_solver|].
      destruct (tok_refs c (gr_ok ms c Hgr) a t F) as [r Hr].
      pose proof (tok_seq c (gr_ok ms c Hgr) t r Hr). unfold redirect_all in Ha.
      rewrite decide_False in Ha by set_solver. lia.
  - rewrite (as_refs _ _ _ _ _ Has) in Ha, Hb. unfold redirect_all in *.
    repeat case_decide; simplify_eq.
    destruct (thread_refs c !! a) as [ta|] eqn:Ea; [|done].
    destruct (thread_refs c !! b) as [tb|] eqn:Eb; [|done]. simpl in *.
    repeat case_decide; simplify_eq.
    eapply connected_mono; [apply step_sub|]. by eapply (gr_sound ms c Hgr).
Qed.

Lemma step_complete l a b :
  l ∈ ls' → a ∈ l → b ∈ l → thread_refs c' !! a = thread_refs c' !! b.
Proof.
  intros Hl Ha Hb. rewrite !(as_refs _ _ _ _ _ Has). unfold ls' in Hl.
  apply elem_of_app in Hl as [Hl| ->%list_elem_of_singleton].
  - pose proof (gr_complete ms c Hgr l a b Hl Ha Hb) as Hab.
    destruct (proj2 (gr_dom ms c Hgr a)) as [t Ht]; [eauto|].
    rewrite <-Hab, Ht. simpl. unfold redirect_all.
    assert (∀ x, x ∈ linked → thread_refs c !! x = Some t → t ∈ existing_threads c linked) as Hex.
    { intros x Hx Hxt. apply elem_of_existing. eauto. }
    rewrite Ht in Hab. symmetry in Hab.
    repeat case_decide; try done; exfalso; eauto.
  - by rewrite !decide_True.
Qed.

Lemma step_grouped : m ∉ ms.*1 → grouped (ms ++ [(m, linked)]) c'.
Proof.
  intros Hm. assert ((ms ++ [(m, linked)]).*2 = ls') as E by (unfold ls'; by rewrite fmap_app).
  split; rewrite ?E.
  - eapply assigned_ok; [by apply (gr_ok ms c Hgr)|done].
  - intros a. rewrite (as_refs _ _ _ _ _ Has). case_decide as Ha.
    + split; [|by eexists]. intros _. exists linked. unfold ls'. set_solver.
    + rewrite fmap_is_Some, (gr_dom ms c Hgr). unfold ls'. setoid_rewrite elem_of_app.
      setoid_rewrite list_elem_of_singleton. split.
      * intros (l & Hl & Hal). exists l. auto.
      * intros (l & [Hl| ->] & Hal); [by exists l|done].
  - apply step_sound.
  - apply step_complete.
  - intros i l a Hin Ha. rewrite (as_msgs _ _ _ _ _ Has), (as_refs _ _ _ _ _ Has).
    apply elem_of_app in Hin as [Hin|Hin].
    + assert (i ≠ m) as Hne by (intros ->; apply Hm, list_elem_of_fmap; by exists (m, l)).
      rewrite decide_False by done.
      rewrite (gr_msgs ms c Hgr i l a Hin Ha). destruct (decide (a ∈ linked)) as [Hal|]; [|done].
      destruct (proj2 (gr_dom ms c Hgr a)) as [t Ht].
      { exists l. split; [|done]. apply list_elem_of_fmap. by exists (i, l). }
      rewrite Ht. simpl. unfold redirect_all. rewrite decide_True; [done|].
      apply elem_of_existing. eauto.
    + apply list_elem_of_singleton in Hin. simplify_eq. by rewrite !decide_True.
Qed.
End step.

(** Messages arrive one after the other. *)
Definition assign_all (ms : list (Z * ThreadHeaders.t)) (c : Ctx) : Ctx :=
  foldl (λ c mh, final (assign mh.1 mh.2) c) c ms.

Definition links (ms : list (Z * ThreadHeaders.t)) : list (Z * list str) :=
  (λ mh, (mh.1, linked_ids mh.2)) <$> ms.

(** An account without conversations. *)
Definition unthreaded (c : Ctx) : Prop :=
  threads c = ∅ ∧ msg_threads c = ∅ ∧ thread_refs c = ∅.

Lemma unthreaded_grouped c : unthreaded c → grouped [] c.
Proof.
  intros (E1 & E2 & E3). split; rewrite ?E3.
  - split; rewrite ?E1, ?E2, ?E3; intros *; by rewrite lookup_empty.
  - intros a. rewrite lookup_empty. split; [by intros [? ?]|]. intros (l & Hl & _). set_solver.
  - intros a b t. by rewrite lookup_empty.
  - set_solver.
  - set_solver.
Qed.

Lemma links_fst ms : (links ms).*1 = ms.*1.
Proof. unfold links. rewrite <-list_fmap_compose. by apply list_fmap_ext. Qed.

Lemma assign_all_grouped ms c :
  unthreaded c → NoDup ms.*1 → grouped (links ms) (assign_all ms c).
Proof.
  intros Hc. induction ms as [|[m h] ms IH] using rev_ind; intros Hnd; [by apply unthreaded_grouped|].
  rewrite fmap_app in Hnd. apply NoDup_app in Hnd as (Hnd & Hdis & _).
  specialize (IH Hnd). unfold assign_all. rewrite foldl_app. fold (assign_all ms c).
  unfold links. rewrite fmap_app. fold (links ms). simpl.
  destruct (assign_run m h (assign_all ms c) (gr_ok _ _ IH)) as (tid & c' & Hrun & Has).
  unfold final. rewrite Hrun. eapply step_grouped; [done..|].
  rewrite links_fst. intros Hm. apply (Hdis m Hm). simpl. set_solver.
Qed.

Lemma grouped_same_thread ms c i l a j k b :
  grouped ms c → (i, l) ∈ ms → a ∈ l → (j, k) ∈ ms → b ∈ k →
  msg_threads c !! i = msg_threads c !! j ↔ connected ms.*2 a b.
Proof.
  intros Hgr Hi Ha Hj Hb. rewrite (gr_msgs ms c Hgr i l a Hi Ha), (gr_msgs ms c Hgr j k b Hj Hb).
  split.
  - intros E. destruct (proj2 (gr_dom ms c Hgr a)) as [t Ht].
    { exists l. split; [|done]. apply list_elem_of_fmap. by exists (i, l). }
    eapply (gr_sound ms c Hgr); [exact Ht|congruence].
  - clear Hi Ha Hj Hb. induction 1 as [x|x y z (l' & Hl' & Hx & Hy) _ IH]; [done|].
    rewrite <-IH. by eapply (gr_complete ms c Hgr).
Qed.

(** C19: conversations are the connected components of the reply graph: after
    any sequence of arrivals, two messages are in the same conversation exactly
    when a chain of messages, each sharing a Message-ID (its own or one it
    references) with the next, joins them, whether or not the messages the
    chain refers to were ever received. *)
Theorem threading_is_connectivity (ms : list (Z * ThreadHeaders.t)) (c : Ctx)
    (i j : Z) (h k : ThreadHeaders.t) (a b : str) :
  unthreaded c → NoDup ms.*1 →
  (i, h) ∈ ms → a ∈ linked_ids h → (j, k) ∈ ms → b ∈ linked_ids k →
  thread_of (assign_all ms c) i = thread_of (assign_all ms c) j
  ↔ connected (links ms).*2 a b.
Proof.
  intros Hc Hnd Hi Ha Hj Hb. unfold thread_of.
  eapply grouped_same_thread; [by apply assign_all_grouped|..]; try done.
  - apply list_elem_of_fmap. by exists (i, h).
  - apply list_elem_of_fmap. by exists (j, k).
Qed.

(** The conversations do not depend on the order in which mail arrives: two
    messages that share a conversation after one order of arrival share one
    after every other. *)
Theorem threading_order_independent (ms ms' : list (Z * ThreadHeaders.t)) (c : Ctx)
    (i j : Z) (h k : ThreadHeaders.t) :
  unthreaded c → NoDup ms.*1 → ms ≡ₚ ms' →
  (i, h) ∈ ms → linked_ids h ≠ [] → (j, k) ∈ ms → linked_ids k ≠ [] →
  thread_of (assign_all ms c) i = thread_of (assign_all ms c) j
  ↔ thread_of (assign_all ms' c) i = thread_of (assign_all ms' c) j.
Proof.
  intros Hc Hnd Hp Hi Hh Hj Hk. unfold thread_of.
  assert (∃ a, a ∈ linked_ids h) as [a Ha] by (destruct (linked_ids h); [done|]; eexists; left).
  assert (∃ b, b ∈ linked_ids k) as [b Hb] by (destruct (linked_ids k); [done|]; eexists; left).
  assert (NoDup ms'.*1) as Hnd' by (by rewrite <-Hp).
  assert (∀ ns, (i, h) ∈ ns → (i, linked_ids h) ∈ links ns) as Hil
    by (intros ns Hn; apply list_elem_of_fmap; by exists (i, h)).
  assert (∀ ns, (j, k) ∈ ns → (j, linked_ids k) ∈ links ns) as Hjl
    by (intros ns Hn; apply list_elem_of_fmap; by exists (j, k)).
  rewrite (grouped_same_thread (links ms) _ i (linked_ids h) a j (linked_ids k) b)
    by (by apply assign_all_grouped || auto).
  rewrite (grouped_same_thread (links ms') _ i (linked_ids h) a j (linked_ids k) b)
    by (by apply assign_all_grouped || (try apply Hil; try apply Hjl; by rewrite <-?Hp) || done).
  assert ((links ms).*2 ≡ₚ (links ms').*2) as Hl by (unfold links; by rewrite Hp).
  split; apply connected_mono; intros x; by rewrite Hl.
Qed.

(** ** Reprocessing a message *)

Definition assign_body (m : Z) (linked : list str) (subj : str) (ts : Z) (tid : Z) (c : Ctx) : Ctx :=
  touch_thread tid subj ts
    (set_msg_threads <[m := tid]> (foldl (λ c id, set_thread_refs <[id := tid]> c) c linked)).

Lemma assign_survivor m h c tid :
  existing_threads c (linked_ids h) = [tid] →
  assign m h c = (assign_body m (linked_ids h) (remove_subject_prefix (ThreadHeaders.subject h))
                    (ThreadHeaders.timestamp h) tid c, Ok tid).
Proof.
  intros E. unfold assign, transaction. rewrite run_bind_gets, E. cbn [for_each].
  rewrite run_bind, run_bind_ret. unfold mret at 1, cmd_ret at 1.
  by rewrite run_bind, for_each_modify, !run_bind_modify.
Qed.

Lemma touch_thread_idemp tid subj ts c :
  touch_thread tid subj ts (touch_thread tid subj ts c) = touch_thread tid subj ts c.
Proof.
  unfold touch_thread. set (f := λ r, ThreadRow.mk _ _).
  assert (∀ r, f (f r) = f r) as Hf.
  { intros r. unfold f. simpl. f_equal; [|lia].
    destruct (is_empty (ThreadRow.subject_norm r)) eqn:E; [|by rewrite E]. by destruct subj. }
  assert (alter f tid (alter f tid (threads c)) = alter f tid (threads c)) as E.
  { apply map_eq. intros x. rewrite !lookup_alter. destruct (decide (tid = x)) as [<-|]; [|done].
    rewrite decide_True by done. destruct (threads c !! tid) as [r|]; [|done]. exact (f_equal Some (Hf r)). }
  change (set_threads (λ _, alter f tid (alter f tid (threads c))) c = set_threads (alter f tid) c).
  by rewrite E.
Qed.

(** Assigning into the thread everything is already in changes nothing more. *)
Lemma assign_body_again m linked subj ts tid c c0 :
  c = touch_thread tid subj ts c0 → msg_threads c !! m = Some tid →
  (∀ a, a ∈ linked → thread_refs c !! a = Some tid) →
  assign_body m linked subj ts tid c = c.
Proof.
  intros Hc Hm Hl. unfold assign_body.
  assert (foldl (λ c id, set_thread_refs <[id := tid]> c) c linked = c) as ->.
  { destruct (foldl_insert_refs linked tid c) as [E L]. rewrite E.
    assert (thread_refs (foldl (λ c id, set_thread_refs <[id := tid]> c) c linked) = thread_refs c) as ->.
    { apply map_eq. intros x. rewrite L. case_decide as Hx; [|done]. symmetry. by apply Hl. }
    by destruct c. }
  assert (set_msg_threads <[m := tid]> c = c) as ->.
  { destruct c. unfold set_msg_threads. simpl in *. f_equal. by apply insert_id. }
  rewrite Hc. apply touch_thread_idemp.
Qed.

(** [assign] ends by touching the thread. *)
Lemma assign_touches m h c c' tid :
  assign m h c = (c', Ok tid) →
  ∃ c0, c' = touch_thread tid (remove_subject_prefix (ThreadHeaders.subject h))
               (ThreadHeaders.timestamp h) c0.
Proof.
  unfold assign, transaction. rewrite run_bind_gets, run_bind.
  match goal with |- context [match ?k c with (_, _) => _ end] => destruct (k c) as [c1 [t|e]] end; [|done].
  rewrite run_bind, for_each_modify, !run_bind_modify. unfold mret, cmd_ret.
  intros [= <- <-]. eauto.
Qed.

Lemma existing_again c linked tid :
  linked ≠ [] → (∀ a, a ∈ linked → thread_refs c !! a = Some tid) →
  existing_threads c linked = [tid].
Proof.
  intros Hne Hall. pose proof (NoDup_existing c linked) as Hnd.
  assert (∀ t, t ∈ existing_threads c linked → t = tid) as Heq.
  { intros t (a & Ha & Ht)%elem_of_existing. rewrite Hall in Ht by done. congruence. }
  assert (tid ∈ existing_threads c linked) as Hin.
  { destruct linked as [|a l]; [done|]. apply elem_of_existing. exists a.
    split; [set_solver|]. apply Hall. set_solver. }
  destruct (existing_threads c linked) as [|x [|y l]]; [set_solver| |].
  - by rewrite (Heq x) by set_solver.
  - rewrite (Heq x), (Heq y) in Hnd by set_solver. apply NoDup_cons in Hnd. set_solver.
Qed.

(** Processing a message again is idempotent exactly when it has an id or
    references one: then the second call returns the same conversation and
    changes nothing; a message without any Message-ID gets a new conversation
    every time. *)
Theorem assign_idempotent_iff (m : Z) (h : ThreadHeaders.t) (c c' : Ctx) (tid : Z) :
  threads_ok c → assign m h c = (c', Ok tid) →
  (assign m h c' = (c', Ok tid) ↔ linked_ids h ≠ []).
Proof.
  intros Hok Hrun. destruct (assign_run m h c Hok) as (tid' & c'' & Hrun' & Has).
  rewrite Hrun in Hrun'. injection Hrun' as <- <-. split.
  - intros Hagain Hnil.
    destruct (assign_run m h c' (assigned_ok _ _ _ _ _ Hok Has)) as (t2 & c2 & Hrun2 & Has2).
    rewrite Hagain in Hrun2. injection Hrun2 as <- <-.
    pose proof (as_tid _ _ _ _ _ Has2) as Ht. rewrite Hnil in Ht.
    destruct Ht as [[Hin _]|[_ Hfresh]]; [by apply not_elem_of_nil in Hin|].
    destruct (as_seq _ _ _ _ _ Has2). lia.
  - intros Hne.
    assert (∀ a, a ∈ linked_ids h → thread_refs c' !! a = Some tid) as Hall.
    { intros a Ha. rewrite (as_refs _ _ _ _ _ Has). by rewrite decide_True. }
    rewrite (assign_survivor m h c' tid) by by apply existing_again. f_equal.
    destruct (assign_touches m h c c' tid Hrun) as [c0 Hc0].
    apply (assign_body_again _ _ _ _ _ _ c0); [done| |done].
    rewrite (as_msgs _ _ _ _ _ Has). by rewrite decide_True.
Qed.

(** ** Histories *)

Inductive thread_op :=
  | OpAssign (msg_id : Z) (headers : ThreadHeaders.t)
  | OpAssignStored (msg_id : Z)
  | OpPruneThreads.

Definition run_thread_op (o : thread_op) (c : Ctx) : Ctx :=
  match o with
  | OpAssign m h => final (assign m h) c
  | OpAssignStored m => final (assign_stored m) c
  | OpPruneThreads => final prune c
  end.

Lemma prune_ok c : threads_ok c → threads_ok (final prune c).
Proof.
  intros [Hr Hm Hs]. unfold final, prune, transaction. rewrite !run_bind_modify. simpl. split; simpl.
  - intros a t [_ Ht]%map_lookup_filter_Some. done.
  - intros i t [Hi Hl]%map_lookup_filter_Some. simpl in Hl.
    destruct (Hm i t Hi) as [r Hr']. exists r. apply map_lookup_filter_Some. split; [done|]. simpl.
    apply list_elem_of_fmap. exists (i, t). split; [done|]. apply elem_of_map_to_list.
    by apply map_lookup_filter_Some.
  - intros t r [Ht _]%map_lookup_filter_Some. eauto.
Qed.

Lemma assign_ok m h c : threads_ok c → threads_ok (final (assign m h) c).
Proof.
  intros Hok. destruct (assign_run m h c Hok) as (tid & c' & Hrun & Has). unfold final. rewrite Hrun.
  by eapply assigned_ok.
Qed.

(** Whatever sequence of assignments and prunings runs, every message and
    every Message-ID of the thread tables points to an existing conversation;
    pruning keeps the conversation of every live message and forgets every
    other message, and no conversation without a message survives it. *)
Theorem thread_history_invariant (ops : list thread_op) (c : Ctx) :
  threads_ok c →
  let d := foldl (λ c o, run_thread_op o c) c ops in
  let p := final prune d in
  threads_ok d
  ∧ (∀ i, thread_of p i = if live_msg d i then thread_of d i else None)
  ∧ (∀ t, is_Some (threads p !! t) → ∃ i, thread_of p i = Some t).
Proof.
  intros Hok d p. assert (threads_ok d) as Hd.
  { unfold d. clear p d. revert c Hok. induction ops as [|o ops IH]; intros c Hok; [done|].
    simpl. apply IH. destruct o as [m h|m|]; simpl; [by apply assign_ok| |by apply prune_ok].
    unfold final, assign_stored. rewrite run_bind_gets. destruct (msgs c !! m) as [r|]; [|done].
    rewrite run_bind. set (h := ThreadHeaders.mk _ _ _ _ _).
    pose proof (assign_ok m h c Hok) as Ha. unfold final in Ha.
    by destruct (assign m h c) as [c' [t|e]]. }
  split; [done|]. unfold thread_of, p, final, prune, transaction. rewrite !run_bind_modify. simpl. split.
  - intros i. destruct (live_msg d i) eqn:E.
    + destruct (msg_threads d !! i) as [t|] eqn:F.
      * by apply map_lookup_filter_Some.
      * apply map_lookup_filter_None. by left.
    + apply map_lookup_filter_None. right. intros t _. simpl. by rewrite E.
  - intros t [r [_ Ht]%map_lookup_filter_Some]. simpl in Ht.
    apply list_elem_of_fmap in Ht as ([i t'] & -> & Hin). apply elem_of_map_to_list in Hin. eauto.
Qed.

(** ** Three messages, the middle one last *)

Definition hdr (mid in_reply_to references subject : string) (ts : Z) : ThreadHeaders.t :=
  ThreadHeaders.mk (lit mid) (lit in_reply_to) (lit references) (lit subject) ts.

Definition root_hdr : ThreadHeaders.t := hdr "a@x" "" "" "Plans" 10.
Definition late_hdr : ThreadHeaders.t := hdr "c@x" "<b@x>" "" "Re: Plans" 30.
Definition link_hdr : ThreadHeaders.t := hdr "b@x" "<a@x>" "<a@x>" "Re: Plans" 20.
Definition bare_hdr : ThreadHeaders.t := hdr "" "" "" "Plans" 40.
Definition other_hdr : ThreadHeaders.t := hdr "d@x" "" "" "Plans" 50.

Definition arrivals : list (Z * ThreadHeaders.t) :=
  [(11%Z, root_hdr); (12%Z, late_hdr); (13%Z, link_hdr); (14%Z, other_hdr)].

Lemma unthreaded_empty : unthreaded empty_ctx.
Proof. unfold unthreaded. vm_compute. split_and!; done. Qed.

Lemma threads_ok_empty : threads_ok empty_ctx.
Proof. exact (gr_ok _ _ (unthreaded_grouped _ unthreaded_empty)). Qed.

Example arrivals_threads :
  thread_of (assign_all (take 2 arrivals) empty_ctx) 12 = Some 2%Z
  ∧ (λ i, thread_of (assign_all arrivals empty_ctx) i) <$> [11; 12; 13; 14]%Z
    = [Some 1; Some 1; Some 1; Some 3]%Z.
Proof. vm_compute. done. Qed.

Lemma threading_is_connectivity_witness :
  thread_of (assign_all arrivals empty_ctx) 11 = thread_of (assign_all arrivals empty_ctx) 12
  ∧ connected (links arrivals).*2 (lit "a@x") (lit "c@x").
Proof.
  split; [vm_compute; reflexivity|].
  apply (threading_is_connectivity arrivals empty_ctx 11 12 root_hdr late_hdr).
  - exact unthreaded_empty.
  - apply (bool_decide_unpack _). vm_compute. exact I.
  - by apply (list_elem_of_lookup_2 _ 0).
  - apply (bool_decide_unpack _). vm_compute. exact I.
  - by apply (list_elem_of_lookup_2 _ 1).
  - apply (bool_decide_unpack _). vm_compute. exact I.
  - vm_compute. reflexivity.
Defined.

Lemma threading_order_independent_witness :
  thread_of (assign_all (reverse arrivals) empty_ctx) 11
  = thread_of (assign_all (reverse arrivals) empty_ctx) 12.
Proof.
  apply (threading_order_independent arrivals (reverse arrivals) empty_ctx 11 12 root_hdr late_hdr).
  - exact unthreaded_empty.
  - apply (bool_decide_unpack _). vm_compute. exact I.
  - symmetry. apply reverse_Permutation.
  - by apply (list_elem_of_lookup_2 _ 0).
  - vm_compute. discriminate.
  - by apply (list_elem_of_lookup_2 _ 1).
  - vm_compute. discriminate.
  - vm_compute. reflexivity.
Defined.

Lemma assign_idempotent_iff_witness :
  assign 11 root_hdr (final (assign 11 root_hdr) empty_ctx)
  = (final (assign 11 root_hdr) empty_ctx, Ok 1%Z)
  ∧ assign 15 bare_hdr (final (assign 15 bare_hdr) empty_ctx)
    ≠ (final (assign 15 bare_hdr) empty_ctx, Ok 1%Z).
Proof.
  split.
  - apply (assign_idempotent_iff 11 root_hdr empty_ctx).
    + exact threads_ok_empty.
    + vm_compute. reflexivity.
    + vm_compute. discriminate.
  - intros H. apply (assign_idempotent_iff 15 bare_hdr empty_ctx) in H.
    + apply H. vm_compute. reflexivity.
    + exact threads_ok_empty.
    + vm_compute. reflexivity.
Defined.

Lemma thread_history_invariant_witness :
  let d := foldl (λ c o, run_thread_op o c) empty_ctx [OpAssign 11 root_hdr; OpAssign 12 late_hdr] in
  thread_of d 11 = Some 1%Z ∧ threads_ok d ∧ thread_of (final prune d) 11 = None.
Proof.
  split; [vm_compute; reflexivity|].
  destruct (thread_history_invariant [OpAssign 11 root_hdr; OpAssign 12 late_hdr] empty_ctx
              threads_ok_empty) as (Hok & Hp & _).
  split; [exact Hok|]. rewrite Hp. vm_compute. reflexivity.
Defined.
