(* ===== verification/ThreadTree.v ===== *)
(** * ThreadTree: the reply tree of a conversation, [tree] and [build_node] of
    [core/src/email/threading.rs].

    [build_node] is an explicit stack machine in the source; here it runs on
    fuel, and the theorems show that twice the number of messages plus one is
    always enough and that the result is that of plain recursion. *)

From S2P Require Import Prelude Text Store Threading.

(** A message and its replies. *)
Inductive ThreadNode := Node (msg_id : Z) (children : list ThreadNode).

(** The columns [tree] reads. *)
Module TreeRow.
Record t := mk { msg_id : Z; rfc724_mid : str; in_reply_to : str; references : str }.
End TreeRow.

Definition tree_rows (c : Ctx) (thread_id : Z) : list TreeRow.t :=
  (λ r, TreeRow.mk r.1 (default [] (Msg.rfc724_mid r.2))
          (default [] (Msg.mime_in_reply_to r.2)) (default [] (Msg.mime_references r.2)))
    <$> thread_rows c thread_id.

(** Message-ID to message; the older of two claimants keeps the id. *)
Definition by_mid (rows : list TreeRow.t) : gmap str Z :=
  foldl (λ m r,
    if is_empty (TreeRow.rfc724_mid r) then m
    else match m !! TreeRow.rfc724_mid r with
         | Some _ => m
         | None => <[TreeRow.rfc724_mid r := TreeRow.msg_id r]> m
         end) ∅ rows.

(** Position of each message; a later entry for the same key would replace an
    earlier one. *)
Definition order (ids : list Z) : gmap Z nat :=
  list_to_map (reverse (imap (λ i id, (id, i)) ids)).

(** [Option<usize>] comparison: [None] is the least. *)
Definition opt_geb (a b : option nat) : bool :=
  match a, b with
  | _, None => true
  | None, Some _ => false
  | Some a, Some b => (b <=? a)%nat
  end.

(** Nearest ancestor we hold: the last candidate that is an older message of
    the thread. *)
Definition find_parent (mids : gmap str Z) (ord : gmap Z nat) (r : TreeRow.t) : option Z :=
  let candidates := parse_message_ids (TreeRow.references r)
                    ++ parse_message_ids (TreeRow.in_reply_to r) in
  head (omap (λ candidate,
    candidate_id ← mids !! candidate;
    if (candidate_id =? TreeRow.msg_id r)%Z then None
    else if opt_geb (ord !! candidate_id) (ord !! TreeRow.msg_id r) then None
    else Some candidate_id) (reverse candidates)).

Definition add_parent (mids : gmap str Z) (ord : gmap Z nat) (parent : gmap Z Z) (r : TreeRow.t)
    : gmap Z Z :=
  match find_parent mids ord r with
  | Some q => <[TreeRow.msg_id r := q]> parent
  | None => parent
  end.

Definition parents (rows : list TreeRow.t) : gmap Z Z :=
  let mids := by_mid rows in
  let ord := order (TreeRow.msg_id <$> rows) in
  foldl (add_parent mids ord) ∅ rows.

(** [match parent.get(msg_id)]: replies under their parent, the rest roots. *)
Definition hang (parent : gmap Z Z) (acc : gmap Z (list Z) * list Z) (r : TreeRow.t)
    : gmap Z (list Z) * list Z :=
  let '(children, roots) := acc in
  let id := TreeRow.msg_id r in
  match parent !! id with
  | Some p => (<[p := default [] (children !! p) ++ [id]]> children, roots)
  | None => (children, roots ++ [id])
  end.

Inductive Step := Enter (msg_id : Z) | Exit (msg_id : Z) (count : nat).

(** The loop of [build_node]; the head of [stack] is its top, the end of
    [done_] the last pushed node. *)
Fixpoint run_steps (fuel : nat) (children : gmap Z (list Z)) (stack : list Step)
    (done_ : list ThreadNode) : option (list ThreadNode) :=
  match fuel with
  | O => None
  | S fuel =>
      match stack with
      | [] => Some done_
      | Enter msg_id :: stack =>
          let kids := default [] (children !! msg_id) in
          run_steps fuel children ((Enter <$> kids) ++ Exit msg_id (length kids) :: stack) done_
      | Exit msg_id count :: stack =>
          let at_ := length done_ - count in
          run_steps fuel children stack (take at_ done_ ++ [Node msg_id (drop at_ done_)])
      end
  end.

Definition build_node (fuel : nat) (root : Z) (children : gmap Z (list Z)) : option ThreadNode :=
  done_ ← run_steps fuel children [Enter root] [];
  Some (default (Node root []) (last done_)).

(** Enough for every thread: two steps per message, and one to stop. *)
Definition tree_fuel (rows : list TreeRow.t) : nat := 2 * length rows + 1.

Definition tree (c : Ctx) (thread_id : Z) : option (list ThreadNode) :=
  let rows := tree_rows c thread_id in
  let parent := parents rows in
  let '(children, roots) := foldl (hang parent) (∅, []) rows in
  mapM (λ root, build_node (tree_fuel rows) root children) roots.

(** The messages of a subtree, in the order it shows them. *)
Fixpoint flatten (t : ThreadNode) : list Z :=
  match t with Node id ns => id :: flat_map flatten ns end.

(** ** Forests given by a parent function *)

Lemma elem_of_flat_map {A B} (f : A → list B) (l : list A) z :
  z ∈ flat_map f l ↔ ∃ x, x ∈ l ∧ z ∈ f x.
Proof.
  rewrite list_elem_of_In, in_flat_map. setoid_rewrite list_elem_of_In. done.
Qed.

Lemma NoDup_flat_map {A B} (f : A → list B) (l : list A) :
  NoDup l → (∀ x, x ∈ l → NoDup (f x)) →
  (∀ x y z, x ∈ l → y ∈ l → z ∈ f x → z ∈ f y → x = y) →
  NoDup (flat_map f l).
Proof.
  induction l as [|x l IH]; intros Hnd Hf Hdis; simpl; [constructor|].
  apply NoDup_cons in Hnd as [Hx Hnd]. apply NoDup_app. split_and!.
  - apply Hf. set_solver.
  - intros z Hz (y & Hy & Hzy)%elem_of_flat_map.
    assert (x = y) as -> by (eapply Hdis; eauto; set_solver). done.
  - apply IH; [done|set_solver|]. intros a b z Ha Hb. eapply Hdis; set_solver.
Qed.

Section forest.
Context (ids : list Z) (parent : Z → option Z) (ix : Z → nat) (kids : Z → list Z).
Hypothesis Hnd : NoDup ids.
Hypothesis Hix : ∀ x, x ∈ ids → (ix x < length ids)%nat.
Hypothesis Hpar : ∀ x p, x ∈ ids → parent x = Some p → p ∈ ids ∧ (ix p < ix x)%nat.
Hypothesis Hkids : ∀ p, kids p = filter (λ x, parent x = Some p) ids.

(** The reference: plain recursion, to depth [n]. *)
Fixpoint grow (n : nat) (id : Z) : ThreadNode :=
  match n with
  | O => Node id []
  | S n => Node id (grow n <$> kids id)
  end.

Definition up (x p : Z) : Prop := x ∈ ids ∧ parent x = Some p.

Lemma up_ix x p : rtc up x p → x = p ∨ (ix p < ix x)%nat.
Proof.
  induction 1 as [x|x y z [Hx Hy] _ IH]; [by left|]. right.
  destruct (Hpar x y Hx Hy) as [_ ?]. destruct IH; [subst|]; lia.
Qed.

Lemma up_linear x a b : rtc up x a → rtc up x b → rtc up a b ∨ rtc up b a.
Proof.
  induction 1 as [x|x y a [Hx Hy] Ha IH]; [by left|]. intros Hb.
  inversion Hb as [|? y' ? [_ Hy'] Hb']; simplify_eq.
  - right. eapply rtc_l; [|done]. by split.
  - by apply IH.
Qed.

Lemma elem_of_kids p x : x ∈ kids p ↔ up x p.
Proof. rewrite Hkids, list_elem_of_filter. unfold up. tauto. Qed.

Lemma kid_bound n id k :
  (length ids - ix id ≤ S n)%nat → k ∈ kids id →
  k ∈ ids ∧ (length ids - ix k ≤ n)%nat ∧ (ix id < ix k)%nat.
Proof.
  intros Hb [Hk Hp]%elem_of_kids. destruct (Hpar k id Hk Hp) as [_ ?].
  pose proof (Hix k Hk). split; [done|]. lia.
Qed.

Lemma flatten_grow n id :
  flatten (grow (S n) id) = id :: flat_map (λ k, flatten (grow n k)) (kids id).
Proof.
  change (id :: flat_map flatten (grow n <$> kids id)
          = id :: flat_map (λ k, flatten (grow n k)) (kids id)). f_equal.
  induction (kids id) as [|k ks IH]; [done|]. cbn [fmap list_fmap flat_map]. by rewrite IH.
Qed.

Lemma elem_of_grow n id x :
  id ∈ ids → (length ids - ix id ≤ n)%nat → x ∈ flatten (grow n id) ↔ rtc up x id.
Proof.
  revert id. induction n as [|n IH]; intros id Hid Hb; [pose proof (Hix id Hid); lia|].
  rewrite flatten_grow, elem_of_cons, elem_of_flat_map. split.
  - intros [->|(k & Hk & Hx)]; [by apply rtc_refl|].
    destruct (kid_bound n id k Hb Hk) as (Hki & Hkb & _).
    eapply rtc_r; [by apply IH|]. by apply elem_of_kids.
  - intros Hx. apply rtc_inv_r in Hx as [->|(k & Hxk & Hk)]; [by left|]. right.
    apply elem_of_kids in Hk. exists k. split; [done|].
    destruct (kid_bound n id k Hb Hk) as (Hki & Hkb & _). by apply IH.
Qed.

(** Two subtrees hung at the same place are disjoint. *)
Lemma siblings_disjoint x a b :
  rtc up x a → rtc up x b → parent a = parent b → a ∈ ids → b ∈ ids → a = b.
Proof.
  assert (∀ a b, rtc up a b → parent a = parent b → b ∈ ids → a = b) as Hw.
  { intros a' b' Hab Hp Hb. inversion Hab as [|? y ? [Ha Hy] Hyb]; simplify_eq; [done|].
    exfalso. rewrite Hy in Hp. symmetry in Hp. destruct (Hpar b' y Hb Hp) as [_ ?].
    destruct (up_ix y b' Hyb); [subst|]; lia. }
  intros Ha Hb Hp Hai Hbi. destruct (up_linear x a b Ha Hb); [by apply Hw|symmetry; by apply Hw].
Qed.

Lemma NoDup_grow n id :
  id ∈ ids → (length ids - ix id ≤ n)%nat → NoDup (flatten (grow n id)).
Proof.
  revert id. induction n as [|n IH]; intros id Hid Hb; [pose proof (Hix id Hid); lia|].
  rewrite flatten_grow. apply NoDup_cons. split.
  - rewrite elem_of_flat_map. intros (k & Hk & Hx).
    destruct (kid_bound n id k Hb Hk) as (Hki & Hkb & Hlt).
    apply elem_of_grow in Hx; [|done..]. destruct (up_ix id k Hx); [subst|]; lia.
  - apply NoDup_flat_map.
    + rewrite Hkids. by apply NoDup_filter.
    + intros k Hk. destruct (kid_bound n id k Hb Hk) as (Hki & Hkb & _). by apply IH.
    + intros a b x Ha Hb' Hxa Hxb.
      destruct (kid_bound n id a Hb Ha) as (Hai & Hab & _).
      destruct (kid_bound n id b Hb Hb') as (Hbi & Hbb & _).
      apply elem_of_grow in Hxa; [|done..]. apply elem_of_grow in Hxb; [|done..].
      apply elem_of_kids in Ha as [_ Ha], Hb' as [_ Hb'].
      eapply siblings_disjoint; eauto. congruence.
Qed.

(** Every message is under some root. *)
Lemma has_root x : x ∈ ids → ∃ r, r ∈ ids ∧ parent r = None ∧ rtc up x r.
Proof.
  remember (ix x) as k eqn:Hk. revert x Hk. induction k as [k IH] using lt_wf_ind. intros x -> Hx.
  destruct (parent x) as [p|] eqn:Hp; [|by exists x; split_and!; [..|apply rtc_refl]].
  destruct (Hpar x p Hx Hp) as [Hpi Hlt]. destruct (IH (ix p) Hlt p eq_refl Hpi) as (r & Hr & Hn & Hup).
  exists r. split_and!; [done..|]. eapply rtc_l; [|done]. by split.
Qed.

Lemma forest_permutation :
  flat_map (λ r, flatten (grow (length ids) r)) (filter (λ x, parent x = None) ids) ≡ₚ ids.
Proof.
  apply NoDup_Permutation; [|done|].
  - apply NoDup_flat_map; [by apply NoDup_filter|..].
    + intros r [_ Hr]%list_elem_of_filter. apply NoDup_grow; [done|lia].
    + intros a b x [Ha Hai]%list_elem_of_filter [Hb Hbi]%list_elem_of_filter Hxa Hxb.
      apply elem_of_grow in Hxa; [|done|lia]. apply elem_of_grow in Hxb; [|done|lia].
      eapply siblings_disjoint; eauto. congruence.
  - intros x. rewrite elem_of_flat_map. split.
    + intros (r & [_ Hr]%list_elem_of_filter & Hx). apply elem_of_grow in Hx; [|done|lia].
      inversion Hx as [|? ? ? [? _] _]; by subst.
    + intros Hx. destruct (has_root x Hx) as (r & Hr & Hn & Hup). exists r. split.
      * by apply list_elem_of_filter.
      * apply elem_of_grow; [done|lia|done].
Qed.

(** ** The stack machine computes the recursion *)

Context (children : gmap Z (list Z)).
Hypothesis Hch : ∀ p, default [] (children !! p) = kids p.

Lemma run_enter_list n ks f st dn :
  (∀ k f st dn, k ∈ ks →
     run_steps (2 * length (flatten (grow n k)) + f) children (Enter k :: st) dn
     = run_steps f children st (dn ++ [grow n k])) →
  run_steps (2 * length (flat_map (λ k, flatten (grow n k)) ks) + f) children ((Enter <$> ks) ++ st) dn
  = run_steps f children st (dn ++ (grow n <$> ks)).
Proof.
  revert dn f. induction ks as [|k ks IH]; intros dn f Hk; [by rewrite app_nil_r|].
  cbn [flat_map fmap list_fmap app]. rewrite length_app.
  replace (2 * (length (flatten (grow n k)) + length (flat_map (λ k, flatten (grow n k)) ks)) + f)
    with (2 * length (flatten (grow n k))
          + (2 * length (flat_map (λ k, flatten (grow n k)) ks) + f)) by lia.
  rewrite Hk by set_solver. rewrite IH.
  - by rewrite <-app_assoc.
  - intros k' f' st' dn' Hk'. apply Hk. set_solver.
Qed.

Lemma run_enter n id f st dn :
  id ∈ ids → (length ids - ix id ≤ n)%nat →
  run_steps (2 * length (flatten (grow n id)) + f) children (Enter id :: st) dn
  = run_steps f children st (dn ++ [grow n id]).
Proof.
  revert id f st dn. induction n as [|n IH]; intros id f st dn Hid Hb; [pose proof (Hix id Hid); lia|].
  rewrite flatten_grow. cbn [length].
  replace (2 * S (length (flat_map (λ k, flatten (grow n k)) (kids id))) + f)
    with (S (2 * length (flat_map (λ k, flatten (grow n k)) (kids id)) + S f)) by lia.
  cbn [run_steps]. rewrite Hch. rewrite (run_enter_list n (kids id)).
  - cbn [run_steps]. rewrite length_app, length_fmap.
    replace (length dn + length (kids id) - length (kids id)) with (length dn) by lia.
    rewrite take_app_length, drop_app_length. done.
  - intros k f' st' dn' Hk. destruct (kid_bound n id k Hb Hk) as (Hki & Hkb & _). by apply IH.
Qed.

Lemma build_node_grow id fuel :
  id ∈ ids → (2 * length ids < fuel)%nat →
  build_node fuel id children = Some (grow (length ids) id).
Proof.
  intros Hid Hf. unfold build_node.
  assert (length (flatten (grow (length ids) id)) ≤ length ids)%nat as Hlen.
  { apply submseteq_length, NoDup_submseteq; [apply NoDup_grow; [done|lia]|].
    intros x Hx. apply elem_of_grow in Hx; [|done|lia].
    inversion Hx as [|? ? ? [? _] _]; by subst. }
  replace fuel with (2 * length (flatten (grow (length ids) id))
    + S (fuel - 2 * length (flatten (grow (length ids) id)) - 1)) by lia.
  rewrite run_enter by (done || lia). done.
Qed.
End forest.

(** ** The rows of a thread form a forest *)

Lemma tree_rows_ids c t : TreeRow.msg_id <$> tree_rows c t = messages c t.
Proof. unfold tree_rows, messages. rewrite <-list_fmap_compose. by apply list_fmap_ext. Qed.

Lemma NoDup_messages c t : NoDup (messages c t).
Proof.
  unfold messages, thread_rows, sort_by. rewrite merge_sort_Permutation.
  assert (∀ (P : Z * Msg.t → Prop) `{!∀ x, Decision (P x)} l, NoDup l.*1 → NoDup (filter P l).*1) as Hf.
  { intros P ? l. induction l as [|[i m] l IH]; [done|]. cbn [fmap list_fmap fst].
    intros [Hi Hnd]%NoDup_cons. rewrite filter_cons. case_decide; [|by apply IH].
    cbn [fmap list_fmap fst]. apply NoDup_cons. split; [|by apply IH].
    intros (r & -> & [_ Hr]%list_elem_of_filter)%list_elem_of_fmap. apply Hi, list_elem_of_fmap. eauto. }
  apply Hf, NoDup_fst_map_to_list.
Qed.

Lemma order_lookup ids i x : NoDup ids → ids !! i = Some x → order ids !! x = Some i.
Proof.
  intros Hnd Hi. unfold order. apply elem_of_list_to_map_1.
  - rewrite fmap_reverse, reverse_Permutation, fmap_imap. unfold compose. cbn [fst].
    assert (imap (λ _ (y : Z), y) ids = ids) as ->; [|done].
    apply list_eq. intros k. rewrite list_lookup_imap. by destruct (ids !! k).
  - apply elem_of_reverse, elem_of_lookup_imap. by exists i, x.
Qed.

Lemma by_mid_snoc rows x :
  by_mid (rows ++ [x]) =
    if is_empty (TreeRow.rfc724_mid x) then by_mid rows
    else match by_mid rows !! TreeRow.rfc724_mid x with
         | Some _ => by_mid rows
         | None => <[TreeRow.rfc724_mid x := TreeRow.msg_id x]> (by_mid rows)
         end.
Proof. unfold by_mid. by rewrite foldl_app. Qed.

Lemma by_mid_carrier rows k id :
  by_mid rows !! k = Some id →
  ∃ i r, rows !! i = Some r ∧ TreeRow.msg_id r = id ∧ TreeRow.rfc724_mid r = k.
Proof.
  induction rows as [|x rows IH] using rev_ind; [by cbn; intros ?%lookup_empty_Some|].
  rewrite by_mid_snoc. intros Hk.
  assert (by_mid rows !! k = Some id ∨ (TreeRow.msg_id x = id ∧ TreeRow.rfc724_mid x = k)) as [Hl|Hx].
  { destruct (is_empty (TreeRow.rfc724_mid x)); [by left|].
    destruct (by_mid rows !! TreeRow.rfc724_mid x); [by left|].
    rewrite lookup_insert in Hk. case_decide; [|by left]. right. by simplify_eq. }
  - destruct (IH Hl) as (i & r & Hi & ? & ?). exists i, r. split; [by apply lookup_app_l_Some|done].
  - exists (length rows), x. split; [by apply list_lookup_middle|done].
Qed.

Lemma by_mid_in rows k id : by_mid rows !! k = Some id → id ∈ TreeRow.msg_id <$> rows.
Proof.
  intros (i & r & Hi & <- & _)%by_mid_carrier. apply list_elem_of_fmap_2.
  by eapply list_elem_of_lookup_2.
Qed.

Lemma find_parent_Some mids ord r p :
  find_parent mids ord r = Some p →
  (∃ k, mids !! k = Some p) ∧ opt_geb (ord !! p) (ord !! TreeRow.msg_id r) = false.
Proof.
  unfold find_parent. intros Hh%head_Some_elem_of.
  apply list_elem_of_omap in Hh as (k & _ & Hk).
  destruct (mids !! k) as [q|] eqn:E; [|done]. cbn in Hk.
  destruct (q =? TreeRow.msg_id r)%Z; [done|].
  destruct (opt_geb (ord !! q) (ord !! TreeRow.msg_id r)) eqn:F; [done|].
  injection Hk as <-. eauto.
Qed.

Lemma parents_Some rows x p :
  parents rows !! x = Some p →
  ∃ r, r ∈ rows ∧ TreeRow.msg_id r = x
       ∧ find_parent (by_mid rows) (order (TreeRow.msg_id <$> rows)) r = Some p.
Proof.
  unfold parents. set (mids := by_mid rows). set (ord := order _). clearbody mids ord.
  induction rows as [|r rows IH] using rev_ind; [by cbn; intros ?%lookup_empty_Some|].
  rewrite foldl_app. cbn [foldl]. unfold add_parent at 1. intros Hx.
  destruct (find_parent mids ord r) as [q|] eqn:E.
  - rewrite lookup_insert in Hx. case_decide as Hd.
    + simplify_eq. exists r. set_solver.
    + destruct (IH Hx) as (r' & ? & ? & ?). exists r'. set_solver.
  - destruct (IH Hx) as (r' & ? & ? & ?). exists r'. set_solver.
Qed.

(** A parent is an earlier message of the thread. *)
Lemma parent_earlier rows x p :
  NoDup (TreeRow.msg_id <$> rows) → parents rows !! x = Some p →
  ∃ i j, (TreeRow.msg_id <$> rows) !! i = Some p ∧ (TreeRow.msg_id <$> rows) !! j = Some x
         ∧ (i < j)%nat.
Proof.
  intros Hnd (r & Hr & Hx & Hf)%parents_Some.
  apply find_parent_Some in Hf as [[k Hk] Hgeb]. apply by_mid_in in Hk.
  apply list_elem_of_lookup in Hk as [i Hi].
  assert (x ∈ TreeRow.msg_id <$> rows) as [j Hj]%list_elem_of_lookup
    by (apply list_elem_of_fmap; by exists r).
  exists i, j. split_and!; [done..|]. rewrite Hx in Hgeb.
  rewrite (order_lookup _ i p Hnd Hi), (order_lookup _ j x Hnd Hj) in Hgeb. simpl in Hgeb.
  by apply Nat.leb_gt in Hgeb.
Qed.

Lemma hang_spec parent rows :
  let res := foldl (hang parent) (∅, []) rows in
  (∀ p, default [] (res.1 !! p) = filter (λ x, parent !! x = Some p) (TreeRow.msg_id <$> rows))
  ∧ res.2 = filter (λ x, parent !! x = None) (TreeRow.msg_id <$> rows).
Proof.
  induction rows as [|r rows [IHc IHr]] using rev_ind.
  { split; [|done]. intros p. cbn. by rewrite lookup_empty. }
  rewrite foldl_app, fmap_app. cbn [foldl fmap list_fmap].
  destruct (foldl (hang parent) (∅, []) rows) as [ch rt]. cbn [fst snd] in *.
  unfold hang. destruct (parent !! TreeRow.msg_id r) as [q|] eqn:E; cbn [fst snd]; split.
  - intros p. rewrite filter_app, filter_cons, filter_nil, <-IHc, lookup_insert. case_decide as Hd.
    + subst q. rewrite decide_True by done. done.
    + rewrite decide_False by congruence. by rewrite app_nil_r.
  - rewrite filter_app, filter_cons, filter_nil, <-IHr, decide_False by congruence.
    by rewrite app_nil_r.
  - intros p. rewrite filter_app, filter_cons, filter_nil, <-IHc, decide_False by congruence.
    by rewrite app_nil_r.
  - by rewrite filter_app, filter_cons, filter_nil, <-IHr, decide_True.
Qed.

(** The parent of a message of the thread, its replies, and the roots. *)
Definition parent_of (c : Ctx) (t x : Z) : option Z := parents (tree_rows c t) !! x.
Definition replies (c : Ctx) (t p : Z) : list Z :=
  filter (λ x, parent_of c t x = Some p) (messages c t).
Definition roots_of (c : Ctx) (t : Z) : list Z :=
  filter (λ x, parent_of c t x = None) (messages c t).

Lemma tree_run c t :
  tree c t = Some (grow (replies c t) (length (messages c t)) <$> roots_of c t)
  ∧ flat_map flatten (grow (replies c t) (length (messages c t)) <$> roots_of c t) ≡ₚ messages c t.
Proof.
  set (ids := messages c t). set (parent := parent_of c t).
  set (ix := λ x, default 0%nat (order ids !! x)).
  pose proof (NoDup_messages c t) as Hnd. fold ids in Hnd.
  assert (∀ i x, ids !! i = Some x → ix x = i) as Hixl.
  { intros i x Hi. unfold ix. by rewrite (order_lookup ids i x Hnd Hi). }
  assert (∀ x, x ∈ ids → (ix x < length ids)%nat) as Hix.
  { intros x [i Hi]%list_elem_of_lookup. rewrite (Hixl i x Hi). by apply lookup_lt_Some in Hi. }
  assert (∀ x p, x ∈ ids → parent x = Some p → p ∈ ids ∧ (ix p < ix x)%nat) as Hpar.
  { intros x p _ Hp. unfold parent, parent_of in Hp.
    apply parent_earlier in Hp as (i & j & Hi & Hj & Hlt); [|by rewrite tree_rows_ids].
    rewrite tree_rows_ids in Hi, Hj. fold ids in Hi, Hj.
    rewrite (Hixl i p Hi), (Hixl j x Hj). split; [|done]. by eapply list_elem_of_lookup_2. }
  assert (∀ p, replies c t p = filter (λ x, parent x = Some p) ids) as Hk by done.
  split.
  - unfold tree. destruct (hang_spec (parents (tree_rows c t)) (tree_rows c t)) as [Hc Hr].
    destruct (foldl (hang _) (∅, []) (tree_rows c t)) as [ch rt]. cbn [fst snd] in *.
    rewrite tree_rows_ids in *. fold ids in Hc, Hr. subst rt.
    apply mapM_Some. apply Forall2_fmap_r, Forall_Forall2_diag, Forall_forall.
    intros r [_ Hr]%list_elem_of_filter.
    eapply (build_node_grow ids parent ix (replies c t)); try done.
    unfold tree_fuel. unfold ids. rewrite <-tree_rows_ids, length_fmap. lia.
  - rewrite flat_map_concat_map, <-list_fmap_compose. rewrite <-flat_map_concat_map.
    by apply (forest_permutation ids parent ix (replies c t)).
Qed.

(** ** Which message a reply hangs under *)

Definition candidates (r : TreeRow.t) : list str :=
  parse_message_ids (TreeRow.references r) ++ parse_message_ids (TreeRow.in_reply_to r).

Lemma parse_message_ids_nonempty s k : k ∈ parse_message_ids s → is_empty k = false.
Proof.
  unfold parse_message_ids. intros (w & _ & Hw)%list_elem_of_omap. cbn in Hw.
  destruct (is_empty _) eqn:E in Hw; [done|]. by injection Hw as <-.
Qed.

Lemma candidates_nonempty r k : k ∈ candidates r → is_empty k = false.
Proof. intros [?|?]%elem_of_app; by eapply parse_message_ids_nonempty. Qed.

(** The last element a partial function accepts. *)
Lemma head_omap_reverse {A B} (f : A → option B) (l : list A) :
  match head (omap f (reverse l)) with
  | Some y => ∃ before k after, l = before ++ k :: after ∧ f k = Some y
                                ∧ ∀ k', k' ∈ after → f k' = None
  | None => ∀ k, k ∈ l → f k = None
  end.
Proof.
  induction l as [|x l IH] using rev_ind; [set_solver|].
  rewrite reverse_snoc. cbn [omap list_omap]. destruct (f x) as [y|] eqn:E.
  - exists l, x, []. set_solver.
  - destruct (head (omap f (reverse l))) as [y|].
    + destruct IH as (b & k & a & -> & Hk & Ha). exists b, k, (a ++ [x]).
      rewrite <-app_assoc. set_solver.
    + set_solver.
Qed.

(** Whoever carries an id, the oldest carrier is the one it resolves to. *)
Lemma by_mid_oldest rows i r :
  rows !! i = Some r → is_empty (TreeRow.rfc724_mid r) = false →
  ∃ i0 r0, (i0 ≤ i)%nat ∧ rows !! i0 = Some r0 ∧ TreeRow.rfc724_mid r0 = TreeRow.rfc724_mid r
           ∧ by_mid rows !! TreeRow.rfc724_mid r = Some (TreeRow.msg_id r0).
Proof.
  revert i. induction rows as [|x rows IH] using rev_ind; [done|]. intros i Hi He.
  rewrite by_mid_snoc. apply lookup_app_Some in Hi as [Hi|[Hlen Hi]].
  - destruct (IH i Hi He) as (i0 & r0 & Hle & H0 & Hm & Hb). exists i0, r0.
    split_and!; [done|by apply lookup_app_l_Some|done|].
    destruct (is_empty (TreeRow.rfc724_mid x)); [done|].
    destruct (by_mid rows !! TreeRow.rfc724_mid x) eqn:E; [done|].
    rewrite lookup_insert_ne; [done|]. congruence.
  - apply list_lookup_singleton_Some in Hi as [Hz ->]. rewrite He.
    destruct (by_mid rows !! TreeRow.rfc724_mid r) as [id|] eqn:E.
    + destruct (by_mid_carrier rows _ _ E) as (i0 & r0 & H0 & Hid & Hm).
      exists i0, r0. apply lookup_lt_Some in H0 as Hl.
      split_and!; [lia|by apply lookup_app_l_Some|done|congruence].
    + exists i, r. split_and!; [lia| |done|by rewrite lookup_insert_eq].
      rewrite lookup_app_r by lia. by rewrite Hz.
Qed.

(** What an id resolves to, for a message at position [j]: the oldest message
    before it that carries the id. *)
Lemma resolve_spec rows j r k :
  NoDup (TreeRow.msg_id <$> rows) → rows !! j = Some r → is_empty k = false →
  match (candidate_id ← by_mid rows !! k;
         if (candidate_id =? TreeRow.msg_id r)%Z then None
         else if opt_geb (order (TreeRow.msg_id <$> rows) !! candidate_id)
                         (order (TreeRow.msg_id <$> rows) !! TreeRow.msg_id r) then None
         else Some candidate_id) with
  | Some p => ∃ i q, (i < j)%nat ∧ rows !! i = Some q ∧ TreeRow.msg_id q = p
                     ∧ TreeRow.rfc724_mid q = k
  | None => ∀ i q, (i < j)%nat → rows !! i = Some q → TreeRow.rfc724_mid q ≠ k
  end.
Proof.
  intros Hnd Hj Hk.
  assert (∀ i q, rows !! i = Some q → order (TreeRow.msg_id <$> rows) !! TreeRow.msg_id q = Some i) as Ho.
  { intros i q Hi. apply order_lookup; [done|]. by rewrite list_lookup_fmap, Hi. }
  destruct (by_mid rows !! k) as [p|] eqn:E; cbn.
  - destruct (by_mid_carrier rows k p E) as (i & q & Hi & <- & Hm).
    rewrite (Ho i q Hi), (Ho j r Hj). cbn.
    assert ((i < j)%nat ∨ ((j ≤ i)%nat ∧
      ∀ i q, (i < j)%nat → rows !! i = Some q → TreeRow.rfc724_mid q ≠ k)) as Hcase.
    { destruct (decide (i < j)%nat); [by left|]. right. split; [lia|]. intros i' q' Hlt Hi' Hq.
      destruct (by_mid_oldest rows i' q' Hi') as (i0 & r0 & Hle & H0 & _ & Hb); [by rewrite Hq|].
      rewrite Hq, E in Hb. injection Hb as Hb. pose proof (Ho i q Hi) as H1.
      rewrite Hb, (Ho i0 r0 H0) in H1. simplify_eq. lia. }
    destruct Hcase as [Hlt|[Hge Hno]].
    + assert (TreeRow.msg_id q ≠ TreeRow.msg_id r) as Hne.
      { intros Heq. pose proof (Ho i q Hi) as H1. rewrite Heq, (Ho j r Hj) in H1. simplify_eq. lia. }
      rewrite (proj2 (Z.eqb_neq _ _) Hne). assert (j <=? i = false)%nat as -> by by apply Nat.leb_gt.
      by exists i, q.
    + assert (j <=? i = true)%nat as -> by by apply Nat.leb_le. by destruct (_ =? _)%Z.
  - intros i q _ Hi Hq. destruct (by_mid_oldest rows i q Hi) as (? & ? & _ & _ & _ & Hb);
      rewrite Hq in *; congruence.
Qed.

Lemma parents_lookup rows r :
  NoDup (TreeRow.msg_id <$> rows) → r ∈ rows →
  parents rows !! TreeRow.msg_id r = find_parent (by_mid rows) (order (TreeRow.msg_id <$> rows)) r.
Proof.
  unfold parents. set (mids := by_mid rows). set (ord := order _). clearbody mids ord.
  induction rows as [|x rows IH] using rev_ind; [set_solver|].
  rewrite foldl_app, fmap_app. cbn [foldl fmap list_fmap]. unfold add_parent at 1.
  intros (Hnd & Hdis & _)%NoDup_app Hr.
  assert (∀ p, TreeRow.msg_id p ∉ TreeRow.msg_id <$> rows → foldl (add_parent mids ord) ∅ rows !! TreeRow.msg_id p = None) as Hout.
  { clear. intros p. induction rows as [|y rows IH] using rev_ind; [done|].
    rewrite fmap_app, foldl_app. cbn [foldl fmap list_fmap]. unfold add_parent at 1. intros Hp.
    destruct (find_parent mids ord y); [rewrite lookup_insert_ne by set_solver|]; apply IH; set_solver. }
  apply elem_of_app in Hr as [Hr|Hr]; [|apply list_elem_of_singleton in Hr as ->].
  - assert (TreeRow.msg_id r ∈ TreeRow.msg_id <$> rows) as Hin by by apply list_elem_of_fmap_2.
    rewrite <-IH by done. destruct (find_parent mids ord x); [|done].
    apply lookup_insert_ne. intros Heq. apply (Hdis _ Hin). rewrite <-Heq. set_solver.
  - destruct (find_parent mids ord x); [by rewrite lookup_insert_eq|].
    apply Hout. intros Hin. apply (Hdis _ Hin). set_solver.
Qed.

(** C35: no message of a conversation is lost or shown twice: [tree] always
    returns, and its nodes are exactly the conversation's messages, each once,
    whatever the headers claim (loops, self-references, forged ids). *)
Theorem tree_shows_each_message_once (c : Ctx) (t : Z) :
  ∃ forest, tree c t = Some forest ∧ flat_map flatten forest ≡ₚ messages c t.
Proof. destruct (tree_run c t) as [Ht Hp]. eauto. Qed.

(** The stack machine of [build_node] computes the plain recursion on
    replies: roots are the messages without a parent, oldest first, every node
    carries its replies oldest first, and a parent is always strictly earlier
    than its reply, so that the depth is bounded by the number of messages. *)
Theorem tree_is_recursion (c : Ctx) (t : Z) :
  tree c t = Some (grow (replies c t) (length (messages c t)) <$> roots_of c t)
  ∧ ∀ x p, parent_of c t x = Some p →
      ∃ i j, messages c t !! i = Some p ∧ messages c t !! j = Some x ∧ (i < j)%nat.
Proof.
  split; [apply tree_run|]. intros x p Hp. rewrite <-tree_rows_ids.
  apply parent_earlier; [|done]. rewrite tree_rows_ids. apply NoDup_messages.
Qed.

(** A reply hangs under its nearest ancestor that is held: the last
    Message-ID of its References and In-Reply-To headers that an older message
    of the conversation carries; it is a root exactly when none of them is
    carried by an older message. *)
Theorem reply_hangs_under_nearest (c : Ctx) (t : Z) (j : nat) (r : TreeRow.t) :
  tree_rows c t !! j = Some r →
  match parent_of c t (TreeRow.msg_id r) with
  | Some p =>
      ∃ before k after i q,
        candidates r = before ++ k :: after
        ∧ (i < j)%nat ∧ tree_rows c t !! i = Some q ∧ TreeRow.msg_id q = p ∧ TreeRow.rfc724_mid q = k
        ∧ ∀ k' i' q', k' ∈ after → (i' < j)%nat → tree_rows c t !! i' = Some q' →
            TreeRow.rfc724_mid q' ≠ k'
  | None =>
      ∀ k i q, k ∈ candidates r → (i < j)%nat → tree_rows c t !! i = Some q →
        TreeRow.rfc724_mid q ≠ k
  end.
Proof.
  intros Hj. assert (NoDup (TreeRow.msg_id <$> tree_rows c t)) as Hnd
    by (rewrite tree_rows_ids; apply NoDup_messages).
  pose proof (λ k, resolve_spec (tree_rows c t) j r k Hnd Hj) as Hres.
  unfold parent_of. rewrite parents_lookup by (done || by eapply list_elem_of_lookup_2).
  unfold find_parent. fold (candidates r).
  match goal with |- context [omap ?f (reverse _)] => pose proof (head_omap_reverse f (candidates r)) as Hh end.
  destruct (head _) as [p|].
  - destruct Hh as (before & k & after & Hc & Hk & Ha).
    assert (∀ k', k' ∈ k :: after → is_empty k' = false) as Hne.
    { intros k' Hk'. apply (candidates_nonempty r). rewrite Hc. set_solver. }
    pose proof (Hres k (Hne k ltac:(set_solver))) as Hp. cbn in Hp, Hk. rewrite Hk in Hp.
    destruct Hp as (i & q & Hlt & Hi & Hid & Hm). exists before, k, after, i, q.
    split_and!; [done..|]. intros k' i' q' Hk'.
    specialize (Ha k' Hk'). pose proof (Hres k' (Hne k' ltac:(set_solver))) as Hn.
    cbn in Ha, Hn. rewrite Ha in Hn. eauto.
  - intros k i q Hk. specialize (Hh k Hk). pose proof (Hres k (candidates_nonempty r k Hk)) as Hn.
    cbn in Hh, Hn. rewrite Hh in Hn. eauto.
Qed.

(** ** A conversation whose middle message was never received *)

Definition held_msg (mid in_reply_to references : string) (ts : Z) : Msg.t :=
  Msg.mk (Some (lit mid)) None (Some (lit in_reply_to)) (Some (lit references)) None [] None (Some ts)
    ts ts 10 10 ContactId.SELF (MessageState.to_i64 MessageState.InFresh) false [] 0 0 false 10 0.

Definition conversation : Ctx :=
  let c := set_msgs (λ _, list_to_map
             [(11%Z, held_msg "a@x" "<c@x>" "<a@x> <c@x>" 10);
              (12%Z, held_msg "c@x" "<b@x>" "<a@x> <b@x>" 30);
              (13%Z, held_msg "e@x" "<c@x>" "<a@x>" 40);
              (14%Z, held_msg "f@x" "" "<a@x>" 50)]) empty_ctx in
  foldl (λ c m, final (assign_stored m) c) c [12; 14; 13; 11]%Z.

Example conversation_tree :
  tree conversation 1 = Some [Node 11 [Node 12 [Node 13 []]; Node 14 []]].
Proof. vm_compute. reflexivity. Qed.

Lemma reply_hangs_under_nearest_witness :
  parent_of conversation 1 12 = Some 11%Z
  ∧ ∃ before k after, parse_message_ids (lit "<a@x> <b@x>") ++ parse_message_ids (lit "<b@x>")
                      = before ++ k :: after ∧ k = lit "a@x".
Proof.
  split; [vm_compute; reflexivity|].
  pose proof (reply_hangs_under_nearest conversation 1 1
    (TreeRow.mk 12 (lit "c@x") (lit "<b@x>") (lit "<a@x> <b@x>"))) as H.
  assert (parent_of conversation 1 12 = Some 11%Z) as Hp by (vm_compute; reflexivity).
  cbn [TreeRow.msg_id] in H. rewrite Hp in H.
  destruct H as (before & k & after & i & q & Hc & Hi & Hq & Hid & Hm & _); [vm_compute; reflexivity|].
  exists before, k, after. split; [exact Hc|].
  assert (i = 0) as -> by lia.
  assert (tree_rows conversation 1 !! 0
          = Some (TreeRow.mk 11 (lit "a@x") (lit "<c@x>") (lit "<a@x> <c@x>"))) as H0
    by (vm_compute; reflexivity).
  rewrite H0 in Hq. injection Hq as <-. symmetry. exact Hm.
Defined.
