(* ===== verification/Flowed.v ===== *)
(** * Flowed: format=flowed text, [core/format-flowed/src/lib.rs], and the
    newline normalisation that [core/src/simplify.rs] applies before text is
    unflowed. *)

From S2P Require Import Prelude Text.

Definition SP : N := 32.
Definition GT : N := 62.
Definition LF : N := 10.
Definition CR : N := 13.

(** [if buffer.is_empty() { buffer.push(' ') }], then the character *)
Definition push_stuffed (buffer : str) (c : N) : str :=
  (if is_empty buffer then [SP] else buffer) ++ [c].

(** The loop of [format_line_flowed]. *)
Fixpoint flow_loop (prefix line result buffer : str) (after_space : bool) : str :=
  match line with
  | [] => result ++ buffer
  | c :: line =>
      if (c =? SP)%N then flow_loop prefix line result (push_stuffed buffer c) true
      else if (c =? GT)%N then flow_loop prefix line result (push_stuffed buffer c) false
      else if after_space && (72 <=? byte_len buffer)%nat && negb (is_whitespace c) then
        flow_loop prefix line (result ++ buffer ++ [CR; LF]) (prefix ++ [c]) false
      else flow_loop prefix line result (buffer ++ [c]) false
  end.

Definition ends_with (c : N) (s : str) : bool := bool_decide (last s = Some c).

Definition format_line_flowed (line prefix : str) : str :=
  flow_loop prefix line [] prefix (ends_with SP prefix).

(** The quote marks of a line, with the space that follows them, and the rest. *)
Definition split_quote (line : str) : str * str :=
  let line := trim_end line in
  let quote_depth := length (take_while (N.eqb GT) line) in
  let '(prefix, line) := (take quote_depth line, drop quote_depth line) in
  if (0 <? quote_depth)%nat then
    match strip_prefix SP line with
    | Some s => (prefix ++ [SP], s)
    | None => (prefix, line)
    end
  else (prefix, line).

Definition format_step (result line : str) : str :=
  let '(prefix, line) := split_quote line in
  (if is_empty result then result else result ++ [CR; LF]) ++ format_line_flowed line prefix.

Definition format_flowed (text : str) : str := foldl format_step [] (split LF text).

Definition format_flowed_quote (text : str) : str :=
  format_flowed (foldl (λ result line,
    (if is_empty result then result else result ++ [LF]) ++ [GT; SP] ++ line) [] (split LF text)).

Definition unformat_step (delsp : bool) (acc : str * bool) (line : str) : str * bool :=
  let '(result, skip_newline) := acc in
  let line := if negb (is_empty result) && skip_newline
              then trim_start_matches GT line else line in
  let line := default line (strip_prefix SP line) in
  let result := if skip_newline then result else result ++ [LF] in
  match strip_suffix SP line with
  | Some line => (result ++ line ++ (if delsp then [] else [SP]), true)
  | None => (result ++ line, false)
  end.

Definition unformat_flowed (text : str) (delsp : bool) : str :=
  (foldl (unformat_step delsp) ([], true) (split LF text)).1.

(** [input.retain(|c| c != '\r')] of [simplify] *)
Definition retain_no_cr (s : str) : str := filter (λ c, c ≠ CR) s.

(** ** Physical lines *)

(** The lines [format_line_flowed] writes. *)
Fixpoint pieces (prefix line buffer : str) (after_space : bool) : list str :=
  match line with
  | [] => [buffer]
  | c :: line =>
      if (c =? SP)%N then pieces prefix line (push_stuffed buffer c) true
      else if (c =? GT)%N then pieces prefix line (push_stuffed buffer c) false
      else if after_space && (72 <=? byte_len buffer)%nat && negb (is_whitespace c) then
        buffer :: pieces prefix line (prefix ++ [c]) false
      else pieces prefix line (buffer ++ [c]) false
  end.

Lemma pieces_nonempty prefix line buffer after : pieces prefix line buffer after ≠ [].
Proof. revert buffer after. induction line as [|c line IH]; intros; simpl; [done|].
  destruct (c =? SP)%N; [done|]. destruct (c =? GT)%N; [done|]. by destruct (after && _ && _).
Qed.

Lemma join_cons sep (l : str) ls : ls ≠ [] → join sep (l :: ls) = l ++ sep ++ join sep ls.
Proof. by destruct ls. Qed.

Lemma flow_loop_pieces prefix line result buffer after :
  flow_loop prefix line result buffer after
  = result ++ join [CR; LF] (pieces prefix line buffer after).
Proof.
  revert result buffer after. induction line as [|c line IH]; intros; simpl; [done|].
  destruct (c =? SP)%N; [by rewrite IH|]. destruct (c =? GT)%N; [by rewrite IH|].
  destruct (after && _ && _); rewrite IH; [|done].
  rewrite join_cons by apply pieces_nonempty. by rewrite <-!app_assoc.
Qed.

Lemma format_line_pieces line prefix :
  format_line_flowed line prefix
  = join [CR; LF] (pieces prefix line prefix (ends_with SP prefix)).
Proof. unfold format_line_flowed. by rewrite flow_loop_pieces. Qed.

(** ** Reading the lines back *)

(** What the reader takes a physical line for: a continuation loses its quote
    marks, and every line its stuffed space. *)
Definition strip_gt (cont : bool) (l : str) : str := if cont then trim_start_matches GT l else l.
Definition dec (cont : bool) (l : str) : str :=
  default (strip_gt cont l) (strip_prefix SP (strip_gt cont l)).

Lemma drop_while_app_stop {A} (p : A → bool) l k :
  drop_while p l ≠ [] → drop_while p (l ++ k) = drop_while p l ++ k.
Proof. induction l as [|x l IH]; [done|]. simpl. by destruct (p x). Qed.

Lemma strip_gt_app cont l k : strip_gt cont l ≠ [] → strip_gt cont (l ++ k) = strip_gt cont l ++ k.
Proof. destruct cont; [apply drop_while_app_stop|done]. Qed.

Lemma dec_app cont l k : strip_gt cont l ≠ [] → dec cont (l ++ k) = dec cont l ++ k.
Proof.
  intros Hs. unfold dec. rewrite strip_gt_app by done.
  destruct (strip_gt cont l) as [|x s]; [done|]. simpl. by case_decide.
Qed.

Lemma drop_while_app_all {A} (p : A → bool) l k :
  Forall (λ x, p x = true) l → drop_while p (l ++ k) = drop_while p k.
Proof. induction 1 as [|x l Hx _ IH]; simpl; [done|]. by rewrite Hx. Qed.

(** A quote prefix: quote marks, then at most one space. *)
Definition quote_prefix (p : str) : Prop :=
  ∃ gts sp, p = gts ++ sp ∧ Forall (λ x, (GT =? x)%N = true) gts
            ∧ (sp = [] ∨ (sp = [SP] ∧ gts ≠ [])).

Lemma dec_cont_prefix p c :
  quote_prefix p → c ≠ SP → c ≠ GT → dec true (p ++ [c]) = [c] ∧ strip_gt true (p ++ [c]) ≠ [].
Proof.
  intros (gts & sp & -> & Hg & Hsp) Hs Hgt. unfold dec, strip_gt, trim_start_matches.
  rewrite <-app_assoc, drop_while_app_all by done.
  assert ((GT =? c)%N = false) as Hc by (apply N.eqb_neq; congruence).
  destruct Hsp as [->|[-> _]]; cbn [app drop_while].
  - rewrite Hc. cbn [strip_prefix]. by rewrite decide_False.
  - done.
Qed.

Lemma strip_suffix_snoc c (l : str) : strip_suffix c (l ++ [c]) = Some l.
Proof.
  unfold strip_suffix. rewrite reverse_snoc. simpl. rewrite decide_True by done. simpl.
  by rewrite reverse_involutive.
Qed.

Lemma strip_suffix_None c (l : str) : last l ≠ Some c → strip_suffix c l = None.
Proof.
  unfold strip_suffix. destruct l as [|x l _] using rev_ind; [done|].
  rewrite last_snoc, reverse_snoc. simpl. intros Hx. by rewrite decide_False by congruence.
Qed.

Lemma last_dec cont l : dec cont l ≠ [] → last (dec cont l) = last l.
Proof.
  assert (∀ s, ∃ k, s = k ++ default s (strip_prefix SP s)) as Hp.
  { intros [|x s]; [by exists []|]. simpl. case_decide; [by exists [x]|by exists []]. }
  assert (∃ k, l = k ++ dec cont l) as [k Hk].
  { unfold dec. destruct (Hp (strip_gt cont l)) as [k2 H2]. destruct cont; simpl in *; [|eauto].
    destruct (drop_while_suffix (N.eqb GT) l) as (k1 & H1 & _). exists (k1 ++ k2).
    rewrite <-app_assoc, <-H2. exact H1. }
  intros Hne. rewrite Hk at 2. rewrite last_app. by destruct (last (dec cont l)) eqn:E; [|apply last_None in E].
Qed.

(** What one line adds, flowed or fixed. *)
Lemma unformat_step_dec res skip l :
  unformat_step false (res, skip) l =
    let out := (if skip then res else res ++ [LF]) ++ dec (negb (is_empty res) && skip) l in
    (out, ends_with SP (dec (negb (is_empty res) && skip) l)).
Proof.
  unfold unformat_step. set (k := negb (is_empty res) && skip).
  change (if k then trim_start_matches GT l else l) with (strip_gt k l). fold (dec k l).
  unfold ends_with. destruct (dec k l) as [|x s _] using rev_ind.
  { simpl. by rewrite !app_nil_r. }
  rewrite last_snoc. destruct (decide (x = SP)) as [->|Hx].
  - rewrite strip_suffix_snoc. by rewrite bool_decide_true.
  - rewrite strip_suffix_None by (rewrite last_snoc; congruence).
    by rewrite bool_decide_false by congruence.
Qed.

Lemma push_stuffed_dec cont l c :
  strip_gt cont l ≠ [] ∨ (cont = false ∧ l = []) →
  dec cont (push_stuffed l c) = dec cont l ++ [c] ∧ strip_gt cont (push_stuffed l c) ≠ [].
Proof.
  unfold push_stuffed. intros [Hs|[-> ->]]; [|done]. assert (l ≠ []) as Hl by (by intros ->; destruct cont).
  destruct l as [|x l]; [done|]. cbn [is_empty].
  rewrite dec_app, strip_gt_app by done. split; [done|]. by destruct (strip_gt cont (x :: l)).
Qed.

Lemma push_dec cont l c :
  strip_gt cont l ≠ [] ∨ (cont = false ∧ l = []) → c ≠ SP →
  dec cont (l ++ [c]) = dec cont l ++ [c] ∧ strip_gt cont (l ++ [c]) ≠ [].
Proof.
  intros [Hs|[-> ->]] Hc.
  - rewrite dec_app, strip_gt_app by done. split; [done|]. by destruct (strip_gt cont l).
  - unfold dec. simpl. by rewrite decide_False.
Qed.

Lemma byte_len_dec l : (72 ≤ byte_len l)%nat → dec false l ≠ [].
Proof.
  unfold dec. simpl. destruct l as [|x [|y l]]; simpl; try (unfold byte_len; simpl; lia).
  - unfold byte_len, len_utf8. simpl. repeat case_match; lia.
  - by case_decide.
Qed.

(** The reader rebuilds the line from its pieces. *)
Lemma unformat_pieces prefix line buffer after res skip :
  let cont := negb (is_empty res) && skip in
  quote_prefix prefix →
  strip_gt cont buffer ≠ [] ∨ (cont = false ∧ buffer = []) →
  (cont = true → dec cont buffer ≠ []) →
  (after = true → last buffer = Some SP) →
  last (buffer ++ line) ≠ Some SP →
  foldl (unformat_step false) (res, skip) (pieces prefix line buffer after)
  = ((if skip then res else res ++ [LF]) ++ dec cont buffer ++ line, false).
Proof.
  intros cont Hp. revert buffer after res skip cont.
  induction line as [|c line IH]; intros buffer after res skip cont Hs Hd Ha Hl.
  - cbn [pieces foldl]. rewrite unformat_step_dec. fold cont. rewrite app_nil_r in *. cbn zeta.
    f_equal. unfold ends_with. apply bool_decide_false. intros E.
    destruct (dec cont buffer) eqn:F; [done|]. rewrite <-F, last_dec in E by congruence. done.
  - assert (∀ b, last (b ++ [c] ++ line) = last ([c] ++ line)) as Hlast.
    { intros b. rewrite last_app. destruct (last ([c] ++ line)) eqn:E; [done|].
      by apply last_None in E. }
    assert (∀ b, last ((b ++ [c]) ++ line) ≠ Some SP) as Hl'.
    { intros b. rewrite <-app_assoc, Hlast, <-(Hlast buffer). exact Hl. }
    assert (∀ X, X ++ [c] ++ line = X ++ c :: line) as Hc by done.
    assert (∀ X : str, X ++ [c] ≠ []) as Hne by by intros [].
    cbn [pieces]. destruct (N.eqb_spec c SP) as [->|Hsp];
      [|destruct (N.eqb_spec c GT) as [->|Hgt];
        [|destruct (after && _ && _) eqn:Hbrk]].
    + destruct (push_stuffed_dec cont buffer SP Hs) as [Hpd Hps].
      rewrite IH; fold cont; [by rewrite Hpd, <-app_assoc|by left|by rewrite Hpd|..].
      * intros _. unfold push_stuffed. by rewrite last_snoc.
      * apply Hl'.
    + destruct (push_stuffed_dec cont buffer GT Hs) as [Hpd Hps].
      rewrite IH; fold cont; [by rewrite Hpd, <-app_assoc|by left|by rewrite Hpd|done|apply Hl'].
    + apply andb_prop in Hbrk as [[Hafter Hlen]%andb_prop Hws].
      apply Nat.leb_le in Hlen. specialize (Ha Hafter).
      assert (dec cont buffer ≠ []) as Hdne.
      { destruct cont eqn:E; [by apply Hd|by apply byte_len_dec]. }
      cbn [foldl]. rewrite unformat_step_dec. fold cont. cbn zeta.
      assert (ends_with SP (dec cont buffer) = true) as ->
        by (apply bool_decide_true; by rewrite last_dec).
      set (res' := (if skip then res else res ++ [LF]) ++ dec cont buffer).
      assert (negb (is_empty res') && true = true) as Hk.
      { unfold res'. destruct (if skip then res else res ++ [LF]); [|done]. by destruct (dec cont buffer). }
      destruct (dec_cont_prefix prefix c Hp Hsp Hgt) as [Hpd Hps].
      rewrite IH; rewrite ?Hk; [|by left|by rewrite Hpd|done|apply Hl'].
      rewrite Hpd. unfold res'. by rewrite <-app_assoc.
    + destruct (push_dec cont buffer c Hs Hsp) as [Hpd Hps].
      rewrite IH; fold cont; [by rewrite Hpd, <-app_assoc|by left|by rewrite Hpd|done|apply Hl'].
Qed.

(** ** Whole texts *)

Lemma take_while_prefix {A} (p : A → bool) l : ∃ k, l = take_while p l ++ k.
Proof. induction l as [|x l [k IH]]; simpl; [by exists []|]. case_match; [exists k; simpl; congruence|eauto]. Qed.

Lemma take_while_Forall {A} (p : A → bool) l : Forall (λ x, p x = true) (take_while p l).
Proof. induction l as [|x l IH]; simpl; [constructor|]. case_match; by constructor. Qed.

Lemma split_quote_spec line p l :
  split_quote line = (p, l) →
  p ++ l = trim_end line ∧ quote_prefix p ∧ (p = [] ∨ ∃ p', p = GT :: p').
Proof.
  unfold split_quote. set (t := trim_end line). cbn zeta.
  destruct (take_while_prefix (N.eqb GT) t) as [k Hk].
  pose proof (take_while_Forall (N.eqb GT) t) as Hf.
  set (gts := take_while (N.eqb GT) t) in *. clearbody gts. rewrite Hk.
  rewrite take_app_length, drop_app_length.
  destruct gts as [|g gts]; cbn [length Nat.ltb Nat.leb].
  - intros [= <- <-]. split_and!; [done| |by left]. exists [], []. split_and!; [done|constructor|by left].
  - assert (g = GT) as -> by (apply Forall_cons in Hf as [Hg _]; symmetry; by apply N.eqb_eq).
    destruct k as [|x k]; cbn [strip_prefix]; [|case_decide as Hx]; intros [= <- <-].
    + split_and!; [done| |by right; eexists]. exists (GT :: gts), []. by rewrite app_nil_r; auto.
    + subst x. split_and!; [by simpl; rewrite <-app_assoc| |by right; eexists]. exists (GT :: gts), [SP]. auto.
    + split_and!; [done| |by right; eexists]. exists (GT :: gts), []. by rewrite app_nil_r; auto.
Qed.

Definition line_pieces (line : str) : list str :=
  let '(p, l) := split_quote line in pieces p l p (ends_with SP p).

Lemma last_trim_end line : last (trim_end line) ≠ Some SP.
Proof.
  unfold trim_end, drop_while_end. rewrite last_reverse.
  destruct (drop_while is_whitespace (reverse line)) as [|x k] eqn:E; [done|].
  apply drop_while_head in E. simpl. intros [= ->]. done.
Qed.

Lemma unformat_line res skip line :
  negb (is_empty res) && skip = false →
  foldl (unformat_step false) (res, skip) (line_pieces line)
  = ((if skip then res else res ++ [LF]) ++ trim_end line, false).
Proof.
  intros Hk. unfold line_pieces. destruct (split_quote line) as [p l] eqn:E.
  destruct (split_quote_spec _ _ _ E) as (Hpl & Hq & Hp).
  rewrite unformat_pieces; rewrite ?Hk; [| |destruct p; [by right|by left]|..]; try done.
  - f_equal. f_equal. rewrite <-Hpl. f_equal. unfold dec. destruct Hp as [->|[p' ->]]; done.
  - unfold ends_with. apply bool_decide_eq_true_1.
  - rewrite Hpl. apply last_trim_end.
Qed.

Lemma format_step_pieces res line :
  format_step res line
  = (if is_empty res then res else res ++ [CR; LF]) ++ join [CR; LF] (line_pieces line).
Proof.
  unfold format_step, line_pieces. destruct (split_quote line). by rewrite format_line_pieces.
Qed.

Lemma line_pieces_nonempty line : line_pieces line ≠ [].
Proof. unfold line_pieces. destruct (split_quote line). apply pieces_nonempty. Qed.

(** Only a blank line is written as nothing. *)
Lemma line_pieces_blank line :
  join [CR; LF] (line_pieces line) = [] ↔ trim_end line = [].
Proof.
  split.
  - intros Hj. pose proof (unformat_line [] true line eq_refl) as Hu.
    pose proof (line_pieces_nonempty line) as Hne.
    destruct (line_pieces line) as [|p [|q ps]]; [done| |by destruct p].
    simpl in Hj. subst p. cbn in Hu. by injection Hu as <-.
  - intros Ht. unfold line_pieces, split_quote. rewrite Ht. done.
Qed.

Lemma join_app sep (ls ks : list str) :
  ls ≠ [] → ks ≠ [] → join sep (ls ++ ks) = join sep ls ++ sep ++ join sep ks.
Proof.
  intros Hl Hk. induction ls as [|l ls IH]; [done|]. destruct ls as [|l' ls].
  - cbn [app]. by rewrite join_cons.
  - change ((l :: l' :: ls) ++ ks) with (l :: ((l' :: ls) ++ ks)).
    rewrite (join_cons sep l (l' :: ls)), join_cons, IH by done. by rewrite <-!app_assoc.
Qed.

Definition kept_lines (text : str) : list str :=
  drop_while (λ l, is_empty (trim_end l)) (split LF text).

Lemma format_rest res ls :
  res ≠ [] →
  foldl format_step res ls = res ++ (ls ≫= λ l, [CR; LF] ++ join [CR; LF] (line_pieces l)).
Proof.
  revert res. induction ls as [|l ls IH]; intros res Hr; cbn [foldl mbind list_bind].
  - by rewrite app_nil_r.
  - rewrite format_step_pieces. destruct res as [|x res]; [done|]. cbn [is_empty].
    rewrite IH by done. by rewrite <-!app_assoc.
Qed.

Lemma join_pieces_cons l ls :
  join [CR; LF] ((l :: ls) ≫= line_pieces)
  = join [CR; LF] (line_pieces l) ++ (ls ≫= λ l, [CR; LF] ++ join [CR; LF] (line_pieces l)).
Proof.
  revert l. induction ls as [|l' ls IH]; intros l; cbn [mbind list_bind].
  - by rewrite !app_nil_r.
  - rewrite join_app.
    + change (line_pieces l' ++ (ls ≫= line_pieces)) with ((l' :: ls) ≫= line_pieces).
      by rewrite IH, <-!app_assoc.
    + apply line_pieces_nonempty.
    + pose proof (line_pieces_nonempty l'). by destruct (line_pieces l').
Qed.

Lemma format_flowed_pieces text :
  format_flowed text = join [CR; LF] (kept_lines text ≫= line_pieces).
Proof.
  unfold format_flowed, kept_lines. induction (split LF text) as [|l ls IH]; [done|].
  cbn [foldl drop_while]. rewrite format_step_pieces. cbn [is_empty app].
  destruct (trim_end l) eqn:E; cbn [is_empty].
  - apply line_pieces_blank in E. by rewrite E.
  - rewrite format_rest, join_pieces_cons; [done|]. rewrite line_pieces_blank. congruence.
Qed.

(** ** Characters of the pieces *)

Lemma elem_of_push_stuffed buffer c x : x ∈ push_stuffed buffer c → x ∈ buffer ∨ x = c ∨ x = SP.
Proof. unfold push_stuffed. destruct buffer; cbn [is_empty]; set_solver. Qed.

Lemma pieces_chars prefix line buffer after p x :
  p ∈ pieces prefix line buffer after → x ∈ p →
  x ∈ prefix ∨ x ∈ line ∨ x ∈ buffer ∨ x = SP.
Proof.
  revert buffer after. induction line as [|c line IH]; intros buffer after; cbn [pieces]; [set_solver|].
  destruct (c =? SP)%N; [|destruct (c =? GT)%N; [|destruct (after && _ && _)]]; intros Hp Hx.
  - destruct (IH _ _ Hp Hx) as [?|[?|[[?|[?|?]]%elem_of_push_stuffed|?]]]; set_solver.
  - destruct (IH _ _ Hp Hx) as [?|[?|[[?|[?|?]]%elem_of_push_stuffed|?]]]; set_solver.
  - apply elem_of_cons in Hp as [->|Hp]; [set_solver|]. destruct (IH _ _ Hp Hx) as [?|[?|[?|?]]]; set_solver.
  - destruct (IH _ _ Hp Hx) as [?|[?|[?|?]]]; set_solver.
Qed.

Lemma elem_of_trim_end x s : x ∈ trim_end s → x ∈ s.
Proof.
  unfold trim_end, drop_while_end. rewrite elem_of_reverse.
  destruct (drop_while_suffix is_whitespace (reverse s)) as (k & Hk & _). intros Hx.
  rewrite <-elem_of_reverse, Hk. set_solver.
Qed.

Lemma line_pieces_chars line p x : p ∈ line_pieces line → x ∈ p → x ∈ line ∨ x = SP.
Proof.
  unfold line_pieces. destruct (split_quote line) as [q l] eqn:E.
  destruct (split_quote_spec _ _ _ E) as (Hpl & _ & _). intros Hp Hx.
  assert (∀ y, y ∈ q ++ l → y ∈ line) as Hin by (intros y; rewrite Hpl; apply elem_of_trim_end).
  destruct (pieces_chars _ _ _ _ _ _ Hp Hx) as [?|[?|[?|?]]];
    [left; apply Hin; set_solver..|by right].
Qed.

Lemma elem_of_split c s l x : l ∈ split c s → x ∈ l → x ∈ s ∧ x ≠ c.
Proof.
  unfold split. revert l. induction s as [|y s IH]; intros l; cbn [split_by].
  { intros ->%list_elem_of_singleton Hx. by apply not_elem_of_nil in Hx. }
  destruct (N.eqb_spec c y) as [->|Hy].
  - intros [->|Hl]%elem_of_cons Hx; [by apply not_elem_of_nil in Hx|].
    destruct (IH l Hl Hx). split; [by right|done].
  - destruct (split_by (N.eqb c) s) as [|k ks]; intros [->|Hl]%elem_of_cons Hx.
    + apply list_elem_of_singleton in Hx as ->. split; [by left|congruence].
    + by apply not_elem_of_nil in Hl.
    + apply elem_of_cons in Hx as [->|Hx]; [split; [by left|congruence]|].
      destruct (IH k (list_elem_of_here _ _) Hx). split; [by right|done].
    + destruct (IH l (list_elem_of_further _ _ _ Hl) Hx). split; [by right|done].
Qed.

Lemma elem_of_drop_while {A} (p : A → bool) l x : x ∈ drop_while p l → x ∈ l.
Proof. destruct (drop_while_suffix p l) as (k & Hk & _). intros Hx. rewrite Hk. set_solver. Qed.

Lemma split_join c ls : ls ≠ [] → (∀ l, l ∈ ls → c ∉ l) → split c (join [c] ls) = ls.
Proof.
  induction ls as [|l ls IH]; [done|]. intros _ Hl. destruct ls as [|l' ls].
  - simpl. apply split_none. set_solver.
  - rewrite join_cons by done. specialize (IH ltac:(done) ltac:(set_solver)).
    assert (c ∉ l) as Hc by set_solver. clear Hl.
    assert (split c ([c] ++ join [c] (l' :: ls)) = [] :: l' :: ls) as HR.
    { unfold split in *. cbn [app split_by]. by rewrite N.eqb_refl, IH. }
    unfold split in *. revert HR. generalize ([c] ++ join [c] (l' :: ls)). intros R HR.
    induction l as [|x l IHl]; [done|].
    cbn [app split_by]. rewrite (proj2 (N.eqb_neq c x)) by set_solver. by rewrite IHl by set_solver.
Qed.

Lemma retain_join ls : (∀ l, l ∈ ls → CR ∉ l) → retain_no_cr (join [CR; LF] ls) = join [LF] ls.
Proof.
  assert (∀ l : str, CR ∉ l → retain_no_cr l = l) as Hid.
  { intros l Hl. unfold retain_no_cr. induction l as [|x l IH]; [done|].
    rewrite filter_cons_True by set_solver. by rewrite IH by set_solver. }
  induction ls as [|l ls IH]; [done|]. intros Hl. destruct ls as [|l' ls]; [apply Hid; set_solver|].
  rewrite !join_cons by done. unfold retain_no_cr in *. rewrite !filter_app.
  rewrite Hid, IH by set_solver. done.
Qed.

Lemma unformat_lines res ls :
  foldl (unformat_step false) (res, false) (ls ≫= line_pieces)
  = (res ++ (ls ≫= λ l, [LF] ++ trim_end l), false).
Proof.
  revert res. induction ls as [|l ls IH]; intros res; cbn [mbind list_bind].
  - by rewrite app_nil_r.
  - rewrite foldl_app, unformat_line by by rewrite andb_false_r. cbn [fst]. rewrite IH.
    by rewrite <-!app_assoc.
Qed.

Lemma join_bind_cons l ls :
  join [LF] (trim_end <$> l :: ls) = trim_end l ++ (ls ≫= λ l, [LF] ++ trim_end l).
Proof.
  revert l. induction ls as [|l' ls IH]; intros l; [by rewrite app_nil_r|].
  rewrite fmap_cons, join_cons by done. rewrite IH. cbn [mbind list_bind]. by rewrite <-!app_assoc.
Qed.

Lemma kept_trimmed text :
  trim_end <$> kept_lines text = drop_while is_empty (trim_end <$> split LF text).
Proof.
  unfold kept_lines. induction (split LF text) as [|l ls IH]; [done|].
  cbn [fmap list_fmap drop_while]. by destruct (is_empty (trim_end l)).
Qed.

Lemma unformat_format text :
  CR ∉ text →
  unformat_flowed (retain_no_cr (format_flowed text)) false
  = join [LF] (trim_end <$> kept_lines text).
Proof.
  intros Hcr. rewrite format_flowed_pieces.
  assert (∀ p x, p ∈ kept_lines text ≫= line_pieces → x ∈ p → x ≠ CR ∧ x ≠ LF) as Hch.
  { intros p x (l & Hp & Hl)%list_elem_of_bind Hx. apply elem_of_drop_while in Hl.
    destruct (line_pieces_chars l p x Hp Hx) as [Hxl| ->]; [|done].
    destruct (elem_of_split LF text l x Hl Hxl). set_solver. }
  rewrite retain_join by (intros p Hp Hx; by destruct (Hch p CR Hp Hx)).
  unfold unformat_flowed. unfold kept_lines in *.
  destruct (drop_while _ (split LF text)) as [|l ls] eqn:E; [done|].
  rewrite split_join.
  - change ((l :: ls) ≫= line_pieces) with (line_pieces l ++ (ls ≫= line_pieces)).
    rewrite foldl_app, unformat_line by done. cbn [app]. rewrite unformat_lines. by rewrite join_bind_cons.
  - pose proof (line_pieces_nonempty l). cbn [mbind list_bind]. by destruct (line_pieces l).
  - intros p Hp Hx. by destruct (Hch p LF Hp Hx).
Qed.

(** What is sent flowed reads back as it was written: the receiver's
    unflowing of the formatted text is the text itself with blanks at line ends
    and blank lines at its start removed, for every text, whatever its quote
    marks, indentation and long lines. *)
Theorem flowed_roundtrip (text : str) :
  CR ∉ text →
  unformat_flowed (retain_no_cr (format_flowed text)) false
  = join [LF] (drop_while is_empty (trim_end <$> split LF text)).
Proof. intros Hcr. rewrite <-kept_trimmed. by apply unformat_format. Qed.

(** ** Where lines are broken *)

(** No place inside the line where it could have been broken: after a space,
    at 72 bytes or more, before a character that may start a line. *)
Definition unbroken (prefix p : str) : Prop :=
  ∀ a c b, p = prefix ++ a ++ c :: b → last a = Some SP → (72 ≤ byte_len (prefix ++ a))%nat →
    is_whitespace c = true ∨ c = GT.

Lemma unbroken_snoc prefix p c :
  unbroken prefix p →
  is_whitespace c = true ∨ c = GT ∨ (last p = Some SP → (byte_len p < 72)%nat) →
  unbroken prefix (p ++ [c]).
Proof.
  intros Hp Hc a d b E Ha Hlen. destruct b as [|e b _] using rev_ind.
  - rewrite app_assoc in E. apply app_inj_tail in E as [-> ->].
    destruct Hc as [?|[?|Hc]]; [by left|by right|]. exfalso.
    assert (last (prefix ++ a) = Some SP) as Hl by by rewrite last_app, Ha.
    specialize (Hc Hl). lia.
  - assert (prefix ++ a ++ d :: b ++ [e] = (prefix ++ a ++ d :: b) ++ [e]) as E'
      by by rewrite <-!app_assoc.
    rewrite E' in E. apply app_inj_tail in E as [E _]. by eapply Hp.
Qed.

Lemma unbroken_short prefix p : (length p ≤ length prefix + 1)%nat → unbroken prefix p.
Proof.
  intros Hlen a c b -> Ha. destruct a; [done|]. rewrite !length_app in Hlen. simpl in Hlen. lia.
Qed.

Lemma ends_with_snoc c p x : ends_with c (p ++ [x]) = (x =? c)%N.
Proof.
  unfold ends_with. rewrite last_snoc. destruct (N.eqb_spec x c) as [->|]; [by apply bool_decide_true|].
  apply bool_decide_false. congruence.
Qed.

Lemma pieces_broken prefix line buffer :
  unbroken prefix buffer →
  let ps := pieces prefix line buffer (ends_with SP buffer) in
  (∀ p, p ∈ ps → unbroken prefix p)
  ∧ ∀ i p, ps !! i = Some p → (S i < length ps)%nat → (72 ≤ byte_len p)%nat ∧ last p = Some SP.
Proof.
  revert buffer. induction line as [|c line IH]; intros buffer Hb; cbn [pieces].
  { split; [set_solver|]. intros i p Hi. simpl. lia. }
  assert (∀ d, d = SP ∨ d = GT → unbroken prefix (push_stuffed buffer d)) as Hstuff.
  { intros d Hd. unfold push_stuffed. apply unbroken_snoc; [|destruct Hd as [->| ->]; auto].
    destruct buffer as [|x buffer]; [|done]. cbn [is_empty]. apply unbroken_short. simpl. lia. }
  assert (∀ d, ends_with SP (push_stuffed buffer d) = (d =? SP)%N) as Hend
    by (intros d; apply ends_with_snoc).
  destruct (N.eqb_spec c SP) as [->|Hsp]; [|destruct (N.eqb_spec c GT) as [->|Hgt]].
  - pose proof (IH (push_stuffed buffer SP) (Hstuff SP (or_introl eq_refl))) as H.
    by rewrite Hend in H.
  - pose proof (IH (push_stuffed buffer GT) (Hstuff GT (or_intror eq_refl))) as H.
    by rewrite Hend in H.
  - assert (∀ q, ends_with SP (q ++ [c]) = false) as Hc
      by (intros q; rewrite ends_with_snoc; by apply N.eqb_neq).
    destruct (ends_with SP buffer && _ && _) eqn:Hbrk.
    + apply andb_prop in Hbrk as [[Ha Hlen]%andb_prop _]. apply Nat.leb_le in Hlen.
      apply bool_decide_eq_true in Ha.
      destruct (IH (prefix ++ [c])) as [H1 H2]; [apply unbroken_short; rewrite length_app; simpl; lia|].
      rewrite Hc in H1, H2. split.
      * intros p [->|Hp]%elem_of_cons; [done|by apply H1].
      * intros [|i] p Hi Hl; cbn in Hi; [by simplify_eq|]. apply (H2 i p Hi). simpl in Hl. lia.
    + destruct (IH (buffer ++ [c])) as [H1 H2]; [|rewrite Hc in H1, H2; done].
      apply unbroken_snoc; [done|].
      apply andb_false_iff in Hbrk as [Hbrk|Hw]; [|left; by apply negb_false_iff].
      right. right. intros Hl. unfold ends_with in Hbrk. rewrite bool_decide_true in Hbrk by done.
      by apply Nat.leb_gt.
Qed.

(** A line is broken at the first opportunity from its 72nd byte on and
    nowhere else: every broken line ends in a space and has at least 72 bytes,
    and no line goes on past a space beyond its 72nd byte unless a blank or a
    quote mark follows. *)
Theorem flowed_breaks_exactly (line prefix : str) :
  ∃ ps, format_line_flowed line prefix = join [CR; LF] ps
  ∧ (∀ p, p ∈ ps → unbroken prefix p)
  ∧ ∀ i p, ps !! i = Some p → (S i < length ps)%nat → (72 ≤ byte_len p)%nat ∧ last p = Some SP.
Proof.
  eexists. split; [apply format_line_pieces|]. apply pieces_broken, unbroken_short. lia.
Qed.

Lemma flowed_roundtrip_witness :
  unformat_flowed (retain_no_cr (format_flowed
    (lit ">> a quoted line that is long enough to be wrapped somewhere after its 72nd byte"))) false
  = lit ">> a quoted line that is long enough to be wrapped somewhere after its 72nd byte".
Proof.
  rewrite flowed_roundtrip; [vm_compute; reflexivity|].
  apply (bool_decide_unpack _). vm_compute. exact I.
Defined.

Example leading_blank_lines_lost :
  unformat_flowed (retain_no_cr (format_flowed [LF; LF; 65%N; LF; LF; 66%N])) false
  = [65%N; LF; LF; 66%N].
Proof. vm_compute. reflexivity. Qed.

Example long_without_long_words :
  length <$> split LF (retain_no_cr (format_flowed
    (lit "the words of this line are all short, and it is nevertheless wrapped noticeably beyond the limit")))
  = [80%nat; 16%nat].
Proof. vm_compute. reflexivity. Qed.
