(* ===== verification/Simplify.v ===== *)
(** * Simplify: what a reader is shown of a received plain text,
    [core/src/simplify.rs], against what the sender's [core/src/mimefactory.rs]
    wrote. *)

From S2P Require Import Prelude Text Substr Flowed.

(** The zero-width space that keeps dashes from being a footer mark. *)
Definition ZWSP : N := 8203.
Definition DASH : N := 45.

Definition FOOTER : str := lit "-- ".
Definition ESCAPED_FOOTER : str := [DASH; ZWSP; DASH; SP].
Definition ESCAPED_DASHES : str := [DASH; ZWSP; DASH].
Definition DASHES : str := lit "--".

Definition escape_message_footer_marks (text : str) : str :=
  match strip_prefix_str FOOTER text with
  | Some text => ESCAPED_FOOTER ++ replace_str (LF :: FOOTER) (LF :: ESCAPED_FOOTER) text
  | None => replace_str (LF :: FOOTER) (LF :: ESCAPED_FOOTER) text
  end.

Definition unescape_message_footer_marks (text : str) : str :=
  match strip_prefix_str ESCAPED_DASHES text with
  | Some text => DASHES ++ replace_str (LF :: ESCAPED_DASHES) (LF :: DASHES) text
  | None => replace_str (LF :: ESCAPED_DASHES) (LF :: DASHES) text
  end.

Definition split_lines (buf : str) : list str := split LF buf.

(** [Option<&&str>::is_none_or_empty] *)
Definition is_none_or_empty (o : option str) : bool :=
  match o with Some s => is_empty s | None => true end.

Definition is_footer_mark (line : str) : bool :=
  bool_decide (line = lit "-- ") || bool_decide (line = lit "--  ").

(** [--] alone, after a blank line and before one that is not. *)
Definition is_nearly_footer (lines : list str) (ix : nat) (line : str) : bool :=
  bool_decide (line = lit "--")
  && ((ix =? 0)%nat || is_none_or_empty (lines !! pred ix))
  && negb (is_none_or_empty (lines !! S ix)).

(** The loop of [remove_message_footer]: the index of the line to cut at. *)
Fixpoint find_footer (lines : list str) (ix : nat) (rest : list str)
    (nearly_standard_footer : option nat) : option nat :=
  match rest with
  | [] => nearly_standard_footer
  | line :: rest =>
      if is_footer_mark line then Some ix
      else find_footer lines (S ix) rest
             (if is_nearly_footer lines ix line then Some ix else nearly_standard_footer)
  end.

Definition remove_message_footer (lines : list str) : list str * option (list str) :=
  match find_footer lines 0 lines None with
  | Some ix => (take ix lines, Some (drop (S ix) lines))
  | None => (lines, None)
  end.

Definition is_nonstandard_footer (line : str) : bool :=
  bool_decide (line = lit "--") || starts_with (lit "---") line || starts_with (lit "_____") line
  || starts_with (lit "=====") line || starts_with (lit "*****") line || starts_with (lit "~~~~~") line.

(** The lines before the first such line, and whether there is one. *)
Fixpoint remove_nonstandard_footer (lines : list str) : list str * bool :=
  match lines with
  | [] => ([], false)
  | line :: rest =>
      if is_nonstandard_footer line then ([], true)
      else let '(kept, removed) := remove_nonstandard_footer rest in (line :: kept, removed)
  end.

Definition remove_footers (msg : str) : str :=
  join [LF] (remove_nonstandard_footer (remove_message_footer (split_lines msg)).1).1.

Definition is_empty_line (buf : str) : bool := forallb is_whitespace buf.
Definition is_quoted_headline (buf : str) : bool := (byte_len buf <=? 120)%nat && ends_with 58 buf.
Definition is_plain_quote (buf : str) : bool := starts_with [GT] buf.

(** [s.strip_prefix('>').map_or(s, |u| u.strip_prefix(' ').unwrap_or(u))] *)
Definition unquote (s : str) : str :=
  match strip_prefix GT s with
  | Some u => default u (strip_prefix SP u)
  | None => s
  end.

Definition skip_forward_header (lines : list str) : list str * bool :=
  match lines with
  | l0 :: first_line :: l2 :: rest =>
      if bool_decide (l0 = lit "---------- Forwarded message ----------") && is_empty l2
         && starts_with (lit "From: ") first_line
      then (rest, true) else (lines, false)
  | _ => (lines, false)
  end.

(** The loop of [remove_bottom_quote], from the last line: first line after the
    quote and first line of it. *)
Fixpoint bottom_loop (rest : list (nat * str)) (first_quoted_line : nat) (last_quoted_line : option nat)
    : nat * option nat :=
  match rest with
  | [] => (first_quoted_line, last_quoted_line)
  | (l, line) :: rest =>
      if is_plain_quote line then
        bottom_loop rest (match last_quoted_line with None => S l | Some _ => first_quoted_line end) (Some l)
      else if negb (is_empty_line line) then (first_quoted_line, last_quoted_line)
      else bottom_loop rest first_quoted_line last_quoted_line
  end.

Definition line_is (p : str → bool) (o : option str) : bool :=
  match o with Some line => p line | None => false end.

Definition remove_bottom_quote (lines : list str) : list str * option str :=
  let '(first_quoted_line, last_quoted_line) :=
    bottom_loop (reverse (imap pair lines)) (length lines) None in
  match last_quoted_line with
  | Some l_last =>
      let quoted_text := join [LF] (unquote <$> drop l_last (take first_quoted_line lines)) in
      let l_last := if (1 <? l_last)%nat && line_is is_empty_line (lines !! pred l_last)
                    then pred l_last else l_last in
      let l_last := if (1 <? l_last)%nat && line_is is_quoted_headline (lines !! pred l_last)
                    then pred l_last else l_last in
      (take l_last lines, Some quoted_text)
  | None => (lines, None)
  end.

Fixpoint top_loop (is_chat_message : bool) (l : nat) (rest : list str)
    (first_quoted_line : nat) (last_quoted_line : option nat) (has_quoted_headline : bool)
    : nat * option nat :=
  match rest with
  | [] => (first_quoted_line, last_quoted_line)
  | line :: rest =>
      if is_plain_quote line then
        top_loop is_chat_message (S l) rest
          (match last_quoted_line with None => l | Some _ => first_quoted_line end) (Some l)
          has_quoted_headline
      else if negb is_chat_message && is_quoted_headline line && negb has_quoted_headline
              && bool_decide (last_quoted_line = None) then
        top_loop is_chat_message (S l) rest first_quoted_line last_quoted_line true
      else (first_quoted_line, last_quoted_line)
  end.

Definition remove_top_quote (lines : list str) (is_chat_message : bool) : list str * option str :=
  let '(first_quoted_line, last_quoted_line) := top_loop is_chat_message 0 lines 0 None false in
  match last_quoted_line with
  | Some last => (drop (S last) lines,
                  Some (join [LF] (unquote <$> drop first_quoted_line (take (S last) lines))))
  | None => (lines, None)
  end.

(** One line of [render_message]: the text so far and the pending line breaks. *)
Definition render_step (acc : str * nat) (line : str) : str * nat :=
  let '(ret, pending_linebreaks) := acc in
  if is_empty_line line then (ret, S pending_linebreaks)
  else ((if is_empty ret then ret else ret ++ replicate (min 2 pending_linebreaks) LF) ++ line, 1).

(** The text without its superfluous blank lines. *)
Definition squeeze (lines : list str) : str := (foldl render_step ([], 0) lines).1.

Definition render_message (lines : list str) (is_cut_at_end : bool) : str :=
  let ret := squeeze lines in
  unescape_message_footer_marks
    (if is_cut_at_end && negb (is_empty ret) then ret ++ lit " [...]" else ret).

Definition simplify_quote (quote : str) : str * bool :=
  let '(quote_lines, quote_footer_lines) := remove_message_footer (split_lines quote) in
  (render_message quote_lines false,
   match quote_footer_lines with Some _ => true | None => false end).

Module SimplifiedText.
Record t := mk {
  text : str;
  is_forwarded : bool;
  is_cut : bool;
  top_quote : option str;
  footer : option str;
}.
End SimplifiedText.

(** The text of a message that another client wrote: footers and the quote
    below it are cut off, unless nothing would be left. *)
Definition simplify_foreign (original_lines lines : list str) (top_quote : option str)
    : str * bool * option str :=
  let '(lines, has_nonstandard_footer) := remove_nonstandard_footer lines in
  let '(lines, bottom_quote) := remove_bottom_quote lines in
  let '(top_quote, bottom_quote) :=
    match top_quote, bottom_quote with
    | None, Some _ => (bottom_quote, top_quote)
    | _, _ => (top_quote, bottom_quote)
    end in
  let cut := has_nonstandard_footer || match bottom_quote with Some _ => true | None => false end in
  if forallb (λ it, is_empty (trim it)) lines
  then (render_message original_lines false, false, top_quote)
  else (render_message lines cut, cut, top_quote).

Definition simplify (input : str) (is_chat_message : bool) : SimplifiedText.t :=
  let lines := split_lines (retain_no_cr input) in
  let '(lines, is_forwarded) := skip_forward_header lines in
  let '(lines, top_quote) := remove_top_quote lines is_chat_message in
  let original_lines := lines in
  let '(lines, footer_lines) := remove_message_footer lines in
  let footer := (λ footer_lines, render_message footer_lines false) <$> footer_lines in
  if is_chat_message then
    SimplifiedText.mk (render_message lines false) is_forwarded false top_quote footer
  else
    let '(text, is_cut, top_quote) := simplify_foreign original_lines lines top_quote in
    match top_quote with
    | Some quote =>
        let '(quote, quote_cut) := simplify_quote quote in
        SimplifiedText.mk text is_forwarded (is_cut || quote_cut) (Some quote) footer
    | None => SimplifiedText.mk text is_forwarded is_cut None footer
    end.

(** ** Escaping, line by line *)

Definition esc_line : str → str := sub_prefix FOOTER ESCAPED_FOOTER.
Definition unesc_line : str → str := sub_prefix ESCAPED_DASHES DASHES.

Lemma sub_prefix_miss p q c s h t :
  strip_prefix_str p s = None → split c s = h :: t → sub_prefix p q h = h.
Proof.
  intros E Es. unfold sub_prefix. destruct (strip_prefix_str p h) as [r|] eqn:Eh; [|done].
  apply strip_prefix_str_Some in Eh. apply split_head in Es as [r' ->]. subst h.
  by rewrite <-app_assoc, strip_prefix_str_app in E.
Qed.

Lemma split_sub_all c p q s :
  c ∉ p → c ∉ q →
  split c (match strip_prefix_str p s with
           | Some s => q ++ replace_str (c :: p) (c :: q) s
           | None => replace_str (c :: p) (c :: q) s
           end) = sub_prefix p q <$> split c s.
Proof.
  intros Hp Hq. destruct (strip_prefix_str p s) as [r|] eqn:E.
  - apply strip_prefix_str_Some in E as ->.
    destruct (split c r) as [|h t] eqn:Er; [by destruct (split_nonempty c r)|].
    rewrite split_prefix, (split_prefix c p r), Er by done.
    rewrite (split_replace c p q r h t) by done.
    rewrite fmap_cons. unfold sub_prefix at 2. by rewrite strip_prefix_str_app.
  - destruct (split c s) as [|h t] eqn:Es; [by destruct (split_nonempty c s)|].
    rewrite (split_replace c p q s h t) by done. rewrite fmap_cons.
    by rewrite (sub_prefix_miss p q c s h t).
Qed.

Lemma escape_lines t :
  split_lines (escape_message_footer_marks t) = esc_line <$> split_lines t.
Proof. apply split_sub_all; vm_compute; set_solver. Qed.

Lemma unescape_lines t :
  split_lines (unescape_message_footer_marks t) = unesc_line <$> split_lines t.
Proof. apply split_sub_all; vm_compute; set_solver. Qed.

(** A line the sender's text must not have: it starts like an escaped mark. *)
Definition is_marked (l : str) : bool := starts_with ESCAPED_DASHES l.

Lemma unesc_esc_line l : is_marked l = false → unesc_line (esc_line l) = l.
Proof.
  unfold is_marked, esc_line, unesc_line, sub_prefix. intros Hm.
  destruct (strip_prefix_str FOOTER l) as [r|] eqn:E.
  - apply strip_prefix_str_Some in E as ->. done.
  - unfold starts_with in Hm. by destruct (strip_prefix_str ESCAPED_DASHES l).
Qed.

Lemma esc_line_no_mark l : is_footer_mark (esc_line l) = false.
Proof.
  unfold esc_line, sub_prefix. destruct (strip_prefix_str FOOTER l) as [r|] eqn:E; [done|].
  unfold is_footer_mark. apply orb_false_intro; apply bool_decide_false; intros ->; done.
Qed.

Lemma esc_line_blank l : is_empty_line (esc_line l) = is_empty_line l.
Proof.
  unfold esc_line, sub_prefix. destruct (strip_prefix_str FOOTER l) as [r|] eqn:E; [|done].
  by apply strip_prefix_str_Some in E as ->.
Qed.

Lemma lines_inj s t : split_lines s = split_lines t → s = t.
Proof. intros E. rewrite <-(join_split LF s), <-(join_split LF t). by f_equal. Qed.

(** Un-escaping undoes escaping on text without escaped marks of its own. *)
Lemma unescape_escape t :
  Forall (λ l, is_marked l = false) (split_lines t) →
  unescape_message_footer_marks (escape_message_footer_marks t) = t.
Proof.
  intros Hm. apply lines_inj. rewrite unescape_lines, escape_lines, <-list_fmap_compose.
  rewrite <-(list_fmap_id (split_lines t)) at 2. apply Forall_fmap_ext_1.
  eapply Forall_impl; [exact Hm|]. intros l. apply unesc_esc_line.
Qed.

(** ** Rendering, line by line *)

(** [squeeze] on lists of lines. *)
Definition tidy_step (acc : list str * nat) (line : str) : list str * nat :=
  let '(ret, pending) := acc in
  if is_empty_line line then (ret, S pending)
  else ((match ret with [] => [] | _ => ret ++ (if (2 <=? pending)%nat then [[]] else []) end) ++ [line], 1).

Definition tidy_lines (lines : list str) : list str := (foldl tidy_step ([], 0) lines).1.

Lemma join_snoc sep (ls : list str) l : ls ≠ [] → join sep (ls ++ [l]) = join sep ls ++ sep ++ l.
Proof.
  induction ls as [|x ls IH]; [done|]. intros _. destruct ls as [|y ls]; [done|].
  change ((x :: y :: ls) ++ [l]) with (x :: ((y :: ls) ++ [l])).
  rewrite !join_cons by by destruct ls. rewrite IH by done. by rewrite <-!app_assoc.
Qed.

Lemma nonblank_nonempty l : is_empty_line l = false → l ≠ [].
Proof. by intros H ->. Qed.

(** The two agree: the text is the lines, joined. *)
Lemma squeeze_tidy lines : squeeze lines = join [LF] (tidy_lines lines).
Proof.
  unfold squeeze, tidy_lines.
  assert (∀ ret rl n, ret = join [LF] rl → (rl ≠ [] → 1 ≤ n) → (ret = [] → rl = []) →
    (foldl render_step (ret, n) lines).1 = join [LF] (foldl tidy_step (rl, n) lines).1) as H.
  { induction lines as [|l lines IH]; intros ret rl n Hr Hn He; [done|]. cbn [foldl render_step tidy_step].
    destruct (is_empty_line l) eqn:Hl; [apply IH; auto|].
    pose proof (nonblank_nonempty l Hl) as Hne. destruct rl as [|r0 rl].
    - simpl in Hr. subst ret. cbn [is_empty app]. apply IH; [done|lia|done].
    - assert (ret ≠ []) as Hrne by (intros ->; by discriminate (He eq_refl)).
      specialize (Hn ltac:(done)). destruct (is_empty ret) eqn:Hee; [by destruct ret|].
      apply IH; [|lia|].
      + rewrite join_snoc, Hr by by destruct (2 <=? n)%nat.
        destruct (Nat.leb_spec 2 n).
        * rewrite join_snoc by done. assert (min 2 n = 2) as -> by lia. by rewrite <-!app_assoc.
        * assert (min 2 n = 1) as -> by lia. by rewrite app_nil_r, <-app_assoc.
      + intros E. apply app_eq_nil in E as [_ ->]. done. }
  apply H; [done|done|done].
Qed.

Lemma tidy_fmap (f : str → str) lines :
  (∀ l, is_empty_line (f l) = is_empty_line l) → f [] = [] →
  tidy_lines (f <$> lines) = f <$> tidy_lines lines.
Proof.
  intros Hf Hnil. unfold tidy_lines.
  assert (∀ rl n, foldl tidy_step (f <$> rl, n) (f <$> lines)
    = prod_map (fmap f) id (foldl tidy_step (rl, n) lines)) as H.
  { induction lines as [|l lines IH]; intros rl n; [done|]. rewrite fmap_cons. cbn [foldl tidy_step].
    rewrite Hf. destruct (is_empty_line l); [apply IH|].
    rewrite <-IH. do 2 f_equal. destruct rl as [|r rl]; [done|]. rewrite !fmap_app, fmap_cons.
    destruct (2 <=? n)%nat; cbn [fmap list_fmap]; by rewrite ?Hnil. }
  pose proof (H [] 0) as H0. cbn [fmap list_fmap] in H0. by rewrite H0.
Qed.

Lemma tidy_from lines rl n x : x ∈ (foldl tidy_step (rl, n) lines).1 → x ∈ rl ∨ x = [] ∨ x ∈ lines.
Proof.
  revert rl n. induction lines as [|l lines IH]; intros rl n; [by left|]. cbn [foldl tidy_step].
  destruct (is_empty_line l); intros Hx; apply IH in Hx as [Hx|[Hx|Hx]]; [set_solver..| |set_solver|set_solver].
  destruct rl as [|r rl]; [set_solver|]. destruct (2 <=? n)%nat; set_solver.
Qed.

Lemma elem_of_tidy lines x : x ∈ tidy_lines lines → x = [] ∨ x ∈ lines.
Proof. intros [Hx|Hx]%tidy_from; [by apply not_elem_of_nil in Hx|done]. Qed.

(** Blank lines at either end do not count. *)
Lemma squeeze_snoc_blank lines l : is_empty_line l = true → squeeze (lines ++ [l]) = squeeze lines.
Proof.
  intros Hl. unfold squeeze. rewrite foldl_app. cbn [foldl]. unfold render_step at 1.
  destruct (foldl render_step ([], 0) lines). by rewrite Hl.
Qed.

Lemma squeeze_cons_blank lines l : is_empty_line l = true → squeeze (l :: lines) = squeeze lines.
Proof.
  intros Hl. unfold squeeze. cbn [foldl render_step]. rewrite Hl.
  assert (∀ n m, (foldl render_step ([], n) lines).1 = (foldl render_step ([], m) lines).1) as H; [|apply H].
  induction lines as [|x lines IH]; intros n m; [done|]. cbn [foldl render_step].
  destruct (is_empty_line x); [apply IH|done].
Qed.

Lemma render_escaped lines :
  Forall (λ l, LF ∉ l ∧ is_marked l = false) lines →
  render_message (esc_line <$> lines) false = squeeze lines.
Proof.
  intros Hl. unfold render_message. rewrite andb_false_l.
  rewrite !squeeze_tidy, tidy_fmap by (apply esc_line_blank || done).
  assert (Forall (λ l, LF ∉ l ∧ is_marked l = false) (tidy_lines lines)) as Ht.
  { apply Forall_forall. intros x [->|Hx]%elem_of_tidy; [by split; [set_solver|]|].
    by eapply Forall_forall in Hl. }
  destruct (tidy_lines lines) as [|x xs] eqn:E; [done|]. rewrite <-E in *.
  assert (tidy_lines lines ≠ []) as Hne by by rewrite E.
  assert (∀ ls, ls ≠ [] → Forall (λ l, LF ∉ l) ls → split_lines (join [LF] ls) = ls) as Hs.
  { intros ls Hls Hlf. apply split_join; [done|]. by apply Forall_forall. }
  apply lines_inj. rewrite unescape_lines, !Hs.
  - rewrite <-list_fmap_compose. rewrite <-(list_fmap_id (tidy_lines lines)) at 2.
    apply Forall_fmap_ext_1. eapply Forall_impl; [exact Ht|]. intros l [_ Hm]. by apply unesc_esc_line.
  - done.
  - eapply Forall_impl; [exact Ht|]. by intros l [].
  - intros Hf. by apply fmap_nil_inv in Hf.
  - apply Forall_fmap. eapply Forall_impl; [exact Ht|]. intros l [Hlf _]. simpl.
    unfold esc_line, sub_prefix. destruct (strip_prefix_str FOOTER l) as [r|] eqn:Er; [|done].
    apply strip_prefix_str_Some in Er as ->. apply not_elem_of_app in Hlf as [_ Hr].
    apply not_elem_of_app. split; [vm_compute; set_solver|done].
Qed.
