(* ===== verification/Params.v ===== *)
(** * Params: the key-value lists stored with messages and chats,
    [core/src/param.rs]. *)

From S2P Require Import Prelude Text Substr Store.

(** [Param], a byte per key. *)
Module Key.
Inductive t :=
  | File | Filename | OverrideSenderDisplayname | Width | Height | Duration | MimeType |
  SendHtml | GuaranteeE2ee | ProtectQuote | ErroneousE2ee | ForcePlaintext |
  DeprecatedSkipAutocrypt | WantsMdn | Reaction | BroadcastReactions |
  LastReactionTimestamp | LastReactionMsgId | LastReactionContactId | Bot | Forwarded |
  Quote | Summary1 | Cmd | Arg | Arg2 | Arg3 | Arg4 | AttachChatAvatarAndDescription |
  WebrtcRoom | WebrtcAccepted | WebrtcHasVideoInitially | PrepForwards | SetLatitude |
  SetLongitude | Unpromoted | ProfileImage | Selftalk | LastSubject | Devicetalk |
  ListPost | ListId | StatusTimestamp | AvatarTimestamp | EphemeralSettingsTimestamp |
  SubjectTimestamp | GroupNameTimestamp | GroupDescriptionTimestamp | MemberListTimestamp |
  WebxdcDocument | WebxdcDocumentTimestamp | WebxdcSummary | WebxdcSummaryTimestamp |
  WebxdcIntegration | WebxdcIntegrateFor | DeleteRequestFor | TextEditFor | IsEdited |
  ContactAddedRemoved | PostMessageViewtype | PostMessageFileBytes.

Definition to_u8 (k : t) : N :=
  match k with
  | File => 102 | Filename => 118 | OverrideSenderDisplayname => 79 | Width => 119 |
  Height => 104 | Duration => 100 | MimeType => 109 | SendHtml => 84 |
  GuaranteeE2ee => 99 | ProtectQuote => 48 | ErroneousE2ee => 101 | ForcePlaintext => 117 |
  DeprecatedSkipAutocrypt => 111 | WantsMdn => 114 | Reaction => 120 |
  BroadcastReactions => 88 | LastReactionTimestamp => 121 | LastReactionMsgId => 89 |
  LastReactionContactId => 49 | Bot => 98 | Forwarded => 97 | Quote => 113 |
  Summary1 => 52 | Cmd => 83 | Arg => 69 | Arg2 => 70 | Arg3 => 71 | Arg4 => 72 |
  AttachChatAvatarAndDescription => 65 | WebrtcRoom => 86 | WebrtcAccepted => 55 |
  WebrtcHasVideoInitially => 122 | PrepForwards => 80 | SetLatitude => 108 |
  SetLongitude => 110 | Unpromoted => 85 | ProfileImage => 105 | Selftalk => 75 |
  LastSubject => 116 | Devicetalk => 68 | ListPost => 112 | ListId => 115 |
  StatusTimestamp => 106 | AvatarTimestamp => 74 | EphemeralSettingsTimestamp => 66 |
  SubjectTimestamp => 67 | GroupNameTimestamp => 103 | GroupDescriptionTimestamp => 54 |
  MemberListTimestamp => 107 | WebxdcDocument => 82 | WebxdcDocumentTimestamp => 87 |
  WebxdcSummary => 78 | WebxdcSummaryTimestamp => 81 | WebxdcIntegration => 51 |
  WebxdcIntegrateFor => 50 | DeleteRequestFor => 77 | TextEditFor => 73 | IsEdited => 76 |
  ContactAddedRemoved => 53 | PostMessageViewtype => 56 | PostMessageFileBytes => 57
  end.

Definition all : list t :=
  [File; Filename; OverrideSenderDisplayname; Width; Height; Duration; MimeType; SendHtml;
   GuaranteeE2ee; ProtectQuote; ErroneousE2ee; ForcePlaintext; DeprecatedSkipAutocrypt;
   WantsMdn; Reaction; BroadcastReactions; LastReactionTimestamp; LastReactionMsgId;
   LastReactionContactId; Bot; Forwarded; Quote; Summary1; Cmd; Arg; Arg2; Arg3; Arg4;
   AttachChatAvatarAndDescription; WebrtcRoom; WebrtcAccepted; WebrtcHasVideoInitially;
   PrepForwards; SetLatitude; SetLongitude; Unpromoted; ProfileImage; Selftalk;
   LastSubject; Devicetalk; ListPost; ListId; StatusTimestamp; AvatarTimestamp;
   EphemeralSettingsTimestamp; SubjectTimestamp; GroupNameTimestamp;
   GroupDescriptionTimestamp; MemberListTimestamp; WebxdcDocument; WebxdcDocumentTimestamp;
   WebxdcSummary; WebxdcSummaryTimestamp; WebxdcIntegration; WebxdcIntegrateFor;
   DeleteRequestFor; TextEditFor; IsEdited; ContactAddedRemoved; PostMessageViewtype;
   PostMessageFileBytes].

(** [Param::from_u8] *)
Definition from_u8 (n : N) : option t := List.find (λ k, to_u8 k =? n)%N all.

Lemma from_to_u8 k : from_u8 (to_u8 k) = Some k.
Proof. by destruct k; vm_compute. Qed.

#[global] Instance to_u8_inj : Inj (=) (=) to_u8.
Proof.
  intros k1 k2 E. pose proof (from_to_u8 k1) as H. rewrite E, from_to_u8 in H. congruence.
Qed.

#[global] Instance eq_dec : EqDecision t.
Proof.
  intros k1 k2. destruct (N.eq_dec (to_u8 k1) (to_u8 k2)) as [E|E];
    [left; by apply (inj to_u8)|right; congruence].
Defined.

#[global] Instance countable : Countable t := inj_countable to_u8 from_u8 from_to_u8.

(** [Ord]: by the discriminant. *)
Definition leb (a b : t) : bool := (to_u8 a <=? to_u8 b)%N.
End Key.

(** [Params]: a [BTreeMap<Param, String>] *)
Abbreviation Params := (gmap Key.t str).

Definition LF : N := 10.
Definition EQ : N := 61.

(** Iteration over the tree: ascending keys. *)
Definition inner_iter (p : Params) : list (Key.t * str) :=
  sort_by (λ a b, Key.leb a.1 b.1) (map_to_list p).

Definition show_entry (kv : Key.t * str) : str :=
  Key.to_u8 kv.1 :: EQ :: join [LF; LF] (split LF kv.2).

(** [Display for Params] *)
Definition to_string (p : Params) : str := join [LF] (show_entry <$> inner_iter p).

(** The inner loop of [from_str]: an empty line continues the value with the
    line after it. *)
Fixpoint take_value (value : str) (lines : list str) : str * list str :=
  match lines with
  | [] => (value, [])
  | s :: rest =>
      if is_empty s then
        match rest with
        | [] => (value ++ [LF], [])
        | next :: rest => take_value (value ++ [LF] ++ next) rest
        end
      else (value, lines)
  end.

Definition key_of_text (key : str) : option Key.t := head (as_bytes key) ≫= Key.from_u8.

(** The outer loop, which consumes at least a line in every round. *)
Fixpoint parse_loop (fuel : nat) (lines : list str) (inner : Params) : result Params :=
  match lines, fuel with
  | [], _ => Ok inner
  | _ :: _, O => Err "out of fuel"
  | line :: rest, S fuel =>
      match split_once EQ line with
      | None => Err "Not a key-value pair"
      | Some (key, value) =>
          let '(value, rest) := take_value value rest in
          parse_loop fuel rest
            (match key_of_text key with Some k => <[k := value]> inner | None => inner end)
      end
  end.

(** [FromStr for Params] *)
Definition from_str (s : str) : result Params :=
  let lines := split LF s in parse_loop (length lines) lines ∅.

Definition get (p : Params) (key : Key.t) : option str := p !! key.
Definition set (key : Key.t) (value : str) (p : Params) : Params := <[key := value]> p.
Definition remove (key : Key.t) (p : Params) : Params := delete key p.
Definition set_optional (key : Key.t) (value : option str) (p : Params) : Params :=
  match value with Some v => set key v p | None => remove key p end.

Definition get_int (p : Params) (key : Key.t) : option Z := get p key ≫= parse_i32.
Definition get_i64 (p : Params) (key : Key.t) : option Z := get p key ≫= parse_i64.
Definition get_bool (p : Params) (key : Key.t) : option bool := (λ v, negb (v =? 0)%Z) <$> get_int p key.
Definition set_int (key : Key.t) (value : Z) (p : Params) : Params := set key (show_Z value) p.
Definition set_i64 (key : Key.t) (value : Z) (p : Params) : Params := set key (show_Z value) p.

(** [self.steal(src, key)]: the new [self] and [src] *)
Definition steal (self src : Params) (key : Key.t) : Params * Params :=
  (match src !! key with Some val => <[key := val]> self | None => self end, delete key src).

(** [BTreeMap::append]: the entries of the argument win. *)
Definition merge_in_params (self new_params : Params) : Params := new_params ∪ self.

(** ** Splitting the printed form *)

(** A value spread over its lines: each further line is announced by an empty one. *)
Definition spread (ls : list str) : list str := ls ≫= λ l, [[]; l].

Lemma split_double c (p : str) ps :
  Forall (λ l, c ∉ l) (p :: ps) → split c (join [c; c] (p :: ps)) = p :: spread ps.
Proof.
  revert p. induction ps as [|q ps IH]; intros p Hp; apply Forall_cons in Hp as [Hp Hps].
  - by apply split_none.
  - change (join [c; c] (p :: q :: ps)) with (p ++ c :: [] ++ c :: join [c; c] (q :: ps)).
    rewrite !split_app, IH, (split_none _ p) by done. done.
Qed.

Lemma take_value_spread v ps rest :
  hd_error rest ≠ Some [] → take_value v (spread ps ++ rest) = (join [LF] (v :: ps), rest).
Proof.
  intros Hr. revert v. induction ps as [|p ps IH]; intros v.
  - cbn [spread mbind list_bind app join]. destruct rest as [|[|] rest]; [done|by destruct Hr|done].
  - unfold spread. rewrite bind_cons. fold (spread ps). cbn [app take_value is_empty].
    rewrite IH. f_equal. change (join [LF] (v :: p :: ps)) with (v ++ [LF] ++ join [LF] (p :: ps)).
    destruct ps as [|q ps]; simpl; by rewrite <-?app_assoc.
Qed.

(** The lines of one entry. *)
Definition entry_lines (kv : Key.t * str) : list str :=
  match split LF kv.2 with
  | [] => []
  | v :: vs => (Key.to_u8 kv.1 :: EQ :: v) :: spread vs
  end.

Lemma key_not_special k : Key.to_u8 k ≠ LF ∧ Key.to_u8 k ≠ EQ ∧ is_ascii (Key.to_u8 k) = true.
Proof. by destruct k; vm_compute. Qed.

Lemma split_show_entry kv : split LF (show_entry kv) = entry_lines kv.
Proof.
  destruct kv as [k v]. unfold show_entry, entry_lines. cbn [fst snd].
  destruct (split LF v) as [|p ps] eqn:E; [by destruct (split_nonempty LF v)|].
  pose proof (split_pieces LF v) as Hp. rewrite E in Hp.
  destruct (key_not_special k) as (Hk & _ & _).
  unfold split at 1. cbn [split_by]. rewrite (proj2 (N.eqb_neq LF _)) by congruence.
  change ((LF =? EQ)%N) with false. cbn iota.
  fold (split LF (join [LF; LF] (p :: ps))). by rewrite split_double.
Qed.

Lemma entry_head kv rest : hd_error (entry_lines kv ++ rest) ≠ Some [].
Proof.
  unfold entry_lines. destruct (split LF kv.2) eqn:E; [by destruct (split_nonempty LF kv.2)|done].
Qed.

Lemma key_of_text_own k : key_of_text [Key.to_u8 k] = Some k.
Proof.
  unfold key_of_text. destruct (key_not_special k) as (_ & _ & Ha).
  rewrite as_bytes_ascii by (simpl; by rewrite Ha). apply Key.from_to_u8.
Qed.

Lemma parse_entries l fuel inner :
  length (l ≫= entry_lines) ≤ fuel →
  parse_loop fuel (l ≫= entry_lines) inner = Ok (foldl (λ m kv, <[kv.1 := kv.2]> m) inner l).
Proof.
  revert fuel inner. induction l as [|[k v] l IH]; intros fuel inner Hf; [by destruct fuel|].
  rewrite bind_cons in Hf |- *. unfold entry_lines at 1 in Hf. unfold entry_lines at 1. cbn [fst snd] in *.
  destruct (split LF v) as [|p ps] eqn:E; [by destruct (split_nonempty LF v)|].
  rewrite length_app in Hf. cbn [app length] in Hf. destruct fuel as [|fuel]; [lia|].
  cbn [app parse_loop split_once].
  destruct (key_not_special k) as (_ & Hk & _). rewrite decide_False by done.
  rewrite decide_True by done. cbn [fmap option_fmap option_map prod_map fst snd]. unfold id.
  assert (hd_error (l ≫= entry_lines) ≠ Some []) as Hh.
  { destruct l as [|kv l']; [done|]. rewrite bind_cons. apply entry_head. }
  rewrite take_value_spread by exact Hh. cbn zeta beta iota.
  rewrite key_of_text_own, <-E. rewrite IH by lia. cbn [foldl fst snd].
  change (join [LF] (split LF v)) with (join [LF] (split LF v)). by rewrite join_split.
Qed.

Lemma insert_all_list_to_map (l : list (Key.t * str)) (m : Params) :
  NoDup l.*1 → foldl (λ m kv, <[kv.1 := kv.2]> m) m l = list_to_map l ∪ m.
Proof.
  revert m. induction l as [|[k v] l IH]; intros m Hnd; simpl; [by rewrite (left_id_L ∅ (∪))|].
  apply NoDup_cons in Hnd as [Hk Hnd]. rewrite IH by done.
  rewrite <-insert_union_l, insert_union_r; [done|]. by apply not_elem_of_list_to_map.
Qed.

(** The parameters of a message survive their stored form: every non-empty
    list of parameters, with any values, newlines and equal signs included,
    parses back to itself from its printed form; the empty list prints to the
    empty text, which does not parse. *)
Theorem params_roundtrip (p : Params) :
  from_str (to_string p) = if decide (p = ∅) then Err "Not a key-value pair" else Ok p.
Proof.
  case_decide as Hp; [by subst|]. unfold from_str, to_string. cbn zeta.
  assert (inner_iter p ≡ₚ map_to_list p) as Hperm by apply merge_sort_Permutation.
  assert (inner_iter p ≠ []) as Hne.
  { intros E. rewrite E in Hperm. apply Permutation_nil in Hperm. by apply map_to_list_empty_iff in Hperm. }
  rewrite split_join_bind by (by destruct (inner_iter p)).
  assert ((show_entry <$> inner_iter p) ≫= split LF = inner_iter p ≫= entry_lines) as ->.
  { clear. induction (inner_iter p) as [|kv l IH]; [done|].
    rewrite fmap_cons, !bind_cons, split_show_entry, IH. done. }
  rewrite parse_entries by done. f_equal.
  assert (NoDup (inner_iter p).*1) as Hnd by (rewrite Hperm; apply NoDup_fst_map_to_list).
  rewrite insert_all_list_to_map, (right_id_L ∅ (∪)) by done.
  rewrite (list_to_map_proper _ _ Hnd Hperm). apply list_to_map_to_list.
Qed.

(** Numbers read back as they were set, within their type. *)
Lemma get_set_int p k z : in_i32 z → get_int (set_int k z p) k = Some z.
Proof.
  intros [H1 H2]. unfold get_int, set_int, get, set. rewrite lookup_insert_eq. simpl.
  unfold parse_i32. rewrite parse_signed_show.
  by rewrite (proj2 (Z.leb_le _ _) H1), (proj2 (Z.leb_le _ _) H2).
Qed.
