(* ===== verification/Truncate.v ===== *)
(** * Truncate: shortened texts ([tools.rs]).

    [truncate], [truncate_by_lines] and [truncate_msg_text], and the normalised
    text of the search columns.  The byte offsets of the code are those of
    characters it has just read, so that slices at them never fail; here they are
    numbers of characters. *)

From S2P Require Import Prelude Text Store.

Definition NL : N := 10.
Definition BLANK : N := 32.
Definition DC_ELLIPSIS : str := lit "[...]".
Definition DC_DESIRED_TEXT_LINES : nat := 38.
Definition DC_DESIRED_TEXT_LINE_LEN : nat := 100.

Definition is_break (c : N) : bool := (c =? BLANK)%N || (c =? NL)%N.

(** The text up to the last blank or line feed, that one included; all of it
    when there is none. *)
Definition cut_at_break (s : str) : str :=
  match drop_while_end (λ c, negb (is_break c)) s with [] => s | t => t end.

Definition truncate (buf : str) (approx_chars : nat) : str :=
  if (length buf <=? approx_chars + length DC_ELLIPSIS)%nat then buf
  else cut_at_break (take approx_chars buf) ++ DC_ELLIPSIS.

(** One character of the loop: the lines completed and the characters of the
    current one. *)
Definition wrap_step (max_line_len : nat) (acc : nat * nat) (c : N) : nat * nat :=
  if (c =? NL)%N then (S acc.1, 0)
  else if (max_line_len <? S acc.2)%nat then (S acc.1, 1)
  else (acc.1, S acc.2).

Fixpoint find_break (max_lines max_line_len : nat) (acc : nat * nat) (index : nat) (buf : str) : option nat :=
  match buf with
  | [] => None
  | c :: buf =>
      let acc := wrap_step max_line_len acc c in
      if (acc.1 =? max_lines)%nat then Some index
      else find_break max_lines max_line_len acc (S index) buf
  end.

Definition truncate_by_lines (buf : str) (max_lines max_line_len : nat) : str * bool :=
  match find_break max_lines max_line_len (0, 0) 0 buf with
  | Some end_pos => (cut_at_break (take end_pos buf) ++ DC_ELLIPSIS, true)
  | None => (buf, false)
  end.

Definition truncate_msg_text (c : Ctx) (text : str) : str * bool :=
  if get_config_bool c Config.Bot then (text, false)
  else truncate_by_lines text DC_DESIRED_TEXT_LINES DC_DESIRED_TEXT_LINE_LEN.

(** What is stored for case-insensitive search, when it is not the text. *)
Definition normalize_text `{!UnicodeCase} (text : str) : option str :=
  if forallb is_ascii text then None
  else if bool_decide (to_lowercase text = text) then None else Some (to_lowercase text).

(** ** What is left *)

(** The number of lines a text takes when it is wrapped. *)
Definition wrapped (max_line_len : nat) (s : str) : nat := (foldl (wrap_step max_line_len) (0, 0) s).1.

Lemma wrap_step_le len acc c : acc.1 ≤ (wrap_step len acc c).1 ≤ S acc.1.
Proof. unfold wrap_step. repeat case_match; cbn; lia. Qed.

Lemma wrapped_mono len acc s : acc.1 ≤ (foldl (wrap_step len) acc s).1.
Proof.
  revert acc. induction s as [|c s IH]; intros acc; cbn; [done|].
  etrans; [apply (wrap_step_le len acc c)|apply IH].
Qed.

Lemma find_break_spec ml len acc i s :
  acc.1 < ml →
  match find_break ml len acc i s with
  | Some n => ∃ k, n = i + k ∧ k < length s ∧ (foldl (wrap_step len) acc (take k s)).1 < ml
                   ∧ ml ≤ (foldl (wrap_step len) acc s).1
  | None => (foldl (wrap_step len) acc s).1 < ml
  end.
Proof.
  revert acc i. induction s as [|c s IH]; intros acc i Hlt; cbn [find_break foldl]; [done|]. cbn zeta.
  pose proof (wrap_step_le len acc c) as Hstep.
  destruct (Nat.eqb_spec (wrap_step len acc c).1 ml) as [He|He].
  - exists 0. split; [lia|]. split; [cbn; lia|]. cbn. split; [done|]. rewrite <-He. apply wrapped_mono.
  - specialize (IH (wrap_step len acc c) (S i) ltac:(lia)).
    destruct (find_break _ _ _ _ s) as [n|]; [|done]. destruct IH as (k & -> & Hk & H1 & H2).
    exists (S k). split; [lia|]. split; [cbn; lia|]. done.
Qed.

Lemma cut_at_break_prefix s : ∃ r, s = cut_at_break s ++ r.
Proof.
  unfold cut_at_break. destruct (drop_while_end _ s) as [|x t] eqn:E; [by exists []; rewrite app_nil_r|].
  rewrite <-E. unfold drop_while_end. destruct (drop_while_suffix (λ c, negb (is_break c)) (reverse s)) as (k & Hk & _).
  exists (reverse k). rewrite <-reverse_app, <-Hk. by rewrite reverse_involutive.
Qed.

Lemma wrapped_prefix len a b : wrapped len a ≤ wrapped len (a ++ b).
Proof. unfold wrapped. rewrite foldl_app. apply wrapped_mono. Qed.

(** A text is shortened exactly when it takes too many lines; what is left of it
    is a beginning of it that fits, and the ellipsis. *)
Lemma truncated_exactly (s : str) (ml len : nat) :
  0 < ml →
  ((truncate_by_lines s ml len).2 = true ↔ ml ≤ wrapped len s)
  ∧ if (truncate_by_lines s ml len).2
    then ∃ p r, s = p ++ r ∧ (truncate_by_lines s ml len).1 = p ++ DC_ELLIPSIS ∧ wrapped len p < ml
    else (truncate_by_lines s ml len).1 = s.
Proof.
  intros Hml. unfold truncate_by_lines. pose proof (find_break_spec ml len (0, 0) 0 s Hml) as Hf.
  destruct (find_break _ _ _ _ _) as [n|]; cbn.
  - destruct Hf as (k & -> & Hk & H1 & H2). split; [done|].
    destruct (cut_at_break_prefix (take k s)) as [r Hr].
    exists (cut_at_break (take k s)), (r ++ drop k s). split; [|split; [done|]].
    + by rewrite app_assoc, <-Hr, take_drop.
    + eapply Nat.le_lt_trans; [apply (wrapped_prefix len _ r)|]. by rewrite <-Hr.
  - split; [|done]. split; [done|]. unfold wrapped. lia.
Qed.

Lemma truncate_length (s : str) (n : nat) :
  length (truncate s n) ≤ n + length DC_ELLIPSIS
  ∧ (truncate s n = s ∨ ∃ p r, s = p ++ r ∧ truncate s n = p ++ DC_ELLIPSIS).
Proof.
  unfold truncate. destruct (Nat.leb_spec (length s) (n + length DC_ELLIPSIS)) as [H|H]; [by split; [|left]|].
  destruct (cut_at_break_prefix (take n s)) as [r Hr]. split.
  - rewrite length_app. apply (f_equal length) in Hr. rewrite length_app, length_take in Hr. lia.
  - right. exists (cut_at_break (take n s)), (r ++ drop n s). by rewrite app_assoc, <-Hr, take_drop.
Qed.
