(* ===== verification/Policy.v ===== *)
(** * Policy: encryption strictness, the composer's padlock and server
    retention, [core/src/email/policy.rs] and the stored options of
    [core/src/email/sendopts.rs], with the encryption gate of
    [create_send_msg_jobs] in [core/src/chat.rs] that reads what they decide. *)

From S2P Require Import Prelude Text Store Trash Gating.

Module EncryptionMode.
Inductive t := Strict | Opportunistic | Lenient.

#[global] Instance eq_dec : EqDecision t.
Proof. solve_decision. Defined.

Definition to_i64 (m : t) : Z :=
  match m with Strict => 0 | Opportunistic => 1 | Lenient => 2 end.

Definition from_i64 (value : Z) : t :=
  if (value =? 0)%Z then Strict else if (value =? 2)%Z then Lenient else Opportunistic.

(** The derived [Ord]: the strictest is the least. *)
Definition min (a b : t) : t := if (to_i64 a <=? to_i64 b)%Z then a else b.

Definition load (c : Ctx) : t :=
  if get_config_bool c Config.ForceEncryption then Strict
  else match from_i64 (get_config_int c Config.EncryptionMode) with
       | Strict => Opportunistic
       | other => other
       end.

Definition set (mode : t) : cmd Ctx unit :=
  set_config_bool Config.ForceEncryption (bool_decide (mode = Strict)) ;;
  set_config Config.EncryptionMode (Some (show_Z (to_i64 mode))).

Definition for_contact (c : Ctx) (id : Z) : option t :=
  row ← contact_policy c !! id;
  from_i64 <$> PolicyRow.encryption_mode row.

Definition with_mode (mode : option Z) (r : PolicyRow.t) : PolicyRow.t :=
  PolicyRow.mk mode (PolicyRow.mdn_enabled r) (PolicyRow.ephemeral_secs r).

Definition set_for_contact (id : Z) (mode : option t) : cmd Ctx unit :=
  match mode with
  | Some mode =>
      modify (set_contact_policy (λ t,
        <[id := with_mode (Some (to_i64 mode))
                  (default (PolicyRow.mk None None None) (t !! id))]> t))
  | None => modify (set_contact_policy (alter (with_mode None) id))
  end.

Definition effective (c : Ctx) (contacts : list Z) : t :=
  foldl (λ mode id,
    match for_contact c id with
    | Some override_mode => min mode override_mode
    | None => mode
    end) (load c) contacts.
End EncryptionMode.

Definition apply_defaults : cmd Ctx unit :=
  configured ← gets is_configured;
  if configured : bool then mret tt
  else
    fe ← gets (λ c, get_config_bool_opt c Config.ForceEncryption);
    match fe with
    | None => EncryptionMode.set EncryptionMode.Opportunistic
    | Some _ => mret tt
    end ;;
    ig ← gets (λ c, get_config_bool_opt c Config.InboxGating);
    match ig with
    | None => set_config_bool Config.InboxGating true
    | Some _ => mret tt
    end ;;
    ut ← gets (λ c, get_config_opt c Config.UnverifiedTrashDays);
    match ut with
    | None => set_config Config.UnverifiedTrashDays (Some (show_Z DEFAULT_HOLD_DAYS))
    | Some _ => mret tt
    end ;;
    tp ← gets (λ c, get_config_opt c Config.TrashPurgeDays);
    match tp with
    | None => set_config Config.TrashPurgeDays (Some (show_Z DEFAULT_PURGE_DAYS))
    | Some _ => mret tt
    end ;;
    sb ← gets (λ c, get_config_bool_opt c Config.SubjectInBody);
    match sb with
    | None => set_config_bool Config.SubjectInBody false
    | Some _ => mret tt
    end.

(** ** The composer's padlock *)

Module EncryptionChoice.
Inductive t := Auto | Required | Plaintext.

#[global] Instance eq_dec : EqDecision t.
Proof. solve_decision. Defined.

Definition to_i64 (ch : t) : Z := match ch with Auto => 0 | Required => 1 | Plaintext => 2 end.

Definition from_i64 (value : Z) : t :=
  if (value =? 1)%Z then Required else if (value =? 2)%Z then Plaintext else Auto.
End EncryptionChoice.

Module SendOptions.
Record t := mk { encryption : EncryptionChoice.t; signature_in_body : bool }.

#[global] Instance eq_dec : EqDecision t.
Proof. solve_decision. Defined.

Definition default : t := mk EncryptionChoice.Auto false.

Definition set (msg_id : Z) (options : t) (signature : option str) : cmd Ctx unit :=
  if decide (options = default) then modify (set_msg_send_options (delete msg_id))
  else modify (set_msg_send_options <[msg_id := SendOptionsRow.mk
         (EncryptionChoice.to_i64 (encryption options)) (signature_in_body options)
         (if signature_in_body options then signature else None)]>).

Definition load (c : Ctx) (msg_id : Z) : t :=
  match msg_send_options c !! msg_id with
  | None => default
  | Some row => mk (EncryptionChoice.from_i64 (SendOptionsRow.encryption row))
                  (SendOptionsRow.signature_in_body row)
  end.

Definition signature (c : Ctx) (msg_id : Z) : option str :=
  row ← msg_send_options c !! msg_id; SendOptionsRow.signature row.
End SendOptions.

(** ** Sending *)

(** The parameters of an outgoing message the policy reads and writes;
    [is_user] is [get_cmd() == SystemMessage::Unknown]. *)
Module Param.
Record t := mk { is_user : bool; guarantee_e2ee : option Z; force_plaintext : option Z }.

Definition get_bool (o : option Z) : bool := match o with Some v => negb (v =? 0)%Z | None => false end.
Definition set_guarantee_e2ee (p : t) : t := mk (is_user p) (Some 1%Z) (force_plaintext p).
Definition set_force_plaintext (p : t) : t := mk (is_user p) (guarantee_e2ee p) (Some 1%Z).
End Param.

Definition missing_keys (c : Ctx) (contacts : list Z) : list str :=
  omap (λ id,
    if (id =? ContactId.SELF)%Z then None
    else row ← Store.contacts c !! id;
         if is_empty (ContactRow.fingerprint row) then Some (ContactRow.addr row) else None)
    contacts.

Definition prepare_send (msg_id : Z) (param : Param.t) (contacts : list Z)
    : cmd Ctx (Param.t * EncryptionMode.t) :=
  c ← gets id;
  let global := EncryptionMode.load c in
  let mode := EncryptionMode.effective c contacts in
  match SendOptions.encryption (SendOptions.load c msg_id) with
  | EncryptionChoice.Plaintext =>
      ensure (negb (bool_decide (mode = EncryptionMode.Strict)))
        "cannot send unencrypted: this conversation is set to end-to-end only" ;;
      mret (Param.set_force_plaintext param, mode)
  | EncryptionChoice.Required => mret (Param.set_guarantee_e2ee param, mode)
  | EncryptionChoice.Auto =>
      match mode with
      | EncryptionMode.Strict =>
          if decide (global = EncryptionMode.Strict) then mret (param, mode)
          else
            ensure (is_empty (missing_keys c contacts))
              "cannot send: have no key, and this conversation is set to end-to-end only" ;;
            mret (Param.set_guarantee_e2ee param, mode)
      | EncryptionMode.Opportunistic => mret (param, mode)
      | EncryptionMode.Lenient =>
          if Param.is_user param && negb (is_empty (missing_keys c contacts))
          then mret (Param.set_force_plaintext param, mode)
          else mret (param, mode)
      end
  end.

(** [needs_encryption] of [create_send_msg_jobs] *)
Definition needs_encryption (c : Ctx) (param : Param.t) : bool :=
  Param.get_bool (Param.guarantee_e2ee param)
  || (negb (Param.get_bool (Param.force_plaintext param))
      && get_config_bool c Config.ForceEncryption).

(** Whether [MimeFactory::from_msg] encrypts a message to a chat that is
    encrypted or not. *)
Definition mime_is_encrypted (param : Param.t) (chat_is_encrypted : bool) : bool :=
  if Param.get_bool (Param.force_plaintext param) then false
  else Param.get_bool (Param.guarantee_e2ee param) || chat_is_encrypted.

(** ** Recipients that were not sent to *)

(** SQLite's default ordering of text: by code point. *)
Fixpoint str_leb (a b : str) : bool :=
  match a, b with
  | [], _ => true
  | _ :: _, [] => false
  | x :: a, y :: b => if (x =? y)%N then str_leb a b else (x <? y)%N
  end.

Section undelivered.
Context `{!UnicodeCase}.

Definition record_undelivered (msg_id : Z) (addressed sent_to : list str) : cmd Ctx (list str) :=
  let sent := to_lowercase <$> sent_to in
  let dropped := filter (λ addr, to_lowercase addr ∉ sent) addressed in
  if is_empty dropped then mret dropped
  else
    transaction (for_each dropped (λ addr,
      modify (set_msg_undelivered (λ t, {[ (msg_id, addr) ]} ∪ t)))) ;;
    mret dropped.
End undelivered.

Definition undelivered (c : Ctx) (msg_id : Z) : list str :=
  sort_by str_leb (filter (λ r, r.1 = msg_id) (elements (msg_undelivered c))).*2.

(** ** Server retention *)

Module ServerRetention.
Inductive t := DeleteAfterDownload | Days (days : Z) | Never.

Definition from_days (days : Z) : t :=
  if (days =? 0)%Z then DeleteAfterDownload
  else if (days <? 0)%Z then Never
  else Days (Z.abs days).

Definition load (c : Ctx) : t := from_days (get_config_int c Config.ServerRetentionDays).

(** [i32::try_from(d).unwrap_or(i32::MAX)] for a [u32] *)
Definition to_days (retention : t) : Z :=
  match retention with
  | DeleteAfterDownload => 0
  | Never => -1
  | Days d => if (d <=? i32_max)%Z then d else i32_max
  end.

Definition set (retention : t) : cmd Ctx unit :=
  set_config Config.ServerRetentionDays (Some (show_Z (to_days retention))).
End ServerRetention.

(** [INSERT OR IGNORE INTO imap_markseen (id) SELECT id FROM imap WHERE rfc724_mid=?] *)
Definition markseen_on_imap_table (message_id : str) (c : Ctx) : Ctx :=
  set_imap_markseen (λ t, dom (filter (λ kr : Z * ImapRow.t, ImapRow.rfc724_mid kr.2 = message_id) (imap_tbl c)) ∪ t) c.

(** [UPDATE imap SET target='' WHERE rfc724_mid=?] *)
Definition no_target (row : ImapRow.t) : ImapRow.t :=
  ImapRow.mk (ImapRow.transport_id row) (ImapRow.rfc724_mid row) (ImapRow.folder row) []
    (ImapRow.uid row) (ImapRow.uidvalidity row).

Definition clear_target (mid : str) (row : ImapRow.t) : ImapRow.t :=
  if decide (ImapRow.rfc724_mid row = mid) then no_target row else row.

Definition delete_from_server (rfc724_mid : str) : cmd Ctx unit :=
  modify (set_imap (fmap (clear_target rfc724_mid))).

Definition apply_server_retention (rfc724_mid : str) : cmd Ctx unit :=
  if is_empty rfc724_mid then mret tt
  else
    c ← gets id;
    match ServerRetention.load c with
    | ServerRetention.Never => mret tt
    | ServerRetention.DeleteAfterDownload => delete_from_server rfc724_mid
    | ServerRetention.Days days =>
        let delete_at := sat_add (clock c) (sat_mul days 86400) in
        modify (set_server_retention (λ t,
          match t !! rfc724_mid with Some _ => t | None => <[rfc724_mid := delete_at]> t end))
    end.

Definition due_on_server (c : Ctx) : list str :=
  (filter (λ r, (r.2 ≤ clock c)%Z) (map_to_list (server_retention c))).*1.

Definition expire_on_server : cmd Ctx nat :=
  due ← gets due_on_server;
  if is_empty due then mret 0
  else
    for_each due (λ rfc724_mid,
      delete_from_server rfc724_mid ;;
      modify (set_server_retention (delete rfc724_mid))) ;;
    mret (length due).

Definition prune : cmd Ctx unit :=
  modify (λ c, set_msg_undelivered (filter (λ r, live_msg c r.1 = true)) c).

(** ** Composing overrides *)

Lemma mode_min_le a b :
  let m := EncryptionMode.min a b in
  (m = a ∨ m = b) ∧ (EncryptionMode.to_i64 m ≤ EncryptionMode.to_i64 a)%Z
  ∧ (EncryptionMode.to_i64 m ≤ EncryptionMode.to_i64 b)%Z.
Proof. destruct a, b; cbn; split_and!; auto; lia. Qed.

(** The fold of [effective], from any starting mode. *)
Lemma strictest_of c ids start :
  let e := foldl (λ mode id,
    match EncryptionMode.for_contact c id with
    | Some override_mode => EncryptionMode.min mode override_mode
    | None => mode
    end) start ids in
  (e = start ∨ ∃ id, id ∈ ids ∧ EncryptionMode.for_contact c id = Some e)
  ∧ (EncryptionMode.to_i64 e ≤ EncryptionMode.to_i64 start)%Z
  ∧ ∀ id m, id ∈ ids → EncryptionMode.for_contact c id = Some m →
      (EncryptionMode.to_i64 e ≤ EncryptionMode.to_i64 m)%Z.
Proof.
  cbn zeta. revert start. induction ids as [|i ids IH]; intros start; cbn [foldl].
  { split_and!; [by left|lia|]. intros ? ? Hin. by apply not_elem_of_nil in Hin. }
  destruct (IH (match EncryptionMode.for_contact c i with
                | Some m => EncryptionMode.min start m | None => start end)) as (Hor & Hle & Hall).
  set (e := foldl _ _ ids) in *. clearbody e.
  destruct (EncryptionMode.for_contact c i) as [m|] eqn:Em.
  - destruct (mode_min_le start m) as (Hmin & Hs & Hm). split_and!.
    + destruct Hor as [->|(j & Hj & Hf)]; [|right; exists j; split; [by right|done]].
      destruct Hmin as [->| ->]; [by left|]. right. exists i. split; [by left|done].
    + lia.
    + intros j m' [->|Hj]%elem_of_cons Hf; [|by eapply Hall]. rewrite Em in Hf. simplify_eq. lia.
  - split_and!; [|done|].
    + destruct Hor as [->|(j & Hj & Hf)]; [by left|]. right. exists j. split; [by right|done].
    + intros j m' [->|Hj]%elem_of_cons Hf; [congruence|by eapply Hall].
Qed.

(** A message takes the strictest mode among the global setting and the
    overrides of its contacts: the mode in force is one of them, and none of
    them is stricter. *)
Theorem effective_is_strictest (c : Ctx) (contacts : list Z) :
  let e := EncryptionMode.effective c contacts in
  (e = EncryptionMode.load c
   ∨ ∃ id, id ∈ contacts ∧ EncryptionMode.for_contact c id = Some e)
  ∧ (EncryptionMode.to_i64 e ≤ EncryptionMode.to_i64 (EncryptionMode.load c))%Z
  ∧ ∀ id m, id ∈ contacts → EncryptionMode.for_contact c id = Some m →
      (EncryptionMode.to_i64 e ≤ EncryptionMode.to_i64 m)%Z.
Proof. exact (strictest_of c contacts (EncryptionMode.load c)). Qed.

(** ** Enforcement *)

(** Nothing is stored by [prepare_send]. *)
Lemma prepare_send_reads msg_id p contacts c : (prepare_send msg_id p contacts c).1 = c.
Proof.
  unfold prepare_send. rewrite run_bind_gets. unfold id.
  destruct (SendOptions.encryption _).
  - destruct (EncryptionMode.effective c contacts).
    + case_decide; [done|]. unfold ensure. by destruct (is_empty _).
    + done.
    + by destruct (_ && _).
  - done.
  - unfold ensure. by destruct (negb _).
Qed.

Lemma load_strict c :
  EncryptionMode.load c = EncryptionMode.Strict ↔ get_config_bool c Config.ForceEncryption = true.
Proof.
  unfold EncryptionMode.load. destruct (get_config_bool c Config.ForceEncryption); [done|].
  by destruct (EncryptionMode.from_i64 _).
Qed.

Lemma prepare_send_strict msg_id p contacts c p' mode :
  prepare_send msg_id p contacts c = (c, Ok (p', mode)) →
  EncryptionMode.effective c contacts = EncryptionMode.Strict →
  Param.get_bool (Param.force_plaintext p) = false →
  needs_encryption c p' = true
  ∧ SendOptions.encryption (SendOptions.load c msg_id) ≠ EncryptionChoice.Plaintext.
Proof.
  intros Hrun Heff Hfp. unfold prepare_send in Hrun. rewrite run_bind_gets in Hrun.
  unfold id in Hrun. rewrite Heff in Hrun. unfold needs_encryption.
  destruct (SendOptions.encryption _).
  - case_decide as Hg.
    + injection Hrun as <- _. apply load_strict in Hg. rewrite Hfp, Hg.
      split; [by rewrite orb_true_r|done].
    + unfold ensure in Hrun. destruct (is_empty _); [|done]. by injection Hrun as <- _.
  - by injection Hrun as <- _.
  - done.
Qed.

(** ** Server retention *)

Lemma elem_of_due c mid :
  mid ∈ due_on_server c ↔ ∃ t, server_retention c !! mid = Some t ∧ (t ≤ clock c)%Z.
Proof.
  unfold due_on_server. rewrite list_elem_of_fmap. split.
  - intros ([m t] & -> & [Ht Hin]%list_elem_of_filter). apply elem_of_map_to_list in Hin. eauto.
  - intros (t & Hl & Ht). exists (mid, t). split; [done|]. apply list_elem_of_filter.
    split; [done|]. by apply elem_of_map_to_list.
Qed.

Definition expire_one (c : Ctx) (mid : str) : Ctx :=
  set_server_retention (delete mid) (set_imap (fmap (clear_target mid)) c).

Lemma expire_run c :
  expire_on_server c = (foldl expire_one c (due_on_server c), Ok (length (due_on_server c))).
Proof.
  unfold expire_on_server. rewrite run_bind_gets.
  assert (∀ l c, for_each l (λ mid, delete_from_server mid ;; modify (set_server_retention (delete mid))) c
                 = (foldl expire_one c l, Ok tt)) as Hfe.
  { intros l. induction l as [|x l IH]; intros d; [done|]. cbn [for_each foldl].
    rewrite run_bind. unfold delete_from_server at 1. rewrite run_bind_modify, run_modify. apply IH. }
  destruct (is_empty (due_on_server c)) eqn:E; [by destruct (due_on_server c)|]. by rewrite run_bind, Hfe.
Qed.

Lemma expire_all c l :
  imap_tbl (foldl expire_one c l)
    = (λ r, if decide (ImapRow.rfc724_mid r ∈ l) then no_target r else r) <$> imap_tbl c
  ∧ (∀ mid, server_retention (foldl expire_one c l) !! mid
            = if decide (mid ∈ l) then None else server_retention c !! mid).
Proof.
  revert c. induction l as [|x l IH]; intros c; cbn [foldl].
  { split; [|done]. rewrite <-(map_fmap_id (imap_tbl c)) at 1. apply map_fmap_ext. intros _ r _.
    by rewrite decide_False by apply not_elem_of_nil. }
  destruct (IH (expire_one c x)) as [Hi Hr]. split.
  - rewrite Hi. change (imap_tbl (expire_one c x)) with (clear_target x <$> imap_tbl c).
    rewrite <-map_fmap_compose. apply map_fmap_ext. intros _ r _. unfold clear_target. cbn.
    destruct (decide (ImapRow.rfc724_mid r = x)) as [<-|Hx]; cbn [no_target ImapRow.rfc724_mid].
    + rewrite (decide_True (P := ImapRow.rfc724_mid r ∈ ImapRow.rfc724_mid r :: l)) by left.
      by case_decide.
    + destruct (decide (ImapRow.rfc724_mid r ∈ l));
        [rewrite decide_True by by right|rewrite decide_False by set_solver]; done.
  - intros mid. rewrite Hr.
    change (server_retention (expire_one c x)) with (delete x (server_retention c)).
    destruct (decide (mid ∈ l)) as [Hl|Hl]; [by rewrite decide_True by by right|].
    rewrite lookup_delete. destruct (decide (x = mid)) as [->|Hx].
    + by rewrite decide_True by left.
    + by rewrite decide_False by set_solver.
Qed.

(** The rows of one message in the table of the server's messages. *)
Definition imap_rows (c : Ctx) (mid : str) : gmap Z ImapRow.t :=
  filter (λ kr, ImapRow.rfc724_mid kr.2 = mid) (imap_tbl c).

Lemma imap_rows_clear (P : str → Prop) `{!∀ m, Decision (P m)} (t : gmap Z ImapRow.t) mid :
  filter (λ kr : Z * ImapRow.t, ImapRow.rfc724_mid kr.2 = mid)
    ((λ r, if decide (P (ImapRow.rfc724_mid r)) then no_target r else r) <$> t)
  = (λ r, if decide (P mid) then no_target r else r)
      <$> filter (λ kr : Z * ImapRow.t, ImapRow.rfc724_mid kr.2 = mid) t.
Proof.
  apply map_eq. intros i. rewrite lookup_fmap, !map_lookup_filter, lookup_fmap.
  destruct (t !! i) as [r|]; [|done]. cbn.
  assert (ImapRow.rfc724_mid (if decide (P (ImapRow.rfc724_mid r)) then no_target r else r)
          = ImapRow.rfc724_mid r) as -> by by case_decide.
  destruct (decide (ImapRow.rfc724_mid r = mid)) as [<-|Hm].
  - by rewrite !option_guard_True.
  - by rewrite !option_guard_False.
Qed.

Lemma imap_rows_expire c mid :
  imap_rows (final expire_on_server c) mid
  = (λ r, if decide (mid ∈ due_on_server c) then no_target r else r) <$> imap_rows c mid.
Proof.
  unfold final. rewrite expire_run. cbn [fst]. unfold imap_rows.
  rewrite (proj1 (expire_all c _)). exact (imap_rows_clear (λ m, m ∈ due_on_server c) (imap_tbl c) mid).
Qed.

Lemma imap_rows_delete c mid mid' :
  imap_rows (final (delete_from_server mid') c) mid
  = (λ r, if decide (mid = mid') then no_target r else r) <$> imap_rows c mid.
Proof. unfold imap_rows. exact (imap_rows_clear (λ m, m = mid') (imap_tbl c) mid). Qed.

Lemma imap_rows_kept (P : Prop) `{!Decision P} c mid :
  ¬ P → (λ r, if decide P then no_target r else r) <$> imap_rows c mid = imap_rows c mid.
Proof.
  intros HP. rewrite <-(map_fmap_id (imap_rows c mid)) at 2. apply map_fmap_ext.
  intros _ r _. by rewrite decide_False.
Qed.

Lemma retention_load_bounds c days :
  ServerRetention.load c = ServerRetention.Days days → (0 < days ≤ i32_max)%Z.
Proof.
  unfold ServerRetention.load, ServerRetention.from_days.
  pose proof (get_config_int_bounds c Config.ServerRetentionDays) as [_ Hb].
  set (z := get_config_int c Config.ServerRetentionDays) in *. clearbody z.
  destruct (Z.eqb_spec z 0); [done|]. destruct (Z.ltb_spec z 0); [done|].
  intros [= <-]. lia.
Qed.

Lemma apply_retention_days c mid days :
  is_empty mid = false → ServerRetention.load c = ServerRetention.Days days →
  server_retention c !! mid = None →
  final (apply_server_retention mid) c
  = set_server_retention <[mid := sat_add (clock c) (days * 86400)]> c.
Proof.
  intros He Hd Hn. unfold final, apply_server_retention. rewrite He, run_bind_gets. unfold id. rewrite Hd.
  assert (sat_mul days 86400 = (days * 86400)%Z) as ->.
  { apply sat_mul_exact. pose proof (retention_load_bounds c days Hd).
    unfold in_i64, i64_min, i64_max, i32_max in *. lia. }
  cbn zeta. rewrite run_modify. cbn [fst]. unfold set_server_retention. by rewrite Hn.
Qed.

(** With a retention of some days a received message stays on the server
    exactly that long: it is not touched on arrival, housekeeping leaves it
    alone before the window has passed, and from then on marks it deleted. *)
Theorem retention_window_exact (c : Ctx) (mid : str) (days now : Z) :
  ServerRetention.load c = ServerRetention.Days days → mid ≠ [] →
  server_retention c !! mid = None → in_i64 (clock c + days * 86400) →
  let c1 := final (apply_server_retention mid) c in
  imap_tbl c1 = imap_tbl c
  ∧ imap_rows (final expire_on_server (set_clock (λ _, now) c1)) mid
    = if (now <? clock c + days * 86400)%Z then imap_rows c mid
      else no_target <$> imap_rows c mid.
Proof.
  intros Hd Hm Hn Hin c1. assert (is_empty mid = false) as He by by destruct mid.
  unfold c1. rewrite (apply_retention_days c mid days He Hd Hn), sat_add_exact by done.
  split; [done|]. rewrite imap_rows_expire.
  assert (mid ∈ due_on_server (set_clock (λ _, now)
            (set_server_retention <[mid:=(clock c + days * 86400)%Z]> c))
          ↔ (clock c + days * 86400 ≤ now)%Z) as Hdue.
  { rewrite elem_of_due. cbn [set_clock set_server_retention server_retention clock].
    split; [intros (t & Ht & Hle); rewrite lookup_insert_eq in Ht; by simplify_eq|].
    intros Hle. eexists. by rewrite lookup_insert_eq. }
  change (imap_rows (set_clock _ _) mid) with (imap_rows c mid).
  destruct (Z.ltb_spec now (clock c + days * 86400)) as [Hlt|Hge].
  - apply imap_rows_kept. rewrite Hdue. lia.
  - apply map_fmap_ext. intros _ r _. rewrite decide_True; [done|]. by apply Hdue.
Qed.

(** What can happen to the server's messages under the policy. *)
Inductive retention_op :=
  | OpArrive (rfc724_mid : str)
  | OpExpire
  | OpTick (now : Z)
  | OpSetRetention (retention : ServerRetention.t).

Definition run_retention_op (c : Ctx) (o : retention_op) : Ctx :=
  match o with
  | OpArrive mid => final (apply_server_retention mid) c
  | OpExpire => final expire_on_server c
  | OpTick now => set_clock (λ _, now) c
  | OpSetRetention r => final (ServerRetention.set r) c
  end.

Lemma retention_op_spares c o mid :
  o ≠ OpArrive mid → server_retention c !! mid = None →
  server_retention (run_retention_op c o) !! mid = None
  ∧ imap_rows (run_retention_op c o) mid = imap_rows c mid.
Proof.
  intros Ho Hn. destruct o as [m| |now|r]; cbn [run_retention_op]; [| |done|].
  - unfold apply_server_retention. destruct (is_empty m); [done|].
    assert (mid ≠ m) as Hm by congruence.
    unfold final. rewrite run_bind_gets. unfold id. destruct (ServerRetention.load c) as [|d|]; [| |done].
    + split; [done|]. fold (final (delete_from_server m) c). rewrite imap_rows_delete.
      by apply imap_rows_kept.
    + cbn zeta. rewrite run_modify. cbn [fst]. split; [|done].
      cbn [set_server_retention server_retention]. destruct (server_retention c !! m); [done|].
      by rewrite lookup_insert_ne.
  - assert (mid ∉ due_on_server c) as Hnd by (rewrite elem_of_due; intros (t & Ht & _); congruence).
    split.
    + unfold final. rewrite expire_run. cbn [fst]. rewrite (proj2 (expire_all c _)). by case_decide.
    + rewrite imap_rows_expire. by apply imap_rows_kept.
  - unfold ServerRetention.set, final.
    destruct (set_config_run Config.ServerRetentionDays (show_Z (ServerRetention.to_days r)) c eq_refl)
      as [q ->]. done.
Qed.

(** Mail that was already in the mailbox is never deleted from the server:
    whatever arrives, however retention is set and changed, and however often
    housekeeping runs, the server's copy of a message that was not itself
    received under the policy is left as it was. *)
Theorem retention_spares_existing (ops : list retention_op) (c : Ctx) (mid : str) :
  server_retention c !! mid = None → OpArrive mid ∉ ops →
  imap_rows (foldl run_retention_op c ops) mid = imap_rows c mid.
Proof.
  revert c. induction ops as [|o ops IH]; intros c Hn Hops; [done|]. cbn [foldl].
  apply not_elem_of_cons in Hops as [Ho Hops].
  destruct (retention_op_spares c o mid) as [Hn' Hr]; [congruence|done|].
  by rewrite IH, Hr.
Qed.

(** ** A mailbox with two messages on the server, kept for a week *)

Definition at_inbox (mid : str) (uid : Z) : ImapRow.t :=
  ImapRow.mk 1 mid (lit "INBOX") (lit "INBOX") uid 1.

Definition week_account : Ctx :=
  set_clock (λ _, 1000%Z)
    (set_imap (λ _, {[1%Z := at_inbox (lit "a@x") 1; 2%Z := at_inbox (lit "b@x") 2]})
       (final (ServerRetention.set (ServerRetention.Days 7)) empty_ctx)).

Lemma retention_window_exact_witness :
  imap_rows (final expire_on_server (set_clock (λ _, 605799%Z)
    (final (apply_server_retention (lit "a@x")) week_account))) (lit "a@x") = {[1%Z := at_inbox (lit "a@x") 1]}
  ∧ imap_rows (final expire_on_server (set_clock (λ _, 605800%Z)
      (final (apply_server_retention (lit "a@x")) week_account))) (lit "a@x") = {[1%Z := no_target (at_inbox (lit "a@x") 1)]}.
Proof.
  split.
  - destruct (retention_window_exact week_account (lit "a@x") 7 605799) as [_ H];
      [vm_compute; reflexivity|discriminate|vm_compute; reflexivity|vm_compute; split; discriminate|].
    rewrite H. vm_compute. reflexivity.
  - destruct (retention_window_exact week_account (lit "a@x") 7 605800) as [_ H];
      [vm_compute; reflexivity|discriminate|vm_compute; reflexivity|vm_compute; split; discriminate|].
    rewrite H. vm_compute. reflexivity.
Defined.

Lemma retention_spares_existing_witness :
  let ops := [OpArrive (lit "a@x"); OpSetRetention ServerRetention.DeleteAfterDownload;
              OpTick 999999; OpExpire; OpArrive (lit "c@x")] in
  imap_tbl (foldl run_retention_op week_account ops)
    = {[1%Z := no_target (at_inbox (lit "a@x") 1); 2%Z := at_inbox (lit "b@x") 2]}
  ∧ imap_rows (foldl run_retention_op week_account ops) (lit "b@x") = {[2%Z := at_inbox (lit "b@x") 2]}.
Proof.
  split; [vm_compute; reflexivity|].
  rewrite retention_spares_existing; [vm_compute; reflexivity|vm_compute; reflexivity|].
  intros H. repeat (apply elem_of_cons in H as [H|H]; [discriminate H|]).
  by apply not_elem_of_nil in H.
Defined.
