(* ===== verification/Receipts.v ===== *)
(** * Receipts: who gets read receipts, and the default timer of a new
    conversation, [core/src/email/receipts.rs], with the gate of
    [create_send_msg_jobs] ([core/src/chat.rs]) that runs the send hooks. *)

From S2P Require Import Prelude Text Store Trash Policy.

Module MdnPolicy.
Inductive t := Never | VerifiedOnly | Always.

#[global] Instance eq_dec : EqDecision t.
Proof. solve_decision. Defined.

Definition to_i64 (p : t) : Z := match p with Never => 0 | VerifiedOnly => 1 | Always => 2 end.

Definition from_i64 (value : Z) : t :=
  if (value =? 0)%Z then Never else if (value =? 1)%Z then VerifiedOnly else Always.

Definition should_send_mdns (c : Ctx) : bool := get_config_bool c Config.MdnsEnabled.

Definition load (c : Ctx) : t :=
  if negb (should_send_mdns c) then Never
  else from_i64 (get_config_int c Config.MdnPolicy).

Definition set (policy : t) : cmd Ctx unit :=
  set_config_bool Config.MdnsEnabled (negb (bool_decide (policy = Never))) ;;
  set_config Config.MdnPolicy (Some (show_Z (to_i64 policy))).
End MdnPolicy.

(** The columns [upsert_contact_policy] writes. *)
Inductive policy_column := MdnEnabled | EphemeralSecs.

Definition with_column (column : policy_column) (value : option Z) (r : PolicyRow.t) : PolicyRow.t :=
  match column with
  | MdnEnabled => PolicyRow.mk (PolicyRow.encryption_mode r) value (PolicyRow.ephemeral_secs r)
  | EphemeralSecs => PolicyRow.mk (PolicyRow.encryption_mode r) (PolicyRow.mdn_enabled r) value
  end.

Definition upsert_contact_policy (id : Z) (column : policy_column) (value : option Z) : cmd Ctx unit :=
  modify (set_contact_policy (λ t,
    <[id := with_column column value (default (PolicyRow.mk None None None) (t !! id))]> t)).

Definition mdn_for_contact (c : Ctx) (id : Z) : option bool :=
  row ← contact_policy c !! id;
  (λ v, negb (v =? 0)%Z) <$> PolicyRow.mdn_enabled row.

Definition set_mdn_for_contact (id : Z) (enabled : option bool) : cmd Ctx unit :=
  upsert_contact_policy id MdnEnabled ((λ b : bool, if b then 1%Z else 0%Z) <$> enabled).

Definition should_send_mdn (contact_id : Z) : cmd Ctx bool :=
  c ← gets id;
  let policy := MdnPolicy.load c in
  if decide (policy = MdnPolicy.Never) then mret false
  else
    match mdn_for_contact c contact_id with
    | Some enabled => mret enabled
    | None =>
        match policy with
        | MdnPolicy.Never => mret false
        | MdnPolicy.Always => mret true
        | MdnPolicy.VerifiedOnly =>
            match get_contact c contact_id with
            | None => mret false
            | Some contact =>
                v ← or_bail (is_verified c contact_id) "contact not found";
                mret (v && Origin.is_known (Contact.origin contact))
            end
        end
    end.

(** ** Timers *)

(** [u32::try_from(secs).ok().and_then(NonZero::new)] *)
Definition timer_from_secs (secs : Z) : Timer.t :=
  if (0 <? secs)%Z && (secs <=? u32_max)%Z then Timer.Enabled secs else Timer.Disabled.

Definition timer_for_contact (c : Ctx) (id : Z) : option Timer.t :=
  row ← contact_policy c !! id;
  timer_from_secs <$> PolicyRow.ephemeral_secs row.

Definition set_timer_for_contact (id : Z) (timer : option Timer.t) : cmd Ctx unit :=
  upsert_contact_policy id EphemeralSecs (Timer.to_u32 <$> timer).

Definition default_timer (c : Ctx) : Timer.t :=
  timer_from_secs (get_config_int c Config.EphemeralDefaultSeconds).

Definition set_default_timer (timer : Timer.t) : cmd Ctx unit :=
  set_config Config.EphemeralDefaultSeconds (Some (show_Z (Timer.to_u32 timer))).

Definition shorter (a b : Timer.t) : Timer.t :=
  match a, b with
  | Timer.Disabled, other => other
  | other, Timer.Disabled => other
  | Timer.Enabled x, Timer.Enabled y => Timer.Enabled (Z.min x y)
  end.

Definition effective_default_timer (c : Ctx) (contacts : list Z) : Timer.t :=
  foldl (λ timer id,
    if (id =? ContactId.SELF)%Z then timer
    else match timer_for_contact c id with
         | Some override_timer => shorter timer override_timer
         | None => timer
         end) (default_timer c) contacts.

Definition chat_is_special (chat_id : Z) : bool :=
  (0 <=? chat_id)%Z && (chat_id <=? DC_CHAT_ID_LAST_SPECIAL)%Z.

(** [ChatId::get_ephemeral_timer]: the column is read as a [u32]. *)
Definition get_ephemeral_timer (chat_id : Z) : cmd Ctx Timer.t :=
  c ← gets id;
  row ← or_bail (chats c !! chat_id) "Chat not found";
  let v := ChatRow.ephemeral_timer row in
  ensure ((0 <=? v)%Z && (v <=? u32_max)%Z) "Integer out of range" ;;
  mret (Timer.from_u32 v).

Definition with_chat_timer (secs : Z) (r : ChatRow.t) : ChatRow.t :=
  ChatRow.mk (ChatRow.typ r) (ChatRow.name r) (ChatRow.grpid r) (ChatRow.blocked r) secs
    (ChatRow.param r) (ChatRow.archived r) (ChatRow.muted_until r).

Definition inner_set_ephemeral_timer (chat_id : Z) (timer : Timer.t) : cmd Ctx unit :=
  ensure (negb (chat_is_special chat_id)) "Invalid chat ID" ;;
  modify (set_chats (alter (with_chat_timer (Timer.to_u32 timer)) chat_id)).

(** Something visible was sent to the chat before this message. *)
Definition sent_before (c : Ctx) (chat_id msg_id : Z) : bool :=
  existsb (λ r, (Msg.chat_id r.2 =? chat_id)%Z && (Msg.from_id r.2 =? ContactId.SELF)%Z
                && (r.1 <? msg_id)%Z && negb (Msg.hidden r.2)) (map_to_list (msgs c)).

Definition apply_default_timer (chat_id msg_id : Z) (contacts : list Z) : cmd Ctx unit :=
  current ← get_ephemeral_timer chat_id;
  if negb (bool_decide (current = Timer.Disabled)) then mret tt
  else
    timer ← gets (λ c, effective_default_timer c contacts);
    if decide (timer = Timer.Disabled) then mret tt
    else
      before ← gets (λ c, sent_before c chat_id msg_id);
      if before : bool then mret tt else inner_set_ephemeral_timer chat_id timer.

(** Overrides of contacts that no longer exist. *)
Definition prune : cmd Ctx unit :=
  modify (λ c, set_contact_policy (filter (λ kv, is_Some (Store.contacts c !! kv.1))) c).

(** ** The send hooks *)

(** [ORDER BY c.id=1, c.last_seen DESC, c.id DESC] *)
Definition member_leb (c : Ctx) (a b : Z) : bool :=
  let key id := match Store.contacts c !! id with
                | None => (0%Z, 0%Z)
                | Some r => (if (id =? ContactId.SELF)%Z then 2%Z else 1%Z, ContactRow.last_seen r)
                end in
  let '(ka, la) := key a in
  let '(kb, lb) := key b in
  ((ka <? kb) || ((ka =? kb) && ((lb <? la) || ((la =? lb) && (b <=? a)))))%Z.

(** [chat::get_chat_contacts]: the current members. *)
Definition get_chat_contacts (c : Ctx) (chat_id : Z) : list Z :=
  sort_by (member_leb c) (filter (λ r, r.1 = chat_id) (elements (chats_contacts c))).*2.

Definition can_fail (s : MessageState.t) : bool :=
  match s with
  | MessageState.OutPending | MessageState.OutDelivered | MessageState.OutMdnRcvd => true
  | _ => false
  end.

(** [message::set_msg_failed], for a message whose state in memory is [state]. *)
Definition set_msg_failed (msg_id : Z) (state : MessageState.t) : cmd Ctx unit :=
  modify (set_msgs (alter (with_state (MessageState.to_i64
    (if can_fail state then MessageState.OutFailed else state))) msg_id)).

(** [MsgId::set_delivered] *)
Definition set_delivered (msg_id : Z) : cmd Ctx unit :=
  modify (set_msgs (alter (λ m,
    if (Msg.state m =? MessageState.to_i64 MessageState.OutPending)%Z
    then with_state (MessageState.to_i64 MessageState.OutDelivered) m else m) msg_id)).

(** The part of [create_send_msg_jobs] that decides whether a message goes out:
    the policy, the default timer, and the refusal of a cleartext rendering
    where encryption is needed.  [render] is [MimeFactory] with everything it
    calls: an error, or [None] when there is nobody to send to, or the rendered
    message, of which [is_encrypted] tells whether it is encrypted.  The notice
    added to the chat on a refusal, and what is stored and queued for a message
    that passes, are not part of it. *)
Definition send_gate {A} (is_encrypted : A → bool) (render : Ctx → Param.t → result (option A))
    (msg_id chat_id : Z) (state : MessageState.t) (param : Param.t) : cmd Ctx (option A) :=
  email_contacts ← gets (λ c, get_chat_contacts c chat_id);
  '(param, _) ← prepare_send msg_id param email_contacts;
  attempt (apply_default_timer chat_id msg_id email_contacts) ;;
  needs ← gets (λ c, needs_encryption c param);
  c ← gets id;
  match render c param with
  | Err e => set_msg_failed msg_id state ;; bail e
  | Ok None => set_delivered msg_id ;; mret None
  | Ok (Some rendered_msg) =>
      if needs && negb (is_encrypted rendered_msg) then
        set_msg_failed msg_id state ;;
        bail "e2e encryption unavailable"
      else mret (Some rendered_msg)
  end.

(** ** Encryption *)

(** The default timer touches only the table of chats. *)
Lemma apply_default_timer_frame chat_id msg_id contacts c :
  ∃ f, (attempt (apply_default_timer chat_id msg_id contacts) c).1 = set_chats f c.
Proof.
  assert (c = set_chats (λ x, x) c) as Hid by by destruct c.
  unfold attempt, apply_default_timer, get_ephemeral_timer.
  rewrite run_bind, run_bind_gets. unfold id. rewrite run_bind.
  destruct (chats c !! chat_id) as [row|]; cbn [or_bail]; [|eexists; by rewrite <-Hid].
  unfold mret, cmd_ret. cbn iota beta. rewrite run_bind. unfold ensure.
  destruct (_ && _); [|eexists; by rewrite <-Hid].
  unfold mret, cmd_ret. destruct (negb _); [eexists; by rewrite <-Hid|]. rewrite run_bind_gets.
  case_decide; [eexists; by rewrite <-Hid|]. rewrite run_bind_gets.
  destruct (sent_before _ _ _); [eexists; by rewrite <-Hid|].
  unfold inner_set_ephemeral_timer, ensure. rewrite run_bind.
  destruct (negb _); [by eexists|eexists; by rewrite <-Hid].
Qed.

(** C11: a conversation set to end-to-end only never sends cleartext: when the
    strictest mode among the global setting and the overrides of the chat's
    contacts is Strict, and the message is not one of the protocol's own
    plaintext messages, then whatever the renderer returns and whatever the
    composer chose, a message that leaves is encrypted. *)
Theorem strict_never_cleartext {A} (is_encrypted : A → bool)
    (render : Ctx → Param.t → result (option A))
    (msg_id chat_id : Z) (state : MessageState.t) (param : Param.t) (c c' : Ctx) (rendered_msg : A) :
  send_gate is_encrypted render msg_id chat_id state param c = (c', Ok (Some rendered_msg)) →
  EncryptionMode.effective c (get_chat_contacts c chat_id) = EncryptionMode.Strict →
  Param.get_bool (Param.force_plaintext param) = false →
  is_encrypted rendered_msg = true.
Proof.
  intros Hrun Heff Hfp. unfold send_gate in Hrun. rewrite run_bind_gets, run_bind in Hrun.
  pose proof (prepare_send_reads msg_id param (get_chat_contacts c chat_id) c) as Hread.
  destruct (prepare_send _ _ _ c) as [c1 [[p' mode]|e]] eqn:Hp; [|done]. cbn in Hread. subst c1.
  destruct (prepare_send_strict _ _ _ _ _ _ Hp Heff Hfp) as [Hneed _].
  rewrite run_bind in Hrun.
  destruct (apply_default_timer_frame chat_id msg_id (get_chat_contacts c chat_id) c) as [f Hf].
  destruct (attempt _ c) as [c2 [o|e]]; [|done]. cbn in Hf. subst c2.
  rewrite run_bind_gets in Hrun. change (needs_encryption (set_chats f c) p') with (needs_encryption c p') in Hrun.
  rewrite Hneed, run_bind_gets in Hrun.
  destruct (render _ p') as [[a|]|e]; [|done|done].
  destruct (is_encrypted a) eqn:Ha; cbn in Hrun; [|done]. by injection Hrun as _ <-.
Qed.

(** ** Read receipts *)

Lemma get_contact_is_Some c id contact :
  get_contact c id = Some contact → is_Some (Store.contacts c !! id).
Proof. unfold get_contact. intros (r & Hr & _)%bind_Some. eauto. Qed.

Lemma should_send_mdn_run contact_id c :
  ∃ b, should_send_mdn contact_id c = (c, Ok b) ∧
  (b = true ↔
    MdnPolicy.load c ≠ MdnPolicy.Never
    ∧ match mdn_for_contact c contact_id with
      | Some enabled => enabled = true
      | None => MdnPolicy.load c = MdnPolicy.Always
                ∨ ∃ contact, get_contact c contact_id = Some contact
                             ∧ is_verified c contact_id = Some true
                             ∧ Origin.is_known (Contact.origin contact) = true
      end).
Proof.
  unfold should_send_mdn. rewrite run_bind_gets. unfold id. cbn zeta.
  case_decide as Hn; [exists false; split; [done|]; split; [done|tauto]|].
  destruct (mdn_for_contact c contact_id) as [e|]; [exists e; split; [done|]; tauto|].
  destruct (MdnPolicy.load c); [done| |exists true; split; [done|]; split; auto].
  destruct (get_contact c contact_id) as [contact|] eqn:Hc.
  - assert (∃ v, is_verified c contact_id = Some v) as [v Hv].
    { unfold is_verified. case_decide; [eauto|]. destruct (get_contact_is_Some _ _ _ Hc) as [r ->]. cbn. eauto. }
    rewrite Hv. cbn [or_bail]. rewrite run_bind_ret. eexists. split; [done|]. rewrite andb_true_iff. split.
    + intros [-> ?]. split; [done|]. right. eauto.
    + intros [_ [?|(? & ? & Hv' & ?)]]; [done|]. simplify_eq. done.
  - exists false. split; [done|]. split; [done|]. intros [_ [?|(? & ? & _)]]; done.
Qed.

(** A read receipt goes out exactly when receipts are on, and the contact's
    override says so or, without one, the policy is Always or the contact is
    verified and known; the decision never fails and changes nothing. *)
Theorem read_receipt_iff (contact_id : Z) (c : Ctx) :
  ∃ b, should_send_mdn contact_id c = (c, Ok b) ∧
  (b = true ↔
    get_config_bool c Config.MdnsEnabled = true
    ∧ get_config_int c Config.MdnPolicy ≠ 0%Z
    ∧ match mdn_for_contact c contact_id with
      | Some enabled => enabled = true
      | None => get_config_int c Config.MdnPolicy ≠ 1%Z
                ∨ ∃ contact, get_contact c contact_id = Some contact
                             ∧ is_verified c contact_id = Some true
                             ∧ Origin.is_known (Contact.origin contact) = true
      end).
Proof.
  destruct (should_send_mdn_run contact_id c) as (b & Hrun & Hb). exists b. split; [done|].
  rewrite Hb. unfold MdnPolicy.load, MdnPolicy.should_send_mdns, MdnPolicy.from_i64.
  destruct (get_config_bool c Config.MdnsEnabled); cbn [negb]; [|naive_solver].
  destruct (Z.eqb_spec (get_config_int c Config.MdnPolicy) 0) as [->|H0]; [naive_solver|].
  destruct (Z.eqb_spec (get_config_int c Config.MdnPolicy) 1) as [->|H1].
  - destruct (mdn_for_contact c contact_id); naive_solver.
  - destruct (mdn_for_contact c contact_id); naive_solver.
Qed.

(** ** Timers *)

(** A timer that fires no later; [Disabled] never fires. *)
Definition no_later (a b : Timer.t) : Prop :=
  match a, b with
  | _, Timer.Disabled => True
  | Timer.Disabled, Timer.Enabled _ => False
  | Timer.Enabled x, Timer.Enabled y => (x ≤ y)%Z
  end.

Lemma shorter_spec a b : (shorter a b = a ∨ shorter a b = b) ∧ no_later (shorter a b) a ∧ no_later (shorter a b) b.
Proof.
  destruct a as [|x], b as [|y]; cbn; split_and!; auto; try lia.
  destruct (Z.min_spec x y) as [[_ ->]|[_ ->]]; auto.
Qed.

Lemma no_later_trans a b c : no_later a b → no_later b c → no_later a c.
Proof. destruct a, b, c; cbn; (done || lia). Qed.

Lemma shortest_of c contacts start :
  let e := foldl (λ timer id,
    if (id =? ContactId.SELF)%Z then timer
    else match timer_for_contact c id with
         | Some override_timer => shorter timer override_timer
         | None => timer
         end) start contacts in
  (e = start ∨ ∃ id, id ∈ contacts ∧ id ≠ ContactId.SELF ∧ timer_for_contact c id = Some e)
  ∧ no_later e start
  ∧ ∀ id t, id ∈ contacts → id ≠ ContactId.SELF → timer_for_contact c id = Some t → no_later e t.
Proof.
  cbn zeta. revert start. induction contacts as [|i ids IH]; intros start; cbn [foldl].
  { split_and!; [by left|by destruct start; cbn|]. intros ? ? Hin. by apply not_elem_of_nil in Hin. }
  match goal with |- context [foldl ?f ?s ids] => set (start' := s); destruct (IH start') as (Hor & Hle & Hall) end.
  set (e := foldl _ _ ids) in *. clearbody e.
  assert ((start' = start ∨ (i ≠ ContactId.SELF ∧ timer_for_contact c i = Some start')) ∧ no_later start' start
    ∧ ∀ t, i ≠ ContactId.SELF → timer_for_contact c i = Some t → no_later start' t) as (Hs & Hls & Hlt).
  { unfold start'. destruct (Z.eqb_spec i ContactId.SELF) as [->|Hi].
    - split_and!; [by left|by destruct start; cbn|done].
    - destruct (timer_for_contact c i) as [t|]; [|split_and!; [by left|by destruct start; cbn|done]].
      destruct (shorter_spec start t) as ([->| ->] & ? & ?); split_and!; auto;
        intros ? _ [= <-]; done. }
  split_and!.
  - destruct Hor as [->|(j & Hj & Hne & Hf)]; [|right; exists j; split_and!; [by right|done|done]].
    destruct Hs as [->|[Hne Hf]]; [by left|]. right. exists i. split_and!; [by left|done|done].
  - by eapply no_later_trans.
  - intros j t [->|Hj]%elem_of_cons Hne Hf; [|by eapply Hall].
    eapply no_later_trans; [exact Hle|by apply Hlt].
Qed.

(** A conversation that is written to for the first time starts with the
    shortest of the default timer and the overrides of its contacts, and that
    timer is no longer than any of them; a conversation that has a timer, or to
    which something was sent before, keeps what it has, so that a timer turned
    off stays off. *)
Theorem first_message_sets_timer (chat_id msg_id : Z) (contacts : list Z) (c : Ctx) (r : ChatRow.t) :
  chats c !! chat_id = Some r → chat_is_special chat_id = false →
  (0 ≤ ChatRow.ephemeral_timer r ≤ u32_max)%Z →
  let e := effective_default_timer c contacts in
  apply_default_timer chat_id msg_id contacts c
  = ((if (ChatRow.ephemeral_timer r =? 0)%Z && negb (sent_before c chat_id msg_id)
         && negb (bool_decide (e = Timer.Disabled))
      then set_chats (alter (with_chat_timer (Timer.to_u32 e)) chat_id) c else c), Ok tt)
  ∧ (e = default_timer c
     ∨ ∃ id, id ∈ contacts ∧ id ≠ ContactId.SELF ∧ timer_for_contact c id = Some e)
  ∧ no_later e (default_timer c)
  ∧ ∀ id t, id ∈ contacts → id ≠ ContactId.SELF → timer_for_contact c id = Some t → no_later e t.
Proof.
  intros Hr Hs Hb e. split; [|exact (shortest_of c contacts (default_timer c))].
  unfold apply_default_timer, get_ephemeral_timer. rewrite run_bind, run_bind_gets. unfold id.
  rewrite run_bind, Hr. cbn [or_bail]. unfold mret at 1, cmd_ret at 1. cbn iota beta.
  assert ((0 <=? ChatRow.ephemeral_timer r)%Z && (ChatRow.ephemeral_timer r <=? u32_max)%Z = true) as ->.
  { apply andb_true_intro. split; apply Z.leb_le; lia. }
  cbn [ensure]. rewrite run_bind_ret. unfold mret at 1, cmd_ret at 1. unfold Timer.from_u32.
  destruct (Z.eqb_spec (ChatRow.ephemeral_timer r) 0) as [H0|H0]; [|done].
  rewrite bool_decide_true by done. cbn [negb andb]. rewrite run_bind_gets. fold e.
  destruct (decide (e = Timer.Disabled)) as [He|He].
  { rewrite (bool_decide_true (e = Timer.Disabled)) by done. by rewrite andb_false_r. }
  rewrite run_bind_gets, (bool_decide_false (e = Timer.Disabled)) by done.
  destruct (sent_before c chat_id msg_id); [done|].
  unfold inner_set_ephemeral_timer. rewrite Hs. cbn [negb ensure]. by rewrite run_bind_ret.
Qed.

(** The default timer set is the default timer in force for every duration
    an [i32] holds; a longer one, which the setter accepts, is read back as no
    timer at all. *)
Theorem default_timer_read_back (c : Ctx) (duration : Z) :
  env c !! env_key (Config.as_ref Config.EphemeralDefaultSeconds) = None →
  (0 < duration ≤ u32_max)%Z →
  default_timer (final (set_default_timer (Timer.Enabled duration)) c)
  = if (duration <=? i32_max)%Z then Timer.Enabled duration else Timer.Disabled.
Proof.
  intros He Hd. unfold final, set_default_timer, default_timer, get_config_int. cbn [Timer.to_u32].
  destruct (set_config_run Config.EphemeralDefaultSeconds (show_Z duration) c eq_refl) as [q ->].
  cbn [fst]. rewrite get_config_after_set, decide_True, He by done. cbn [mbind option_bind].
  unfold parse_i32. rewrite parse_signed_show. unfold timer_from_secs, u32_max, i32_max, i32_min in *.
  destruct (Z.leb_spec (-2147483648) duration) as [H1|H1]; [|lia].
  destruct (Z.leb_spec duration 2147483647) as [H2|H2]; [|done]. cbn [andb]. change (default 0%Z (Some duration)) with duration.
  destruct (Z.ltb_spec 0 duration); [|lia]. cbn [andb].
  destruct (Z.leb_spec duration 4294967295); [done|lia].
Qed.

(** ** An account with a correspondent marked end-to-end only *)

Definition lawyer : ContactRow.t :=
  ContactRow.mk [] (lit "law@x") 1024 false 5 [] (lit "ABCD") 0.

Definition lawyer_account : Ctx :=
  let c := set_contacts <[10%Z := lawyer]> empty_ctx in
  let c := set_chats <[10%Z := ChatRow.mk 100 [] [] 0 0 [] 0 0]> c in
  let c := set_chats_contacts (λ t, {[ (10, 10)%Z ]} ∪ t) c in
  let c := final (EncryptionMode.set EncryptionMode.Lenient) c in
  let c := final (EncryptionMode.set_for_contact 10 (Some EncryptionMode.Strict)) c in
  let c := final (set_default_timer (Timer.Enabled 604800)) c in
  final (set_timer_for_contact 10 (Some (Timer.Enabled 3600))) c.

Definition plain_param : Param.t := Param.mk true None None.

(** A renderer that does what the parameters and the chat ask for. *)
Definition obedient (c : Ctx) (p : Param.t) : result (option bool) :=
  Ok (Some (mime_is_encrypted p true)).

Lemma strict_never_cleartext_witness :
  outcome (send_gate id obedient 20 10 MessageState.OutPending plain_param) lawyer_account = Ok (Some true)
  ∧ outcome (send_gate id (λ _ _, Ok (Some false)) 20 10 MessageState.OutPending plain_param) lawyer_account
    = Err "e2e encryption unavailable".
Proof.
  split; [|vm_compute; reflexivity].
  destruct (send_gate id obedient 20 10 MessageState.OutPending plain_param lawyer_account) as [c' [[b|]|e]] eqn:E.
  - pose proof (strict_never_cleartext id obedient 20 10 MessageState.OutPending plain_param lawyer_account c' b E) as Hb.
    cbv [id] in Hb. rewrite Hb in E by (vm_compute; reflexivity). unfold outcome. rewrite E. reflexivity.
  - vm_compute in E. discriminate E.
  - vm_compute in E. discriminate E.
Defined.

Lemma first_message_sets_timer_witness :
  chats (final (apply_default_timer 10 20 [10%Z]) lawyer_account) !! 10%Z
  = Some (ChatRow.mk 100 [] [] 0 3600 [] 0 0).
Proof.
  destruct (first_message_sets_timer 10 20 [10%Z] lawyer_account (ChatRow.mk 100 [] [] 0 0 [] 0 0))
    as [H _]; [vm_compute; reflexivity|vm_compute; reflexivity|vm_compute; split; discriminate|].
  unfold final. rewrite H. vm_compute. reflexivity.
Defined.

Lemma default_timer_read_back_witness :
  default_timer (final (set_default_timer (Timer.Enabled 2147483648)) empty_ctx) = Timer.Disabled.
Proof.
  rewrite (default_timer_read_back empty_ctx 2147483648);
    [reflexivity|vm_compute; reflexivity|vm_compute; split; [reflexivity|discriminate]].
Defined.
