(* ===== verification/Compose.v ===== *)
(** * Compose: the recipient set of a message and who it is sent to,
    [core/src/email/recipients.rs] and [core/src/email/compose.rs], the padlock
    checks of [core/src/email/sendopts.rs], and the addressing of a message to
    a one-to-one chat by [MimeFactory::from_msg] ([core/src/mimefactory.rs]). *)

From S2P Require Import Prelude Text Store Policy Receipts.

(** ** Recipient sets *)

Module RecipientKind.
Inductive t := To | Cc | Bcc.

#[global] Instance eq_dec : EqDecision t.
Proof. solve_decision. Defined.

Definition to_i64 (k : t) : Z := match k with To => 0 | Cc => 1 | Bcc => 2 end.

Definition from_i64 (value : Z) : option t :=
  if (value =? 0)%Z then Some To else if (value =? 1)%Z then Some Cc
  else if (value =? 2)%Z then Some Bcc else None.
End RecipientKind.

Module Recipient.
Record t := mk { kind : RecipientKind.t; addr : str; name : str }.
End Recipient.

Module Recipients.
(** [INSERT .. ON CONFLICT(msg_id, kind, addr) DO NOTHING] *)
Definition insert_recipient (msg_id ord : Z) (r : Recipient.t)
    (t : gmap (Z * Z * str) (str * Z)) : gmap (Z * Z * str) (str * Z) :=
  let key := (msg_id, RecipientKind.to_i64 (Recipient.kind r), Recipient.addr r) in
  match t !! key with
  | Some _ => t
  | None => <[key := (Recipient.name r, ord)]> t
  end.

Definition store (msg_id : Z) (recipients : list Recipient.t) : cmd Ctx unit :=
  transaction
    (modify (set_msg_recipients (filter (λ kv, kv.1.1.1 ≠ msg_id))) ;;
     for_each (imap (λ ord r, (Z.of_nat ord, r)) recipients) (λ '(ord, r),
       modify (set_msg_recipients (insert_recipient msg_id ord r)))).

(** [ORDER BY kind, ord] *)
Definition recipient_leb (a b : (Z * Z * str) * (str * Z)) : bool :=
  lex_leb (a.1.1.2, a.2.2) (b.1.1.2, b.2.2).

Definition recipient_of_row (r : (Z * Z * str) * (str * Z)) : option Recipient.t :=
  kind ← RecipientKind.from_i64 r.1.1.2;
  Some (Recipient.mk kind r.1.2 r.2.1).

Definition load (c : Ctx) (msg_id : Z) : list Recipient.t :=
  omap recipient_of_row
    (sort_by recipient_leb
       (filter (λ r, r.1.1.1 = msg_id) (map_to_list (msg_recipients c)))).

Definition load_kind (c : Ctx) (msg_id : Z) (kind : RecipientKind.t) : list Recipient.t :=
  filter (λ r, Recipient.kind r = kind) (load c msg_id).

Definition delete (msg_id : Z) : cmd Ctx unit :=
  modify (set_msg_recipients (filter (λ kv, kv.1.1.1 ≠ msg_id))).

Definition prune : cmd Ctx unit :=
  modify (λ c, set_msg_recipients (filter (λ kv, live_msg c kv.1.1.1 = true)) c).

End Recipients.

(** ** Addresses *)

(** [split_addr]: [Name <addr>]; anything else is taken whole. *)
Definition split_addr (input : str) : str * str :=
  match rsplit_once 60 input with
  | Some (name, rest) =>
      match rsplit_once 62 rest with
      | Some (addr, _) => (trim_matches 34 (trim name), trim addr)
      | None => ([], input)
      end
  | None => ([], input)
  end.

(** [str::strip_prefix] of a literal *)
Fixpoint strip_str (prefix s : str) : option str :=
  match prefix, s with
  | [], _ => Some s
  | x :: prefix, y :: s => if decide (x = y) then strip_str prefix s else None
  | _ :: _, [] => None
  end.

Module RecipientSet.
Record t := mk { to : list str; cc : list str; bcc : list str }.
End RecipientSet.

Module Readiness.
Record t := mk { mode : EncryptionMode.t; missing : list str; locked : bool }.
End Readiness.

Module ExtraRecipient.
Record t := mk { name : str; addr : str; key : option str }.
End ExtraRecipient.

Module ExtraRecipients.
Record t := mk { cc : list ExtraRecipient.t; bcc : list ExtraRecipient.t }.
End ExtraRecipients.

(** What [from_msg] addresses: the To and Cc headers, the envelope, and
    whether it encrypts. *)
Module Envelope.
Record t := mk {
  to : list (str * str);
  cc : list (str * str);
  recipients : list str;
  is_encrypted : bool;
}.
End Envelope.

Section compose.
Context `{!UnicodeCase, !SqlChoice}.
(** The relays a public key, named by its fingerprint, announces. *)
Context (addresses_from_public_key : str → option (list str)).

Definition addr_normalize (addr : str) : str :=
  let norm := to_lowercase (trim addr) in
  default norm (strip_str (lit "mailto:") norm).

(** [ORDER BY last_seen DESC LIMIT 1]: any of the most recently seen. *)
Definition key_contact_for (c : Ctx) (addr : str) : option Z :=
  let rows := filter (λ r, eq_ignore_ascii_case (ContactRow.addr r.2) addr = true
                           ∧ ContactRow.fingerprint r.2 ≠ []
                           ∧ (ContactId.LAST_SPECIAL < r.1)%Z
                           ∧ ContactRow.blocked r.2 = false) (contact_rows c) in
  fst <$> pick (filter (λ r, Forall (λ r', (ContactRow.last_seen r'.2 ≤ ContactRow.last_seen r.2)%Z)
                               rows) rows).

Definition contacts_for (c : Ctx) (addr : str) : list Z :=
  (filter (λ r, eq_ignore_ascii_case (ContactRow.addr r.2) addr = true
                ∧ (ContactId.LAST_SPECIAL < r.1)%Z) (contact_rows c)).*1.

(** [LIMIT 1] without an order: any contact of the address that has a
    fingerprint; its key may still not be held. *)
Definition lookup_key (c : Ctx) (addr : str) : option str :=
  row ← pick (filter (λ r, ContactRow.addr r.2 = addr ∧ ContactRow.fingerprint r.2 ≠ [])
                (contact_rows c));
  if decide (ContactRow.fingerprint row.2 ∈ public_keys c)
  then Some (ContactRow.fingerprint row.2) else None.

Definition readiness (c : Ctx) (recipients : RecipientSet.t) : Readiness.t :=
  let typed := filter (λ t, t ≠ [])
    (trim <$> RecipientSet.to recipients ++ RecipientSet.cc recipients ++ RecipientSet.bcc recipients) in
  let addr_of t := addr_normalize (split_addr t).2 in
  let ids := typed ≫= λ t, contacts_for c (addr_of t) in
  let mode := EncryptionMode.effective c ids in
  Readiness.mk mode (filter (λ t, key_contact_for c (addr_of t) = None) typed)
    (bool_decide (mode = EncryptionMode.Strict)).

Definition check (recipients : RecipientSet.t) (options : SendOptions.t) : cmd Ctx unit :=
  match SendOptions.encryption options with
  | EncryptionChoice.Auto => mret tt
  | EncryptionChoice.Required =>
      ready ← gets (λ c, readiness c recipients);
      ensure (is_empty (Readiness.missing ready)) "cannot send encrypted: no key for"
  | EncryptionChoice.Plaintext =>
      ready ← gets (λ c, readiness c recipients);
      ensure (negb (Readiness.locked ready))
        "cannot send unencrypted: encryption is set to end-to-end only for this message's recipients"
  end.

(** The loop of [extra_recipients]. *)
Fixpoint add_extra (c : Ctx) (already seen : list str) (stored : list Recipient.t)
    (extra : ExtraRecipients.t) : ExtraRecipients.t :=
  match stored with
  | [] => extra
  | r :: stored =>
      if decide (Recipient.kind r = RecipientKind.To) then add_extra c already seen stored extra
      else
        let addr := addr_normalize (Recipient.addr r) in
        if decide (addr ∈ already ∨ addr ∈ seen) then add_extra c already seen stored extra
        else
          let entry := ExtraRecipient.mk (Recipient.name r) addr (lookup_key c addr) in
          add_extra c already (addr :: seen) stored
            match Recipient.kind r with
            | RecipientKind.Bcc =>
                ExtraRecipients.mk (ExtraRecipients.cc extra) (ExtraRecipients.bcc extra ++ [entry])
            | _ =>
                ExtraRecipients.mk (ExtraRecipients.cc extra ++ [entry]) (ExtraRecipients.bcc extra)
            end
  end.

Definition extra_recipients (c : Ctx) (msg_id : Z) (already : list str) : ExtraRecipients.t :=
  add_extra c (addr_normalize <$> already) [] (Recipients.load c msg_id) (ExtraRecipients.mk [] []).

(** [MimeFactory::from_msg], the addressing of a user's message to a
    one-to-one chat with [contact_id]: the member's row, the copies the
    composer stored, and the removal of those without a key from an encrypted
    message.  The origins it raises, the member lists of groups and the other
    fields of the factory are not part of it. *)
Definition from_msg (attach_profile_data : bool) (c : Ctx) (msg_id contact_id : Z) (param : Param.t)
    : result Envelope.t :=
  match Store.contacts c !! contact_id with
  | None => Err "invalid column type"
  | Some row =>
      let addr := ContactRow.addr row in
      let is_encrypted := mime_is_encrypted param (negb (is_empty (ContactRow.fingerprint row))) in
      let key := if decide (ContactRow.fingerprint row ∈ public_keys c)
                 then Some (ContactRow.fingerprint row) else None in
      let recipients := default [addr] (key ≫= addresses_from_public_key) in
      let to := [(if attach_profile_data then ContactRow.authname row else [], addr)] in
      let extra := extra_recipients c msg_id recipients in
      let copies := ExtraRecipients.cc extra ++ ExtraRecipients.bcc extra in
      let cc := (λ e, (ExtraRecipient.name e, ExtraRecipient.addr e)) <$> ExtraRecipients.cc extra in
      let keys := option_list key ++ omap ExtraRecipient.key copies in
      let missing_key_addresses :=
        match key with Some _ => [] | None => [addr] end
        ++ (ExtraRecipient.addr <$> filter (λ e, ExtraRecipient.key e = None) copies) in
      let recipients := recipients ++ (ExtraRecipient.addr <$> copies) in
      if negb is_encrypted then Ok (Envelope.mk to cc recipients false)
      else if is_empty keys && negb (is_empty recipients)
      then Err "No recipient keys are available, cannot encrypt"
      else Ok (Envelope.mk to cc (filter (λ a, a ∉ missing_key_addresses) recipients) true)
  end.

(** Sending to a one-to-one chat: the gate of [create_send_msg_jobs] around
    [from_msg]; without recipients and without a copy to self nothing is sent. *)
Definition send_single (attach_profile_data : bool) (msg_id chat_id contact_id : Z)
    (state : MessageState.t) (param : Param.t) : cmd Ctx (option Envelope.t) :=
  send_gate Envelope.is_encrypted (λ c param,
    match from_msg attach_profile_data c msg_id contact_id param with
    | Err e => Err e
    | Ok env =>
        if negb (get_config_bool c Config.BccSelf) && is_empty (Envelope.recipients env)
        then Ok None else Ok (Some env)
    end) msg_id chat_id state param.

(** ** Copies *)

(** Where an entry of the extra recipients comes from. *)
Definition entry_of (c : Ctx) (already : list str) (stored : list Recipient.t)
    (kind : RecipientKind.t) (e : ExtraRecipient.t) : Prop :=
  ∃ r, r ∈ stored ∧ Recipient.kind r = kind
       ∧ ExtraRecipient.addr e = addr_normalize (Recipient.addr r)
       ∧ ExtraRecipient.name e = Recipient.name r
       ∧ ExtraRecipient.key e = lookup_key c (ExtraRecipient.addr e)
       ∧ ExtraRecipient.addr e ∉ already.

Lemma entry_of_cons c already r stored kind e :
  entry_of c already stored kind e → entry_of c already (r :: stored) kind e.
Proof. intros (r' & Hr & Hrest). exists r'. split; [by right|done]. Qed.

Lemma add_extra_sound c already seen stored extra :
  let res := add_extra c already seen stored extra in
  (∀ e, e ∈ ExtraRecipients.cc res →
     e ∈ ExtraRecipients.cc extra ∨ entry_of c already stored RecipientKind.Cc e)
  ∧ (∀ e, e ∈ ExtraRecipients.bcc res →
     e ∈ ExtraRecipients.bcc extra ∨ entry_of c already stored RecipientKind.Bcc e).
Proof.
  cbn zeta. revert seen extra. induction stored as [|r stored IH]; intros seen extra; cbn [add_extra].
  { split; auto. }
  assert (∀ seen extra,
    (∀ e, e ∈ ExtraRecipients.cc (add_extra c already seen stored extra) →
       e ∈ ExtraRecipients.cc extra ∨ entry_of c already (r :: stored) RecipientKind.Cc e)
    ∧ (∀ e, e ∈ ExtraRecipients.bcc (add_extra c already seen stored extra) →
       e ∈ ExtraRecipients.bcc extra ∨ entry_of c already (r :: stored) RecipientKind.Bcc e)) as IH'.
  { intros seen' extra'. destruct (IH seen' extra') as [H1 H2]. split; intros e He.
    - destruct (H1 e He); [by left|right; by apply entry_of_cons].
    - destruct (H2 e He); [by left|right; by apply entry_of_cons]. }
  case_decide as Hk; [apply IH'|]. case_decide as Hs; [apply IH'|].
  set (entry := ExtraRecipient.mk _ _ _).
  assert (entry_of c already (r :: stored) (Recipient.kind r) entry) as Hent.
  { exists r. split_and!; [by left|done..|]. cbn. tauto. }
  clear IH. destruct (Recipient.kind r); [done| |].
  - destruct (IH' (addr_normalize (Recipient.addr r) :: seen)
      (ExtraRecipients.mk (ExtraRecipients.cc extra ++ [entry]) (ExtraRecipients.bcc extra))) as [H1 H2].
    split; [|exact H2]. intros e He. destruct (H1 e He) as [[?|Hin]%elem_of_app|?]; [by left| |by right].
    apply list_elem_of_singleton in Hin as ->. by right.
  - destruct (IH' (addr_normalize (Recipient.addr r) :: seen)
      (ExtraRecipients.mk (ExtraRecipients.cc extra) (ExtraRecipients.bcc extra ++ [entry]))) as [H1 H2].
    split; [exact H1|]. intros e He. destruct (H2 e He) as [[?|Hin]%elem_of_app|?]; [by left| |by right].
    apply list_elem_of_singleton in Hin as ->. by right.
Qed.

Definition copies (x : ExtraRecipients.t) : list ExtraRecipient.t :=
  ExtraRecipients.cc x ++ ExtraRecipients.bcc x.

Lemma add_extra_complete c already seen stored extra :
  (∀ a, a ∈ seen → a ∈ ExtraRecipient.addr <$> copies extra) →
  let res := add_extra c already seen stored extra in
  (∀ a, a ∈ ExtraRecipient.addr <$> copies extra → a ∈ ExtraRecipient.addr <$> copies res)
  ∧ ∀ r, r ∈ stored → Recipient.kind r ≠ RecipientKind.To →
      addr_normalize (Recipient.addr r) ∉ already →
      addr_normalize (Recipient.addr r) ∈ ExtraRecipient.addr <$> copies res.
Proof.
  cbn zeta. revert seen extra. induction stored as [|r stored IH]; intros seen extra Hseen; cbn [add_extra].
  { split; [done|]. intros ? Hin. by apply not_elem_of_nil in Hin. }
  case_decide as Hk; [|case_decide as Hs].
  - destruct (IH seen extra Hseen) as [H1 H2]. split; [done|]. intros r' [->|Hr]%elem_of_cons; auto. done.
  - destruct (IH seen extra Hseen) as [H1 H2]. split; [done|].
    intros r' [->|Hr]%elem_of_cons; [|by apply H2]. intros _ Hna.
    destruct Hs as [?|Hs]; [done|]. by apply H1, Hseen.
  - set (entry := ExtraRecipient.mk _ _ _).
    match goal with |- context [add_extra c already ?s stored ?x] =>
      set (extra' := x); destruct (IH s extra') as [H1 H2] end.
    + intros a [->|Ha]%elem_of_cons.
      * apply list_elem_of_fmap. exists entry. split; [done|]. unfold extra', copies.
        destruct (Recipient.kind r); [done|..]; cbn; set_solver.
      * apply Hseen in Ha. unfold extra', copies in *. destruct (Recipient.kind r); [done|..]; cbn; set_solver.
    + assert (∀ a, a ∈ ExtraRecipient.addr <$> copies extra → a ∈ ExtraRecipient.addr <$> copies extra') as Hext.
      { intros a Ha. unfold extra', copies in *. destruct (Recipient.kind r); [done|..]; cbn; set_solver. }
      split; [intros a Ha; by apply H1, Hext|].
      intros r' [->|Hr]%elem_of_cons; [|by apply H2]. intros _ _. apply H1.
      apply list_elem_of_fmap. exists entry. split; [done|]. unfold extra', copies.
      destruct (Recipient.kind r); [done|..]; cbn; set_solver.
Qed.

(** The addresses the chat's member is reached at. *)
Definition member_addresses (c : Ctx) (row : ContactRow.t) : list str :=
  default [ContactRow.addr row]
    ((if decide (ContactRow.fingerprint row ∈ public_keys c)
      then Some (ContactRow.fingerprint row) else None) ≫= addresses_from_public_key).

Lemma from_msg_inv attach c msg_id contact_id param row env :
  Store.contacts c !! contact_id = Some row →
  from_msg attach c msg_id contact_id param = Ok env →
  let x := extra_recipients c msg_id (member_addresses c row) in
  Envelope.to env = [(if attach then ContactRow.authname row else [], ContactRow.addr row)]
  ∧ Envelope.cc env = (λ e, (ExtraRecipient.name e, ExtraRecipient.addr e)) <$> ExtraRecipients.cc x
  ∧ ∃ missing : list str,
      (∀ a, a ∈ missing ↔ (ContactRow.fingerprint row ∉ public_keys c ∧ a = ContactRow.addr row)
            ∨ a ∈ ExtraRecipient.addr <$> filter (λ e, ExtraRecipient.key e = None) (copies x))
      ∧ Envelope.recipients env
        = if Envelope.is_encrypted env
          then filter (λ a, a ∉ missing) (member_addresses c row ++ (ExtraRecipient.addr <$> copies x))
          else member_addresses c row ++ (ExtraRecipient.addr <$> copies x).
Proof.
  intros Hrow Hrun. unfold from_msg in Hrun. rewrite Hrow in Hrun. cbn zeta in Hrun.
  fold (member_addresses c row) in Hrun. fold (copies (extra_recipients c msg_id (member_addresses c row))) in Hrun.
  cbn zeta. set (x := extra_recipients c msg_id (member_addresses c row)) in *.
  set (key := if decide (ContactRow.fingerprint row ∈ public_keys c) then _ else _) in *.
  set (missing := match key with Some _ => [] | None => [ContactRow.addr row] end
       ++ (ExtraRecipient.addr <$> filter (λ e, ExtraRecipient.key e = None) (copies x))) in *.
  assert (∀ a, a ∈ missing ↔ (ContactRow.fingerprint row ∉ public_keys c ∧ a = ContactRow.addr row)
            ∨ a ∈ ExtraRecipient.addr <$> filter (λ e, ExtraRecipient.key e = None) (copies x)) as Hk.
  { intros a. unfold missing. rewrite elem_of_app. unfold key. destruct (decide _) as [Hin|Hin].
    - rewrite elem_of_nil. naive_solver.
    - rewrite list_elem_of_singleton. naive_solver. }
  destruct (negb (mime_is_encrypted _ _)); [|destruct (_ && _); [done|]];
    injection Hrun as <-; (split_and!; [done|done|]); cbn; by exists missing.
Qed.

Lemma extra_entry c msg_id already e :
  e ∈ copies (extra_recipients c msg_id already) →
  ∃ r, r ∈ Recipients.load c msg_id ∧ Recipient.kind r ≠ RecipientKind.To
       ∧ ExtraRecipient.addr e = addr_normalize (Recipient.addr r)
       ∧ ExtraRecipient.key e = lookup_key c (ExtraRecipient.addr e)
       ∧ ExtraRecipient.addr e ∉ addr_normalize <$> already.
Proof.
  destruct (add_extra_sound c (addr_normalize <$> already) [] (Recipients.load c msg_id)
              (ExtraRecipients.mk [] [])) as [H1 H2].
  intros [He|He]%elem_of_app.
  - destruct (H1 e He) as [Hin|(r & Hr & Hk & Ha & _ & Hkey & Hna)]; [by apply not_elem_of_nil in Hin|].
    exists r. split_and!; [done|congruence|done|done|done].
  - destruct (H2 e He) as [Hin|(r & Hr & Hk & Ha & _ & Hkey & Hna)]; [by apply not_elem_of_nil in Hin|].
    exists r. split_and!; [done|congruence|done|done|done].
Qed.

(** C22: who a message reaches.  The envelope holds the addresses of the chat's
    member and the stored copies and nothing else.  The member is in it unless
    the message is encrypted and no key of the member is held (addresses of an
    encrypted message in normal form), and every copy the
    member's addresses do not already cover is in it unless the message is
    encrypted and no key is held for it.  The To header has the member, the Cc
    header only stored Cc, so that a blind copy is in no header.  A further To
    address of the recipient set is in neither. *)
Theorem envelope_exact (attach : bool) (c : Ctx) (msg_id contact_id : Z) (param : Param.t)
    (row : ContactRow.t) (env : Envelope.t) :
  Store.contacts c !! contact_id = Some row →
  from_msg attach c msg_id contact_id param = Ok env →
  (∀ a, a ∈ Envelope.recipients env →
     a ∈ member_addresses c row
     ∨ ∃ r, r ∈ Recipients.load c msg_id ∧ Recipient.kind r ≠ RecipientKind.To
            ∧ a = addr_normalize (Recipient.addr r))
  ∧ (∀ a, a ∈ member_addresses c row → addr_normalize a = a ∨ Envelope.is_encrypted env = false →
       a ∈ Envelope.recipients env
       ↔ Envelope.is_encrypted env = false ∨ ContactRow.fingerprint row ∈ public_keys c)
  ∧ (Envelope.to env).*2 = [ContactRow.addr row]
  ∧ (∀ a, a ∈ (Envelope.cc env).*2 →
       ∃ r, r ∈ Recipients.load c msg_id ∧ Recipient.kind r = RecipientKind.Cc
            ∧ a = addr_normalize (Recipient.addr r))
  ∧ (∀ r, r ∈ Recipients.load c msg_id → Recipient.kind r ≠ RecipientKind.To →
       let a := addr_normalize (Recipient.addr r) in
       a ∉ addr_normalize <$> member_addresses c row → a ≠ ContactRow.addr row →
       a ∉ member_addresses c row →
       a ∈ Envelope.recipients env ↔ Envelope.is_encrypted env = false ∨ is_Some (lookup_key c a)).
Proof.
  intros Hrow Hrun. destruct (from_msg_inv _ _ _ _ _ _ _ Hrow Hrun) as (Hto & Hcc & missing & Hm & Hrec).
  set (x := extra_recipients c msg_id (member_addresses c row)) in *.
  assert (∀ a, a ∈ Envelope.recipients env →
            a ∈ member_addresses c row ++ (ExtraRecipient.addr <$> copies x)) as Hsub.
  { intros a. rewrite Hrec. destruct (Envelope.is_encrypted env); [|done]. by intros [_ ?]%list_elem_of_filter. }
  split_and!.
  - intros a [Ha|(e & -> & He)%list_elem_of_fmap]%Hsub%elem_of_app; [by left|].
    destruct (extra_entry _ _ _ _ He) as (r & ? & ? & ? & _). right. eauto.
  - intros a Ha Hn. assert (a ∈ member_addresses c row ++ (ExtraRecipient.addr <$> copies x)) as Hin
      by (apply elem_of_app; by left).
    rewrite Hrec. destruct (Envelope.is_encrypted env); [|split; [by left|done]].
    destruct Hn as [Hn|]; [|done]. rewrite list_elem_of_filter, Hm. split.
    + intros [Hmiss _]. right. destruct (decide (ContactRow.fingerprint row ∈ public_keys c)) as [|Hk]; [done|].
      destruct Hmiss. left. split; [done|]. unfold member_addresses in Ha. rewrite decide_False in Ha by done.
      by apply list_elem_of_singleton in Ha.
    + intros [|Hk]; [done|]. split; [|done]. intros [[? _]|(e & -> & [_ He]%list_elem_of_filter)%list_elem_of_fmap]; [done|].
      destruct (extra_entry _ _ _ _ He) as (_ & _ & _ & _ & _ & Hna). apply Hna. rewrite <-Hn.
      by apply list_elem_of_fmap_2.
  - by rewrite Hto.
  - intros a ([n b] & -> & Hin)%list_elem_of_fmap. rewrite Hcc in Hin.
    apply list_elem_of_fmap in Hin as (e & [= -> ->] & He).
    destruct (add_extra_sound c (addr_normalize <$> member_addresses c row) [] (Recipients.load c msg_id)
                (ExtraRecipients.mk [] [])) as [H1 _].
    destruct (H1 e He) as [Hin|(r & Hr & Hk & Ha & _)]; [by apply not_elem_of_nil in Hin|]. eauto.
  - intros r Hr Hk a Hna Hne Hnm.
    destruct (add_extra_complete c (addr_normalize <$> member_addresses c row) [] (Recipients.load c msg_id)
                (ExtraRecipients.mk [] [])) as [_ Hcomp]; [by intros ? ?%not_elem_of_nil|].
    assert (a ∈ ExtraRecipient.addr <$> copies x) as Hin by by apply Hcomp.
    assert (a ∈ missing ↔ lookup_key c a = None) as Hmiss.
    { rewrite Hm. split.
      - intros [[_ ->]|(e & -> & [Hkey He]%list_elem_of_filter)%list_elem_of_fmap]; [done|].
        destruct (extra_entry _ _ _ _ He) as (_ & _ & _ & _ & <- & _). done.
      - intros Hnone. right. apply list_elem_of_fmap in Hin as (e & -> & He).
        apply list_elem_of_fmap. exists e. split; [done|]. apply list_elem_of_filter. split; [|done].
        destruct (extra_entry _ _ _ _ He) as (_ & _ & _ & _ & -> & _). done. }
    rewrite Hrec. destruct (Envelope.is_encrypted env).
    + rewrite list_elem_of_filter, Hmiss, elem_of_app. rewrite not_eq_None_Some. naive_solver.
    + rewrite elem_of_app. naive_solver.
Qed.
End compose.

(** ** Storing and loading *)

Module RecipientsFacts.
Import Recipients.

(** The first mention of each address within a kind. *)
Fixpoint firsts (seen : list (RecipientKind.t * str)) (rs : list Recipient.t) : list Recipient.t :=
  match rs with
  | [] => []
  | r :: rs =>
      if decide ((Recipient.kind r, Recipient.addr r) ∈ seen) then firsts seen rs
      else r :: firsts ((Recipient.kind r, Recipient.addr r) :: seen) rs
  end.

Abbreviation row := ((Z * Z * str) * (str * Z))%type.
Abbreviation table := (gmap (Z * Z * str) (str * Z)).

Definition row_of (msg_id ord : Z) (r : Recipient.t) : row :=
  ((msg_id, RecipientKind.to_i64 (Recipient.kind r), Recipient.addr r), (Recipient.name r, ord)).

(** The rows [store] adds, in the order it adds them. *)
Fixpoint new_rows (msg_id : Z) (seen : list (RecipientKind.t * str)) (ord : nat)
    (rs : list Recipient.t) : list row :=
  match rs with
  | [] => []
  | r :: rs =>
      if decide ((Recipient.kind r, Recipient.addr r) ∈ seen) then new_rows msg_id seen (S ord) rs
      else row_of msg_id (Z.of_nat ord) r
           :: new_rows msg_id ((Recipient.kind r, Recipient.addr r) :: seen) (S ord) rs
  end.

#[global] Instance kind_to_i64_inj : Inj (=) (=) RecipientKind.to_i64.
Proof. intros [] [] ?; done. Qed.

(** The table knows of a message exactly the mentions seen. *)
Definition knows (msg_id : Z) (seen : list (RecipientKind.t * str)) (t : table) : Prop :=
  ∀ k a, is_Some (t !! (msg_id, RecipientKind.to_i64 k, a)) ↔ (k, a) ∈ seen.

Lemma insert_all_rows (msg_id : Z) (rs : list Recipient.t) (seen : list (RecipientKind.t * str)) (ord : nat) (t : table) :
  knows msg_id seen t →
  map_to_list (foldl (λ t p, insert_recipient msg_id p.1 p.2 t) t
                 (imap (λ i r, (Z.of_nat (ord + i), r)) rs))
  ≡ₚ new_rows msg_id seen ord rs ++ map_to_list t.
Proof.
  revert seen ord t. induction rs as [|r rs IH]; intros seen ord t Ht; [done|].
  rewrite imap_cons. cbn [foldl new_rows fst snd].
  assert (imap ((λ i r, (Z.of_nat (ord + i), r)) ∘ S) rs = imap (λ i r, (Z.of_nat (S ord + i), r)) rs) as ->.
  { apply imap_ext. intros i x _. unfold compose. f_equal. lia. }
  rewrite Nat.add_0_r. unfold insert_recipient at 2. cbn zeta.
  pose proof (Ht (Recipient.kind r) (Recipient.addr r)) as Hr.
  destruct (t !! _) as [v|] eqn:E.
  - rewrite decide_True by (apply Hr; eauto). by apply IH.
  - rewrite decide_False by (rewrite <-Hr; by intros [? ?]).
    rewrite (IH ((Recipient.kind r, Recipient.addr r) :: seen)).
    + rewrite map_to_list_insert by done. cbn [app]. symmetry. apply Permutation_middle.
    + intros k a. rewrite elem_of_cons, <-(Ht k a), lookup_insert. case_decide as Hd.
      * injection Hd as Hk <-. apply (inj RecipientKind.to_i64) in Hk as <-. split; eauto.
      * split; [auto|]. intros [[= -> ->]|?]; done.
Qed.

Lemma elem_of_new_rows msg_id seen ord rs x :
  x ∈ new_rows msg_id seen ord rs →
  x.1.1.1 = msg_id ∧ (Z.of_nat ord ≤ x.2.2)%Z ∧ ∃ k, x.1.1.2 = RecipientKind.to_i64 k.
Proof.
  revert seen ord. induction rs as [|r rs IH]; intros seen ord; cbn [new_rows].
  { by intros ?%not_elem_of_nil. }
  case_decide; [intros Hx|intros [->|Hx]%elem_of_cons].
  - destruct (IH _ _ Hx) as (? & ? & ?). split_and!; [done|lia|done].
  - cbn. split_and!; [done|lia|eauto].
  - destruct (IH _ _ Hx) as (? & ? & ?). split_and!; [done|lia|done].
Qed.

Definition of_kind (k : RecipientKind.t) (l : list row) : list row :=
  filter (λ x, x.1.1.2 = RecipientKind.to_i64 k) l.

Definition by_kind (l : list row) : list row :=
  of_kind RecipientKind.To l ++ of_kind RecipientKind.Cc l ++ of_kind RecipientKind.Bcc l.

Lemma by_kind_perm l :
  (∀ x, x ∈ l → ∃ k, x.1.1.2 = RecipientKind.to_i64 k) → by_kind l ≡ₚ l.
Proof.
  unfold by_kind, of_kind. induction l as [|x l IH]; [done|]. intros Hk.
  destruct (Hk x) as [k Hx]; [by left|]. specialize (IH (λ y Hy, Hk y (list_elem_of_further _ _ _ Hy))).
  rewrite !filter_cons, Hx. destruct k; cbn.
  - by apply perm_skip.
  - etrans; [symmetry; apply Permutation_middle|]. by apply perm_skip.
  - rewrite app_assoc. etrans; [symmetry; apply Permutation_middle|]. rewrite <-app_assoc. by apply perm_skip.
Qed.

Definition row_le (a b : row) : Prop := recipient_leb a b.

#[global] Instance row_le_trans : Transitive row_le.
Proof.
  intros x y z. unfold row_le, recipient_leb, lex_leb. rewrite !Is_true_true.
  rewrite !orb_true_iff, !andb_true_iff, !Z.ltb_lt, !Z.eqb_eq, !Z.leb_le. lia.
Qed.

#[global] Instance row_le_total : Total row_le.
Proof.
  intros x y. unfold row_le, recipient_leb, lex_leb. rewrite !Is_true_true.
  rewrite !orb_true_iff, !andb_true_iff, !Z.ltb_lt, !Z.eqb_eq, !Z.leb_le. lia.
Qed.

Lemma row_le_iff (a b : row) :
  row_le a b ↔ (a.1.1.2 < b.1.1.2 ∨ (a.1.1.2 = b.1.1.2 ∧ a.2.2 ≤ b.2.2))%Z.
Proof.
  unfold row_le, recipient_leb, lex_leb. rewrite Is_true_true.
  rewrite orb_true_iff, andb_true_iff, Z.ltb_lt, Z.eqb_eq, Z.leb_le. done.
Qed.

(** Positions grow along the rows. *)
Lemma new_rows_ord msg_id seen ord rs :
  StronglySorted (λ a b : row, (a.2.2 < b.2.2)%Z) (new_rows msg_id seen ord rs).
Proof.
  revert seen ord. induction rs as [|r rs IH]; intros seen ord; cbn [new_rows]; [constructor|].
  case_decide; [apply IH|]. constructor; [apply IH|]. apply Forall_forall. intros x Hx.
  destruct (elem_of_new_rows _ _ _ _ _ Hx) as (_ & ? & _). cbn. lia.
Qed.

Lemma StronglySorted_filter {A} (R : relation A) (P : A → Prop) `{!∀ x, Decision (P x)} (l : list A) :
  StronglySorted R l → StronglySorted R (filter P l).
Proof.
  induction 1 as [|x l Hl IH Hx]; [constructor|]. rewrite filter_cons. case_decide; [|done].
  constructor; [done|]. rewrite Forall_forall in *. intros y [_ Hy]%list_elem_of_filter. by apply Hx.
Qed.

Lemma StronglySorted_app_2 {A} (R : relation A) (l k : list A) :
  StronglySorted R l → StronglySorted R k → (∀ x y, x ∈ l → y ∈ k → R x y) → StronglySorted R (l ++ k).
Proof.
  induction 1 as [|x l Hl IH Hx]; intros Hk Hlk; [done|]. cbn. constructor.
  - apply IH; [done|]. intros a b Ha. apply Hlk. by right.
  - apply Forall_app. split; [done|]. apply Forall_forall. intros y Hy. apply Hlk; [by left|done].
Qed.

Lemma by_kind_sorted l :
  StronglySorted (λ a b : row, (a.2.2 < b.2.2)%Z) l → StronglySorted row_le (by_kind l).
Proof.
  intros Hl.
  assert (∀ k, StronglySorted row_le (of_kind k l)) as Hk.
  { intros k. unfold of_kind. induction Hl as [|x l Hl IH Hx]; [constructor|].
    rewrite filter_cons. case_decide as Hd; [|done]. constructor; [done|].
    rewrite Forall_forall in *. intros y [Hy1 Hy2]%list_elem_of_filter. apply row_le_iff.
    right. rewrite Hd, Hy1. split; [done|]. specialize (Hx y Hy2). lia. }
  assert (∀ k k' x y, x ∈ of_kind k l → y ∈ of_kind k' l →
            (RecipientKind.to_i64 k < RecipientKind.to_i64 k')%Z → row_le x y) as Hlt.
  { intros k k' x y [Hx _]%list_elem_of_filter [Hy _]%list_elem_of_filter Hkk.
    apply row_le_iff. left. by rewrite Hx, Hy. }
  unfold by_kind. repeat apply StronglySorted_app_2; auto.
  - intros x y Hx Hy. by eapply Hlt.
  - intros x y Hx [Hy|Hy]%elem_of_app; by eapply Hlt.
Qed.

(** Sorting the rows groups them by kind, each kind in the order of mention. *)
Lemma sort_new_rows msg_id rs l :
  l ≡ₚ new_rows msg_id [] 0 rs →
  sort_by recipient_leb l = by_kind (new_rows msg_id [] 0 rs).
Proof.
  intros Hl. set (n := new_rows msg_id [] 0 rs) in *.
  pose proof (new_rows_ord msg_id [] 0 rs) as Hord. fold n in Hord.
  assert (∀ x, x ∈ n → ∃ k, x.1.1.2 = RecipientKind.to_i64 k) as Hk
    by (intros x Hx; by destruct (elem_of_new_rows _ _ _ _ _ Hx) as (_ & _ & ?)).
  pose proof (by_kind_perm n Hk) as Hperm.
  apply (StronglySorted_unique_strong row_le).
  - unfold sort_by. intros x y Hx Hy Hxy Hyx. rewrite merge_sort_Permutation, Hl in Hx. rewrite Hperm in Hy.
    rewrite row_le_iff in Hxy, Hyx. assert (x.2.2 = y.2.2) as Heq by lia.
    clear - Hord Hx Hy Heq. induction Hord as [|z l _ IH Hz]; [by apply not_elem_of_nil in Hx|].
    rewrite Forall_forall in Hz.
    apply elem_of_cons in Hx as [->|Hx], Hy as [->|Hy]; auto.
    + specialize (Hz y Hy). lia.
    + specialize (Hz x Hx). lia.
  - apply StronglySorted_merge_sort; apply _.
  - by apply by_kind_sorted.
  - unfold sort_by. by rewrite merge_sort_Permutation, Hl, Hperm.
Qed.

Lemma read_rows msg_id k seen ord rs :
  omap recipient_of_row (of_kind k (new_rows msg_id seen ord rs))
  = filter (λ r, Recipient.kind r = k) (firsts seen rs).
Proof.
  unfold of_kind. revert seen ord. induction rs as [|r rs IH]; intros seen ord; [done|].
  cbn [new_rows firsts]. case_decide; [apply IH|]. rewrite !filter_cons. cbn [row_of fst snd].
  destruct (decide (Recipient.kind r = k)) as [Hk|Hk].
  - rewrite decide_True by by rewrite Hk. cbn [omap list_omap]. rewrite IH.
    destruct r as [rk a n]. cbn in *. subst rk. by destruct k.
  - rewrite decide_False by (intros E; by apply (inj RecipientKind.to_i64) in E). apply IH.
Qed.

Lemma store_run msg_id rs c :
  store msg_id rs c
  = (set_msg_recipients (λ _,
       foldl (λ t p, insert_recipient msg_id p.1 p.2 t)
         (filter (λ kv, kv.1.1.1 ≠ msg_id) (msg_recipients c))
         (imap (λ i r, (Z.of_nat i, r)) rs)) c, Ok tt).
Proof.
  unfold store, transaction. rewrite run_bind_modify.
  set (l := imap _ rs). clearbody l.
  assert (∀ (t : table), for_each l (λ '(ord, r), modify (set_msg_recipients (insert_recipient msg_id ord r)))
    (set_msg_recipients (λ _, t) c)
    = (set_msg_recipients (λ _, foldl (λ t p, insert_recipient msg_id p.1 p.2 t) t l) c, Ok tt)) as Hl.
  { induction l as [|[o r] l IH]; intros t; [done|]. cbn [for_each foldl]. rewrite run_bind_modify. apply IH. }
  change (set_msg_recipients (filter (λ kv, kv.1.1.1 ≠ msg_id)) c)
    with (set_msg_recipients (λ _, filter (λ kv, kv.1.1.1 ≠ msg_id) (msg_recipients c)) c).
  by rewrite Hl.
Qed.

Lemma stored_rows (msg_id : Z) (rs : list Recipient.t) (t : table) :
  filter (λ r : row, r.1.1.1 = msg_id)
    (map_to_list (foldl (λ t p, insert_recipient msg_id p.1 p.2 t)
       (filter (λ kv, kv.1.1.1 ≠ msg_id) t) (imap (λ i r, (Z.of_nat i, r)) rs)))
  ≡ₚ new_rows msg_id [] 0 rs.
Proof.
  rewrite (insert_all_rows msg_id rs [] 0).
  - rewrite filter_app, filter_all, filter_none; [by rewrite app_nil_r|..].
    + intros [k v] [_ Hk]%elem_of_map_to_list%map_lookup_filter_Some. done.
    + intros x Hx. by destruct (elem_of_new_rows _ _ _ _ _ Hx).
  - intros k a. split; [|by intros ?%not_elem_of_nil].
    intros [v [_ Hk]%map_lookup_filter_Some]. done.
Qed.

Lemma insert_other (msg_id : Z) (p : Z * Recipient.t) (t : table) (key : Z * Z * str) :
  key.1.1 ≠ msg_id → insert_recipient msg_id p.1 p.2 t !! key = t !! key.
Proof.
  intros Hk. unfold insert_recipient. cbn zeta. destruct (t !! _); [done|].
  apply lookup_insert_ne. intros <-. done.
Qed.

Lemma load_stored (msg_id : Z) (rs : list Recipient.t) (c : Ctx) :
  load (final (store msg_id rs) c) msg_id
  = filter (λ r, Recipient.kind r = RecipientKind.To) (firsts [] rs)
    ++ filter (λ r, Recipient.kind r = RecipientKind.Cc) (firsts [] rs)
    ++ filter (λ r, Recipient.kind r = RecipientKind.Bcc) (firsts [] rs).
Proof.
  unfold final. rewrite store_run. unfold load. cbn [fst set_msg_recipients msg_recipients].
  rewrite (sort_new_rows msg_id rs); [|apply stored_rows].
  unfold by_kind. by rewrite !omap_app, !read_rows.
Qed.

(** The recipient set read back is the one stored: To, then Cc, then Bcc,
    each in the order given, an address mentioned twice within a kind once and
    under its first name; whatever was stored for the message before is gone,
    and the sets of other messages are as they were. *)
Theorem recipients_roundtrip (msg_id : Z) (rs : list Recipient.t) (c : Ctx) :
  let c' := final (store msg_id rs) c in
  load c' msg_id
  = filter (λ r, Recipient.kind r = RecipientKind.To) (firsts [] rs)
    ++ filter (λ r, Recipient.kind r = RecipientKind.Cc) (firsts [] rs)
    ++ filter (λ r, Recipient.kind r = RecipientKind.Bcc) (firsts [] rs)
  ∧ ∀ key, key.1.1 ≠ msg_id → msg_recipients c' !! key = msg_recipients c !! key.
Proof.
  cbn zeta. split; [apply load_stored|]. unfold final. rewrite store_run. cbn [fst].
  - intros key Hkey. cbn [set_msg_recipients msg_recipients].
    set (l := imap _ rs). clearbody l.
    assert (∀ t : table, foldl (λ t p, insert_recipient msg_id p.1 p.2 t) t l !! key = t !! key) as ->.
    { induction l as [|p l IH]; intros t; [done|]. cbn [foldl]. rewrite IH. by apply insert_other. }
    destruct (msg_recipients c !! key) as [v|] eqn:E.
    + by apply map_lookup_filter_Some.
    + apply map_lookup_filter_None. by left.
Qed.
End RecipientsFacts.

(** ** Copies and the policy *)

(** Alice has no key, Carol's key is held, Bob has no key and is marked
    end-to-end only. *)
Definition contact_row (addr fingerprint : string) : ContactRow.t :=
  ContactRow.mk [] (lit addr) 1024 false 0 [] (lit fingerprint) 0.

Definition office (global : EncryptionMode.t) : Ctx :=
  let c := set_contacts (λ _, list_to_map
             [(10%Z, contact_row "alice@x" ""); (11%Z, contact_row "bob@x" "");
              (12%Z, contact_row "carol@x" "C0FFEE")]) empty_ctx in
  let c := set_public_keys (λ _, {[ lit "C0FFEE" ]}) c in
  let c := set_chats (λ _, list_to_map
             [(20%Z, ChatRow.mk 100 [] [] 0 0 [] 0 0); (22%Z, ChatRow.mk 100 [] [] 0 0 [] 0 0)]) c in
  let c := set_chats_contacts (λ _, {[ (20, 10)%Z; (22, 12)%Z ]}) c in
  let c := final (EncryptionMode.set global) c in
  final (EncryptionMode.set_for_contact 11 (Some EncryptionMode.Strict)) c.

(** A message to the first address, with the given recipient set stored. *)
Definition addressed (to cc bcc : list string) (c : Ctx) : Ctx :=
  final (Recipients.store 30
    (((λ a, Recipient.mk RecipientKind.To (lit a) []) <$> to)
     ++ ((λ a, Recipient.mk RecipientKind.Cc (lit a) []) <$> cc)
     ++ ((λ a, Recipient.mk RecipientKind.Bcc (lit a) []) <$> bcc))) c.

Definition no_relays (fingerprint : str) : option (list str) := None.

Definition sent (chat_id contact_id : Z) (c : Ctx) : result (option Envelope.t) :=
  outcome (@send_single ascii_case first_choice no_relays true 30 chat_id contact_id
    MessageState.OutPending plain_param) c.

(** The policy does not reach the copies of a message.  A copy to a contact
    marked end-to-end only is sent in cleartext, although [readiness] reports
    the message as locked to encryption; with a lenient policy a copy without a
    key is dropped instead of the message being sent unencrypted, and with a
    strict one it is dropped instead of the message being refused; and of two
    To addresses the second is neither in a header nor in the envelope. *)
Theorem copies_escape_policy :
  let bob_copied := RecipientSet.mk [lit "alice@x"] [lit "bob@x"] [] in
  Readiness.locked (@readiness ascii_case first_choice (office EncryptionMode.Opportunistic) bob_copied) = true
  ∧ sent 20 10 (addressed ["alice@x"] ["bob@x"] [] (office EncryptionMode.Opportunistic))
    = Ok (Some (Envelope.mk [([], lit "alice@x")] [([], lit "bob@x")] [lit "alice@x"; lit "bob@x"] false))
  ∧ sent 22 12 (addressed ["carol@x"] ["bob@x"] [] (office EncryptionMode.Lenient))
    = Ok (Some (Envelope.mk [([], lit "carol@x")] [([], lit "bob@x")] [lit "carol@x"] true))
  ∧ sent 22 12 (addressed ["carol@x"] ["bob@x"] [] (office EncryptionMode.Strict))
    = Ok (Some (Envelope.mk [([], lit "carol@x")] [([], lit "bob@x")] [lit "carol@x"] true))
  ∧ sent 20 10 (addressed ["alice@x"; "carol@x"] [] [] (office EncryptionMode.Opportunistic))
    = Ok (Some (Envelope.mk [([], lit "alice@x")] [] [lit "alice@x"] false)).
Proof. cbn zeta. split_and!; vm_compute; reflexivity. Qed.

(** A blind copy without a key is dropped from an encrypted message, and the
    comparison of the headers with the envelope does not see it. *)
Example dropped_blind_copy :
  let c := addressed ["carol@x"] [] ["bob@x"] (office EncryptionMode.Opportunistic) in
  sent 22 12 c = Ok (Some (Envelope.mk [([], lit "carol@x")] [] [lit "carol@x"] true))
  ∧ outcome (@record_undelivered ascii_case 30 [lit "carol@x"] [lit "carol@x"]) c = Ok [].
Proof. split; vm_compute; reflexivity. Qed.

Lemma envelope_exact_witness :
  let c := addressed ["alice@x"] ["bob@x"] ["carol@x"] (office EncryptionMode.Opportunistic) in
  ∃ env, @from_msg ascii_case first_choice no_relays true c 30 10 plain_param = Ok env
  ∧ lit "carol@x" ∈ Envelope.recipients env ∧ (Envelope.to env).*2 = [lit "alice@x"].
Proof.
  eexists. split; [vm_compute; reflexivity|].
  destruct (@envelope_exact ascii_case first_choice no_relays true
    (addressed ["alice@x"] ["bob@x"] ["carol@x"] (office EncryptionMode.Opportunistic)) 30 10 plain_param
    (contact_row "alice@x" "")
    (Envelope.mk [([], lit "alice@x")] [([], lit "bob@x")] [lit "alice@x"; lit "bob@x"; lit "carol@x"] false))
    as (_ & _ & Hto & _ & Hcopy); [vm_compute; reflexivity|vm_compute; reflexivity|].
  split; [|exact Hto].
  apply (Hcopy (Recipient.mk RecipientKind.Bcc (lit "carol@x") [])).
  - apply (list_elem_of_lookup_2 _ 2). vm_compute. reflexivity.
  - discriminate.
  - apply (bool_decide_unpack _). vm_compute. exact I.
  - vm_compute. discriminate.
  - apply (bool_decide_unpack _). vm_compute. exact I.
  - left. reflexivity.
Defined.
