(* ===== verification/ContactTools.v ===== *)
(** * ContactTools: names and addresses, [core/deltachat-contact-tools/src/lib.rs]. *)

From S2P Require Import Prelude Text Substr.

Definition AT : N := 64.
Definition DOT : N := 46.
Definition LT : N := 60.
Definition GT : N := 62.

(** ** Addresses *)

Module EmailAddress.
Record t := mk { local : str; domain : str }.

(** [Display] *)
Definition to_string (e : t) : str := local e ++ [AT] ++ domain e.

Definition forbidden (c : N) : bool := is_whitespace c || (c =? LT)%N || (c =? GT)%N.

Definition new (input : str) : result t :=
  if is_empty input then Err "empty string is not valid"
  else if existsb forbidden input then Err "Email must not contain whitespaces, '>' or '<'"
  else match rsplit_once AT input with
       | Some (local, domain) =>
           if is_empty local then Err "empty string is not valid for local part"
           else if is_empty domain then Err "missing domain after '@'"
           else if bool_decide (last domain = Some DOT)
           then Err "Domain should not contain the dot in the end"
           else Ok (mk local domain)
       | None => Err "Email must contain '@' character"
       end.
End EmailAddress.

Definition may_be_valid_addr (addr : str) : bool :=
  match EmailAddress.new addr with Ok _ => true | Err _ => false end.

(** ** Names *)

Definition is_rtlo (c : N) : bool := ((0x202A <=? c) && (c <=? 0x202E))%N.
Definition is_isolate (c : N) : bool := ((0x2066 <=? c) && (c <=? 0x2068))%N.
Definition POP_ISOLATE : N := 0x2069.

Fixpoint isolates_loop (nesting : Z) (s : str) : bool :=
  match s with
  | [] => (nesting =? 0)%Z
  | c :: s =>
      let nesting :=
        (if is_isolate c then nesting + 1 else if (c =? POP_ISOLATE)%N then nesting - 1 else nesting)%Z in
      if ((nesting <? 0) || (125 <? nesting))%Z then false else isolates_loop nesting s
  end.

Definition isolate_characters_are_valid (s : str) : bool := isolates_loop 0 s.

Definition sanitize_bidi_characters (input : str) : str :=
  let input := filter (λ c, is_rtlo c = false) input in
  if isolate_characters_are_valid input then input
  else filter (λ c, is_isolate c || (c =? POP_ISOLATE)%N = false) input.

Definition LF : N := 10.
Definition CR : N := 13.
Definition SP : N := 32.

Definition sanitize_single_line (input : str) : str :=
  sanitize_bidi_characters (trim ((λ c, if (c =? LF)%N || (c =? CR)%N then SP else c) <$> input)).

(** The byte patterns: enclosed in single quotes, double quotes or angle
    brackets. *)
Definition is_enclosed (s : str) : bool :=
  match s with
  | a :: _ :: _ =>
      match last s with
      | Some b => ((a =? 39) && (b =? 39) || (a =? 34) && (b =? 34) || (a =? LT) && (b =? GT))%N
      | None => false
      end
  | _ => false
  end.

Definition sanitize_name (name : str) : str :=
  let name := sanitize_single_line name in
  if is_enclosed name then trim (take (length name - 2) (drop 1 name)) else name.

(** The groups of the regular expression: the text before the angle brackets
    and the text inside, both greedy and within one line. *)
Definition captures (s : str) : option (str * str) :=
  head (omap (λ line, p ← rsplit_once GT line; rsplit_once LT p.1) (split LF s)).

Definition sanitize_name_and_addr (name addr : str) : str * str :=
  let '(name, addr) :=
    match captures addr with
    | Some (before, inner) => (if is_empty name then before else name, inner)
    | None => (name, addr)
    end in
  let name := sanitize_name name in
  (if bool_decide (name = addr) then [] else name, addr).

(** ** Parsing an address loses nothing *)

Lemma rsplit_once_Some c s a b : rsplit_once c s = Some (a, b) ↔ s = a ++ c :: b ∧ c ∉ b.
Proof.
  unfold rsplit_once. destruct (split_once c (reverse s)) as [[x y]|] eqn:E; cbn.
  - apply split_once_Some in E as [E Hx]. split.
    + intros [= <- <-]. split; [|by rewrite elem_of_reverse].
      rewrite <-(reverse_involutive s), E, reverse_app, reverse_cons, <-app_assoc. done.
    + intros [-> Hb]. rewrite reverse_app, reverse_cons, <-app_assoc in E. cbn in E.
      assert (split_once c (x ++ c :: y) = split_once c (reverse b ++ c :: reverse a)) as Hs by by rewrite E.
      rewrite !split_once_app in Hs by (rewrite ?elem_of_reverse; done). injection Hs as -> ->.
      by rewrite !reverse_involutive.
  - apply split_once_None in E. split; [done|]. intros [-> _]. destruct E.
    rewrite elem_of_reverse. set_solver.
Qed.

Definition valid_address (e : EmailAddress.t) : Prop :=
  EmailAddress.local e ≠ [] ∧ EmailAddress.domain e ≠ []
  ∧ AT ∉ EmailAddress.domain e ∧ last (EmailAddress.domain e) ≠ Some DOT
  ∧ Forall (λ c, EmailAddress.forbidden c = false) (EmailAddress.to_string e).

Lemma existsb_false {A} (p : A → bool) l : existsb p l = false ↔ Forall (λ x, p x = false) l.
Proof.
  induction l as [|x l IH]; cbn; [done|]. rewrite orb_false_iff, IH, Forall_cons. done.
Qed.

(** An address is accepted exactly when it is the text of a local part and
    a domain, neither empty, with no white space or angle bracket, no [@] in
    the domain and no dot at its end; it is then split into those two. *)
Theorem email_address_roundtrip (input : str) (e : EmailAddress.t) :
  EmailAddress.new input = Ok e ↔ input = EmailAddress.to_string e ∧ valid_address e.
Proof.
  destruct e as [l d]. unfold EmailAddress.new, valid_address, EmailAddress.to_string. cbn [EmailAddress.local EmailAddress.domain].
  split.
  - destruct (is_empty input); [done|]. destruct (existsb _ input) eqn:Ef; [done|].
    destruct (rsplit_once AT input) as [[l' d']|] eqn:Er; [|done].
    apply rsplit_once_Some in Er as [-> Hd].
    destruct (is_empty l') eqn:El; [done|]. destruct (is_empty d') eqn:Ed; [done|].
    case_bool_decide as Hdot; [done|]. intros [= <- <-]. apply existsb_false in Ef.
    split; [done|]. split_and!; [by destruct l'|by destruct d'|done|done|done].
  - intros [-> (Hl & Hd & Hat & Hdot & Hf)]. apply existsb_false in Hf. rewrite Hf.
    destruct l as [|x l]; [done|]. cbn [is_empty app].
    replace (rsplit_once AT (x :: l ++ AT :: d)) with (Some (x :: l, d)).
    + cbn [is_empty]. destruct d; [done|]. cbn [is_empty]. by rewrite bool_decide_false.
    + symmetry. apply rsplit_once_Some. done.
Qed.

(** ** A sanitized name does not disturb the text around it *)

Definition is_bidi_isolate (c : N) : bool := is_isolate c || (c =? POP_ISOLATE)%N.

Abbreviation isolates s := (filter (λ c, is_bidi_isolate c = true) s).

(** Only the isolating characters matter for the nesting. *)
Lemma isolates_loop_filter n s :
  (0 ≤ n ≤ 125)%Z → isolates_loop n (isolates s) = isolates_loop n s.
Proof.
  revert n. induction s as [|c s IH]; intros n Hn; [done|]. rewrite filter_cons. unfold is_bidi_isolate at 1.
  case_decide as Hd; cbn [isolates_loop].
  - set (m := if is_isolate c then _ else _). destruct ((m <? 0)%Z || (125 <? m)%Z) eqn:E; [done|].
    apply orb_false_iff in E as [E1%Z.ltb_ge E2%Z.ltb_ge]. by apply IH.
  - apply not_true_is_false, orb_false_iff in Hd as [-> ->].
    destruct (Z.ltb_spec n 0), (Z.ltb_spec 125 n); cbn; try lia. by apply IH.
Qed.

Definition same_isolates (a b : str) : Prop := isolates a = isolates b.

Lemma isolates_valid_ext a b :
  same_isolates a b → isolate_characters_are_valid a = isolate_characters_are_valid b.
Proof.
  unfold same_isolates, isolate_characters_are_valid. intros E.
  by rewrite <-(isolates_loop_filter 0 a), <-(isolates_loop_filter 0 b), E by lia.
Qed.

Lemma whitespace_not_isolate c : is_whitespace c = true → is_bidi_isolate c = false.
Proof.
  intros Hc. destruct (is_bidi_isolate c) eqn:E; [|done]. exfalso.
  unfold is_bidi_isolate, is_isolate, POP_ISOLATE in E.
  assert (c = 0x2066 ∨ c = 0x2067 ∨ c = 0x2068 ∨ c = 0x2069)%N as Hcases.
  { apply orb_true_iff in E as [[?%N.leb_le ?%N.leb_le]%andb_prop|?%N.eqb_eq]; lia. }
  destruct Hcases as [->|[->|[->| ->]]]; vm_compute in Hc; discriminate.
Qed.

Lemma isolates_whitespace k : Forall (λ x, is_whitespace x) k → isolates k = [].
Proof.
  intros Hk. apply filter_none. intros x Hx. rewrite Forall_forall in Hk.
  rewrite whitespace_not_isolate; [done|]. by apply Is_true_true, Hk.
Qed.

Lemma trim_start_isolates s : isolates (trim_start s) = isolates s.
Proof.
  unfold trim_start. destruct (drop_while_suffix is_whitespace s) as (k & E & Hk).
  rewrite E at 2. by rewrite filter_app, (isolates_whitespace k Hk).
Qed.

Lemma filter_reverse {A} (P : A → Prop) `{!∀ x, Decision (P x)} (l : list A) :
  filter P (reverse l) = reverse (filter P l).
Proof.
  induction l as [|x l IH]; [done|]. rewrite reverse_cons, filter_app, IH, filter_cons.
  rewrite filter_cons, filter_nil. case_decide; [by rewrite reverse_cons|by rewrite app_nil_r].
Qed.

Lemma trim_isolates s : isolates (trim s) = isolates s.
Proof.
  unfold trim, trim_end, drop_while_end. rewrite filter_reverse.
  change (drop_while is_whitespace) with trim_start.
  by rewrite trim_start_isolates, filter_reverse, reverse_involutive, trim_start_isolates.
Qed.

Lemma trim_subset x s : x ∈ trim s → x ∈ s.
Proof.
  assert (∀ x s, x ∈ trim_start s → x ∈ s) as Hstart.
  { intros y t. unfold trim_start. destruct (drop_while_suffix is_whitespace t) as (k & E & _).
    intros Hy. rewrite E. apply elem_of_app. by right. }
  unfold trim, trim_end, drop_while_end. rewrite elem_of_reverse.
  intros Hx%Hstart. rewrite elem_of_reverse in Hx. by apply Hstart.
Qed.

(** What is taken off an enclosed name is its first and last character. *)
Lemma enclosed_split s :
  is_enclosed s = true →
  ∃ a m b, s = a :: m ++ [b] ∧ take (length s - 2) (drop 1 s) = m
    ∧ is_bidi_isolate a = false ∧ is_bidi_isolate b = false.
Proof.
  unfold is_enclosed. destruct s as [|a [|x s]]; [done..|].
  destruct (last (a :: x :: s)) as [b|] eqn:El; [|done]. intros Hq.
  apply last_Some in El as [l E]. destruct l as [|a' m]; [done|]. injection E as <- E.
  exists a, m, b. rewrite E. split; [done|]. split.
  { assert (length (a :: m ++ [b]) - 2 = length m) as -> by (cbn [length]; rewrite length_app; cbn; lia).
    change (drop 1 (a :: m ++ [b])) with (m ++ [b]). apply take_app_length. }
  repeat (apply orb_true_iff in Hq as [Hq|Hq]); apply andb_prop in Hq as [->%N.eqb_eq ->%N.eqb_eq]; done.
Qed.

Record safe_name (s : str) : Prop := {
  safe_line : LF ∉ s ∧ CR ∉ s;
  safe_rtlo : Forall (λ c, is_rtlo c = false) s;
  safe_isolates : isolate_characters_are_valid s = true;
}.

Lemma sanitize_bidi_safe s : LF ∉ s → CR ∉ s → safe_name (sanitize_bidi_characters s).
Proof.
  intros Hlf Hcr. unfold sanitize_bidi_characters. set (t := filter (λ c, is_rtlo c = false) s).
  assert (LF ∉ t ∧ CR ∉ t) as [Hlf' Hcr'] by (unfold t; rewrite !list_elem_of_filter; tauto).
  assert (Forall (λ c, is_rtlo c = false) t) as Hr
    by (apply Forall_forall; by intros x [? _]%list_elem_of_filter).
  destruct (isolate_characters_are_valid t) eqn:E; [by split|]. split.
  - rewrite !list_elem_of_filter. tauto.
  - apply Forall_forall. intros x [_ Hx]%list_elem_of_filter. rewrite Forall_forall in Hr. by apply Hr.
  - rewrite (isolates_valid_ext _ []); [done|]. unfold same_isolates. rewrite list_filter_filter.
    apply filter_none. intros x _ [H1 H2]. unfold is_bidi_isolate in H1. congruence.
Qed.

Lemma single_line_safe s : safe_name (sanitize_single_line s).
Proof.
  apply sanitize_bidi_safe.
  all: intros (x & E & _)%trim_subset%list_elem_of_fmap.
  all: destruct ((x =? LF)%N || (x =? CR)%N) eqn:Ex; [done|]; subst x; by vm_compute in Ex.
Qed.

(** A sanitized name is a single line without direction overrides, and its
    isolating characters are properly nested, at most 125 deep and all closed:
    it cannot change the direction of the text around it. *)
Theorem sanitized_name_safe (name : str) : safe_name (sanitize_name name).
Proof.
  unfold sanitize_name. cbv zeta. destruct (single_line_safe name) as [[Hlf Hcr] Hr Hi].
  set (s := sanitize_single_line name) in *. destruct (is_enclosed s) eqn:E; [|by split].
  destruct (enclosed_split s E) as (a & m & b & Es & -> & Ha & Hb).
  assert (∀ x, x ∈ trim m → x ∈ s) as Hin
    by (intros x Hx%trim_subset; rewrite Es; apply elem_of_cons; right; apply elem_of_app; by left).
  split.
  - split; intros Hx%Hin; done.
  - apply Forall_forall. intros x Hx%Hin. rewrite Forall_forall in Hr. by apply Hr.
  - rewrite <-Hi. apply isolates_valid_ext. unfold same_isolates. rewrite trim_isolates, Es.
    rewrite filter_cons_False by by rewrite Ha. rewrite filter_app, (filter_cons_False _ b) by by rewrite Hb.
    by rewrite filter_nil, app_nil_r.
Qed.

(** The name is trimmed before the overrides are removed, not after. *)
Example sanitized_name_not_trimmed : sanitize_name [0x202E; SP; 66]%N = [SP; 66]%N.
Proof. reflexivity. Qed.
