(* ===== verification/Vcard.v ===== *)
(** * Vcard: contacts as vCards ([deltachat-contact-tools/src/vcard.rs]).

    Writing contacts as vCards, the tolerant parser, and that the parser reads
    back what was written.  Dates are formatted and parsed by a third-party
    crate, the class [Chrono]. *)

From S2P Require Import Prelude Text Substr ContactTools.

#[local] Arguments byte_len : simpl never.

Definition COLON : N := 58.
Definition COMMA : N := 44.
Definition SEMICOLON : N := 59.
Definition BACKSLASH : N := 92.
Definition TAB : N := 9.
Definition CRLF : str := [CR; LF].

(** The calls of the date crate: [DateTime::from_timestamp] with its UTC format,
    [DateTime::parse_from_str] with an offset, and a date without offset read in
    the local time zone, [Some None] when that is ambiguous.  From 1970 to 9999 a
    formatted date is made of digits and the letters T and Z and parses back. *)
Definition last_timestamp : Z := 253402300799.

Definition is_date_char (c : N) : bool := is_ascii_digit c || (c =? 84)%N || (c =? 90)%N.

Class Chrono := {
  format_timestamp : Z → option str;
  parse_from_str : str → option Z;
  parse_local : str → option (option Z);
  format_parse t : (0 ≤ t ≤ last_timestamp)%Z →
    ∃ s, format_timestamp t = Some s ∧ forallb is_date_char s = true ∧ parse_from_str s = Some t;
}.

Module VcardContact.
Record t := mk {
  addr : str;
  authname : str;
  key : option str;
  profile_image : option str;
  biography : option str;
  timestamp : result Z;
}.

Definition display_name (c : t) : str := if is_empty (authname c) then addr c else authname c.
End VcardContact.

(** ** Escaping, with the letters n and N for the line feed *)

Definition escape (s : str) : str :=
  replace_char LF (lit "\n")
    (replace_char SEMICOLON (lit "\;")
      (replace_char COMMA (lit "\,")
        (replace_char BACKSLASH (lit "\\") s))).

Fixpoint unescape (s : str) : str :=
  match s with
  | [] => []
  | c :: s' =>
      if (c =? BACKSLASH)%N then
        match s' with
        | [] => [BACKSLASH]
        | next :: s'' =>
            (if (next =? BACKSLASH)%N || (next =? COMMA)%N || (next =? SEMICOLON)%N then [next]
             else if (next =? 110)%N || (next =? 78)%N then [LF]
             else [BACKSLASH; next]) ++ unescape s''
        end
      else c :: unescape s'
  end.

(** ** Writing *)

Section vcard.
Context `{!Chrono}.

Definition KEY_PREFIX : str := lit "data:application/pgp-keys;base64\,".
Definition PHOTO_PREFIX : str := lit "data:image/jpeg;base64\,".

Definition make_card (c : VcardContact.t) : str :=
  lit "BEGIN:VCARD" ++ CRLF
  ++ lit "VERSION:4.0" ++ CRLF
  ++ lit "EMAIL:" ++ escape (VcardContact.addr c) ++ CRLF
  ++ lit "FN:" ++ escape (VcardContact.display_name c) ++ CRLF
  ++ (match VcardContact.key c with
      | Some key => lit "KEY:" ++ KEY_PREFIX ++ key ++ CRLF
      | None => []
      end)
  ++ (match VcardContact.profile_image c with
      | Some profile_image => lit "PHOTO:" ++ PHOTO_PREFIX ++ profile_image ++ CRLF
      | None => []
      end)
  ++ (match VcardContact.biography c with
      | Some biography => lit "NOTE:" ++ escape biography ++ CRLF
      | None => []
      end)
  ++ (match VcardContact.timestamp c with
      | Ok t => match format_timestamp t with Some rev => lit "REV:" ++ rev ++ CRLF | None => [] end
      | Err _ => []
      end)
  ++ lit "END:VCARD" ++ CRLF.

Definition make_vcard (contacts : list VcardContact.t) : str := contacts ≫= make_card.

(** ** Reading *)

Definition remove_prefix (s prefix : str) : option str :=
  '(start, rest) ← split_at_byte s (byte_len prefix);
  if eq_ignore_ascii_case start prefix then Some rest else None.

(** [char::is_ascii_punctuation] *)
Definition is_ascii_punctuation (c : N) : bool :=
  ((33 <=? c) && (c <=? 47) || (58 <=? c) && (c <=? 64) || (91 <=? c) && (c <=? 96)
   || (123 <=? c) && (c <=? 126))%N.

Definition vcard_property_raw (line property : str) : option (str * str) :=
  remainder ← remove_prefix line property;
  '(params, value) ← split_once COLON remainder;
  if match head params with
     | Some c => negb (is_ascii_punctuation c) || (c =? 95)%N
     | None => false
     end
  then None
  else
    let params := default params (remove_prefix params (lit ";")) in
    let params := default params (remove_prefix params (lit "PREF=1")) in
    Some (params, value).

Definition vcard_property (line property : str) : option (str * str) :=
  '(params, value) ← vcard_property_raw line property;
  Some (params, unescape value).

Definition is_one_of (params : str) (encodings : list string) : bool :=
  existsb (λ e, eq_ignore_ascii_case params (lit e)) encodings.

Definition or_else {A} (a b : option A) : option A := match a with Some _ => a | None => b end.

Definition base64_key (line : str) : option str :=
  '(params, value) ← vcard_property_raw line (lit "key");
  if is_one_of params ["PGP;ENCODING=BASE64"; "TYPE=PGP;ENCODING=b"] then Some value
  else or_else (remove_prefix value KEY_PREFIX)
         (remove_prefix value (lit "data:application/pgp-keys;base64,")).

Definition base64_photo (line : str) : option str :=
  '(params, value) ← vcard_property_raw line (lit "photo");
  if is_one_of params
       ["JPEG;ENCODING=BASE64"; "ENCODING=BASE64;JPEG"; "TYPE=JPEG;ENCODING=b";
        "ENCODING=b;TYPE=JPEG"; "ENCODING=BASE64;TYPE=JPEG"; "TYPE=JPEG;ENCODING=BASE64"]
  then Some value
  else or_else (remove_prefix value PHOTO_PREFIX)
         (remove_prefix value (lit "data:image/jpeg;base64,")).

Definition parse_datetime (datetime : str) : result Z :=
  match parse_from_str datetime with
  | Some t => Ok t
  | None =>
      match parse_local datetime with
      | Some (Some t) => Ok t
      | Some None => Err "Could not apply local timezone to parsed date and time"
      | None => Err "input contains invalid characters"
      end
  end.

(** The regular expression [\r?\n[\t ]], every match removed. *)
Definition is_fold (c : N) : bool := (c =? TAB)%N || (c =? SP)%N.

Fixpoint unfold_lines (s : str) : str :=
  match s with
  | [] => []
  | c :: s' =>
      match s' with
      | d :: s'' =>
          if (c =? LF)%N && is_fold d then unfold_lines s''
          else
            match s'' with
            | e :: s3 =>
                if (c =? CR)%N && (d =? LF)%N && is_fold e then unfold_lines s3
                else c :: unfold_lines s'
            | [] => c :: unfold_lines s'
            end
      | [] => [c]
      end
  end.

(** [str::lines]: the end of a line is one line feed, with one carriage return
    before it; text without an end is a line when it is not empty. *)
Definition strip_cr (line : str) : str := default line (strip_suffix CR line).

Definition lines (s : str) : list str :=
  match reverse (split LF s) with
  | [] => []
  | rest :: ended => (strip_cr <$> reverse ended) ++ (if is_empty rest then [] else [rest])
  end.

Record Fields := MkFields {
  f_name : option str;
  f_addr : option str;
  f_key : option str;
  f_photo : option str;
  f_biography : option str;
  f_datetime : option str;
}.

Definition no_fields : Fields := MkFields None None None None None None.

(** One line of a card: [None] at its end. *)
Definition read_line (line : str) (f : Fields) : option Fields :=
  let line := default line (remove_prefix line (lit "item1.")) in
  match vcard_property line (lit "email") with
  | Some (_, email) =>
      Some (MkFields (f_name f) (or_else (f_addr f) (Some email)) (f_key f) (f_photo f) (f_biography f) (f_datetime f))
  | None =>
  match vcard_property line (lit "fn") with
  | Some (_, name) =>
      Some (MkFields (or_else (f_name f) (Some name)) (f_addr f) (f_key f) (f_photo f) (f_biography f) (f_datetime f))
  | None =>
  match base64_key line with
  | Some k =>
      Some (MkFields (f_name f) (f_addr f) (or_else (f_key f) (Some k)) (f_photo f) (f_biography f) (f_datetime f))
  | None =>
  match base64_photo line with
  | Some p =>
      Some (MkFields (f_name f) (f_addr f) (f_key f) (or_else (f_photo f) (Some p)) (f_biography f) (f_datetime f))
  | None =>
  match vcard_property line (lit "note") with
  | Some (_, bio) =>
      Some (MkFields (f_name f) (f_addr f) (f_key f) (f_photo f) (or_else (f_biography f) (Some bio)) (f_datetime f))
  | None =>
  match vcard_property line (lit "rev") with
  | Some (_, rev) =>
      Some (MkFields (f_name f) (f_addr f) (f_key f) (f_photo f) (f_biography f) (or_else (f_datetime f) (Some rev)))
  | None =>
  if eq_ignore_ascii_case line (lit "END:VCARD") then None else Some f
  end end end end end end.

Definition contact_of_fields (f : Fields) : VcardContact.t :=
  let '(authname, addr) := sanitize_name_and_addr (default [] (f_name f)) (default [] (f_addr f)) in
  VcardContact.mk addr authname (f_key f) (f_photo f) (f_biography f)
    (match f_datetime f with
     | Some datetime => parse_datetime datetime
     | None => Err "No timestamp in vcard"
     end).

(** The two inner loops: to the start of a card, and through it. *)
Fixpoint skip_to_begin (ls : list str) : list str :=
  match ls with
  | [] => []
  | line :: ls => if eq_ignore_ascii_case line (lit "BEGIN:VCARD") then ls else skip_to_begin ls
  end.

Fixpoint read_card (ls : list str) (f : Fields) : option VcardContact.t * list str :=
  match ls with
  | [] => (None, [])
  | line :: ls =>
      match read_line line f with
      | Some f => read_card ls f
      | None => (Some (contact_of_fields f), ls)
      end
  end.

(** [while lines.peek().is_some()]: every round consumes a line. *)
Fixpoint card_loop (fuel : nat) (ls : list str) : list VcardContact.t :=
  match fuel, ls with
  | O, _ | _, [] => []
  | S fuel, _ =>
      let '(contact, ls) := read_card (skip_to_begin ls) no_fields in
      match contact with
      | Some contact => contact :: card_loop fuel ls
      | None => card_loop fuel ls
      end
  end.

Definition parse_vcard (vcard : str) : list VcardContact.t :=
  let ls := lines (unfold_lines vcard) in
  card_loop (length ls) ls.

(** ** Reading back what was written *)

(** Escaping, one character at a time. *)
Definition esc_char (c : N) : str :=
  if decide (c = BACKSLASH) then lit "\\"
  else if decide (c = COMMA) then lit "\,"
  else if decide (c = SEMICOLON) then lit "\;"
  else if decide (c = LF) then lit "\n"
  else [c].

Lemma escape_chars s : escape s = s ≫= esc_char.
Proof.
  unfold escape, replace_char. induction s as [|c s IH]; [done|].
  cbn [mbind list_bind]. rewrite !bind_app, IH. f_equal.
  unfold esc_char.
  destruct (decide (c = BACKSLASH)) as [->|H1]; [reflexivity|]. cbn [mbind list_bind app].
  destruct (decide (c = COMMA)) as [->|H2]; [reflexivity|]. cbn [mbind list_bind app].
  destruct (decide (c = SEMICOLON)) as [->|H3]; [reflexivity|]. cbn [mbind list_bind app].
  by destruct (decide (c = LF)) as [->|H4].
Qed.

Lemma unescape_of_escape s : unescape (escape s) = s.
Proof.
  rewrite escape_chars. induction s as [|c s IH]; [done|]. cbn [mbind list_bind].
  unfold esc_char at 1. repeat case_decide; subst; try (cbn; by rewrite IH).
  cbn. destruct (N.eqb_spec c BACKSLASH); [done|]. by rewrite IH.
Qed.

Lemma escape_no_lf s : LF ∉ escape s.
Proof.
  rewrite escape_chars. rewrite list_elem_of_bind. intros (c & Hc & _). revert Hc.
  unfold esc_char. repeat case_decide; cbn; subst; rewrite ?elem_of_cons, ?elem_of_nil; intros Hc;
    repeat (destruct Hc as [Hc|Hc]; try done); congruence.
Qed.

(** Text that ends every line with CR LF. *)
Definition ended (ls : list str) : str := ls ≫= λ l, l ++ CRLF.

Lemma ended_app a b : ended (a ++ b) = ended a ++ ended b.
Proof. apply bind_app. Qed.

Lemma split_ended ls :
  Forall (λ l, LF ∉ l) ls → split LF (ended ls) = ((λ l, l ++ [CR]) <$> ls) ++ [[]].
Proof.
  induction 1 as [|l ls Hl Hls IH]; [done|]. unfold ended in *. cbn [mbind list_bind fmap list_fmap].
  replace ((l ++ CRLF) ++ (ls ≫= λ l, l ++ CRLF)) with ((l ++ [CR]) ++ LF :: (ls ≫= λ l, l ++ CRLF))
    by (rewrite <-!app_assoc; done).
  rewrite split_app, IH, split_none; [done|]. rewrite elem_of_app, list_elem_of_singleton.
  intros [?|?]; done.
Qed.

Lemma strip_cr_snoc l : strip_cr (l ++ [CR]) = l.
Proof.
  unfold strip_cr, strip_suffix. rewrite reverse_snoc. cbn [strip_prefix]. rewrite decide_True by done.
  cbn. apply reverse_involutive.
Qed.

Lemma lines_ended ls : Forall (λ l, LF ∉ l) ls → lines (ended ls) = ls.
Proof.
  intros Hls. unfold lines. rewrite split_ended by done. rewrite reverse_snoc, reverse_involutive.
  cbn. rewrite app_nil_r. rewrite <-list_fmap_compose. rewrite <-(list_fmap_id ls) at 2.
  apply list_fmap_ext. intros i l _. apply strip_cr_snoc.
Qed.

(** Nothing is folded when no line starts with a blank. *)
Definition no_fold (s : str) : Prop := ∀ a c b, s = a ++ LF :: c :: b → is_fold c = false.

Lemma unfold_lines_cons c d s :
  unfold_lines (c :: d :: s)
  = if (c =? LF)%N && is_fold d then unfold_lines s
    else match s with
         | e :: s3 =>
             if (c =? CR)%N && (d =? LF)%N && is_fold e then unfold_lines s3 else c :: unfold_lines (d :: s)
         | [] => c :: unfold_lines (d :: s)
         end.
Proof. by destruct s. Qed.

Lemma unfold_none s : no_fold s → unfold_lines s = s.
Proof.
  induction s as [|c s IH]; intros Hs; [done|].
  assert (unfold_lines s = s) as Es.
  { apply IH. intros a d b ->. by eapply (Hs (c :: a)). }
  destruct s as [|d s]; [done|]. rewrite unfold_lines_cons.
  destruct ((c =? LF)%N && is_fold d) eqn:E1.
  { apply andb_prop in E1 as [->%N.eqb_eq E1]. by rewrite (Hs [] d s eq_refl) in E1. }
  destruct s as [|e s]; [by rewrite Es|].
  destruct ((c =? CR)%N && (d =? LF)%N && is_fold e) eqn:E2; [|by rewrite Es].
  apply andb_prop in E2 as [[_ ->%N.eqb_eq]%andb_prop E2]. by rewrite (Hs [c] e s eq_refl) in E2.
Qed.

(** A line of a card: it does not break, and starts with a letter. *)
Definition plain_line (l : str) : Prop :=
  LF ∉ l ∧ match l with c :: _ => is_fold c = false | [] => False end.

Lemma ended_head ls c b : Forall plain_line ls → c :: b = ended ls → is_fold c = false.
Proof. intros Hls E. destruct Hls as [|[|y l] ls [_ Hh] _]; [done|done|]. injection E. by intros _ ->. Qed.

Lemma ended_no_fold ls : Forall plain_line ls → no_fold (ended ls).
Proof.
  intros Hls a. revert a. induction Hls as [|l ls [Hl Hh] Hls IH]; intros a c b E.
  - by destruct a.
  - unfold ended in E, IH. cbn [mbind list_bind] in E.
    assert (l ++ CRLF = (l ++ [CR]) ++ [LF]) as El by by rewrite <-app_assoc.
    rewrite El, <-app_assoc in E. cbn [app] in E.
    assert (LF ∉ l ++ [CR]) as Hlc by (rewrite elem_of_app, list_elem_of_singleton; intros [?|?]; done).
    apply app_eq_inv in E as [(k & E1 & E2)|(k & E1 & E2)].
    + destruct k as [|x k]; cbn in E2; injection E2; intros; [by eapply ended_head|].
      subst x. exfalso. apply Hlc. rewrite E1. set_solver.
    + destruct k as [|x k]; cbn in E2; injection E2; intros; [by eapply ended_head|]. by eapply IH.
Qed.

Lemma read_ended ls : Forall plain_line ls → lines (unfold_lines (ended ls)) = ls.
Proof.
  intros Hls. rewrite unfold_none by by apply ended_no_fold. apply lines_ended.
  eapply Forall_impl; [exact Hls|]. by intros l [? _].
Qed.

(** ** The lines of a card *)

Definition line_of (name : string) (value : option str) : list str :=
  match value with Some v => [lit name ++ COLON :: v] | None => [] end.

Definition rev_of (c : VcardContact.t) : option str :=
  match VcardContact.timestamp c with Ok t => format_timestamp t | Err _ => None end.

Definition card_body (c : VcardContact.t) : list str :=
  line_of "VERSION" (Some (lit "4.0"))
  ++ line_of "EMAIL" (Some (escape (VcardContact.addr c)))
  ++ line_of "FN" (Some (escape (VcardContact.display_name c)))
  ++ line_of "KEY" (app KEY_PREFIX <$> VcardContact.key c)
  ++ line_of "PHOTO" (app PHOTO_PREFIX <$> VcardContact.profile_image c)
  ++ line_of "NOTE" (escape <$> VcardContact.biography c)
  ++ line_of "REV" (rev_of c).

Definition card_lines (c : VcardContact.t) : list str :=
  [lit "BEGIN:VCARD"] ++ card_body c ++ [lit "END:VCARD"].

Lemma make_card_lines c : make_card c = ended (card_lines c).
Proof.
  unfold make_card, card_lines, card_body, rev_of. rewrite !ended_app.
  destruct (VcardContact.key c), (VcardContact.profile_image c), (VcardContact.biography c),
    (VcardContact.timestamp c) as [t|]; try destruct (format_timestamp t);
    unfold ended, line_of; cbn [fmap option_fmap option_map mbind list_bind lit];
    rewrite <-?app_assoc, ?app_nil_r; cbn [app]; rewrite <-?app_assoc; reflexivity.
Qed.

Lemma make_vcard_lines cs : make_vcard cs = ended (cs ≫= card_lines).
Proof.
  induction cs as [|c cs IH]; [done|]. cbn [mbind list_bind make_vcard].
  rewrite ended_app, <-IH, <-make_card_lines. done.
Qed.

(** What survives the trip: the address must not be of the form with angle
    brackets, which the reader takes apart; keys and images, which are Base64,
    are on one line; a date is one that four digits of the year can express. *)
Record vcard_ok (c : VcardContact.t) : Prop := {
  ok_addr : captures (VcardContact.addr c) = None;
  ok_key k : VcardContact.key c = Some k → LF ∉ k;
  ok_image p : VcardContact.profile_image c = Some p → LF ∉ p;
  ok_time t : VcardContact.timestamp c = Ok t → (0 ≤ t ≤ last_timestamp)%Z;
}.

Definition reread (c : VcardContact.t) : VcardContact.t :=
  let name := sanitize_name (VcardContact.display_name c) in
  VcardContact.mk (VcardContact.addr c)
    (if bool_decide (name = VcardContact.addr c) then [] else name)
    (VcardContact.key c) (VcardContact.profile_image c) (VcardContact.biography c)
    (match VcardContact.timestamp c with Ok t => Ok t | Err _ => Err "No timestamp in vcard" end).

Lemma date_char_plain c : is_date_char c = true → c ≠ LF ∧ c ≠ BACKSLASH.
Proof. intros Hd. split; intros ->; by vm_compute in Hd. Qed.

Lemma rev_of_plain c s :
  vcard_ok c → rev_of c = Some s →
  LF ∉ s ∧ unescape s = s ∧ ∃ t, VcardContact.timestamp c = Ok t ∧ parse_from_str s = Some t.
Proof.
  intros Hc Hr. unfold rev_of in Hr. destruct (VcardContact.timestamp c) as [t|] eqn:Et; [|done].
  destruct (format_parse t (ok_time c Hc t Et)) as (s' & Hs & Hd & Hp). rewrite Hs in Hr. injection Hr as ->.
  apply Is_true_eq_left, forallb_True in Hd. split; [|split; [|eauto]].
  - intros Hin. rewrite Forall_forall in Hd. specialize (Hd _ Hin). by apply Is_true_eq_true, date_char_plain in Hd as [? _].
  - clear Hs Hp. induction s as [|x s IH]; [done|]. apply Forall_cons in Hd as [Hx Hd].
    apply Is_true_eq_true, date_char_plain in Hx as [_ Hx]. cbn. destruct (N.eqb_spec x BACKSLASH); [done|].
    by rewrite IH.
Qed.

Lemma plain_line_of name v :
  LF ∉ lit name → match lit name with c :: _ => is_fold c = false | [] => False end →
  (∀ x, v = Some x → LF ∉ x) → Forall plain_line (line_of name v).
Proof.
  intros Hn Hh Hv. destruct v as [x|]; cbn; [|constructor]. repeat constructor.
  - specialize (Hv _ eq_refl). rewrite elem_of_app, elem_of_cons. intros [?|[?|?]]; done.
  - by destruct (lit name).
Qed.

Lemma card_lines_plain c : vcard_ok c → Forall plain_line (card_lines c).
Proof.
  intros Hc. unfold card_lines, card_body. rewrite !Forall_app.
  assert (∀ s, LF ∉ escape s) as He by apply escape_no_lf.
  split_and!; try (apply plain_line_of; [by apply (bool_decide_unpack _); vm_compute|by vm_compute|]).
  all: try (intros x Hx; injection Hx as <-; done).
  - repeat constructor. by apply (bool_decide_unpack _); vm_compute.
  - intros x Hx. injection Hx as <-. by apply (bool_decide_unpack _); vm_compute.
  - intros x (k & Hk & ->)%fmap_Some. rewrite elem_of_app. intros [Hin|Hin]; [|by eapply ok_key].
    revert Hin. by apply (bool_decide_unpack _); vm_compute.
  - intros x (k & Hk & ->)%fmap_Some. rewrite elem_of_app. intros [Hin|Hin]; [|by eapply ok_image].
    revert Hin. by apply (bool_decide_unpack _); vm_compute.
  - intros x (k & Hk & ->)%fmap_Some. done.
  - intros x Hx. by eapply rev_of_plain.
  - repeat constructor. by apply (bool_decide_unpack _); vm_compute.
Qed.

(** ** Reading the lines of a card *)

Lemma remove_prefix_hit p q r :
  eq_ignore_ascii_case p q = true → byte_len p = byte_len q → remove_prefix (p ++ r) q = Some r.
Proof. intros He Hb. unfold remove_prefix. rewrite <-Hb, split_at_byte_app. cbn. by rewrite He. Qed.

Definition heads_differ (p q : str) : bool :=
  match p, q with y :: _, x :: _ => negb (ascii_lower x =? ascii_lower y)%N | _, _ => false end.

Lemma remove_prefix_miss p q s : heads_differ p q = true → remove_prefix (p ++ s) q = None.
Proof.
  destruct p as [|y p], q as [|x q]; cbn; try done. intros Hne%negb_true_iff%N.eqb_neq.
  unfold remove_prefix. rewrite byte_len_cons.
  assert (∃ n, len_utf8 x = S n) as [n ->] by (unfold len_utf8; repeat case_match; eexists; reflexivity).
  cbn [Nat.add split_at_byte]. destruct (len_utf8 y <=? _)%nat; [|done].
  destruct (split_at_byte _ _) as [[a b]|]; [|done]. cbn. unfold eq_ignore_ascii_case.
  rewrite bool_decide_eq_false_2; [done|]. cbn. intros [= ? _]. congruence.
Qed.

Lemma property_raw_hit p q v :
  eq_ignore_ascii_case p q = true → byte_len p = byte_len q →
  vcard_property_raw (p ++ COLON :: v) q = Some ([], v).
Proof. intros He Hb. unfold vcard_property_raw. rewrite remove_prefix_hit by done. done. Qed.

Lemma property_raw_miss p q s : heads_differ p q = true → vcard_property_raw (p ++ s) q = None.
Proof. intros Hne. unfold vcard_property_raw. by rewrite remove_prefix_miss. Qed.

Definition set_field (f : Fields) (g : Fields) : Fields :=
  MkFields (or_else (f_name f) (f_name g)) (or_else (f_addr f) (f_addr g)) (or_else (f_key f) (f_key g))
    (or_else (f_photo f) (f_photo g)) (or_else (f_biography f) (f_biography g))
    (or_else (f_datetime f) (f_datetime g)).

Lemma or_else_None {A} (o : option A) : or_else o None = o.
Proof. by destruct o. Qed.

(** One line written for a field. *)
Ltac read_field :=
  intros; unfold read_line; rewrite remove_prefix_miss by reflexivity; cbn [default from_option id];
  unfold vcard_property, base64_key, base64_photo;
  rewrite ?property_raw_miss by reflexivity; cbn [mbind option_bind];
  rewrite property_raw_hit by reflexivity; cbn [mbind option_bind].

Lemma read_email v f :
  read_line (lit "EMAIL" ++ COLON :: v) f = Some (set_field f (MkFields None (Some (unescape v)) None None None None)).
Proof. read_field; unfold set_field; cbn; by rewrite !or_else_None. Qed.

Lemma read_fn v f :
  read_line (lit "FN" ++ COLON :: v) f = Some (set_field f (MkFields (Some (unescape v)) None None None None None)).
Proof. read_field; unfold set_field; cbn; by rewrite !or_else_None. Qed.

Lemma read_key v f :
  read_line (lit "KEY" ++ COLON :: KEY_PREFIX ++ v) f = Some (set_field f (MkFields None None (Some v) None None None)).
Proof.
  read_field. cbn [is_one_of existsb]. change (eq_ignore_ascii_case [] _) with false. cbn [orb].
  rewrite remove_prefix_hit by done. unfold set_field; cbn; by rewrite !or_else_None.
Qed.

Lemma read_photo v f :
  read_line (lit "PHOTO" ++ COLON :: PHOTO_PREFIX ++ v) f
  = Some (set_field f (MkFields None None None (Some v) None None)).
Proof.
  read_field. change (is_one_of [] _) with false. cbv iota.
  rewrite remove_prefix_hit by done. unfold set_field; cbn; by rewrite !or_else_None.
Qed.

Lemma read_note v f :
  read_line (lit "NOTE" ++ COLON :: v) f = Some (set_field f (MkFields None None None None (Some (unescape v)) None)).
Proof. read_field; unfold set_field; cbn; by rewrite !or_else_None. Qed.

Lemma read_rev v f :
  read_line (lit "REV" ++ COLON :: v) f = Some (set_field f (MkFields None None None None None (Some (unescape v)))).
Proof. read_field; unfold set_field; cbn; by rewrite !or_else_None. Qed.

Lemma read_card_line line ls f g : read_line line f = Some g → read_card (line :: ls) f = read_card ls g.
Proof. intros H'. cbn. by rewrite H'. Qed.

Lemma read_card_optional name (v : option str) ls f h :
  (∀ x, v = Some x → read_line (lit name ++ COLON :: x) f = Some h) → (v = None → f = h) →
  read_card (line_of name v ++ ls) f = read_card ls h.
Proof.
  intros Hs Hn. destruct v as [x|]; [|by rewrite (Hn eq_refl)]. cbn [line_of app].
  apply read_card_line, Hs, eq_refl.
Qed.

Definition fields_of (c : VcardContact.t) : Fields :=
  MkFields (Some (VcardContact.display_name c)) (Some (VcardContact.addr c)) (VcardContact.key c)
    (VcardContact.profile_image c) (VcardContact.biography c) (rev_of c).

Lemma read_written c ls :
  vcard_ok c → read_card (card_body c ++ lit "END:VCARD" :: ls) no_fields = (Some (contact_of_fields (fields_of c)), ls).
Proof.
  intros Hc. unfold card_body. rewrite <-!app_assoc.
  set (name := VcardContact.display_name c). set (addr := VcardContact.addr c).
  set (key := VcardContact.key c). set (image := VcardContact.profile_image c). set (bio := VcardContact.biography c).
  rewrite (read_card_optional _ _ _ _ no_fields); [|by intros x [= <-]; vm_compute|done].
  rewrite (read_card_optional _ _ _ _ (MkFields None (Some addr) None None None None)); [|
    intros x [= <-]; rewrite read_email, unescape_of_escape; done|done].
  rewrite (read_card_optional _ _ _ _ (MkFields (Some name) (Some addr) None None None None)); [|
    intros x [= <-]; rewrite read_fn, unescape_of_escape; done|done].
  rewrite (read_card_optional _ _ _ _ (MkFields (Some name) (Some addr) key None None None)).
  2:{ intros x (k & Hk & ->)%fmap_Some. by rewrite read_key, Hk. }
  2:{ intros Hk%fmap_None. by rewrite Hk. }
  rewrite (read_card_optional _ _ _ _ (MkFields (Some name) (Some addr) key image None None)).
  2:{ intros x (k & Hk & ->)%fmap_Some. rewrite read_photo, Hk. unfold set_field. cbn. by rewrite !or_else_None. }
  2:{ intros Hk%fmap_None. by rewrite Hk. }
  rewrite (read_card_optional _ _ _ _ (MkFields (Some name) (Some addr) key image bio None)).
  2:{ intros x (k & Hk & ->)%fmap_Some. rewrite read_note, unescape_of_escape, Hk. unfold set_field. cbn. by rewrite !or_else_None. }
  2:{ intros Hk%fmap_None. by rewrite Hk. }
  rewrite (read_card_optional _ _ _ _ (fields_of c)).
  - reflexivity.
  - intros x Hx. destruct (rev_of_plain c x Hc Hx) as (_ & Hu & _). rewrite read_rev, Hu.
    unfold set_field, fields_of. cbn. by rewrite !or_else_None, Hx.
  - intros Hk. unfold fields_of. by rewrite Hk.
Qed.

Lemma contact_reread c : vcard_ok c → contact_of_fields (fields_of c) = reread c.
Proof.
  intros Hc. unfold contact_of_fields, fields_of, reread, sanitize_name_and_addr. cbn [f_name f_addr default from_option id].
  rewrite (ok_addr c Hc). cbn. f_equal. destruct (rev_of c) as [s|] eqn:Er.
  - destruct (rev_of_plain c s Hc Er) as (_ & _ & t & -> & Hp). unfold parse_datetime. by rewrite Hp.
  - unfold rev_of in Er. destruct (VcardContact.timestamp c) as [t|] eqn:Et; [|done].
    destruct (format_parse t (ok_time c Hc t Et)) as (s & Hs & _). congruence.
Qed.

(** More rounds than lines change nothing. *)
Lemma skip_shorter ls : (length (skip_to_begin ls) ≤ length ls)%nat.
Proof. induction ls as [|l ls IH]; cbn; [done|]. case_match; lia. Qed.

Lemma read_card_shorter ls f : (length (read_card ls f).2 ≤ length ls)%nat.
Proof. revert f. induction ls as [|l ls IH]; intros f; cbn; [done|]. case_match; [|cbn; lia]. etrans; [apply IH|lia]. Qed.

Lemma skip_consumes l ls : (length (skip_to_begin (l :: ls)) ≤ length ls)%nat.
Proof. cbn. case_match; [done|apply skip_shorter]. Qed.

Lemma card_loop_fuel n m ls : (length ls ≤ n)%nat → (length ls ≤ m)%nat → card_loop n ls = card_loop m ls.
Proof.
  revert m ls. induction n as [|n IH]; intros m ls Hn Hm.
  - destruct ls; [by destruct m|cbn in Hn; lia].
  - destruct ls as [|l ls]; [by destruct m|]. destruct m as [|m]; [cbn in Hm; lia|]. cbn [card_loop].
    pose proof (read_card_shorter (skip_to_begin (l :: ls)) no_fields) as H1. pose proof (skip_consumes l ls) as H2.
    destruct (read_card _ _) as [o rest]. cbn in *.
    assert (card_loop n rest = card_loop m rest) as -> by (apply IH; lia). done.
Qed.

Lemma parse_written cs fuel :
  Forall vcard_ok cs → (length (cs ≫= card_lines) ≤ fuel)%nat → card_loop fuel (cs ≫= card_lines) = reread <$> cs.
Proof.
  intros Hcs. revert fuel. induction Hcs as [|c cs Hc Hcs IH]; intros fuel Hf; [by destruct fuel|].
  cbn [mbind list_bind] in *. rewrite length_app in Hf. unfold card_lines at 1 in Hf. cbn in Hf.
  destruct fuel as [|fuel]; [lia|]. unfold card_lines at 1. rewrite <-!app_assoc. cbn [app card_loop skip_to_begin].
  change (eq_ignore_ascii_case (lit "BEGIN:VCARD") (lit "BEGIN:VCARD")) with true. cbv iota.
  cbn [app]. rewrite read_written by done. cbn.
  rewrite contact_reread by done. f_equal. apply IH. lia.
Qed.

(** C26: parsing the vCards that were written gives the contacts back, in their
    order: the address, the key, the image and the biography as they were,
    whatever characters they hold, the date, and the name sanitized, empty when
    it is the address. *)
Theorem vcard_roundtrip (contacts : list VcardContact.t) :
  Forall vcard_ok contacts → parse_vcard (make_vcard contacts) = reread <$> contacts.
Proof.
  intros Hcs. unfold parse_vcard. rewrite make_vcard_lines, read_ended.
  - by apply parse_written.
  - induction Hcs as [|c cs Hc Hcs IH]; [constructor|]. cbn [mbind list_bind]. apply Forall_app. split; [by apply card_lines_plain|done].
Qed.

End vcard.

(** ** Witnesses *)

(** A date crate that writes the number of seconds in front of the letter Z. *)
#[refine] Definition seconds_only : Chrono := {|
  format_timestamp t := if (0 <=? t)%Z then Some (show_Z t ++ [90%N]) else None;
  parse_from_str s := b ← strip_suffix 90 s; parse_signed 0 last_timestamp b;
  parse_local _ := None;
|}.
Proof.
  intros t Ht. exists (show_Z t ++ [90%N]). destruct (Z.leb_spec 0 t) as [H0|]; [|lia]. split; [done|]. split.
  - rewrite forallb_app. apply andb_true_intro. split; [|done]. unfold show_Z.
    destruct t as [|p|p]; [done| |lia]. cbn. apply forallb_forall. intros x Hx.
    unfold is_date_char. enough (is_ascii_digit x = true) as -> by done.
    revert x Hx. generalize (Pos.to_uint p). intros u. induction u; cbn; try done; intros x [<-|Hx]; auto.
  - unfold strip_suffix. rewrite reverse_snoc. cbn [strip_prefix]. rewrite decide_True by done.
    cbn [fmap option_fmap option_map mbind option_bind]. rewrite reverse_involutive. rewrite parse_signed_show.
    by destruct (Z.leb_spec 0 t), (Z.leb_spec t last_timestamp); try lia.
Defined.

Definition ada_card : VcardContact.t :=
  VcardContact.mk (lit "ada@x.org") (lit "Ada, Countess; of Lovelace") (Some (lit "xsBNBF"))
    None (Some (lit "a\b" ++ [LF] ++ lit "c;d")) (Ok 1700000000%Z).

Definition nameless_card : VcardContact.t :=
  VcardContact.mk (lit "bob@x.org") [] None (Some (lit "/9j/4AAQ")) None (Err "No timestamp in vcard").

Lemma no_lf_dec (s : str) : bool_decide (LF ∉ s) = true → LF ∉ s.
Proof. apply bool_decide_eq_true_1. Qed.

Lemma ada_card_ok : vcard_ok ada_card.
Proof.
  split; [vm_compute; reflexivity|..].
  - intros k [= <-]. apply no_lf_dec. vm_compute. reflexivity.
  - intros p [=].
  - intros t [= <-]. unfold last_timestamp. lia.
Qed.

Lemma nameless_card_ok : vcard_ok nameless_card.
Proof.
  split; [vm_compute; reflexivity|..].
  - intros k [=].
  - intros p [= <-]. apply no_lf_dec. vm_compute. reflexivity.
  - intros t [=].
Qed.

Lemma vcard_roundtrip_witness :
  @parse_vcard seconds_only (@make_vcard seconds_only [ada_card; nameless_card]) = [ada_card; nameless_card].
Proof.
  rewrite (@vcard_roundtrip seconds_only).
  - vm_compute. reflexivity.
  - apply Forall_cons. split; [exact ada_card_ok|]. apply Forall_singleton. exact nameless_card_ok.
Defined.

(** Lines in other writers' forms: folded, grouped, with parameters. *)
Example foreign_card :
  VcardContact.addr <$> @parse_vcard seconds_only
    (lit "begin:vcard" ++ [LF] ++ lit "item1.EMAIL;PREF=1;TYPE=work:ali" ++ CRLF ++ lit " ce@x.org" ++ [LF]
     ++ lit "END:VCARD")
  = [lit "alice@x.org"].
Proof. vm_compute. reflexivity. Qed.

(** An address with angle brackets is taken apart, so it does not come back. *)
Example bracketed_address :
  VcardContact.addr <$> @parse_vcard seconds_only
    (@make_vcard seconds_only [VcardContact.mk (lit "A <a@x.org>") (lit "A") None None None (Err "")])
  = [lit "a@x.org"].
Proof. vm_compute. reflexivity. Qed.
