(* ===== verification/Contacts.v ===== *)
(** * Contacts: how contacts come to be.

    [Contact::add_or_lookup_ext], [Contact::create] and
    [Contact::add_address_book] of [core/src/contact.rs], the adoption of keys
    by [core/src/email/autocrypt.rs], and [set_recipients] of
    [core/src/email/compose.rs]. *)

From S2P Require Import Prelude Text Substr Store Labels Migrations Trash Gating Blocklist.
From S2P Require Import ContactTools Policy Receipts Compose.

Module Modifier.
Inductive t := None | Modified | Created.
#[global] Instance eq_dec : EqDecision t.
Proof. solve_decision. Defined.
End Modifier.

(** [PartialOrd] of [Origin]: by the discriminant. *)
Definition origin_le (a b : Origin.t) : bool := (Origin.to_i64 a <=? Origin.to_i64 b)%Z.
Definition origin_lt (a b : Origin.t) : bool := (Origin.to_i64 a <? Origin.to_i64 b)%Z.

(** The columns [add_or_lookup_ext] writes. *)
Definition with_names (name addr : str) (origin : Origin.t) (authname : str) (r : ContactRow.t)
    : ContactRow.t :=
  ContactRow.mk name addr (Origin.to_i64 origin) (ContactRow.blocked r) (ContactRow.last_seen r)
    authname (ContactRow.fingerprint r) (ContactRow.verifier r).

Definition NOREPLY : str := lit "noreply".
Definition NO_REPLY : str := lit "no-reply".
Definition NOTIFICATIONS : str := lit "notifications@".
Definition PLUS : N := 43.

(** Addresses that do not belong to a person. *)
Definition is_automatic (addr : str) : bool :=
  contains_str NOREPLY addr || contains_str NO_REPLY addr || starts_with NOTIFICATIONS addr
  || ((50 <? byte_len addr)%nat && contains PLUS addr).

(** Names of these origins are the user's own and stay on the device. *)
Definition is_manual (origin : Origin.t) : bool :=
  match origin with
  | Origin.ManuallyCreated | Origin.AddressBook | Origin.UnhandledQrScan => true
  | _ => false
  end.

Section contacts.
Context `{!UnicodeCase, !SqlChoice}.

(** The fingerprint of a key made for an address: OpenPGP, not modelled. *)
Context (create_keypair : str → result str).

Definition addr_cmp (a b : str) : bool := bool_decide (addr_normalize a = addr_normalize b).

Definition is_self_addr (c : Ctx) (addr : str) : bool :=
  (negb (is_empty addr)
   && addr_cmp addr (default [] (get_config_key c (lit "configured_addr"))))
  || existsb (addr_cmp addr) (transports c).*1.

(** [ContactAddress::new] *)
Definition contact_address (s : str) : result str :=
  let addr := addr_normalize s in
  if may_be_valid_addr addr then Ok addr else Err "invalid address".

(** [generate_keypair], under the lock of the key. *)
Definition generate_keypair : cmd Ctx str :=
  addr ← gets (λ c, get_config_key c (lit "configured_addr"));
  addr ← or_bail addr "No self addr configured";
  lift (EmailAddress.new addr) ;;
  key ← gets self_key;
  match key with
  | Some fp => mret fp
  | None =>
      fp ← lift (create_keypair addr);
      modify (set_self_key (λ _, Some fp)) ;;
      mret fp
  end.

Definition self_fingerprint : cmd Ctx str :=
  key ← gets self_key;
  match key with Some fp => mret fp | None => generate_keypair end.

(** [update_chat_names]: the one-to-one chat takes the name of its contact. *)
Definition update_chat_names (contact_id : Z) (c : Ctx) : Ctx :=
  let singles := filter (λ r, ChatRow.typ r.2 = Chattype_Single ∧ (r.1, contact_id) ∈ chats_contacts c)
                   (map_to_list (chats c)) in
  match pick singles, contacts c !! contact_id with
  | Some (chat_id, _), Some r =>
      let chat_name :=
        if negb (is_empty (ContactRow.name r)) then ContactRow.name r
        else if negb (is_empty (ContactRow.authname r)) then ContactRow.authname r
        else ContactRow.addr r in
      set_chats (alter (λ ch, ChatRow.mk (ChatRow.typ ch) chat_name (ChatRow.grpid ch)
                                (ChatRow.blocked ch) (ChatRow.ephemeral_timer ch)
                                (ChatRow.param ch) (ChatRow.archived ch) (ChatRow.muted_until ch)) chat_id) c
  | _, _ => c
  end.

(** [SELECT .. WHERE fingerprint=?1 AND (?1<>'' OR addr=?2 COLLATE NOCASE)] *)
Definition lookup_rows (c : Ctx) (fingerprint addr : str) : list (Z * ContactRow.t) :=
  filter (λ r, ContactRow.fingerprint r.2 = fingerprint
               ∧ (fingerprint ≠ [] ∨ eq_ignore_ascii_case (ContactRow.addr r.2) addr = true))
    (contact_rows c).

(** The new values of a row that was found, and whether a name changed;
    [None] when nothing is to be written. *)
Definition updated_row (name addr : str) (origin : Origin.t) (row_origin : Origin.t) (r : ContactRow.t)
    : option (ContactRow.t * bool) :=
  let row_name := ContactRow.name r in
  let row_authname := ContactRow.authname r in
  let manual := is_manual origin in
  let update_name := manual && negb (bool_decide (name = row_name)) in
  let update_authname :=
    negb manual && negb (bool_decide (name = row_authname)) && negb (is_empty name)
    && (origin_le row_origin origin || bool_decide (origin = Origin.IncomingUnknownFrom)
        || is_empty row_authname) in
  let update_addr := origin_le row_origin origin && negb (bool_decide (addr = ContactRow.addr r)) in
  if update_name || update_authname || update_addr || origin_lt row_origin origin then
    Some (with_names (if update_name then name else row_name)
            (if update_addr then addr else ContactRow.addr r)
            (if origin_lt row_origin origin then origin else row_origin)
            (if update_authname then name else row_authname) r,
          update_name || update_authname)
  else None.

Definition new_row (name addr fingerprint : str) (origin : Origin.t) : ContactRow.t :=
  ContactRow.mk (if is_manual origin then name else []) addr (Origin.to_i64 origin) false 0
    (if is_manual origin then [] else name) fingerprint 0.

(** The transaction: update the row found or insert one. *)
Definition upsert_contact (name addr fingerprint : str) (origin : Origin.t) : cmd Ctx (Z * Modifier.t) :=
  row ← gets (λ c, pick (lookup_rows c fingerprint addr));
  match row with
  | Some (id, r) =>
      row_origin ← or_bail (Origin.from_i64 (ContactRow.origin r)) "FromSql: out of range";
      match updated_row name addr origin row_origin r with
      | Some (r', renamed) =>
          modify (set_contacts <[id := r']>) ;;
          (if renamed : bool then modify (update_chat_names id) else mret tt) ;;
          mret (id, Modifier.Modified)
      | None => mret (id, Modifier.None)
      end
  | None =>
      id ← gets (λ c, contacts_seq c + 1)%Z;
      modify (set_contacts_seq (λ _, id)) ;;
      modify (set_contacts <[id := new_row name addr fingerprint origin]>) ;;
      ensure (id <=? u32_max)%Z "out of range integral type conversion attempted" ;;
      mret (id, Modifier.Created)
  end.

Definition add_or_lookup_ext (name addr fingerprint : str) (origin : Origin.t)
    : cmd Ctx (Z * Modifier.t) :=
  ensure (negb (is_empty addr) || negb (is_empty fingerprint)) "Can not add_or_lookup empty address" ;;
  ensure (negb (bool_decide (origin = Origin.Unknown))) "Missing valid origin" ;;
  configured ← gets is_configured;
  is_self ← gets (λ c, is_self_addr c addr);
  if configured && is_self then mret (ContactId.SELF, Modifier.None)
  else
    own ← (if negb (is_empty fingerprint) && configured then
             fp ← self_fingerprint; mret (bool_decide (fingerprint = fp))
           else mret false);
    if own : bool then mret (ContactId.SELF, Modifier.None)
    else
      let hide := origin_le origin Origin.OutgoingTo && is_automatic addr in
      let origin := if hide then Origin.Hidden else origin in
      let name := if hide then [] else sanitize_name name in
      transaction (upsert_contact name addr fingerprint origin).

Definition add_or_lookup (name addr : str) (origin : Origin.t) : cmd Ctx (Z * Modifier.t) :=
  add_or_lookup_ext name addr [] origin.

(** ** Adding contacts by hand *)

Definition is_blocked_load (id : Z) : cmd Ctx bool :=
  row ← gets (λ c, contacts c !! id);
  or_bail (ContactRow.blocked <$> row) "Query returned no rows".

Definition create_ext (sync : Sync.t) (name addr : str) : cmd Ctx Z :=
  let '(name, addr) := sanitize_name_and_addr name addr in
  addr ← lift (contact_address addr);
  added ← add_or_lookup name addr Origin.ManuallyCreated;
  let '(contact_id, sth_modified) := added in
  blocked ← is_blocked_load contact_id;
  (if blocked : bool then set_blocked Sync.Nosync contact_id false else mret tt) ;;
  (if bool_decide (sync = Sync.Sync) && negb (bool_decide (sth_modified = Modifier.None))
   then attempt (add_sync_item (SyncRenameChat (ContactAddr addr) name)) ;; mret tt
   else mret tt) ;;
  mret contact_id.

Definition create (name addr : str) : cmd Ctx Z := create_ext Sync.Sync name addr.

(** ** Adopting a key *)

(** What is read of the parsed message. *)
Record MimeSender := MkMimeSender {
  signature : option str;
  autocrypt_fingerprint : option str;
  from_addr : str;
  from_display_name : option str;
}.

Definition adopt (mime : MimeSender) : cmd Ctx (option Z) :=
  if bool_decide (is_Some (signature mime)) then mret None
  else
    match autocrypt_fingerprint mime with
    | None => mret None
    | Some fingerprint =>
        if is_empty fingerprint then mret None
        else
          let addr := trim (from_addr mime) in
          is_self ← gets (λ c, is_self_addr c addr);
          if is_empty addr || is_self then mret None
          else
            added ← add_or_lookup_ext (default [] (from_display_name mime)) addr fingerprint
                      Origin.IncomingUnknownFrom;
            mret (Some added.1)
    end.

(** ** The recipients of a draft *)

(** One address typed into the composer; a blank one is skipped. *)
Definition add_recipient (kind : RecipientKind.t) (typed : str) : cmd Ctx (list Recipient.t) :=
  let typed := trim typed in
  if is_empty typed then mret []
  else
    let '(name, addr) := split_addr typed in
    contact_addr ← lift (contact_address addr);
    add_or_lookup name contact_addr Origin.OutgoingCc ;;
    mret [Recipient.mk kind (addr_normalize addr) name].

Fixpoint add_recipients (kind : RecipientKind.t) (addrs : list str) : cmd Ctx (list Recipient.t) :=
  match addrs with
  | [] => mret []
  | typed :: addrs =>
      r ← add_recipient kind typed;
      rs ← add_recipients kind addrs;
      mret (r ++ rs)
  end.

Definition set_recipients (msg_id : Z) (recipients : RecipientSet.t) : cmd Ctx unit :=
  to ← add_recipients RecipientKind.To (RecipientSet.to recipients);
  cc ← add_recipients RecipientKind.Cc (RecipientSet.cc recipients);
  bcc ← add_recipients RecipientKind.Bcc (RecipientSet.bcc recipients);
  Recipients.store msg_id (to ++ cc ++ bcc).

(** ** The rows a call can touch *)

(** Rows have ids that were given out, and an origin of the enumeration. *)
Record contacts_ok (c : Ctx) : Prop := {
  ok_seq id : is_Some (contacts c !! id) → (id ≤ contacts_seq c)%Z;
  ok_special : (ContactId.LAST_SPECIAL ≤ contacts_seq c)%Z;
  ok_origin id r : contacts c !! id = Some r → is_Some (Origin.from_i64 (ContactRow.origin r));
}.

Lemma origin_from_to o : Origin.from_i64 (Origin.to_i64 o) = Some o.
Proof. by destruct o. Qed.

Lemma origin_from_Some z o : Origin.from_i64 z = Some o → z = Origin.to_i64 o.
Proof. unfold Origin.from_i64. intros Hf. apply List.find_some in Hf as [_ E%Z.eqb_eq]. done. Qed.

Lemma elem_of_lookup_rows c fingerprint addr x :
  x ∈ lookup_rows c fingerprint addr ↔ contacts c !! x.1 = Some x.2 ∧ ContactRow.fingerprint x.2 = fingerprint
    ∧ (fingerprint ≠ [] ∨ eq_ignore_ascii_case (ContactRow.addr x.2) addr = true).
Proof.
  unfold lookup_rows, contact_rows. rewrite list_elem_of_filter. destruct x as [i r].
  rewrite elem_of_map_to_list. cbn. tauto.
Qed.

Lemma update_chat_names_frame id c : ∃ h, update_chat_names id c = set_chats h c.
Proof.
  unfold update_chat_names. assert (c = set_chats (λ h, h) c) as Hid by by destruct c.
  destruct (pick _) as [[? ?]|], (contacts c !! id); try (by exists (λ h, h)). by eexists.
Qed.

(** The transaction on a well-formed table: which row it returns, and how that
    row has changed. *)
Record upserted (name addr fingerprint : str) (origin : Origin.t) (c : Ctx) (id : Z) (c' : Ctx) : Prop := {
  up_frame : ∃ k s h, c' = set_contacts (λ _, k) (set_contacts_seq (λ _, s) (set_chats h c));
  up_others other : other ≠ id → contacts c' !! other = contacts c !! other;
  up_row :
    (∃ r row_origin, (id, r) ∈ lookup_rows c fingerprint addr
       ∧ Origin.from_i64 (ContactRow.origin r) = Some row_origin
       ∧ contacts_seq c' = contacts_seq c
       ∧ contacts c' !! id = Some (default r (fst <$> updated_row name addr origin row_origin r)))
    ∨ (lookup_rows c fingerprint addr = [] ∧ id = (contacts_seq c + 1)%Z
       ∧ contacts_seq c' = id
       ∧ contacts c' !! id = Some (new_row name addr fingerprint origin));
}.

Lemma upsert_contact_run name addr fingerprint origin c :
  contacts_ok c → (contacts_seq c < u32_max)%Z →
  ∃ id m c', upsert_contact name addr fingerprint origin c = (c', Ok (id, m))
    ∧ upserted name addr fingerprint origin c id c'.
Proof.
  intros Hok Hseq. unfold upsert_contact. rewrite run_bind_gets.
  destruct (pick (lookup_rows c fingerprint addr)) as [[id r]|] eqn:Ep.
  - apply pick_in in Ep. pose proof Ep as Hin. apply elem_of_lookup_rows in Ep as (Hr & _). cbn in Hr.
    destruct (ok_origin c Hok _ _ Hr) as [row_origin Ho]. rewrite Ho. cbn [or_bail]. rewrite run_bind_ret.
    destruct (updated_row name addr origin row_origin r) as [[r' renamed]|] eqn:Eu.
    + rewrite run_bind_modify. set (d := set_contacts <[id := r']> c).
      assert (∃ h, (if renamed then modify (update_chat_names id) else mret tt) d = (set_chats h d, Ok tt)) as [h Hh].
      { destruct renamed; [|exists (λ h, h); by destruct d].
        destruct (update_chat_names_frame id d) as [h Eh]. exists h. unfold modify. by rewrite Eh. }
      rewrite (run_bind_ok _ _ _ _ _ Hh). eexists id, _, _. split; [done|]. split.
      * do 3 eexists. unfold d. reflexivity.
      * intros other Hne. unfold d. cbn. by rewrite lookup_insert_ne.
      * left. exists r, row_origin. split; [done|]. split; [done|]. split; [done|]. rewrite Eu.
        unfold d. cbn. by rewrite lookup_insert_eq.
    + eexists id, _, _. split; [done|]. split.
      * exists (contacts c), (contacts_seq c), (λ h, h). by destruct c.
      * done.
      * left. exists r, row_origin. rewrite Eu. done.
  - apply pick_None in Ep. rewrite run_bind_gets, !run_bind_modify.
    destruct (Z.leb_spec (contacts_seq c + 1) u32_max); [|lia]. cbn [ensure]. rewrite run_bind_ret.
    do 3 eexists. split; [done|]. split.
    + eexists _, _, (λ h, h). unfold set_contacts, set_contacts_seq, set_chats. cbn. reflexivity.
    + intros other Hne. cbn. by rewrite lookup_insert_ne.
    + right. split; [done|]. split; [done|]. split; [done|]. cbn. by rewrite lookup_insert_eq.
Qed.

(** The name and the origin a call works with. *)
Definition hides (addr : str) (origin : Origin.t) : bool :=
  origin_le origin Origin.OutgoingTo && is_automatic addr.
Definition given_name (name addr : str) (origin : Origin.t) : str :=
  if hides addr origin then [] else sanitize_name name.
Definition given_origin (addr : str) (origin : Origin.t) : Origin.t :=
  if hides addr origin then Origin.Hidden else origin.

Lemma self_fingerprint_frame c : ∃ y, final self_fingerprint c = set_self_key y c.
Proof.
  assert (c = set_self_key (λ y, y) c) as Hid by by destruct c.
  assert (∀ r : result str, ∃ y, (c, r).1 = set_self_key y c) as Hsame by (intros r; by exists (λ y, y)).
  unfold final, self_fingerprint. rewrite run_bind_gets. destruct (self_key c) as [fp|] eqn:Ek; [exact (Hsame (Ok fp))|].
  unfold generate_keypair. rewrite run_bind_gets.
  destruct (get_config_key c (lit "configured_addr")) as [a|]; [|apply (Hsame (Err _))].
  cbn [or_bail]. rewrite run_bind_ret, run_bind. unfold lift at 1.
  destruct (EmailAddress.new a); [|apply (Hsame (Err _))].
  rewrite run_bind_gets, Ek, run_bind. unfold lift.
  destruct (create_keypair a) as [fp|e]; [|apply (Hsame (Err _))].
  rewrite run_bind_modify. by eexists.
Qed.

(** What a call did: nothing, or one row is the contact asked for. *)
Lemma add_or_lookup_ext_run name addr fingerprint origin c :
  contacts_ok c → (contacts_seq c < u32_max)%Z →
  ∃ y c' r, add_or_lookup_ext name addr fingerprint origin c = (c', r)
    ∧ ((c' = set_self_key y c ∧ ∀ id m, r = Ok (id, m) → id = ContactId.SELF)
       ∨ ∃ id m, r = Ok (id, m) ∧ (addr ≠ [] ∨ fingerprint ≠ [])
           ∧ upserted (given_name name addr origin) addr fingerprint (given_origin addr origin)
               (set_self_key y c) id c').
Proof.
  intros Hok Hseq. unfold add_or_lookup_ext.
  assert (c = set_self_key (λ y, y) c) as Hid by by destruct c.
  assert (∀ e, ∃ y c' r, (c, Err e : result (Z * Modifier.t)) = (c', r)
    ∧ ((c' = set_self_key y c ∧ ∀ id m, r = Ok (id, m) → id = ContactId.SELF)
       ∨ ∃ id m, r = Ok (id, m) ∧ (addr ≠ [] ∨ fingerprint ≠ [])
           ∧ upserted (given_name name addr origin) addr fingerprint (given_origin addr origin)
               (set_self_key y c) id c')) as Herr
    by (intros e; exists (λ y, y), c, (Err e); split; [done|]; by left).
  destruct (negb (is_empty addr) || negb (is_empty fingerprint)) eqn:Ene; [|apply Herr]. cbn [ensure].
  destruct (negb (bool_decide (origin = Origin.Unknown))); [|apply Herr]. cbn [ensure].
  rewrite !run_bind_ret, !run_bind_gets. clear Herr.
  destruct (is_configured c && is_self_addr c addr).
  { exists (λ y, y). do 2 eexists. split; [done|]. left. split; [done|]. by intros id m [= <- <-]. }
  rewrite run_bind.
  assert (∃ y r, (if negb (is_empty fingerprint) && is_configured c
              then self_fingerprint ≫= (λ fp, mret (bool_decide (fingerprint = fp))) else mret false) c
            = (set_self_key y c, r)) as (y & r & ->).
  { destruct (negb (is_empty fingerprint) && is_configured c); [|exists (λ y, y), (Ok false); by rewrite <-Hid].
    destruct (self_fingerprint_frame c) as [y Hy]. unfold final in Hy. rewrite run_bind.
    destruct (self_fingerprint c) as [d [fp|e]]; cbn in Hy |- *; subst; by eexists _, _. }
  exists y. destruct r as [[]|e].
  - do 2 eexists. split; [done|]. left. split; [done|]. by intros id m [= <- <-].
  - cbv zeta. fold (hides addr origin).
    change (if hides addr origin then Origin.Hidden else origin) with (given_origin addr origin).
    change (if hides addr origin then [] else sanitize_name name) with (given_name name addr origin).
    destruct (upsert_contact_run (given_name name addr origin) addr fingerprint (given_origin addr origin)
                (set_self_key y c)) as (id & m & c' & Hrun & Hup); [by destruct Hok; split|done|].
    unfold transaction. rewrite Hrun. do 2 eexists. split; [done|]. right. exists id, m. split; [done|].
    split; [|done]. apply orb_true_iff in Ene as [Ene|Ene]; [left|right]; by intros ->.
  - do 2 eexists. split; [done|]. left. by split.
Qed.

(** ** Histories of calls *)

Record Call := MkCall { c_name : str; c_addr : str; c_fingerprint : str; c_origin : Origin.t }.

Definition run_call (k : Call) : cmd Ctx (Z * Modifier.t) :=
  add_or_lookup_ext (c_name k) (c_addr k) (c_fingerprint k) (c_origin k).

Definition run_calls (calls : list Call) (c : Ctx) : Ctx := foldl (λ c k, final (run_call k) c) c calls.

(** No key belongs to two contacts, and no address to two contacts without a
    key. *)
Record contacts_unique (c : Ctx) : Prop := {
  unique_key i j r s : contacts c !! i = Some r → contacts c !! j = Some s →
    ContactRow.fingerprint r = ContactRow.fingerprint s → ContactRow.fingerprint r ≠ [] → i = j;
  unique_addr i j r s : contacts c !! i = Some r → contacts c !! j = Some s →
    ContactRow.fingerprint r = [] → ContactRow.fingerprint s = [] → ContactRow.addr r ≠ [] →
    eq_ignore_ascii_case (ContactRow.addr r) (ContactRow.addr s) = true → i = j;
}.

(** What a call may do to the row of a contact. *)
Record grown (calls : list Call) (r r' : ContactRow.t) : Prop := {
  gr_origin : (ContactRow.origin r ≤ ContactRow.origin r')%Z;
  gr_same : ContactRow.fingerprint r' = ContactRow.fingerprint r
    ∧ ContactRow.blocked r' = ContactRow.blocked r ∧ ContactRow.verifier r' = ContactRow.verifier r;
  gr_authname : ContactRow.authname r' = ContactRow.authname r
    ∨ ∃ k, k ∈ calls ∧ is_manual (c_origin k) = false ∧ ContactRow.authname r' = sanitize_name (c_name k);
}.

Lemma eq_ignore_case_iff a b : eq_ignore_ascii_case a b = true ↔ ascii_lower <$> a = ascii_lower <$> b.
Proof. unfold eq_ignore_ascii_case. by rewrite bool_decide_eq_true. Qed.

(** The row that is found and updated. *)
Lemma updated_row_grown k row_origin r :
  Origin.from_i64 (ContactRow.origin r) = Some row_origin →
  let r' := default r (fst <$> updated_row (given_name (c_name k) (c_addr k) (c_origin k)) (c_addr k)
                        (given_origin (c_addr k) (c_origin k)) row_origin r) in
  grown [k] r r' ∧ is_Some (Origin.from_i64 (ContactRow.origin r'))
  ∧ (ContactRow.addr r' = ContactRow.addr r ∨ ContactRow.addr r' = c_addr k).
Proof.
  intros Ho%origin_from_Some. cbn zeta. unfold updated_row. cbv zeta.
  set (name := given_name _ _ _). set (origin := given_origin _ _).
  set (ua := negb (is_manual origin) && _ && _ && _).
  case_match; cbn [fmap option_fmap option_map default fst id].
  2:{ split; [split; [done|done|by left]|]. split; [rewrite Ho; rewrite origin_from_to; eauto|by left]. }
  split; [split|split].
  - cbn. rewrite Ho. unfold origin_lt. destruct (Z.ltb_spec (Origin.to_i64 row_origin) (Origin.to_i64 origin)); lia.
  - done.
  - cbn. destruct ua eqn:Eua; [|by left]. right. exists k. split; [by left|].
    unfold ua in Eua. repeat (apply andb_prop in Eua as [Eua ?]). unfold name, origin, given_name, given_origin in *.
    destruct (hides (c_addr k) (c_origin k)); [done|]. split; [by apply negb_true_iff|done].
  - cbn [ContactRow.origin with_names]. rewrite origin_from_to. eauto.
  - cbn [ContactRow.addr with_names]. case_match; auto.
Qed.

Definition upserted_call (k : Call) (c : Ctx) (id : Z) (c' : Ctx) : Prop :=
  upserted (given_name (c_name k) (c_addr k) (c_origin k)) (c_addr k) (c_fingerprint k)
    (given_origin (c_addr k) (c_origin k)) c id c'.

(** The row of the contact a call returns. *)
Lemma upserted_row_kind k c id c' :
  upserted_call k c id c' →
  ∃ r', contacts c' !! id = Some r' ∧ ContactRow.fingerprint r' = c_fingerprint k
    ∧ is_Some (Origin.from_i64 (ContactRow.origin r'))
    ∧ (c_fingerprint k = [] → eq_ignore_ascii_case (ContactRow.addr r') (c_addr k) = true)
    ∧ (∀ r, contacts c !! id = Some r → contacts_ok c → grown [k] r r').
Proof.
  intros [_ _ [(r & o & Hin & Ho & _ & Hr')|(_ & -> & _ & Hr')]].
  - destruct (updated_row_grown k o r Ho) as (Hg & Hs & Ha).
    set (r' := default r _) in *. exists r'. apply elem_of_lookup_rows in Hin as (Hr & Hf & Hk). cbn in Hr, Hf, Hk.
    destruct Hg as [Hg1 (Hg2 & Hg3) Hg4]. split; [done|]. split; [congruence|]. split; [done|]. split.
    + intros Efp. rewrite Efp in Hk. destruct Hk as [|Hk]; [done|].
      destruct Ha as [->| ->]; [done|]. by apply eq_ignore_case_iff.
    + intros r0 Hr0 _. assert (r0 = r) as -> by congruence. by split.
  - exists (new_row (given_name (c_name k) (c_addr k) (c_origin k)) (c_addr k) (c_fingerprint k)
              (given_origin (c_addr k) (c_origin k))).
    split; [done|]. split; [done|]. split; [cbn [ContactRow.origin new_row]; rewrite origin_from_to; eauto|]. split.
    + intros _. by apply eq_ignore_case_iff.
    + intros r Hr Hok. pose proof (ok_seq c Hok (contacts_seq c + 1)) as Hs. rewrite Hr in Hs.
      specialize (Hs (ex_intro _ r eq_refl)). lia.
Qed.

(** Whoever has the key, or without a key the address, is the contact found. *)
Lemma upserted_is_the_one k c id c' j s :
  contacts_unique c → upserted_call k c id c' → contacts c !! j = Some s →
  ContactRow.fingerprint s = c_fingerprint k →
  (c_fingerprint k ≠ [] ∨ (c_addr k ≠ [] ∧ eq_ignore_ascii_case (ContactRow.addr s) (c_addr k) = true)) →
  j = id.
Proof.
  intros Hu [_ _ Hrow] Hs Hf Hk.
  assert ((j, s) ∈ lookup_rows c (c_fingerprint k) (c_addr k)) as Hin by (apply elem_of_lookup_rows; cbn; naive_solver).
  destruct Hrow as [(r & o & Hr & _)|(E & _)]; [|by rewrite E in Hin; apply not_elem_of_nil in Hin].
  apply elem_of_lookup_rows in Hr as (Hr & Hfr & Hkr). cbn in Hr, Hfr, Hkr.
  destruct (decide (c_fingerprint k = [])) as [E|E].
  - destruct Hk as [|[Hne Hk]]; [done|]. destruct Hkr as [|Hkr]; [done|].
    apply (unique_addr c Hu j id s r); [done|done|congruence|congruence| |].
    + intros Ea. rewrite Ea in Hk. apply eq_ignore_case_iff in Hk. symmetry in Hk. by apply fmap_nil_inv in Hk.
    + apply eq_ignore_case_iff in Hk, Hkr. apply eq_ignore_case_iff. congruence.
  - apply (unique_key c Hu j id s r); congruence.
Qed.

Lemma upserted_unique k c id c' :
  (c_addr k ≠ [] ∨ c_fingerprint k ≠ []) →
  contacts_unique c → upserted_call k c id c' → contacts_unique c'.
Proof.
  intros Hne Hu Hup. destruct (upserted_row_kind _ _ _ _ Hup) as (r' & Hr' & Hf' & _ & Ha' & _).
  pose proof (up_others _ _ _ _ _ _ _ Hup) as Hoth.
  assert (∀ j s, j ≠ id → contacts c' !! j = Some s → ContactRow.fingerprint s = c_fingerprint k →
            (c_fingerprint k ≠ [] ∨ eq_ignore_ascii_case (ContactRow.addr s) (c_addr k) = true) → False) as Hclash.
  { intros j s Hj Hs Hf Hk. rewrite Hoth in Hs by done. apply Hj.
    eapply upserted_is_the_one; [done|done|done|done|].
    destruct Hk; [by left|]. destruct (decide (c_fingerprint k = [])); [|by left].
    right. split; [|done]. by destruct Hne. }
  split.
  - intros i j r s Hi Hj Hfp Hn. destruct (decide (i = id)) as [->|Hi0], (decide (j = id)) as [->|Hj0]; [done|..].
    + exfalso. apply (Hclash j s); [done|done|congruence|]. left. congruence.
    + exfalso. apply (Hclash i r); [done|done|congruence|]. left. congruence.
    + rewrite Hoth in Hi, Hj by done. by eapply unique_key.
  - intros i j r s Hi Hj Hfi Hfj Hn Hadr.
    destruct (decide (i = id)) as [->|Hi0], (decide (j = id)) as [->|Hj0]; [done|..].
    + exfalso. assert (r = r') as -> by congruence. apply (Hclash j s); [done|done|congruence|]. right.
      assert (c_fingerprint k = []) as E by congruence. specialize (Ha' E).
      apply eq_ignore_case_iff in Ha', Hadr. apply eq_ignore_case_iff. congruence.
    + exfalso. assert (s = r') as -> by congruence. apply (Hclash i r); [done|done|congruence|]. right.
      assert (c_fingerprint k = []) as E by congruence. specialize (Ha' E).
      apply eq_ignore_case_iff in Ha', Hadr. apply eq_ignore_case_iff. congruence.
    + rewrite Hoth in Hi, Hj by done. by eapply unique_addr.
Qed.

Lemma upserted_ok k c id c' : contacts_ok c → upserted_call k c id c' → contacts_ok c' ∧ (contacts_seq c' ≤ contacts_seq c + 1)%Z.
Proof.
  intros Hok Hup. destruct (upserted_row_kind _ _ _ _ Hup) as (r' & Hr' & _ & Ho' & _).
  pose proof (up_others _ _ _ _ _ _ _ Hup) as Hoth.
  assert ((id ≤ contacts_seq c')%Z ∧ (contacts_seq c ≤ contacts_seq c' ≤ contacts_seq c + 1)%Z) as (Hid & Hle).
  { destruct Hup as [_ _ [(r & o & Hin & _ & Es & _)|(_ & E & Es & _)]]; [|lia]. rewrite Es.
    apply elem_of_lookup_rows in Hin as (Hr & _). split; [|lia]. apply ok_seq; [done|]. by exists r. }
  split; [|lia]. pose proof (ok_special c Hok). split.
  - intros i Hi. destruct (decide (i = id)) as [->|Hne]; [done|]. rewrite Hoth in Hi by done.
    apply (ok_seq c Hok) in Hi. lia.
  - lia.
  - intros i r Hi. destruct (decide (i = id)) as [->|Hne]; [congruence|]. rewrite Hoth in Hi by done.
    by eapply ok_origin.
Qed.

(** What a history of calls keeps of the contacts there were. *)
Record history_of (calls : list Call) (c c' : Ctx) : Prop := {
  hi_ok : contacts_ok c';
  hi_unique : contacts_unique c';
  hi_kept id r : contacts c !! id = Some r → ∃ r', contacts c' !! id = Some r' ∧ grown calls r r';
  hi_new id r' : contacts c !! id = None → contacts c' !! id = Some r' →
    ContactRow.authname r' = []
    ∨ ∃ k, k ∈ calls ∧ is_manual (c_origin k) = false ∧ ContactRow.authname r' = sanitize_name (c_name k);
}.

Lemma grown_refl calls r : grown calls r r.
Proof. split; [done|done|by left]. Qed.

Lemma grown_trans calls k r1 r2 r3 : grown [k] r1 r2 → grown calls r2 r3 → grown (k :: calls) r1 r3.
Proof.
  intros [H1 (H2 & H3 & H4) H5] [G1 (G2 & G3 & G4) G5]. split; [lia|split_and!; congruence|].
  destruct G5 as [E|(k' & Hk & Hm & E)]; [|right; exists k'; split; [by right|done]].
  rewrite E. destruct H5 as [|(k' & Hk & Hm & E')]; [by left|]. right. exists k'.
  split; [apply elem_of_cons; left; set_solver|done].
Qed.

Lemma step_history k c :
  contacts_ok c → contacts_unique c → (contacts_seq c < u32_max)%Z →
  history_of [k] c (final (run_call k) c) ∧ (contacts_seq (final (run_call k) c) ≤ contacts_seq c + 1)%Z.
Proof.
  intros Hok Hu Hseq. unfold run_call, final.
  destruct (add_or_lookup_ext_run (c_name k) (c_addr k) (c_fingerprint k) (c_origin k) c Hok Hseq)
    as (y & c' & r & -> & [[-> _]|(id & m & _ & Hne & Hup)]); cbn [fst].
  - split; [|cbn; lia]. split; [by destruct Hok; split|by destruct Hu; split| |].
    + intros id r0 Hr. exists r0. split; [done|apply grown_refl].
    + intros id r0 Hn Hs. cbn in Hs. congruence.
  - change (upserted_call k (set_self_key y c) id c') in Hup. set (d := set_self_key y c) in *.
    assert (contacts_ok d) as Hokd by (by destruct Hok; split).
    assert (contacts_unique d) as Hud by (by destruct Hu; split).
    destruct (upserted_ok k d id c' Hokd Hup) as [Hok' Hs']. split; [|done].
    destruct (upserted_row_kind _ _ _ _ Hup) as (r' & Hr' & _ & _ & _ & Hg).
    pose proof (up_others _ _ _ _ _ _ _ Hup) as Hoth.
    split; [done|by eapply upserted_unique| |].
    + intros i ri Hi. destruct (decide (i = id)) as [->|Hii]; [exists r'; eauto|].
      exists ri. rewrite Hoth by done. split; [done|apply grown_refl].
    + intros i ri Hn Hi. destruct (decide (i = id)) as [->|Hii].
      2:{ rewrite Hoth in Hi by done. change (contacts d) with (contacts c) in Hi. congruence. }
      destruct Hup as [_ _ [(r0 & o & Hin & _)|(_ & -> & _ & Hnew)]].
      { apply elem_of_lookup_rows in Hin as (Hr0 & _). cbn [fst snd] in Hr0.
        change (contacts d) with (contacts c) in Hr0. congruence. }
      rewrite Hnew in Hi. injection Hi as <-. cbn. destruct (is_manual _) eqn:Em; [by left|].
      unfold given_name, given_origin in *. destruct (hides _ _); [by left|]. right. exists k.
      split; [by left|done].
Qed.

(** C21: In every history of calls no contact is lost, and there is one contact
    per key, and one per address among those without a key (a person with a key
    may have one of each); origins never decrease, a block and a verification are
    kept, and a name given under a manual origin (a contact made by hand, the
    address book, a scanned code not yet handled) is never recorded as the name
    used on the wire.  Names typed for the recipients of a mail are not given
    under such an origin, and are ([typed_name_becomes_authname]). *)
Theorem contact_history (calls : list Call) (c : Ctx) :
  contacts_ok c → contacts_unique c → (contacts_seq c + Z.of_nat (length calls) ≤ u32_max)%Z →
  history_of calls c (run_calls calls c).
Proof.
  revert c. induction calls as [|k calls IH]; intros c Hok Hu Hseq.
  - split; [done|done| |]; intros id r.
    + intros Hr. exists r. split; [done|apply grown_refl].
    + cbn. congruence.
  - cbn [length] in Hseq. destruct (step_history k c Hok Hu) as [H1 Hs1]; [lia|].
    change (run_calls (k :: calls) c) with (run_calls calls (final (run_call k) c)).
    set (c1 := final (run_call k) c) in *. destruct (IH c1) as [Hok2 Hu2 Hk2 Hn2];
      [apply H1|apply H1|lia|]. split; [done|done| |].
    + intros id r Hr. destruct (hi_kept _ _ _ H1 id r Hr) as (r1 & Hr1 & Hg1).
      destruct (Hk2 id r1 Hr1) as (r2 & Hr2 & Hg2). exists r2. split; [done|]. by eapply grown_trans.
    + intros id r' Hn Hr'. destruct (contacts c1 !! id) as [r1|] eqn:E1.
      * destruct (Hk2 id r1 E1) as (r2 & Hr2 & [_ _ Ha]). assert (r2 = r') as -> by congruence.
        destruct Ha as [->|(k' & Hk & Hm & E)]; [|right; exists k'; split; [by right|done]].
        destruct (hi_new _ _ _ H1 id r1 Hn E1) as [|(k' & Hk & Hm & E)]; [by left|].
        right. exists k'. split; [apply elem_of_cons; left; set_solver|done].
      * destruct (Hn2 id r' E1 Hr') as [|(k' & Hk & Hm & E)]; [by left|].
        right. exists k'. split; [by right|done].
Qed.

(** ** Learning a key *)

(** Trusted on a row of one's own: known, or verified. *)
Definition own_trust (c : Ctx) (id : Z) : Prop :=
  id = ContactId.SELF
  ∨ ∃ contact, get_contact c id = Some contact
    ∧ (Origin.is_known (Contact.origin contact) = true ∨ is_verified c id = Some true).

Lemma get_contact_row c id k :
  get_contact c id = Some k →
  ∃ r, contacts c !! id = Some r ∧ Origin.from_i64 (ContactRow.origin r) = Some (Contact.origin k)
    ∧ Contact.id k = id
    ∧ (id ≠ ContactId.SELF → id ≠ ContactId.DEVICE → Contact.addr k = ContactRow.addr r).
Proof.
  unfold get_contact. destruct (contacts c !! id) as [r|]; [|done]. cbn [mbind option_bind].
  destruct (Origin.from_i64 (ContactRow.origin r)) as [o|] eqn:Eo; [|done]. cbn [mbind option_bind].
  intros [= <-]. exists r. cbn. split; [done|]. split; [done|]. split; [done|].
  intros H1 H2. by rewrite !decide_False.
Qed.

(** A call with an origin that is not known, on one row. *)
Definition unknown_call (k : Call) : Prop := Origin.is_known (c_origin k) = false.

Lemma given_origin_unknown k : unknown_call k → Origin.is_known (given_origin (c_addr k) (c_origin k)) = false.
Proof. unfold unknown_call, given_origin. by destruct (hides _ _). Qed.

(** A row that is known before or after is known before and after, with the
    same address and block. *)
Lemma updated_row_known (origin : Origin.t) name addr row_origin r :
  Origin.is_known origin = false → Origin.from_i64 (ContactRow.origin r) = Some row_origin →
  let r' := default r (fst <$> updated_row name addr origin row_origin r) in
  ∃ o', Origin.from_i64 (ContactRow.origin r') = Some o' ∧ Origin.is_known o' = Origin.is_known row_origin
    ∧ ContactRow.verifier r' = ContactRow.verifier r
    ∧ (Origin.is_known row_origin = true →
       ContactRow.addr r' = ContactRow.addr r ∧ ContactRow.blocked r' = ContactRow.blocked r).
Proof.
  intros Hun Ho. cbn zeta. unfold updated_row. cbv zeta.
  case_match; cbn [fmap option_fmap option_map default fst id]; [|by exists row_origin].
  exists (if origin_lt row_origin origin then origin else row_origin).
  cbn [ContactRow.origin ContactRow.addr ContactRow.blocked ContactRow.verifier with_names].
  rewrite origin_from_to. split; [done|]. unfold Origin.is_known in *. apply Z.leb_gt in Hun. split; [|split; [done|]].
  - unfold origin_lt. destruct (Z.ltb_spec (Origin.to_i64 row_origin) (Origin.to_i64 origin)); [|done].
    destruct (Z.leb_spec (Origin.to_i64 Origin.IncomingReplyTo) (Origin.to_i64 row_origin)); [lia|].
    apply Z.leb_gt. lia.
  - intros Hk%Z.leb_le. split; [|done]. unfold origin_le.
    destruct (Z.leb_spec (Origin.to_i64 row_origin) (Origin.to_i64 origin)); [lia|done].
Qed.

Lemma get_contact_ext c c' id :
  contacts c' !! id = contacts c !! id → config c' = config c → env c' = env c →
  get_contact c' id = get_contact c id.
Proof.
  intros H1 H2 H3. unfold get_contact, get_config_key, get_raw_config. by rewrite H1, H2, H3.
Qed.

(** How trust is read off the rows: the origin as a contact loads it. *)
Lemma is_known_contact_iff c id :
  is_known_contact c id = true ↔
  ∃ r o, contacts c !! id = Some r ∧ Origin.from_i64 (ContactRow.origin r) = Some o ∧ Origin.is_known o = true.
Proof.
  unfold is_known_contact, get_contact. destruct (contacts c !! id) as [r|]; cbn [mbind option_bind].
  - destruct (Origin.from_i64 (ContactRow.origin r)) as [o|] eqn:Eo; cbn [mbind option_bind Contact.origin].
    + split; [intros Hk; exists r, o; done|]. intros (r0 & o0 & [= <-] & E & Hk). rewrite Eo in E. by injection E as ->.
    + split; [done|]. intros (r0 & o0 & [= <-] & E & Hk). congruence.
  - split; [done|]. by intros (? & ? & ? & _).
Qed.

Lemma upserted_known k c id c' x :
  contacts_ok c → unknown_call k → upserted_call k c id c' →
  (is_known_contact c' x = true ↔ is_known_contact c x = true)
  ∧ (is_known_contact c x = true → ∃ r r', contacts c !! x = Some r ∧ contacts c' !! x = Some r'
       ∧ ContactRow.addr r' = ContactRow.addr r ∧ ContactRow.blocked r' = ContactRow.blocked r).
Proof.
  intros Hok Hun Hup. rewrite !is_known_contact_iff. pose proof (up_others _ _ _ _ _ _ _ Hup x) as Hoth.
  destruct (decide (x = id)) as [->|Hne].
  2:{ rewrite Hoth by done. split; [done|]. intros (r & o & Hr & _). by exists r, r. }
  apply given_origin_unknown in Hun.
  destruct Hup as [_ _ [(r & o & Hin & Ho & _ & Hr')|(_ & Eid & _ & Hr')]].
  - apply elem_of_lookup_rows in Hin as (Hr & _). cbn [fst snd] in Hr.
    destruct (updated_row_known _ (given_name (c_name k) (c_addr k) (c_origin k)) (c_addr k) o r Hun Ho)
      as (o' & Ho' & Hk & _ & Hsame). rewrite Hr', Hr. split.
    + split; intros (r0 & o0 & [= <-] & Ho0 & Hk0).
      * exists r, o. split_and!; [done|done|]. rewrite <-Hk. congruence.
      * eexists _, o'. split_and!; [done|done|]. rewrite Hk. congruence.
    + intros (r0 & o0 & [= <-] & Ho0 & Hk0). rewrite Ho in Ho0. injection Ho0 as ->.
      destruct (Hsame Hk0) as [? ?]. by eexists r, _.
  - assert (contacts c !! id = None) as Hnone.
    { apply eq_None_not_Some. intros Hs%(ok_seq c Hok). lia. }
    rewrite Hnone, Hr'. split; [split|]; [|by intros (? & ? & ? & _)|by intros (? & ? & ? & _)].
    intros (r0 & o0 & [= <-] & Ho0 & Hk0). cbn [ContactRow.origin new_row] in Ho0.
    rewrite origin_from_to in Ho0. injection Ho0 as <-. congruence.
Qed.

Lemma upserted_known_elsewhere k c id c' contact :
  contacts_ok c → unknown_call k → upserted_call k c id c' →
  known_elsewhere c' contact ↔ known_elsewhere c contact.
Proof.
  intros Hok Hun Hup. unfold known_elsewhere.
  assert (∀ x, is_known_contact c' x = true ↔ is_known_contact c x = true) as Hk
    by (intros x; by destruct (upserted_known k c id c' x Hok Hun Hup)).
  split; intros (Ha & x & row & Hr & Hadr & Hne & Hsp & Hb & Hx); (split; [done|]).
  - apply Hk in Hx. destruct (upserted_known k c id c' x Hok Hun Hup) as [_ Hsame].
    destruct (Hsame Hx) as (r & r' & Hrc & Hrc' & Ea & Eb). assert (row = r') as -> by congruence.
    exists x, r. rewrite <-Ea, <-Eb. done.
  - destruct (upserted_known k c id c' x Hok Hun Hup) as [_ Hsame].
    destruct (Hsame Hx) as (r & r' & Hrc & Hrc' & Ea & Eb). assert (row = r) as -> by congruence.
    exists x, r'. rewrite Ea, Eb, Hk. done.
Qed.

Lemma upserted_own_trust k c id c' :
  contacts_ok c → unknown_call k → upserted_call k c id c' → own_trust c' id ↔ own_trust c id.
Proof.
  intros Hok Hun Hup. destruct (decide (id = ContactId.SELF)) as [->|Hself]; [split; by left|].
  assert (∀ d, own_trust d id ↔ ∃ r o, contacts d !! id = Some r ∧ Origin.from_i64 (ContactRow.origin r) = Some o
             ∧ (Origin.is_known o = true ∨ ContactRow.verifier r ≠ 0%Z)) as Hrow.
  { intros d. unfold own_trust. split.
    - intros [|(k0 & Hk0 & Ht)]; [done|]. destruct (get_contact_row _ _ _ Hk0) as (r & Hr & Ho & _).
      exists r, (Contact.origin k0). split; [done|]. split; [done|].
      destruct Ht as [|Hv]; [by left|]. right. unfold is_verified in Hv. rewrite decide_False, Hr in Hv by done.
      injection Hv as Hv%negb_true_iff%Z.eqb_neq. done.
    - intros (r & o & Hr & Ho & Ht). right. unfold get_contact, is_verified.
      rewrite Hr. cbn [mbind option_bind]. rewrite Ho. cbn [mbind option_bind]. eexists. split; [done|]. cbn [Contact.origin].
      destruct Ht as [|Hv]; [by left|]. right. rewrite decide_False by done. cbn.
      by apply Z.eqb_neq in Hv as ->. }
  rewrite !Hrow. apply given_origin_unknown in Hun.
  destruct Hup as [_ _ [(r & o & Hin & Ho & _ & Hr')|(_ & Eid & _ & Hr')]].
  - apply elem_of_lookup_rows in Hin as (Hr & _). cbn [fst snd] in Hr.
    destruct (updated_row_known _ (given_name (c_name k) (c_addr k) (c_origin k)) (c_addr k) o r Hun Ho)
      as (o' & Ho' & Hk & Hv & _). rewrite Hr', Hr.
    split; intros (r0 & o0 & [= <-] & Ho0 & Ht); eexists _, _; (split; [done|]).
    + split; [exact Ho|]. rewrite <-Hk, <-Hv. by assert (o0 = o') as -> by congruence.
    + split; [exact Ho'|]. rewrite Hk, Hv. by assert (o0 = o) as -> by congruence.
  - assert (contacts c !! id = None) as -> by (apply eq_None_not_Some; intros Hs%(ok_seq c Hok); lia).
    rewrite Hr'. split; [|by intros (? & ? & ? & _)].
    intros (r0 & o0 & [= <-] & Ho0 & Ht). cbn [ContactRow.origin ContactRow.verifier new_row] in Ho0, Ht.
    rewrite origin_from_to in Ho0. injection Ho0 as <-. destruct Ht; [congruence|done].
Qed.

Lemma trusted_split c id :
  trusted c id ↔ own_trust c id ∨ ∃ contact, get_contact c id = Some contact ∧ known_elsewhere c contact.
Proof. unfold trusted, own_trust. naive_solver. Qed.

(** Trust after a call with an origin that is not known. *)
Lemma upserted_trust k c id c' other :
  contacts_ok c → unknown_call k → upserted_call k c id c' →
  (other ≠ id → trusted c' other ↔ trusted c other)
  ∧ (trusted c' id ↔ own_trust c id
       ∨ ∃ contact, get_contact c' id = Some contact ∧ known_elsewhere c contact).
Proof.
  intros Hok Hun Hup.
  assert (config c' = config c ∧ env c' = env c) as [Hc He]
    by (destruct (up_frame _ _ _ _ _ _ _ Hup) as (? & ? & ? & ->); done).
  split.
  - intros Hne. pose proof (up_others _ _ _ _ _ _ _ Hup other Hne) as Ho.
    unfold trusted, is_verified. rewrite (get_contact_ext c c' other Ho Hc He), Ho.
    assert (∀ k0, known_elsewhere c' k0 ↔ known_elsewhere c k0) as Hke
      by (intros k0; by eapply upserted_known_elsewhere).
    by setoid_rewrite Hke.
  - rewrite trusted_split, (upserted_own_trust k c id c') by done.
    apply or_iff_compat_l, exist_proper. intros k0.
    by rewrite (upserted_known_elsewhere k c id c' k0).
Qed.

(** Learning a key changes the trust of nobody else, and makes the contact
    of the key no more trusted by itself: it is trusted afterwards exactly when
    it was known or verified before, or another known contact has the address
    the unauthenticated sender line named. *)
Theorem adopt_trust_exact (mime : MimeSender) (c : Ctx) (id : Z) :
  contacts_ok c → (contacts_seq c < u32_max)%Z →
  outcome (adopt mime) c = Ok (Some id) →
  let c' := final (adopt mime) c in
  (∀ other, other ≠ id → trusted c' other ↔ trusted c other)
  ∧ (trusted c' id ↔ own_trust c id
       ∨ ∃ contact, get_contact c' id = Some contact ∧ known_elsewhere c contact).
Proof.
  intros Hok Hseq. unfold outcome, final, adopt. cbn zeta.
  destruct (bool_decide (is_Some (signature mime))); [done|].
  destruct (autocrypt_fingerprint mime) as [fp|]; [|done]. destruct (is_empty fp); [done|].
  rewrite run_bind_gets. destruct (is_empty (trim (from_addr mime)) || _); [done|]. rewrite run_bind.
  set (name := default [] (from_display_name mime)). set (addr := trim (from_addr mime)).
  set (k := MkCall name addr fp Origin.IncomingUnknownFrom).
  destruct (add_or_lookup_ext_run name addr fp Origin.IncomingUnknownFrom c Hok Hseq)
    as (y & c' & r & -> & [[-> Hself]|(id' & m & -> & _ & Hup)]).
  - destruct r as [[i m]|e]; [|done]. cbn. intros [= <-]. rewrite (Hself i m eq_refl).
    change (∀ other, other ≠ ContactId.SELF → trusted (set_self_key y c) other ↔ trusted c other) with
      (∀ other, other ≠ ContactId.SELF → trusted c other ↔ trusted c other).
    split; [done|]. split; [|by left]. intros _. by left; left.
  - cbn. intros [= <-]. change (upserted_call k (set_self_key y c) id' c') in Hup.
    assert (contacts_ok (set_self_key y c)) as Hokd by (by destruct Hok; split).
    assert (unknown_call k) as Hun by done.
    split; [intros other|]; by eapply (upserted_trust k (set_self_key y c)).
Qed.

(** ** Recipients of a draft *)

(** What the user typed for a recipient: nothing, or a valid address. *)
Definition typed_blank (t : str) : bool := is_empty (trim t).
Definition typed_addr (t : str) : str := addr_normalize (split_addr (trim t)).2.
Definition typed_ok (t : str) : bool := typed_blank t || may_be_valid_addr (typed_addr t).

Definition read_typed (kind : RecipientKind.t) (t : str) : list Recipient.t :=
  if typed_blank t then [] else [Recipient.mk kind (typed_addr t) (split_addr (trim t)).1].

(** Everything but the contacts, the names of chats and the own key is as before. *)
Definition only_contacts (c d : Ctx) : Prop :=
  ∃ k s h y, d = set_contacts (λ _, k) (set_contacts_seq (λ _, s) (set_chats h (set_self_key y c))).

#[local] Instance only_contacts_refl : Reflexive only_contacts.
Proof. intros c. exists (contacts c), (contacts_seq c), (λ h, h), (λ y, y). by destruct c. Qed.

#[local] Instance only_contacts_trans : Transitive only_contacts.
Proof.
  intros c1 c2 c3 (k & s & h & y & ->) (k' & s' & h' & y' & ->).
  by exists k', s', (λ x, h' (h x)), (λ x, y' (y x)).
Qed.

(** Contacts stay, as calls go. *)
Record went_on (n : nat) (c d : Ctx) : Prop := {
  wo_frame : only_contacts c d;
  wo_ok : contacts_ok d;
  wo_seq : (contacts_seq d ≤ contacts_seq c + Z.of_nat n)%Z;
}.

Lemma went_on_trans n m c1 c2 c3 : went_on n c1 c2 → went_on m c2 c3 → went_on (n + m) c1 c3.
Proof. intros [F1 O1 S1] [F2 O2 S2]. split; [by etrans|done|lia]. Qed.

Lemma add_or_lookup_run name addr origin c :
  contacts_ok c → (contacts_seq c < u32_max)%Z → addr ≠ [] → origin ≠ Origin.Unknown →
  ∃ d r, add_or_lookup name addr origin c = (d, Ok r) ∧ went_on 1 c d.
Proof.
  intros Hok Hseq Ha Ho. unfold add_or_lookup.
  assert (went_on 1 c c) as Hid by (split; [done|done|lia]).
  unfold add_or_lookup_ext. cbn [is_empty negb orb].
  replace (is_empty addr) with false by by destruct addr. cbn [negb orb ensure].
  rewrite bool_decide_false by done. cbn [negb ensure]. rewrite !run_bind_ret, !run_bind_gets.
  destruct (is_configured c && is_self_addr c addr); [by do 2 eexists|].
  cbn [andb]. rewrite run_bind_ret. cbv zeta. fold (hides addr origin).
  change (if hides addr origin then Origin.Hidden else origin) with (given_origin addr origin).
  change (if hides addr origin then [] else sanitize_name name) with (given_name name addr origin).
  destruct (upsert_contact_run (given_name name addr origin) addr [] (given_origin addr origin) c Hok Hseq)
    as (id & m & c' & Hrun & Hup). unfold transaction. rewrite Hrun. do 2 eexists. split; [done|].
  destruct (upserted_ok (MkCall name addr [] origin) c id c' Hok Hup) as [Hok' Hs']. split; [|done|lia].
  destruct (up_frame _ _ _ _ _ _ _ Hup) as (k & s & h & ->). exists k, s, h, (λ y, y). by destruct c.
Qed.

Lemma valid_addr_nonempty a : may_be_valid_addr a = true → a ≠ [].
Proof. by intros Hv ->. Qed.

Lemma add_recipients_run kind addrs c :
  contacts_ok c → (contacts_seq c + Z.of_nat (length addrs) ≤ u32_max)%Z →
  if forallb typed_ok addrs
  then ∃ d, add_recipients kind addrs c = (d, Ok (addrs ≫= read_typed kind)) ∧ went_on (length addrs) c d
  else ∃ d e, add_recipients kind addrs c = (d, Err e) ∧ only_contacts c d.
Proof.
  revert c. induction addrs as [|t addrs IH]; intros c Hok Hseq.
  { cbn. exists c. split; [done|]. split; [done|done|lia]. }
  cbn [length] in Hseq. cbn [forallb add_recipients]. unfold typed_ok at 1.
  assert (∃ d r, add_recipient kind t c = (d, r)
     ∧ if typed_ok t then r = Ok (read_typed kind t) ∧ went_on 1 c d
       else ∃ e, r = Err e ∧ d = c) as (d & r & Hrun & Hr).
  { unfold add_recipient, typed_ok, read_typed, typed_blank, typed_addr. cbv zeta.
    destruct (is_empty (trim t)) eqn:Eb.
    { do 2 eexists. split; [done|]. cbn. split; [done|]. split; [done|done|lia]. }
    destruct (split_addr (trim t)) as [name addr] eqn:Es. cbn [fst snd orb].
    rewrite run_bind. unfold lift, contact_address. cbv zeta.
    destruct (may_be_valid_addr (addr_normalize addr)) eqn:Ev; [|do 2 eexists; split; [done|by eexists]].
    destruct (add_or_lookup_run name (addr_normalize addr) Origin.OutgoingCc c) as (d & r & Hrun & Hw);
      [done|lia|by apply valid_addr_nonempty|done|].
    rewrite run_bind, Hrun. by do 2 eexists. }
  rewrite run_bind, Hrun. fold (typed_ok t). destruct (typed_ok t); cbn [andb].
  - destruct Hr as [-> Hw]. specialize (IH d (wo_ok _ _ _ Hw)).
    pose proof (wo_seq _ _ _ Hw). destruct (forallb typed_ok addrs).
    + destruct IH as (d' & Hrun' & Hw'); [lia|]. exists d'. rewrite run_bind, Hrun'. split; [done|].
      by apply (went_on_trans 1 (length addrs) c d d').
    + destruct IH as (d' & e & Hrun' & Hw'); [lia|]. exists d', e. rewrite run_bind, Hrun'. split; [done|].
      etrans; [apply Hw|done].
  - destruct Hr as (e & -> & ->). by exists c, e.
Qed.

Definition typed_recipients (rs : RecipientSet.t) : list Recipient.t :=
  (RecipientSet.to rs ≫= read_typed RecipientKind.To)
  ++ (RecipientSet.cc rs ≫= read_typed RecipientKind.Cc)
  ++ (RecipientSet.bcc rs ≫= read_typed RecipientKind.Bcc).

Definition typed_count (rs : RecipientSet.t) : nat :=
  length (RecipientSet.to rs) + length (RecipientSet.cc rs) + length (RecipientSet.bcc rs).

(** The recipients of a draft are recorded all or not at all: when every
    address typed is blank or valid, reading them back gives every one of them,
    by kind, in the order typed, normalized and each once; when one is not, the
    call fails and the recorded set is as it was.  Nothing but contacts is
    touched besides. *)
Theorem recipients_all_or_none (msg_id : Z) (rs : RecipientSet.t) (c : Ctx) :
  contacts_ok c → (contacts_seq c + Z.of_nat (typed_count rs) ≤ u32_max)%Z →
  let '(c', r) := set_recipients msg_id rs c in
  if forallb typed_ok (RecipientSet.to rs ++ RecipientSet.cc rs ++ RecipientSet.bcc rs)
  then r = Ok tt
    ∧ (let rows := RecipientsFacts.firsts [] (typed_recipients rs) in
       Recipients.load c' msg_id
       = filter (λ x, Recipient.kind x = RecipientKind.To) rows
         ++ filter (λ x, Recipient.kind x = RecipientKind.Cc) rows
         ++ filter (λ x, Recipient.kind x = RecipientKind.Bcc) rows)
    ∧ only_contacts (set_msg_recipients (λ _, msg_recipients c') c) c'
  else (∃ e, r = Err e) ∧ only_contacts c c'.
Proof.
  intros Hok Hseq. unfold set_recipients, typed_count in *. rewrite !forallb_app.
  pose proof (add_recipients_run RecipientKind.To (RecipientSet.to rs) c Hok) as H1.
  destruct (forallb typed_ok (RecipientSet.to rs)); cbn [andb].
  2:{ destruct H1 as (d & e & H1 & F1); [lia|]. rewrite run_bind, H1. eauto. }
  destruct H1 as (d1 & H1 & [F1 O1 S1]); [lia|]. rewrite run_bind, H1. cbn iota beta.
  pose proof (add_recipients_run RecipientKind.Cc (RecipientSet.cc rs) d1 O1) as H2.
  destruct (forallb typed_ok (RecipientSet.cc rs)); cbn [andb].
  2:{ destruct H2 as (d & e & H2 & F2); [lia|]. rewrite run_bind, H2. split; [eauto|by etrans]. }
  destruct H2 as (d2 & H2 & [F2 O2 S2]); [lia|]. rewrite run_bind, H2. cbn iota beta.
  pose proof (add_recipients_run RecipientKind.Bcc (RecipientSet.bcc rs) d2 O2) as H3.
  destruct (forallb typed_ok (RecipientSet.bcc rs)); cbn [andb].
  2:{ destruct H3 as (d & e & H3 & F3); [lia|]. rewrite run_bind, H3. split; [eauto|]. etrans; [done|by etrans]. }
  destruct H3 as (d3 & H3 & [F3 O3 S3]); [lia|]. rewrite run_bind, H3. cbn iota beta.
  fold (typed_recipients rs). pose proof (RecipientsFacts.load_stored msg_id (typed_recipients rs) d3) as Hl.
  unfold final in Hl. rewrite RecipientsFacts.store_run in Hl |- *. split; [done|]. split; [exact Hl|].
  assert (only_contacts c d3) as (k & s & h & y & ->) by (etrans; [done|by etrans]).
  by exists k, s, h, y.
Qed.
End contacts.

(** ** Concrete instances *)

Abbreviation no_keygen := (λ _ : str, Err "no key" : result str).

(** A friend the user wrote to, and a stranger who advertised a key. *)
Definition friend : Ctx :=
  set_contacts_seq (λ _, 11%Z)
    (set_contacts (λ _, list_to_map
       [(10%Z, ContactRow.mk [] (lit "friend@x.org") (Origin.to_i64 Origin.OutgoingTo) false 0 [] [] 0);
        (11%Z, ContactRow.mk [] (lit "mallory@evil.example") (Origin.to_i64 Origin.IncomingUnknownFrom)
                 false 0 [] (lit "BADC0DE") 0)]) empty_ctx).

Lemma friend_ok : contacts_ok friend ∧ contacts_unique friend.
Proof.
  assert (∀ i r, contacts friend !! i = Some r →
    (i = 10%Z ∧ r = ContactRow.mk [] (lit "friend@x.org") (Origin.to_i64 Origin.OutgoingTo) false 0 [] [] 0)
    ∨ (i = 11%Z ∧ r = ContactRow.mk [] (lit "mallory@evil.example") (Origin.to_i64 Origin.IncomingUnknownFrom)
                 false 0 [] (lit "BADC0DE") 0)) as Hrows.
  { intros i r Hr%elem_of_list_to_map_2. repeat (apply elem_of_cons in Hr as [[= -> ->]|Hr]); auto.
    by apply not_elem_of_nil in Hr. }
  split; split.
  - intros i [r [[-> ->]|[-> ->]]%Hrows]; vm_compute; discriminate.
  - vm_compute. discriminate.
  - intros i r [[-> ->]|[-> ->]]%Hrows; vm_compute; eexists; reflexivity.
  - intros i j r s [[-> ->]|[-> ->]]%Hrows [[-> ->]|[-> ->]]%Hrows; vm_compute; congruence.
  - intros i j r s [[-> ->]|[-> ->]]%Hrows [[-> ->]|[-> ->]]%Hrows; vm_compute; congruence.
Qed.

(** Mail that claims to be from the friend, with the stranger's key. *)
Definition forged : MimeSender :=
  MkMimeSender None (Some (lit "BADC0DE")) (lit "friend@x.org") (Some (lit "Friend")).

Lemma adopt_trust_exact_witness :
  let c' := final (@adopt ascii_case first_choice no_keygen forged) friend in
  (trusted c' 10 ↔ trusted friend 10)
  ∧ (trusted c' 11 ↔ own_trust friend 11
       ∨ ∃ contact, get_contact c' 11 = Some contact ∧ known_elsewhere friend contact).
Proof.
  destruct (@adopt_trust_exact ascii_case first_choice no_keygen forged friend 11) as [H1 H2].
  - apply friend_ok.
  - vm_compute. reflexivity.
  - vm_compute. reflexivity.
  - split; [apply H1; discriminate|exact H2].
Defined.

(** The forged mail above makes the stranger trusted: their contact, held
    back before, takes the friend's address, and what is signed with their key
    reaches the inbox from then on. *)
Example adopted_key_opens_inbox :
  let c' := final (@adopt ascii_case first_choice no_keygen forged) friend in
  outcome (is_trusted 11) friend = Ok false
  ∧ outcome (is_trusted 11) c' = Ok true
  ∧ (ContactRow.fingerprint <$> contacts c' !! 11%Z) = Some (lit "BADC0DE").
Proof. vm_compute. done. Qed.

Definition hand_made : Call := MkCall (lit "Mum") (lit "mum@x.org") [] Origin.ManuallyCreated.
Definition from_header : Call := MkCall (lit "Jane Doe") (lit "MUM@x.org") [] Origin.IncomingUnknownFrom.

Lemma contact_history_witness :
  let c' := @run_calls ascii_case first_choice no_keygen [hand_made; from_header] friend in
  (∃ r, contacts c' !! 12%Z = Some r ∧ ContactRow.name r = lit "Mum" ∧ ContactRow.authname r = lit "Jane Doe")
  ∧ contacts c' !! 13%Z = None ∧ contacts_unique c'.
Proof.
  destruct (@contact_history ascii_case first_choice no_keygen [hand_made; from_header] friend) as [_ Hu _ _].
  - apply friend_ok.
  - apply friend_ok.
  - vm_compute. discriminate.
  - split; [|split; [vm_compute; reflexivity|exact Hu]].
    eexists. split; [vm_compute; reflexivity|]. vm_compute. split; reflexivity.
Defined.

Definition draft_recipients (cc : string) : RecipientSet.t :=
  RecipientSet.mk [lit "Friend <friend@x.org>"] [lit cc] [].

Lemma recipients_all_or_none_witness :
  outcome (@set_recipients ascii_case first_choice no_keygen 20 (draft_recipients "bob@y.org")) friend = Ok tt
  ∧ ∃ e, outcome (@set_recipients ascii_case first_choice no_keygen 20 (draft_recipients "bob")) friend = Err e.
Proof.
  unfold outcome.
  pose proof (@recipients_all_or_none ascii_case first_choice no_keygen 20 (draft_recipients "bob@y.org")
                friend (proj1 friend_ok) ltac:(vm_compute; discriminate)) as H1.
  pose proof (@recipients_all_or_none ascii_case first_choice no_keygen 20 (draft_recipients "bob")
                friend (proj1 friend_ok) ltac:(vm_compute; discriminate)) as H2.
  revert H1 H2. destruct (set_recipients _ 20 (draft_recipients "bob@y.org") friend) as [c1 r1].
  destruct (set_recipients _ 20 (draft_recipients "bob") friend) as [c2 r2].
  match goal with |- (if ?b then _ else _) → _ => replace b with true by (vm_compute; reflexivity) end.
  intros [H1 _].
  match goal with |- (if ?b then _ else _) → _ => replace b with false by (vm_compute; reflexivity) end.
  intros [H2 _]. split; [exact H1|exact H2].
Defined.

(** A name typed in front of a recipient's address is recorded as the name the
    contact gave itself, which is what other recipients get to see. *)
Example typed_name_becomes_authname :
  let c' := final (@set_recipients ascii_case first_choice no_keygen 20
                     (RecipientSet.mk [lit "Mum <mum@x.org>"] [] [])) friend in
  (ContactRow.authname <$> contacts c' !! 12%Z) = Some (lit "Mum").
Proof. vm_compute. done. Qed.

(** Adding a stranger to the contacts makes them trusted but does not
    release their held mail, which the sweep then moves to the trash. *)
Example added_contact_mail_swept :
  let c := final (@create ascii_case first_choice no_keygen (lit "New friend") (lit "spam@example.com"))
             held_account in
  outcome (is_trusted 10) held_account = Ok false
  ∧ outcome (is_trusted 10) c = Ok true
  ∧ held_msgs c = held_msgs held_account
  ∧ let c' := final (@sweep ascii_case first_choice) (set_clock (λ _, 3000000%Z) c) in
    held_msgs c' !! 20%Z = None ∧ is_Some (trashed_msgs c' !! 20%Z).
Proof. vm_compute. split_and!; try reflexivity. eexists. reflexivity. Qed.
