(* ===== verification/Structured.v ===== *)
(** * Structured: machine-readable data a message carries,
    [core/src/email/structured.rs], with [message_crypto] of
    [core/src/email/policy.rs].

    Extraction walks the tree third-party code parses out of the message; its
    verdict decides whether an object may drive an affordance. *)

From S2P Require Import Prelude Text Substr Store Labels Migrations Trash Gating Params.

(** ** Where an object came from *)

Module Source.
Inductive t := Alternative | Related | Mixed | HtmlScript.

#[global] Instance eq_dec : EqDecision t.
Proof. solve_decision. Defined.

Definition to_i64 (s : t) : Z :=
  match s with Alternative => 0 | Related => 1 | Mixed => 2 | HtmlScript => 3 end.

Definition from_i64 (value : Z) : t :=
  if (value =? 0)%Z then Alternative
  else if (value =? 1)%Z then Related
  else if (value =? 3)%Z then HtmlScript
  else Mixed.

Definition from_multipart (subtype : str) : t :=
  if bool_decide (subtype = lit "alternative") then Alternative
  else if bool_decide (subtype = lit "related") then Related
  else Mixed.

Lemma from_to_i64 s : from_i64 (to_i64 s) = s.
Proof. by destruct s. Qed.
End Source.

Module StructuredObject.
Record t := mk { seq : Z; json : str; trusted : bool; source : Source.t }.
End StructuredObject.

(** ** The parsed message

    [mailparse::ParsedMail], by what is read of it: the type of a part, the
    first [Content-Purpose] header, the decoded body ([None] when it cannot be
    decoded) and the parts inside. *)
Inductive ParsedMail :=
  | Part (mimetype : str) (content_purpose : option str) (get_body : option str)
         (subparts : list ParsedMail).

(** [serde_json]: parsing a document, the members of a top-level [@graph]
    array, and printing.  What was parsed prints as a document. *)
Class Json := {
  Value : Type;
  json_from_str : str → option Value;
  graph_members : Value → option (list Value);
  json_to_string : Value → str;
  json_prints text v : json_from_str text = Some v → is_Some (json_from_str (json_to_string v));
  json_member_prints text v members m :
    json_from_str text = Some v → graph_members v = Some members → m ∈ members →
    is_Some (json_from_str (json_to_string m));
}.

(** ** Scanning bytes *)

(** [window.eq_ignore_ascii_case(needle)] at the start of [tail] *)
Definition window_matches (needle tail : list N) : bool :=
  (length needle <=? length tail)%nat && eq_ignore_ascii_case (take (length needle) tail) needle.

(** [tail.windows(n).position(..)] *)
Fixpoint position_ci (needle tail : list N) : option nat :=
  if window_matches needle tail then Some 0
  else match tail with [] => None | _ :: tail => S <$> position_ci needle tail end.

Definition find_ascii_ci (haystack needle : list N) (from : nat) : option nat :=
  if (length haystack <? from)%nat then None
  else
    let tail := drop from haystack in
    if is_empty needle || (length tail <? length needle)%nat then None
    else (λ at_, from + at_) <$> position_ci needle tail.

Definition SCRIPT_OPEN : str := lit "<script".
Definition SCRIPT_CLOSE : str := lit "</script".
Definition LD_JSON : str := lit "application/ld+json".
Definition GT : N := 62.

(** The loop of [script_blocks]; every round moves the cursor past a tag. *)
Fixpoint scan_scripts (fuel : nat) (html : str) (bytes : list N) (cursor : nat)
    (blocks : list str) : option (list str) :=
  match fuel with
  | O => None
  | S fuel =>
      match find_ascii_ci bytes SCRIPT_OPEN cursor with
      | None => Some blocks
      | Some tag_start =>
          match S <$> find_ascii_ci bytes [GT] tag_start with
          | None => Some blocks
          | Some open_end =>
              let is_ld_json :=
                match find_ascii_ci bytes LD_JSON tag_start with
                | Some at_ => (at_ <? open_end)%nat
                | None => false
                end in
              match find_ascii_ci bytes SCRIPT_CLOSE open_end with
              | None => Some blocks
              | Some body_end =>
                  let blocks :=
                    match (if is_ld_json then str_get html open_end body_end else None) with
                    | Some body => blocks ++ [body]
                    | None => blocks
                    end in
                  scan_scripts fuel html bytes body_end blocks
              end
          end
      end
  end.

(** [None] would be a loop that does not end within a round per byte. *)
Definition script_blocks (html : str) : option (list str) :=
  let bytes := as_bytes html in scan_scripts (S (length bytes)) html bytes 0 [].

(** ** Extraction *)

Definition MULTIPART : str := lit "multipart/".
Definition TEXT_HTML : str := lit "text/html".
Definition MACHINE_READABLE : str := lit "machine-readable".

Definition is_machine_readable (content_purpose : option str) : bool :=
  match content_purpose with
  | None => false
  | Some value =>
      eq_ignore_ascii_case (trim (default [] (head (split 59 value)))) MACHINE_READABLE
  end.

Definition found_t : Type := list (str * Source.t).

Section extract.
Context `{!Json}.

Definition push_json (text : str) (source : Source.t) (found : found_t) : found_t :=
  match json_from_str text with
  | None => found
  | Some value =>
      match graph_members value with
      | Some members => found ++ ((λ m, (json_to_string m, source)) <$> members)
      | None => found ++ [(json_to_string value, source)]
      end
  end.

Fixpoint walk (part : ParsedMail) (arrangement : Source.t) (found : found_t) : found_t :=
  match part with
  | Part mimetype purpose body subparts =>
      let ctype := ascii_lower <$> mimetype in
      match strip_prefix_str MULTIPART ctype with
      | Some subtype =>
          let inner := Source.from_multipart subtype in
          (fix children (l : list ParsedMail) (found : found_t) : found_t :=
             match l with
             | [] => found
             | child :: l => children l (walk child inner found)
             end) subparts found
      | None =>
          if negb (bool_decide (ctype = LD_JSON)) || negb (is_machine_readable purpose) then found
          else match body with
               | Some body => push_json body arrangement found
               | None => found
               end
      end
  end.

Definition push_blocks (blocks : list str) (found : found_t) : found_t :=
  foldl (λ found block, push_json block Source.HtmlScript found) found blocks.

Fixpoint html_scripts (part : ParsedMail) (found : found_t) : found_t :=
  match part with
  | Part mimetype purpose body subparts =>
      let found :=
        if eq_ignore_ascii_case mimetype TEXT_HTML then
          match body with
          | Some body => push_blocks (default [] (script_blocks body)) found
          | None => found
          end
        else found in
      (fix children (l : list ParsedMail) (found : found_t) : found_t :=
         match l with
         | [] => found
         | child :: l => children l (html_scripts child found)
         end) subparts found
  end.

(** [i as u32] *)
Definition as_u32 (i : nat) : Z := (Z.of_nat i mod 2 ^ 32)%Z.

Definition enumerate_found (found : found_t) : list (Z * (str * Source.t)) :=
  imap (λ i f, (as_u32 i, f)) found.

(** [parse_mail] is that of the [mailparse] crate. *)
Definition objects_in (parse_mail : list N → option ParsedMail) (raw : list N)
    : list (Z * (str * Source.t)) :=
  match parse_mail raw with
  | None => []
  | Some mail =>
      let found := walk mail Source.Mixed [] in
      let found := if is_empty found then html_scripts mail found else found in
      enumerate_found found
  end.

(** [decoded_data] is empty when there was nothing to decrypt. *)
Definition extract (parse_mail : list N → option ParsedMail) (decoded_data imf_raw : list N)
    : list (Z * (str * Source.t)) :=
  objects_in parse_mail (if is_empty decoded_data then imf_raw else decoded_data).
End extract.

(** ** The cryptographic standing of a message *)

Definition DC_MSG_ID_LAST_SPECIAL : Z := 9.

(** [Message::load_from_db]: fails for a special id, a missing or destroyed
    message, and a row whose columns do not have the types read. *)
Definition load_from_db (id : Z) : cmd Ctx Msg.t :=
  ensure (DC_MSG_ID_LAST_SPECIAL <? id)%Z "Can not load special message ID from DB" ;;
  m ← gets (λ c, msgs c !! id);
  m ← or_bail (m ≫= λ m, if is_live m then Some m else None) "Message does not exist";
  or_bail (_ ← MessageState.from_i64 (Msg.state m); _ ← Msg.rfc724_mid m; _ ← Msg.pre_rfc724_mid m;
           _ ← Msg.timestamp m; _ ← Msg.subject m; Some m)
    "Invalid column type".

Definition param_of (m : Msg.t) : Params :=
  match from_str (Msg.param m) with Ok p => p | Err _ => ∅ end.

Definition get_showpadlock (m : Msg.t) : bool :=
  negb (default 0 (get_int (param_of m) Key.GuaranteeE2ee) =? 0)%Z
  || (Msg.from_id m =? ContactId.DEVICE)%Z.

Module MessageCrypto.
Record t := mk { encrypted : bool; signed : bool; verified : bool }.
End MessageCrypto.

Definition message_crypto (msg_id : Z) : cmd Ctx MessageCrypto.t :=
  msg ← load_from_db msg_id;
  let encrypted := get_showpadlock msg in
  verified ←
    (if encrypted then
       contact ← gets (λ c, get_contact c (Msg.from_id msg));
       contact ← or_bail contact "contact does not exist";
       v ← gets (λ c, is_verified c (Contact.id contact));
       or_bail v "contact does not exist"
     else mret false);
  mret (MessageCrypto.mk encrypted encrypted verified).

(** ** Storing and reading *)

(** Whether the structured data of a message may be acted on. *)
Definition may_act (msg_id : Z) : cmd Ctx bool :=
  crypto ← message_crypto msg_id;
  if negb (MessageCrypto.encrypted crypto) || negb (MessageCrypto.signed crypto) then mret false
  else
    from_id ← gets (λ c, Msg.from_id <$> msgs c !! msg_id);
    match from_id with
    | Some from_id => is_trusted from_id
    | None => mret false
    end.

(** [INSERT .. ON CONFLICT(msg_id, seq) DO NOTHING] *)
Definition insert_object (msg_id : Z) (trusted : bool) (r : Z * (str * Source.t)) : Ctx → Ctx :=
  set_structured_data (λ t,
    let key := (msg_id, r.1) in
    match t !! key with
    | Some _ => t
    | None => <[key := StructuredRow.mk r.2.1 (if trusted then 1 else 0) (Source.to_i64 r.2.2)]> t
    end).

Definition store_found (msg_id : Z) (found : list (Z * (str * Source.t))) : cmd Ctx unit :=
  if is_empty found then mret tt
  else
    trusted ← may_act msg_id;
    transaction (for_each found (λ r, modify (insert_object msg_id trusted r))).

Definition store `{!Json} (parse_mail : list N → option ParsedMail) (msg_id : Z)
    (decoded_data imf_raw : list N) : cmd Ctx unit :=
  store_found msg_id (extract parse_mail decoded_data imf_raw).

Definition of_msg (c : Ctx) (msg_id : Z) : list StructuredObject.t :=
  (λ r, StructuredObject.mk r.1.2 (StructuredRow.json r.2) (negb (StructuredRow.trusted r.2 =? 0)%Z)
          (Source.from_i64 (StructuredRow.source r.2))) <$>
    rows_of msg_id (structured_data c).

Definition prune : cmd Ctx unit :=
  modify (λ c, set_structured_data (filter (λ r, is_Some (msgs c !! r.1.1))) c).

(** ** The scan finds the script elements of the text *)

Fixpoint prefix_ci (needle s : list N) : bool :=
  match needle, s with
  | [], _ => true
  | x :: needle, y :: s => (ascii_lower x =? ascii_lower y)%N && prefix_ci needle s
  | _ :: _, [] => false
  end.

Lemma eq_ignore_case_cons a b x y :
  eq_ignore_ascii_case (a :: x) (b :: y) = (ascii_lower a =? ascii_lower b)%N && eq_ignore_ascii_case x y.
Proof.
  unfold eq_ignore_ascii_case. rewrite !fmap_cons. destruct (N.eqb_spec (ascii_lower a) (ascii_lower b)) as [E|E].
  - cbn [andb]. apply bool_decide_ext. rewrite E. split; [by intros [= ->]|by intros ->].
  - cbn [andb]. apply bool_decide_eq_false. intros [=]. congruence.
Qed.

Lemma window_matches_prefix needle s : window_matches needle s = prefix_ci needle s.
Proof.
  unfold window_matches. revert s. induction needle as [|x needle IH]; intros s; [done|].
  destruct s as [|y s]; [done|]. cbn [length take prefix_ci]. rewrite eq_ignore_case_cons, <-IH.
  rewrite (N.eqb_sym (ascii_lower y)). cbn [Nat.leb].
  destruct (length needle <=? length s)%nat; cbn [andb]; [done|by rewrite andb_false_r].
Qed.

Definition ascii_needle (needle : list N) : Prop := needle ≠ [] ∧ Forall (λ x, (x < 128)%N) needle.

Lemma ascii_lower_low x : (x < 128)%N → (ascii_lower x < 128)%N.
Proof. unfold ascii_lower. intros Hx. case_match eqn:E; [|done]. apply andb_prop in E as [? ?%N.leb_le]. lia. Qed.

Lemma ascii_lower_high x : (128 ≤ x)%N → ascii_lower x = x.
Proof. unfold ascii_lower. intros Hx. case_match eqn:E; [|done]. apply andb_prop in E as [? ?%N.leb_le]. lia. Qed.

Lemma lower_neq_high x y : (x < 128)%N → (128 ≤ y)%N → (ascii_lower x =? ascii_lower y)%N = false.
Proof.
  intros Hx Hy. rewrite (ascii_lower_high y Hy). apply ascii_lower_low in Hx. apply N.eqb_neq. lia.
Qed.

(** The bytes of a character outside ASCII are all outside ASCII. *)
Lemma utf8_char_high c : (128 ≤ c)%N → Forall (λ b, (128 ≤ b)%N) (utf8_char c) ∧ utf8_char c ≠ [].
Proof.
  intros Hc. unfold utf8_char. destruct (N.ltb_spec c 128); [lia|].
  repeat case_match; (split; [|done]); repeat constructor; lia.
Qed.

Lemma utf8_char_low c : (c < 128)%N → utf8_char c = [c].
Proof. intros Hc. unfold utf8_char. by destruct (N.ltb_spec c 128); [|lia]. Qed.

#[local] Arguments byte_len : simpl never.

Lemma prefix_ci_bytes needle s :
  Forall (λ x, (x < 128)%N) needle → prefix_ci needle (as_bytes s) = prefix_ci needle s.
Proof.
  intros Hn. revert s. induction Hn as [|x needle Hx Hn IH]; intros s; [done|].
  destruct s as [|c s]; [done|]. rewrite as_bytes_cons.
  destruct (N.lt_ge_cases c 128) as [Hc|Hc].
  - rewrite utf8_char_low by done. cbn. by rewrite IH.
  - destruct (utf8_char_high c Hc) as [Hb Hne]. destruct (utf8_char c) as [|b bs]; [done|].
    apply Forall_cons in Hb as [Hb _]. cbn. by rewrite !lower_neq_high.
Qed.

Lemma position_ci_cons needle c s :
  position_ci needle (c :: s)
  = if prefix_ci needle (c :: s) then Some 0 else S <$> position_ci needle s.
Proof. cbn [position_ci]. by rewrite window_matches_prefix. Qed.

Lemma position_skip_high needle bs s :
  ascii_needle needle → Forall (λ b, (128 ≤ b)%N) bs →
  position_ci needle (bs ++ s) = (λ p, length bs + p) <$> position_ci needle s.
Proof.
  intros [Hne Hn] Hb. induction Hb as [|b bs Hb Hbs IH]; cbn [app length].
  - by destruct (position_ci needle s).
  - rewrite position_ci_cons, IH. destruct needle as [|x needle]; [done|]. apply Forall_cons in Hn as [Hx _].
    cbn [prefix_ci]. rewrite lower_neq_high by done. cbn [andb].
    by destruct (position_ci _ s).
Qed.

(** Searching the bytes is searching the characters. *)
Lemma position_ci_bytes needle s :
  ascii_needle needle →
  position_ci needle (as_bytes s) = (λ p, byte_len (take p s)) <$> position_ci needle s.
Proof.
  intros Hn. induction s as [|c s IH].
  - cbn. rewrite window_matches_prefix. by destruct (prefix_ci needle []).
  - rewrite as_bytes_cons, position_ci_cons. destruct (N.lt_ge_cases c 128) as [Hc|Hc].
    + rewrite utf8_char_low by done. cbn [app]. rewrite position_ci_cons, IH.
      rewrite <-(prefix_ci_bytes needle (c :: s)) by apply Hn. rewrite as_bytes_cons, utf8_char_low by done.
      cbn [app]. destruct (prefix_ci needle (c :: as_bytes s)); [done|].
      destruct (position_ci needle s) as [p|]; [|done]. cbn. by rewrite byte_len_cons, len_utf8_low.
    + destruct (utf8_char_high c Hc) as [Hb _]. rewrite position_skip_high, IH by done.
      destruct Hn as [Hne Hn]. destruct needle as [|x needle]; [done|]. apply Forall_cons in Hn as [Hx _].
      cbn [prefix_ci]. rewrite lower_neq_high by done. cbn [andb].
      destruct (position_ci (x :: needle) s) as [p|]; [|done]. cbn.
      by rewrite byte_len_cons, length_utf8_char.
Qed.

Lemma position_ci_None_short needle s : (length s < length needle)%nat → position_ci needle s = None.
Proof.
  induction s as [|c s IH]; intros Hl; cbn [position_ci].
  - destruct needle; [cbn in Hl; lia|done].
  - unfold window_matches. destruct (Nat.leb_spec (length needle) (length (c :: s))); [lia|].
    cbn [andb]. rewrite IH; [done|]. cbn in Hl. lia.
Qed.

(** [find_ascii_ci] from the end of a prefix of the text. *)
Lemma find_in_bytes needle a b :
  ascii_needle needle →
  find_ascii_ci (as_bytes (a ++ b)) needle (byte_len a)
  = (λ p, byte_len a + byte_len (take p b)) <$> position_ci needle b.
Proof.
  intros Hn. unfold find_ascii_ci. rewrite as_bytes_app, length_app, length_as_bytes.
  destruct (Nat.ltb_spec (byte_len a + length (as_bytes b)) (byte_len a)); [lia|].
  replace (drop (byte_len a) (as_bytes a ++ as_bytes b)) with (as_bytes b)
    by by rewrite <-length_as_bytes, drop_app_length.
  cbv zeta.
  assert (is_empty needle = false) as -> by (destruct Hn; by destruct needle). cbn [orb].
  pose proof (position_ci_bytes needle b Hn) as Hp.
  destruct (Nat.ltb_spec (length (as_bytes b)) (length needle)) as [Hs|Hs].
  - rewrite position_ci_None_short in Hp by done. by destruct (position_ci needle b).
  - rewrite Hp. by destruct (position_ci needle b).
Qed.

Lemma position_ci_Some needle s p :
  position_ci needle s = Some p → s = take p s ++ drop p s ∧ prefix_ci needle (drop p s) = true
  ∧ (p + length needle ≤ length s)%nat.
Proof.
  intros Hp. split; [by rewrite take_drop|]. revert p Hp. induction s as [|c s IH]; intros p.
  - cbn. rewrite window_matches_prefix. destruct needle; [|done]. by intros [= <-].
  - rewrite position_ci_cons. destruct (prefix_ci needle (c :: s)) eqn:E.
    + intros [= <-]. split; [done|]. rewrite <-window_matches_prefix in E. unfold window_matches in E.
      apply andb_prop in E as [E%Nat.leb_le _]. cbn in *. lia.
    + destruct (position_ci needle s) as [q|]; [|done]. intros [= <-]. destruct (IH q eq_refl) as [? ?].
      split; [done|]. cbn. lia.
Qed.

Definition occurs (needle s : str) : Prop := is_Some (position_ci needle s).

#[global] Instance occurs_dec needle s : Decision (occurs needle s).
Proof. unfold occurs. apply _. Defined.

(** [needle] occurs in [pre ++ s] first at the end of [pre]. *)
Definition first_at (needle pre s : str) : Prop := position_ci needle (pre ++ s) = Some (length pre).

(** What a reader of the text sees: the bodies of the script elements whose
    tag names the media type, up to the first element that is not closed. *)
Inductive scripts : str → list str → Prop :=
  | no_tag s : ¬ occurs SCRIPT_OPEN s → scripts s []
  | open_tag pre tag : first_at SCRIPT_OPEN pre tag → ¬ occurs [GT] tag → scripts (pre ++ tag) []
  | open_element pre tag body :
      first_at SCRIPT_OPEN pre (tag ++ [GT] ++ body) → first_at [GT] tag ([GT] ++ body) →
      ¬ occurs SCRIPT_CLOSE body → scripts (pre ++ tag ++ [GT] ++ body) []
  | element pre tag body rest blocks :
      first_at SCRIPT_OPEN pre (tag ++ [GT] ++ body ++ rest) →
      first_at [GT] tag ([GT] ++ body ++ rest) →
      first_at SCRIPT_CLOSE body rest → scripts rest blocks →
      scripts (pre ++ tag ++ [GT] ++ body ++ rest)
        (if decide (occurs LD_JSON tag) then body :: blocks else blocks).

Lemma ascii_needles :
  ascii_needle SCRIPT_OPEN ∧ ascii_needle SCRIPT_CLOSE ∧ ascii_needle LD_JSON ∧ ascii_needle [GT].
Proof. split_and!; (split; [done|]); (apply Forall_forall; intros x Hx; apply N.ltb_lt; revert x Hx; apply Forall_forall; vm_compute; repeat constructor). Qed.

Lemma lower_is_gt y : (ascii_lower GT =? ascii_lower y)%N = true → y = GT.
Proof.
  intros E%N.eqb_eq. unfold GT, ascii_lower in *. cbn in E. case_match eqn:Ec; [|congruence].
  apply andb_prop in Ec as [?%N.leb_le ?%N.leb_le]. lia.
Qed.

(** An occurrence of a text without [>] does not reach over one. *)
Lemma prefix_ci_gt needle s r :
  Forall (λ x, x ≠ GT) needle → prefix_ci needle (s ++ GT :: r) = prefix_ci needle s.
Proof.
  intros Hn. revert s. induction Hn as [|x needle Hx Hn IH]; intros s; [done|].
  destruct s as [|y s]; cbn [prefix_ci app]; [|by rewrite IH].
  destruct (ascii_lower x =? ascii_lower GT)%N eqn:E; [|done]. rewrite N.eqb_sym in E.
  by apply lower_is_gt in E.
Qed.

Lemma position_ci_gt needle s r :
  needle ≠ [] → Forall (λ x, x ≠ GT) needle →
  position_ci needle (s ++ GT :: r)
  = match position_ci needle s with
    | Some q => Some q
    | None => (λ p, length s + S p) <$> position_ci needle r
    end.
Proof.
  intros Hne Hn. induction s as [|y s IH].
  - cbn [app]. rewrite position_ci_cons. pose proof (prefix_ci_gt needle [] r Hn) as E. cbn [app] in E. rewrite E.
    cbn. rewrite window_matches_prefix. destruct needle; [done|]. cbn. by destruct (position_ci _ r).
  - cbn [app]. rewrite !position_ci_cons.
    change (y :: s ++ GT :: r) with ((y :: s) ++ GT :: r). rewrite prefix_ci_gt, IH by done.
    destruct (prefix_ci needle (y :: s)); [done|].
    destruct (position_ci needle s); [done|]. by destruct (position_ci needle r).
Qed.

(** The test on byte offsets is an occurrence within the tag. *)
Lemma ld_json_in_tag a tag r :
  match find_ascii_ci (as_bytes (a ++ tag ++ GT :: r)) LD_JSON (byte_len a) with
  | Some at_ => (at_ <? S (byte_len a + byte_len tag))%nat
  | None => false
  end = bool_decide (occurs LD_JSON tag).
Proof.
  destruct ascii_needles as (_ & _ & Hl & _). rewrite find_in_bytes by done.
  rewrite position_ci_gt; [|done|].
  2:{ vm_compute. repeat constructor; discriminate. }
  destruct (position_ci LD_JSON tag) as [q|] eqn:Eq.
  - rewrite bool_decide_true by (unfold occurs; rewrite Eq; eauto). cbn [fmap option_fmap option_map].
    apply position_ci_Some in Eq as (_ & _ & Hq). rewrite take_app_le by lia.
    apply Nat.ltb_lt. rewrite <-(take_drop q tag) at 2. rewrite byte_len_app. lia.
  - rewrite bool_decide_false by (unfold occurs; rewrite Eq; by intros [? ?]).
    destruct (position_ci LD_JSON r) as [p|]; [|done]. cbn [fmap option_fmap option_map]. apply Nat.ltb_ge.
    rewrite take_app_ge by lia. replace (length tag + S p - length tag) with (S p) by lia.
    cbn [take]. rewrite byte_len_app, byte_len_cons, (len_utf8_low GT) by done. lia.
Qed.

Lemma first_at_split needle s p :
  position_ci needle s = Some p → ∃ pre rest, s = pre ++ rest ∧ length pre = p ∧ first_at needle pre rest
    ∧ prefix_ci needle rest = true.
Proof.
  intros Hp. destruct (position_ci_Some _ _ _ Hp) as (E & Hpre & Hl).
  exists (take p s), (drop p s). unfold first_at. rewrite <-E, length_take. split_and!; [done|lia| |done].
  rewrite Hp. f_equal. lia.
Qed.

Lemma scan_scripts_run fuel a b blocks :
  (byte_len b < fuel)%nat →
  ∃ bs, scan_scripts fuel (a ++ b) (as_bytes (a ++ b)) (byte_len a) blocks = Some (blocks ++ bs)
        ∧ scripts b bs.
Proof.
  revert a b blocks. induction fuel as [|fuel IH]; intros a b blocks Hf; [lia|].
  destruct ascii_needles as (Ho & Hc & _ & Hg). cbn [scan_scripts]. rewrite find_in_bytes by done.
  destruct (position_ci SCRIPT_OPEN b) as [p|] eqn:Ep.
  2:{ exists []. rewrite app_nil_r. split; [done|]. constructor. unfold occurs. rewrite Ep. by intros [? ?]. }
  destruct (first_at_split _ _ _ Ep) as (pre & t & -> & <- & Hpre & _). clear Ep.
  cbn [fmap option_fmap option_map]. rewrite take_app_length, <-byte_len_app, app_assoc, find_in_bytes by done.
  destruct (position_ci [GT] t) as [g|] eqn:Eg.
  2:{ exists []. rewrite app_nil_r. split; [done|]. constructor; [done|]. unfold occurs. rewrite Eg. by intros [? ?]. }
  destruct (first_at_split _ _ _ Eg) as (tag & t2 & -> & <- & Htag & Ht2). clear Eg.
  destruct t2 as [|y r]; [done|]. cbn [prefix_ci] in Ht2. rewrite andb_true_r in Ht2.
  apply lower_is_gt in Ht2 as ->.
  cbn [fmap option_fmap option_map]. rewrite take_app_length, ld_json_in_tag.
  assert (S (byte_len (a ++ pre) + byte_len tag) = byte_len ((a ++ pre) ++ tag ++ [GT])) as ->.
  { rewrite !byte_len_app, (byte_len_cons GT), (len_utf8_low GT) by done. change (byte_len []) with 0. lia. }
  assert ((a ++ pre) ++ tag ++ GT :: r = ((a ++ pre) ++ tag ++ [GT]) ++ r) as ->
    by by rewrite <-!app_assoc.
  rewrite find_in_bytes by done.
  destruct (position_ci SCRIPT_CLOSE r) as [e|] eqn:Ee.
  2:{ exists []. rewrite app_nil_r. split; [done|]. apply open_element; [done|done|].
      unfold occurs. rewrite Ee. by intros [? ?]. }
  destruct (first_at_split _ _ _ Ee) as (body & rest & -> & <- & Hbody & _). clear Ee.
  cbn [fmap option_fmap option_map]. rewrite take_app_length, str_get_app, <-byte_len_app, app_assoc.
  rewrite !byte_len_app, (byte_len_cons GT), !byte_len_app, (len_utf8_low GT) in Hf by done.
  destruct (IH (((a ++ pre) ++ tag ++ [GT]) ++ body) rest
              (if bool_decide (occurs LD_JSON tag) then blocks ++ [body] else blocks)) as (bs & Hrun & Hbs); [lia|].
  exists (if decide (occurs LD_JSON tag) then body :: bs else bs). split; [|by constructor].
  rewrite bool_decide_decide in *. destruct (decide (occurs LD_JSON tag)); rewrite Hrun; [|done].
  by rewrite <-app_assoc.
Qed.

Lemma first_at_unique needle p1 s1 p2 s2 :
  first_at needle p1 s1 → first_at needle p2 s2 → p1 ++ s1 = p2 ++ s2 → p1 = p2 ∧ s1 = s2.
Proof.
  unfold first_at. intros H1 H2 E. apply app_inj_1; [|done]. rewrite E, H2 in H1. by injection H1.
Qed.

Lemma first_at_occurs needle pre s t : first_at needle pre s → pre ++ s = t → occurs needle t.
Proof. unfold first_at, occurs. intros H1 <-. eauto. Qed.

Lemma scripts_det s b1 b2 : scripts s b1 → scripts s b2 → b1 = b2.
Proof.
  intros H1. revert b2.
  induction H1 as [s Hn|pre tag Hp Hn|pre tag body Hp Hg Hn|pre tag body rest bs Hp Hg Hc Hr IH]; intros b2 H2;
    inversion H2 as [s' Hn'|pre' tag' Hp' Hn'|pre' tag' body' Hp' Hg' Hn'|pre' tag' body' rest' bs' Hp' Hg' Hc' Hr'];
    subst; try done;
    try (by destruct Hn; eauto using first_at_occurs); try (by destruct Hn'; eauto using first_at_occurs).
  all: match goal with E : _ ++ _ = _ ++ _ |- _ =>
         apply (first_at_unique SCRIPT_OPEN) in E as [-> E]; [|done..]; try subst end.
  all: try (by destruct Hn; eauto using first_at_occurs); try (by destruct Hn'; eauto using first_at_occurs).
  all: match goal with E : _ ++ _ = _ ++ _ |- _ =>
         apply (first_at_unique [GT]) in E as [-> E]; [|done..]; injection E as E; try subst end.
  all: try (by destruct Hn; eauto using first_at_occurs); try (by destruct Hn'; eauto using first_at_occurs).
  match goal with E : body' ++ _ = _ ++ _ |- _ =>
    apply (first_at_unique SCRIPT_CLOSE) in E as [-> ->]; [|done..] end.
  by rewrite (IH bs').
Qed.

(** Scanning the bytes of an HTML body ends, never cuts a character, and
    yields exactly the bodies of the closed [script] elements whose tag
    mentions the media type, in order. *)
Theorem script_blocks_exact (html : str) :
  ∃ blocks, script_blocks html = Some blocks
    ∧ ∀ blocks', scripts html blocks' ↔ blocks' = blocks.
Proof.
  unfold script_blocks. rewrite length_as_bytes.
  destruct (scan_scripts_run (S (byte_len html)) [] html []) as (bs & Hrun & Hbs); [lia|].
  exists bs. split; [exact Hrun|]. intros b'. split; [|by intros ->]. intros Hb'. by eapply scripts_det.
Qed.

(** ** What is extracted *)

Section extracted.
Context `{!Json}.

Definition printed (x : str * Source.t) : Prop := is_Some (json_from_str x.1).

Lemma push_json_Forall (P : str * Source.t → Prop) text source found :
  (∀ j, is_Some (json_from_str j) → P (j, source)) → Forall P found → Forall P (push_json text source found).
Proof.
  intros HP Hf. unfold push_json. destruct (json_from_str text) as [v|] eqn:Ev; [|done].
  destruct (graph_members v) as [ms|] eqn:Em; apply Forall_app; (split; [done|]).
  - apply Forall_forall. intros x. rewrite list_elem_of_fmap. intros (m & -> & Hm). apply HP.
    by eapply json_member_prints.
  - repeat constructor. apply HP. by eapply json_prints.
Qed.

(** A property of the objects of a part holds of a message when it holds of
    every single document found. *)
Fixpoint walk_Forall (P : str * Source.t → Prop) (part : ParsedMail) :
  (∀ j s, is_Some (json_from_str j) → s ≠ Source.HtmlScript → P (j, s)) →
  ∀ arrangement found, arrangement ≠ Source.HtmlScript → Forall P found →
  Forall P (walk part arrangement found).
Proof.
  intros HP arrangement found Ha Hf. destruct part as [mimetype purpose body subparts]. cbn [walk].
  destruct (strip_prefix_str MULTIPART _) as [subtype|].
  - assert (Source.from_multipart subtype ≠ Source.HtmlScript) as Hi
      by (unfold Source.from_multipart; by repeat case_match).
    revert found Hf. induction subparts as [|child l IH]; intros found Hf; [done|].
    apply IH. by apply walk_Forall.
  - case_match; [done|]. destruct body as [body|]; [|done].
    apply push_json_Forall; [|done]. intros j Hj. by apply HP.
Qed.

Fixpoint html_scripts_Forall (P : str * Source.t → Prop) (part : ParsedMail) :
  (∀ j, is_Some (json_from_str j) → P (j, Source.HtmlScript)) →
  ∀ found, Forall P found → Forall P (html_scripts part found).
Proof.
  intros HP found Hf. destruct part as [mimetype purpose body subparts]. cbn [html_scripts].
  assert (∀ blocks found, Forall P found → Forall P (push_blocks blocks found)) as Hb.
  { unfold push_blocks. induction blocks as [|b bs IH]; intros f Hfo; [done|]. cbn. apply IH.
    by apply push_json_Forall. }
  match goal with |- Forall P (?f subparts ?x) => assert (Forall P x) as Hx; [|generalize dependent x] end.
  { destruct (eq_ignore_ascii_case mimetype TEXT_HTML); [|done]. destruct body; [|done]. by apply Hb. }
  induction subparts as [|child l IH]; intros x Hx; [done|]. apply IH. by apply html_scripts_Forall.
Qed.

(** Every object extracted is a document that parses, and a message with a
    part marked machine-readable is never read through the scripts of its HTML:
    either no object comes from a script, or all do and no part gave one. *)
Theorem extraction_sound (parse_mail : list N → option ParsedMail) (decoded_data imf_raw : list N) :
  let found := (extract parse_mail decoded_data imf_raw).*2 in
  Forall printed found
  ∧ (Forall (λ x, x.2 ≠ Source.HtmlScript) found
     ∨ (Forall (λ x, x.2 = Source.HtmlScript) found
        ∧ ∀ mail, parse_mail (if is_empty decoded_data then imf_raw else decoded_data) = Some mail →
            walk mail Source.Mixed [] = [])).
Proof.
  cbn zeta. unfold extract, objects_in. set (raw := if is_empty decoded_data then _ else _).
  destruct (parse_mail raw) as [mail|]; [|split; [constructor|left; constructor]].
  assert (∀ f, (enumerate_found f).*2 = f) as Hsnd.
  { intros f. unfold enumerate_found. rewrite fmap_imap.
    trans (imap (const id) f); [by apply imap_ext|]. by rewrite imap_const, list_fmap_id. }
  rewrite Hsnd. destruct (walk mail Source.Mixed []) as [|x f] eqn:E; cbn [is_empty].
  - split; [apply html_scripts_Forall; [by intros|constructor]|]. right. split.
    + apply html_scripts_Forall; [by intros|constructor].
    + by intros mail' [= <-].
  - rewrite <-E. split; [|left]; (apply walk_Forall; [by intros|done|constructor]).
Qed.
End extracted.

(** ** The verdict *)

Definition row_of_object (verdict : bool) (x : str * Source.t) : StructuredRow.t :=
  StructuredRow.mk x.1 (if verdict then 1 else 0) (Source.to_i64 x.2).

Lemma enumerate_numbered msg_id (verdict : bool) found :
  (Z.of_nat (length found) ≤ 2 ^ 32)%Z →
  (λ r, ((msg_id, r.1), row_of_object verdict r.2)) <$> enumerate_found found
  = numbered msg_id 0 (row_of_object verdict <$> found).
Proof.
  intros Hl. unfold enumerate_found, numbered. rewrite fmap_imap, imap_fmap. apply imap_ext.
  intros i x Hx. cbn. apply lookup_lt_Some in Hx. unfold as_u32. rewrite Z.mod_small; [done|lia].
Qed.

(** Inserting rows whose keys are new and different. *)
Lemma insert_objects msg_id verdict (l : list (Z * (str * Source.t))) c :
  NoDup l.*1 → (∀ r, r ∈ l → structured_data c !! (msg_id, r.1) = None) →
  foldl (λ c r, insert_object msg_id verdict r c) c l
  = set_structured_data (λ t,
      (list_to_map ((λ r, ((msg_id, r.1), row_of_object verdict r.2)) <$> l) : gmap _ _) ∪ t) c.
Proof.
  revert c. induction l as [|r l IH]; intros c Hnd Hfree.
  - cbn. unfold set_structured_data. rewrite map_empty_union. by destruct c.
  - rewrite fmap_cons in Hnd. apply NoDup_cons in Hnd as [Hr Hnd]. cbn [foldl].
    assert (structured_data c !! (msg_id, r.1) = None) as Hn by (apply Hfree; by left).
    unfold insert_object at 2, set_structured_data at 1. cbv zeta. cbn [structured_data].
    rewrite Hn, IH; [|done|].
    2:{ intros x Hx. cbn [structured_data]. rewrite lookup_insert_ne; [apply Hfree; by right|].
        intros [=]. apply Hr. replace (r.1) with (x.1). by apply list_elem_of_fmap_2. }
    unfold set_structured_data. cbn. f_equal. fold (row_of_object verdict r.2).
    rewrite insert_union_singleton_l, (insert_union_singleton_l (list_to_map _)), (assoc_L (∪)).
    f_equal. apply map_union_comm, map_disjoint_singleton_r, not_elem_of_list_to_map_1.
    rewrite list_elem_of_fmap. intros (y & E & Hy). apply list_elem_of_fmap in Hy as (z & -> & Hz).
    cbn in E. injection E as E. apply Hr. rewrite E. by apply list_elem_of_fmap_2.
Qed.

(** Rows that are there stay as they are. *)
Lemma insert_objects_old msg_id verdict (l : list (Z * (str * Source.t))) c :
  (∀ r, r ∈ l → is_Some (structured_data c !! (msg_id, r.1))) →
  foldl (λ c r, insert_object msg_id verdict r c) c l = c.
Proof.
  induction l as [|r l IH]; intros Hold; [done|]. cbn [foldl].
  assert (insert_object msg_id verdict r c = c) as ->.
  { unfold insert_object, set_structured_data. cbv zeta.
    destruct (Hold r) as [v ->]; [by left|]. by destruct c. }
  apply IH. intros x Hx. apply Hold. by right.
Qed.

Lemma store_found_run msg_id found verdict c :
  found ≠ [] → may_act msg_id c = (c, Ok verdict) →
  store_found msg_id found c = (foldl (λ c r, insert_object msg_id verdict r c) c found, Ok tt).
Proof.
  intros Hne Hrun. unfold store_found. destruct found as [|x f]; [done|]. cbn [is_empty].
  rewrite (run_bind_ok _ _ _ _ _ Hrun). unfold transaction. by rewrite for_each_modify.
Qed.

Lemma load_from_db_ok c msg_id m :
  outcome (load_from_db msg_id) c = Ok m → load_from_db msg_id c = (c, Ok m) ∧ msgs c !! msg_id = Some m.
Proof.
  unfold outcome, load_from_db. destruct (_ <? msg_id)%Z; [|done]. cbn [ensure].
  rewrite run_bind_ret, run_bind_gets. destruct (msgs c !! msg_id) as [m'|]; [|done].
  cbn [mbind option_bind]. destruct (is_live m'); [|done]. cbn [or_bail]. rewrite run_bind_ret.
  destruct (MessageState.from_i64 (Msg.state m')), (Msg.rfc724_mid m'), (Msg.pre_rfc724_mid m'),
    (Msg.timestamp m'), (Msg.subject m'); cbn; try discriminate. by intros [= ->].
Qed.

Lemma load_from_db_final msg_id c : final (load_from_db msg_id) c = c.
Proof.
  apply (preserves_final (λ c', c' = c)); [|done]. unfold load_from_db. preserve.
Qed.

Lemma may_act_final msg_id c : final (may_act msg_id) c = c.
Proof.
  assert (∀ id, preserves (λ c', c' = c) (load_from_db id)) as Hload.
  { intros id d ->. pose proof (load_from_db_final id c) as E. unfold final in E.
    destruct (load_from_db id c) as [d' []]; cbn in *; by subst. }
  assert (∀ id, preserves (λ c', c' = c) (is_trusted id)) as Ht.
  { intros id d ->. destruct (is_trusted_run c id) as (b & -> & _). done. }
  apply (preserves_final (λ c', c' = c)); [|done]. unfold may_act, message_crypto. preserve; auto.
Qed.

(** Nothing is written by the verdict. *)
Lemma may_act_run c msg_id m :
  outcome (load_from_db msg_id) c = Ok m →
  (get_showpadlock m = true → is_Some (get_contact c (Msg.from_id m))) →
  ∃ b, may_act msg_id c = (c, Ok b)
    ∧ (b = true ↔ get_showpadlock m = true ∧ trusted c (Msg.from_id m)).
Proof.
  intros Hload Hcontact.
  assert (load_from_db msg_id c = (c, Ok m) ∧ msgs c !! msg_id = Some m) as [Hl Hm].
  { by apply load_from_db_ok. }
  unfold may_act, message_crypto. rewrite run_bind, run_bind, Hl.
  destruct (get_showpadlock m) eqn:Hp.
  - destruct (Hcontact eq_refl) as [k Hk]. rewrite run_bind, run_bind_gets, Hk. cbn [or_bail].
    rewrite run_bind_ret, run_bind_gets.
    assert (∃ v, is_verified c (Contact.id k) = Some v) as [v Hv].
    { unfold get_contact in Hk. destruct (contacts c !! Msg.from_id m) as [row|] eqn:Er; [|done].
      cbn [mbind option_bind] in Hk. destruct (Origin.from_i64 (ContactRow.origin row)); [|done].
      cbn [mbind option_bind] in Hk. injection Hk as <-. unfold is_verified. cbn [Contact.id].
      rewrite Er. case_decide; by eexists. }
    rewrite Hv. cbn [or_bail]. rewrite run_ret. cbn iota beta. rewrite run_ret. cbn iota beta.
    cbn [MessageCrypto.encrypted MessageCrypto.signed negb orb]. rewrite run_bind_gets, Hm.
    cbn [fmap option_fmap option_map].
    destruct (is_trusted_run c (Msg.from_id m)) as (b & -> & Hb). exists b. split; [done|]. tauto.
  - exists false. split; [done|]. split; [done|]. by intros [? _].
Qed.

(** C34: The objects found are stored in their order with the verdict of the
    moment, which allows acting on them exactly when the message was encrypted
    and its sender is trusted; other messages keep theirs, and storing the
    message again, whatever is known of the sender by then, changes nothing. *)
Theorem objects_keep_first_verdict (c : Ctx) (msg_id : Z) (m : Msg.t) (found : found_t) :
  outcome (load_from_db msg_id) c = Ok m →
  (get_showpadlock m = true → is_Some (get_contact c (Msg.from_id m))) →
  (∀ i, structured_data c !! (msg_id, i) = None) →
  (Z.of_nat (length found) ≤ 2 ^ 32)%Z →
  ∃ c' b, store_found msg_id (enumerate_found found) c = (c', Ok tt)
    ∧ (b = true ↔ get_showpadlock m = true ∧ trusted c (Msg.from_id m))
    ∧ of_msg c' msg_id = imap (λ i x, StructuredObject.mk (Z.of_nat i) x.1 b x.2) found
    ∧ (∀ other, other ≠ msg_id → of_msg c' other = of_msg c other)
    ∧ (∀ d, structured_data d = structured_data c' →
         structured_data (final (store_found msg_id (enumerate_found found)) d) = structured_data c').
Proof.
  intros Hload Hcontact Hfree Hlen. destruct (may_act_run c msg_id m Hload Hcontact) as (b & Hact & Hb).
  pose proof (enumerate_numbered msg_id b found Hlen) as Henum.
  assert (NoDup (enumerate_found found).*1) as Hnd.
  { eapply (NoDup_fmap_1 (λ i, (msg_id, i))). rewrite <-list_fmap_compose.
    pose proof (numbered_NoDup msg_id 0 (row_of_object b <$> found)) as Hn. rewrite <-Henum in Hn.
    by rewrite <-list_fmap_compose in Hn. }
  set (t := (list_to_map (numbered msg_id 0 (row_of_object b <$> found)) : gmap (Z * Z) StructuredRow.t)).
  assert (store_found msg_id (enumerate_found found) c = (set_structured_data (λ old, t ∪ old) c, Ok tt)) as ->.
  { destruct found as [|x f].
    - cbn. unfold t, set_structured_data. cbn. rewrite map_empty_union. by destruct c.
    - rewrite (store_found_run _ _ b) by done. rewrite insert_objects by done. by rewrite Henum. }
  exists (set_structured_data (λ old, t ∪ old) c), b. split_and!; [done|done|..].
  - unfold of_msg. unfold set_structured_data. cbn [structured_data]. unfold t.
    rewrite read_numbered.
    2:{ intros [k i] [v Hv] [= ->]. by rewrite Hfree in Hv. }
    unfold numbered. rewrite fmap_imap, imap_fmap. apply imap_ext. intros i x _. cbn.
    rewrite Source.from_to_i64. by destruct b.
  - intros other Hne. unfold of_msg. f_equal. apply rows_of_ext. intros i. unfold set_structured_data.
    cbn [structured_data]. apply lookup_union_r, not_elem_of_list_to_map_1.
    rewrite list_elem_of_fmap. intros (x & E & [Hx _]%elem_of_numbered). by rewrite <-E in Hx.
  - intros d Hd. unfold final, store_found. destruct (is_empty (enumerate_found found)); [done|].
    rewrite run_bind. destruct (may_act msg_id d) as [d' r] eqn:Ed.
    assert (d' = d) as -> by (pose proof (may_act_final msg_id d) as E; unfold final in E; by rewrite Ed in E).
    destruct r as [b'|e]; [|done]. unfold transaction. rewrite for_each_modify. cbn [fst].
    rewrite insert_objects_old; [done|]. intros r Hr. rewrite Hd. unfold set_structured_data.
    cbn [structured_data]. apply lookup_union_is_Some. left. exists (row_of_object b r.2). unfold t.
    apply elem_of_list_to_map_1; [apply numbered_NoDup|]. rewrite <-Henum.
    apply list_elem_of_fmap. by exists r.
Qed.

(** ** Destroyed messages *)

(** A tombstone is still a row of [msgs]: what was extracted from a destroyed
    message is not pruned with it. *)
Lemma prune_spares_tombstones (c : Ctx) (on_server : bool) (id : Z) :
  is_Some (msgs c !! id) → of_msg (final prune (trash_msg on_server id c)) id = of_msg c id.
Proof.
  intros Hm. unfold of_msg. f_equal. apply rows_of_ext. intros i. unfold final, prune, modify. cbn.
  rewrite map_lookup_filter. destruct (structured_data c !! (id, i)) as [v|]; [|done]. cbn.
  rewrite option_guard_True; [done|]. rewrite lookup_alter_is_Some. done.
Qed.

Lemma prune_drops_gone (c : Ctx) (id : Z) :
  msgs c !! id = None → of_msg (final prune c) id = [].
Proof.
  intros Hm. unfold of_msg. destruct (rows_of id _) as [|[[k i] v] l] eqn:E; [done|].
  assert (((k, i), v) ∈ rows_of id (structured_data (final prune c))) as Hin by (rewrite E; left).
  apply elem_of_rows_of in Hin as [Hk Hl]. cbn in Hk, Hl. subst k.
  apply map_lookup_filter_Some in Hl as [_ [m Hm']]. cbn in Hm'. congruence.
Qed.

(** ** Concrete instances *)

(** Documents that are numbers. *)
#[refine] Definition number_json : Json := {|
  Value := Z;
  json_from_str := parse_i64;
  graph_members _ := None;
  json_to_string := show_Z;
|}.
Proof.
  - intros text v Hv. unfold parse_i64, parse_signed in Hv.
    destruct (match text with [] => _ | _ :: _ => _ end) as [z|]; [|done]. cbn in Hv.
    destruct ((i64_min <=? z)%Z && (z <=? i64_max)%Z) eqn:E; [|done]. injection Hv as <-.
    exists z. unfold parse_i64. by rewrite parse_signed_show, E.
  - done.
Defined.

Definition encrypted_mail : Msg.t :=
  Msg.mk (Some (lit "p@shop")) (Some []) None None (Some (lit "Your parcel")) [] None (Some 5%Z) 5 5 12 10
    ContactId.SELF (MessageState.to_i64 MessageState.InFresh) false (lit "c=1") 0 0 false 10 0.

Definition parcel : Ctx :=
  set_contacts <[10%Z := ContactRow.mk (lit "Shop") (lit "parcels@shop.example")
                           (Origin.to_i64 Origin.OutgoingTo) false 0 [] [] 0]>
    (set_msgs <[21%Z := encrypted_mail]> empty_ctx).

Lemma objects_keep_first_verdict_witness :
  ∃ c', store_found 21 (enumerate_found [(lit "7", Source.Alternative)]) parcel = (c', Ok tt)
    ∧ of_msg c' 21 = [StructuredObject.mk 0 (lit "7") true Source.Alternative].
Proof.
  destruct (objects_keep_first_verdict parcel 21 encrypted_mail [(lit "7", Source.Alternative)])
    as (c' & b & Hrun & Hb & Hof & _).
  - vm_compute. reflexivity.
  - intros _. vm_compute. eexists. reflexivity.
  - intros i. reflexivity.
  - vm_compute. discriminate.
  - exists c'. split; [exact Hrun|]. rewrite Hof. cbn. replace b with true; [done|]. symmetry. apply Hb.
    split; [vm_compute; reflexivity|]. right. eexists. split; [vm_compute; reflexivity|]. left.
    vm_compute. reflexivity.
Defined.

Lemma extraction_sound_witness :
  let mail _ := Some (Part (lit "multipart/Related") None None
    [Part (lit "application/ld+json") (Some (lit "Machine-Readable; v=1")) (Some (lit "42")) [];
     Part (lit "text/html") None (Some (lit "<script type=application/ld+json>43</script>")) []]) in
  (@extract number_json mail [] []).*2 = [(lit "42", Source.Related)]
  ∧ Forall (@printed number_json) (@extract number_json mail [] []).*2.
Proof.
  intros mail. split; [vm_compute; reflexivity|]. exact (proj1 (@extraction_sound number_json mail [] [])).
Defined.
