(* ===== verification/Chats.v ===== *)
(** * Chats: one-to-one chats and drafts ([chat.rs], [contact.rs]).

    Creating the chat of a contact, raising a contact's origin, info messages,
    and the draft of a chat: what [compose::send] stands on.  Translated texts
    are arguments, and so is the random Message-ID of a new message. *)

From S2P Require Import Prelude Text Substr Store Labels Trash Gating Blocklist.
From S2P Require Import Params Policy Receipts Compose ContactTools Contacts Structured Truncate.

Definition Chattype_Group : Z := 120.
Definition Chattype_OutBroadcast : Z := 160.
Definition Blocked_Request : Z := 2.

(** [SystemMessage], the value of [Param::Cmd]. *)
Module SystemMessage.
Definition codes : list Z :=
  [0; 2; 3; 4; 5; 6; 7; 8; 9; 10; 11; 12; 13; 14; 15; 20; 30; 32; 40; 50; 66; 67; 70; 71; 72]%Z.
Definition Unknown : Z := 0.
Definition GroupNameChanged : Z := 2.
Definition MemberRemovedFromGroup : Z := 5.
Definition SecurejoinMessage : Z := 7.
Definition EphemeralTimerChanged : Z := 10.
Definition InvalidUnencryptedMail : Z := 13.
Definition ChatE2ee : Z := 50.
Definition GroupDescriptionChanged : Z := 70.
End SystemMessage.

Definition get_cmd (p : Params) : Z :=
  match get_int p Key.Cmd with
  | Some v => if decide (v ∈ SystemMessage.codes) then v else SystemMessage.Unknown
  | None => SystemMessage.Unknown
  end.

Definition set_cmd (v : Z) (p : Params) : Params := set_int Key.Cmd v p.

Definition Viewtype_Text : Z := 10.

(** A row of [chats] in memory; the name shown is not part of it. *)
Module Chat.
Record t := mk {
  id : Z;
  typ : Z;
  grpid : str;
  param : Params;
  blocked : Z;
}.

Definition is_self_talk (chat : t) : bool := bool_decide (is_Some (Params.get (param chat) Key.Selftalk)).
Definition is_device_talk (chat : t) : bool := bool_decide (is_Some (Params.get (param chat) Key.Devicetalk)).
Definition is_contact_request (chat : t) : bool := (blocked chat =? Blocked_Request)%Z.
End Chat.

(** [params.parse().unwrap_or_default()] *)
Definition unpack (s : str) : Params := match from_str s with Ok p => p | Err _ => ∅ end.

Section chats.
Context `{!UnicodeCase, !SqlChoice}.

(** The texts [self_msg], [device_messages] and [messages_e2ee_info_msg] of
    [stock_str], in the user's language. *)
Context (self_msg device_messages messages_e2ee_info_msg : str).

(** ** Contacts *)

Definition with_origin (origin : Origin.t) (r : ContactRow.t) : ContactRow.t :=
  ContactRow.mk (ContactRow.name r) (ContactRow.addr r) (Origin.to_i64 origin) (ContactRow.blocked r)
    (ContactRow.last_seen r) (ContactRow.authname r) (ContactRow.fingerprint r) (ContactRow.verifier r).

(** [UPDATE contacts SET origin=?1 WHERE id=?2 AND origin<?1] *)
Definition raise_origin (origin : Origin.t) (r : ContactRow.t) : ContactRow.t :=
  if (ContactRow.origin r <? Origin.to_i64 origin)%Z then with_origin origin r else r.

Definition scaleup_origin (ids : list Z) (origin : Origin.t) : cmd Ctx unit :=
  transaction (for_each ids (λ id, modify (set_contacts (alter (raise_origin origin) id)))) ;;
  attempt (release ids) ;;
  mret tt.

Definition real_exists_by_id (c : Ctx) (contact_id : Z) : bool :=
  negb (ContactId.is_special contact_id) && bool_decide (is_Some (contacts c !! contact_id)).

(** [Contact::get_display_name] of a loaded contact. *)
Definition get_display_name (c : Ctx) (contact_id : Z) (r : ContactRow.t) (contact : Contact.t) : str :=
  let '(name, authname) :=
    if decide (contact_id = ContactId.SELF) then (self_msg, default [] (get_config_key c (lit "displayname")))
    else if decide (contact_id = ContactId.DEVICE) then (device_messages, ContactRow.authname r)
    else (ContactRow.name r, ContactRow.authname r) in
  if negb (is_empty name) then name
  else if negb (is_empty authname) then authname
  else Contact.addr contact.

(** ** Chats *)

Definition chattypes : list Z :=
  [Chattype_Single; Chattype_Group; Chattype_Mailinglist; Chattype_OutBroadcast; Chattype_InBroadcast].

(** [Chat::load_from_db] *)
Definition load_chat (chat_id : Z) : cmd Ctx Chat.t :=
  row ← gets (λ c, chats c !! chat_id);
  row ← or_bail row "Failed loading chat from database";
  ensure (bool_decide (ChatRow.typ row ∈ chattypes)) "Failed loading chat from database" ;;
  ensure ((0 <=? ChatRow.blocked row) && (ChatRow.blocked row <=? 2))%Z "Failed loading chat from database" ;;
  mret (Chat.mk chat_id (ChatRow.typ row) (ChatRow.grpid row) (unpack (ChatRow.param row)) (ChatRow.blocked row)).

(** The contact of a chat, the first row found. *)
Definition chat_member (c : Ctx) (chat_id : Z) : option Z :=
  snd <$> pick (filter (λ r, r.1 = chat_id) (elements (chats_contacts c))).

(** [Chat::is_encrypted] *)
Definition chat_is_encrypted (chat : Chat.t) : cmd Ctx bool :=
  if Chat.is_self_talk chat then mret true
  else if (Chat.typ chat =? Chattype_Single)%Z then
    c ← gets id;
    match chat_member c (Chat.id chat) with
    | None => mret true
    | Some member =>
        r ← or_bail (contacts c !! member) "Invalid column type Null";
        mret (negb (is_empty (ContactRow.fingerprint r)) || (member =? ContactId.DEVICE)%Z)
    end
  else if (Chat.typ chat =? Chattype_Group)%Z then mret (negb (is_empty (Chat.grpid chat)))
  else mret (negb (Chat.typ chat =? Chattype_Mailinglist)%Z).

(** [sql.insert("INSERT INTO msgs ..")], with the conversion of the new id. *)
Definition insert_msg (m : Msg.t) : cmd Ctx Z :=
  id ← gets (λ c, msgs_seq c + 1)%Z;
  modify (set_msgs_seq (λ _, id)) ;;
  modify (set_msgs <[id := m]>) ;;
  ensure (id <=? u32_max)%Z "out of range integral type conversion attempted" ;;
  mret id.

(** [add_info_msg_with_cmd] with a given sort timestamp and no parent. *)
Definition add_info_msg_with_cmd (mid : str) (chat_id : Z) (text : str) (cmd_ : Z)
    (timestamp_sort timestamp_sent_rcvd : Z) : cmd Ctx Z :=
  timer ← get_ephemeral_timer chat_id;
  let param := if (cmd_ =? SystemMessage.Unknown)%Z then ∅ else set_cmd cmd_ ∅ in
  insert_msg {|
    Msg.rfc724_mid := Some mid;
    Msg.pre_rfc724_mid := Some [];
    Msg.mime_in_reply_to := Some [];
    Msg.mime_references := None;
    Msg.subject := Some [];
    Msg.txt := text;
    Msg.txt_normalized := normalize_text text;
    Msg.timestamp := Some timestamp_sort;
    Msg.timestamp_sent := timestamp_sent_rcvd;
    Msg.timestamp_rcvd := timestamp_sent_rcvd;
    Msg.chat_id := chat_id;
    Msg.from_id := ContactId.INFO;
    Msg.to_id := ContactId.INFO;
    Msg.state := MessageState.to_i64 MessageState.InNoticed;
    Msg.hidden := false;
    Msg.param := Params.to_string param;
    Msg.ephemeral_timer := Timer.to_u32 timer;
    Msg.ephemeral_timestamp := 0;
    Msg.deleted := false;
    Msg.typ := Viewtype_Text;
    Msg.download_state := 0;
  |}.

Definition add_e2ee_notice (mid : str) (chat_id timestamp : Z) : cmd Ctx unit :=
  add_info_msg_with_cmd mid chat_id messages_e2ee_info_msg SystemMessage.ChatE2ee 0 timestamp ;;
  mret tt.

(** The transaction of [get_for_contact]: the chat and its member. *)
Definition insert_chat (name : str) (param : Params) (create_blocked contact_id : Z) : cmd Ctx Z :=
  id ← gets (λ c, chats_seq c + 1)%Z;
  modify (set_chats_seq (λ _, id)) ;;
  modify (set_chats <[id := ChatRow.mk Chattype_Single name [] create_blocked 0 (Params.to_string param) 0 0]>) ;;
  ensure (id <=? u32_max)%Z "chat table rowid overflows u32" ;;
  modify (set_chats_contacts (λ t, {[ (id, contact_id) ]} ∪ t)) ;;
  mret id.

(** [ChatIdBlocked::get_for_contact] *)
Definition get_for_contact (mid : str) (contact_id create_blocked : Z) : cmd Ctx (Z * Z) :=
  ensure (negb (contact_id =? ContactId.UNDEFINED)%Z) "Invalid contact id requested" ;;
  found ← lookup_by_contact contact_id;
  match found with
  | Some res => mret res
  | None =>
      c ← gets id;
      row ← or_bail (contacts c !! contact_id) "contact not found";
      contact ← or_bail (get_contact c contact_id) "contact not found";
      let chat_name := get_display_name c contact_id row contact in
      let params :=
        if (contact_id =? ContactId.SELF)%Z then set_int Key.Selftalk 1 ∅
        else if (contact_id =? ContactId.DEVICE)%Z then set_int Key.Devicetalk 1 ∅
        else ∅ in
      chat_id ← transaction (insert_chat chat_name params create_blocked contact_id);
      chat ← load_chat chat_id;
      encrypted ← chat_is_encrypted chat;
      (if encrypted && negb (Chat.is_device_talk chat) && negb (Chat.is_self_talk chat)
       then add_e2ee_notice mid chat_id (clock c) else mret tt) ;;
      mret (chat_id, create_blocked)
  end.

Definition create_for_contact_with_blocked (mid : str) (contact_id create_blocked : Z) : cmd Ctx Z :=
  found ← lookup_by_contact contact_id;
  match found with
  | Some (chat_id, blocked) =>
      if negb (create_blocked =? Blocked_Not)%Z || (blocked =? Blocked_Not)%Z then mret chat_id
      else chat_set_blocked chat_id Blocked_Not ;; mret chat_id
  | None =>
      exists_ ← gets (λ c, real_exists_by_id c contact_id);
      if exists_ || (contact_id =? ContactId.SELF)%Z then
        '(chat_id, _) ← get_for_contact mid contact_id create_blocked;
        (if negb (create_blocked =? Blocked_Yes)%Z then scaleup_origin [contact_id] Origin.CreateChat
         else mret tt) ;;
        mret chat_id
      else bail "Can not create chat for non-existing contact"
  end.

(** [ChatId::create_for_contact] *)
Definition create_for_contact (mid : str) (contact_id : Z) : cmd Ctx Z :=
  create_for_contact_with_blocked mid contact_id Blocked_Not.

(** ** What a call leaves alone *)

Lemma set_ext_nosync_frame {V} (view : Ctx → V) ids label b v :
  (∀ f c, view (set_msg_labels f c) = view c) →
  preserves (λ c, view c = v) (set_ext ids label b Sync.Nosync).
Proof.
  intros Hl. unfold set_ext. cbn [when_sync]. preserve. apply preserves_modify. intros c <-. apply Hl.
Qed.

Lemma is_trusted_frame (P : Ctx → Prop) id : preserves P (is_trusted id).
Proof. unfold is_trusted. preserve. Qed.

Lemma unhold_frame {V} (view : Ctx → V) ids v :
  (∀ f c, view (set_msg_labels f c) = view c) →
  (∀ f c, view (set_held_msgs f c) = view c) →
  preserves (λ c, view c = v) (unhold ids).
Proof.
  intros Hl Hh. unfold unhold, reserved. preserve; [by apply set_ext_nosync_frame|].
  apply preserves_modify. intros c <-. apply Hh.
Qed.

Lemma release_frame {V} (view : Ctx → V) ids v :
  (∀ f c, view (set_msg_labels f c) = view c) →
  (∀ f c, view (set_held_msgs f c) = view c) →
  preserves (λ c, view c = v) (release ids).
Proof.
  intros Hl Hh. unfold release.
  assert (∀ rows n, preserves (λ c, view c = v) (release_rows rows n)) as Hrows.
  { induction rows as [|r rows IH]; intros n; cbn [release_rows]; preserve. by apply unhold_frame. }
  generalize 0. induction ids as [|i ids IH]; intros n; cbn [release_loop]; preserve;
    apply is_trusted_frame.
Qed.

Lemma scaleup_origin_frame {V} (view : Ctx → V) ids origin v :
  (∀ f c, view (set_contacts f c) = view c) →
  (∀ f c, view (set_msg_labels f c) = view c) →
  (∀ f c, view (set_held_msgs f c) = view c) →
  preserves (λ c, view c = v) (scaleup_origin ids origin).
Proof.
  intros Hc Hl Hh. unfold scaleup_origin. preserve; [|by apply release_frame].
  apply preserves_modify. intros c <-. apply Hc.
Qed.

(** ** One chat per contact *)

(** [chat_id] is a one-to-one chat with [contact_id]. *)
Definition single_chat (c : Ctx) (chat_id contact_id : Z) : Prop :=
  (∃ row, chats c !! chat_id = Some row ∧ ChatRow.typ row = Chattype_Single)
  ∧ (chat_id, contact_id) ∈ chats_contacts c.

(** The ids in use were given out, and a contact has one chat at most. *)
Record chats_ok (c : Ctx) : Prop := {
  chats_seq_ok : (DC_CHAT_ID_LAST_SPECIAL ≤ chats_seq c)%Z;
  chats_given : ∀ i, is_Some (chats c !! i) → (i ≤ chats_seq c)%Z;
  members_given : ∀ i k, (i, k) ∈ chats_contacts c → (i ≤ chats_seq c)%Z;
  chats_special : ∀ i k, single_chat c i k → (DC_CHAT_ID_LAST_SPECIAL < i)%Z;
  chats_single : ∀ i j k, single_chat c i k → single_chat c j k → i = j;
}.

Definition chat_tables (c : Ctx) := (chats c, chats_seq c, chats_contacts c).

Lemma chats_ok_ext c c' : chat_tables c' = chat_tables c → chats_ok c → chats_ok c'.
Proof.
  intros [= E1 E2 E3] [H1 H2 H3 H4 H5].
  split; unfold single_chat; rewrite ?E1, ?E2, ?E3; try done.
Qed.

Lemma lookup_by_contact_spec contact_id c :
  contact_id ≠ ContactId.UNDEFINED →
  (∃ i row e, lookup_by_contact contact_id c = (c, Err e)
     ∧ chats c !! i = Some row ∧ single_chat c i contact_id ∧ (0 <= ChatRow.blocked row <= 2 → False)%Z)
  ∨ (lookup_by_contact contact_id c = (c, Ok None) ∧ ∀ i, (DC_CHAT_ID_LAST_SPECIAL < i)%Z → ¬ single_chat c i contact_id)
  ∨ (∃ i row, lookup_by_contact contact_id c = (c, Ok (Some (i, ChatRow.blocked row)))
       ∧ chats c !! i = Some row ∧ single_chat c i contact_id ∧ (DC_CHAT_ID_LAST_SPECIAL < i)%Z).
Proof.
  intros Hid. unfold lookup_by_contact. rewrite (proj2 (Z.eqb_neq _ _) Hid). cbn [negb ensure].
  rewrite run_bind_ret, run_bind_gets. unfold id.
  destruct (pick _) as [[i row]|] eqn:Hp.
  - apply pick_in, list_elem_of_filter in Hp as [(Ht & Hs & Hm) Hin]. apply elem_of_map_to_list in Hin.
    cbn in Ht, Hs, Hm, Hin. unfold ensure. destruct (_ && _) eqn:Hb; [right; right|left].
    + exists i, row. repeat split; eauto.
    + exists i, row, "out of range". repeat split; eauto. apply andb_false_iff in Hb. lia.
  - right; left. split; [done|]. intros i Hi [(row & Hrow & Ht) Hm]. apply pick_None in Hp.
    apply (not_elem_of_nil (i, row)). rewrite <-Hp. apply list_elem_of_filter.
    split; [done|by apply elem_of_map_to_list].
Qed.

Lemma insert_chat_spec name param b k c c' id :
  chats_ok c → (∀ i, ¬ single_chat c i k) →
  transaction (insert_chat name param b k) c = (c', Ok id) →
  chats_ok c' ∧ single_chat c' id k
  ∧ ∃ row, chats c' !! id = Some row ∧ ChatRow.blocked row = b ∧ ChatRow.typ row = Chattype_Single.
Proof.
  intros [Hseq Hg Hm Hsp Hu] Hnone Hrun. unfold transaction, insert_chat, ensure in Hrun. unfold_cmd.
  destruct (_ <=? u32_max)%Z; [|done]. injection Hrun as <- <-.
  set (i := (chats_seq c + 1)%Z).
  assert (∀ j, single_chat c j k → False) as Hno by (intros j Hj; by eapply Hnone).
  assert (∀ j l, j ≠ i →
    single_chat (set_chats_contacts (λ t, {[(i, k)]} ∪ t)
      (set_chats <[i:=ChatRow.mk Chattype_Single name [] b 0 (Params.to_string param) 0 0]> (set_chats_seq (λ _, i) c))) j l
    → single_chat c j l) as Hold.
  { intros j l Hji [(row & Hrow & Ht) Hin]. cbn in Hrow, Hin. rewrite lookup_insert_ne in Hrow by done.
    apply elem_of_union in Hin as [Hin%elem_of_singleton|Hin]; [by injection Hin as -> _|]. split; eauto. }
  assert (∀ l, (i, l) ∉ chats_contacts c) as Hfresh.
  { intros l Hl%Hm. subst i. lia. }
  assert (∀ l, single_chat (set_chats_contacts (λ t, {[(i, k)]} ∪ t)
      (set_chats <[i:=ChatRow.mk Chattype_Single name [] b 0 (Params.to_string param) 0 0]> (set_chats_seq (λ _, i) c))) i l
    → l = k) as Hnew.
  { intros l [_ Hin]. cbn in Hin. apply elem_of_union in Hin as [Hin%elem_of_singleton|Hin];
      [by injection Hin|by destruct (Hfresh l)]. }
  split; [split; cbn|split].
  - subst i. lia.
  - intros j Hj. destruct (decide (j = i)) as [->|Hji]; [done|]. rewrite lookup_insert_ne in Hj by done.
    apply Hg in Hj. subst i. lia.
  - intros j l [Hin%elem_of_singleton|Hin]%elem_of_union; [injection Hin as -> _; done|].
    apply Hm in Hin. subst i. lia.
  - intros j l Hj. destruct (decide (j = i)) as [->|Hji]; [subst i; lia|]. eapply Hsp. by eapply Hold.
  - intros j1 j2 l H1 H2.
    destruct (decide (j1 = i)) as [->|N1], (decide (j2 = i)) as [->|N2]; [done| | |by eapply Hu; eapply Hold].
    + apply Hnew in H1 as ->. by destruct (Hno j2); apply Hold.
    + apply Hnew in H2 as ->. by destruct (Hno j1); apply Hold.
  - split; [|set_solver]. cbn. rewrite lookup_insert_eq. eauto.
  - cbn. rewrite lookup_insert_eq. eauto.
Qed.

Lemma add_e2ee_notice_frame mid chat_id ts v :
  preserves (λ c, chat_tables c = v) (add_e2ee_notice mid chat_id ts).
Proof.
  unfold add_e2ee_notice, add_info_msg_with_cmd, get_ephemeral_timer, insert_msg. preserve;
    by apply preserves_modify.
Qed.

Lemma load_chat_frame (P : Ctx → Prop) chat_id : preserves P (load_chat chat_id).
Proof. unfold load_chat. preserve. Qed.

Lemma chat_is_encrypted_frame (P : Ctx → Prop) chat : preserves P (chat_is_encrypted chat).
Proof. unfold chat_is_encrypted. preserve. Qed.

(** The chat of [get_for_contact] for a contact without one. *)
Lemma get_for_contact_spec mid k c c' res :
  chats_ok c → (∀ i, ¬ single_chat c i k) → k ≠ ContactId.UNDEFINED →
  get_for_contact mid k Blocked_Not c = (c', Ok res) →
  chats_ok c' ∧ single_chat c' res.1 k
  ∧ ∃ row, chats c' !! res.1 = Some row ∧ ChatRow.blocked row = Blocked_Not ∧ ChatRow.typ row = Chattype_Single.
Proof.
  intros Hok Hnone Hid Hrun. unfold get_for_contact in Hrun.
  bind_inv Hrun as ? c0 [-> _]%ensure_ok_inv. bind_inv Hrun as found c1 Hl.
  destruct (lookup_by_contact_spec k c Hid) as [(? & ? & ? & He & _)|[[He _]|(i & row & He & _ & Hs & _)]];
    rewrite He in Hl; [done| |by destruct (Hnone i)].
  injection Hl as <- <-. rewrite run_bind_gets in Hrun. unfold id in Hrun.
  bind_inv Hrun as row c2 [-> _]%or_bail_ok_inv. bind_inv Hrun as contact c2 [-> _]%or_bail_ok_inv.
  bind_inv Hrun as chat_id c2 Hins. apply insert_chat_spec in Hins as (Hok2 & Hs2 & Hrow); [|done|done].
  bind_inv Hrun as chat c3 H3. bind_inv Hrun as enc c4 H4. bind_inv Hrun as u c5 H5. injection Hrun as <- <-.
  apply (preserves_run _ _ _ _ _ (load_chat_frame (λ c, chat_tables c = chat_tables c2) _)) in H3; [|done].
  apply (preserves_run _ _ _ _ _ (chat_is_encrypted_frame (λ c, chat_tables c = chat_tables c2) _)) in H4; [|done].
  assert (chat_tables c5 = chat_tables c2) as Heq.
  { destruct (_ && _); [|by injection H5 as <- _].
    by apply (preserves_run _ _ _ _ _ (add_e2ee_notice_frame _ _ _ _) H5). }
  split; [by eapply chats_ok_ext|]. injection Heq as E1 _ E3. unfold single_chat. rewrite E1, E3. done.
Qed.

Lemma unblock_spec i k row c :
  chats_ok c → chats c !! i = Some row → single_chat c i k →
  let c' := set_chats (alter (chat_with_blocked Blocked_Not) i) c in
  chats_ok c' ∧ single_chat c' i k ∧ ∃ row', chats c' !! i = Some row' ∧ ChatRow.blocked row' = Blocked_Not.
Proof.
  intros [H1 H2 H3 H4 H5] Hrow Hs c'.
  assert (∀ j l, single_chat c' j l ↔ single_chat c j l) as Hiff.
  { intros j l. unfold single_chat, c'. cbn. destruct (decide (j = i)) as [->|Hji].
    - rewrite lookup_alter_eq, Hrow. cbn. naive_solver.
    - by rewrite lookup_alter_ne. }
  split; [split|]; [done| |done| | |].
  - intros j [r Hr]. cbn in Hr. apply H2. destruct (decide (j = i)) as [->|Hji]; [by rewrite Hrow|].
    rewrite lookup_alter_ne in Hr by done. by rewrite Hr.
  - intros j l Hj%Hiff. by eapply H4.
  - intros j1 j2 l Hj1%Hiff Hj2%Hiff. by eapply H5.
  - split; [by apply Hiff|]. cbn. rewrite lookup_alter_eq, Hrow. by eexists.
Qed.

(** What [create_for_contact] returns is the contact's chat, not blocked. *)
Lemma create_for_contact_spec mid k c c' id :
  chats_ok c → create_for_contact mid k c = (c', Ok id) →
  k ≠ ContactId.UNDEFINED ∧ chats_ok c' ∧ single_chat c' id k
  ∧ ∃ row, chats c' !! id = Some row ∧ ChatRow.blocked row = Blocked_Not.
Proof.
  intros Hok Hrun. unfold create_for_contact, create_for_contact_with_blocked in Hrun.
  destruct (decide (k = ContactId.UNDEFINED)) as [->|Hid]; [done|]. split; [done|].
  bind_inv Hrun as found c1 Hl.
  destruct (lookup_by_contact_spec k c Hid) as [(? & ? & ? & He & _)|[[He Hn]|(i & row & He & Hrow & Hs & Hi)]];
    rewrite He in Hl; [done| |]; injection Hl as <- <-.
  - rewrite run_bind_gets in Hrun. destruct (_ || _); [|done]. bind_inv Hrun as res c2 Hget.
    apply get_for_contact_spec in Hget as (Hok2 & Hs2 & row & Hrow & Hb & _); [|done| |done].
    2:{ intros i Hi. eapply Hn; [by eapply chats_special|done]. }
    destruct res as [chat_id b]. bind_inv Hrun as u c3 H3. injection Hrun as <- <-. cbn [fst] in *.
    apply (preserves_run _ _ _ _ _ (scaleup_origin_frame chat_tables _ _ (chat_tables c2)
             (λ _ _, eq_refl) (λ _ _, eq_refl) (λ _ _, eq_refl))) in H3; [|done].
    split; [by eapply chats_ok_ext|]. injection H3 as E1 _ E3. unfold single_chat. rewrite E1, E3. eauto.
  - cbn [negb Z.eqb Blocked_Not orb] in Hrun.
    destruct (ChatRow.blocked row =? Blocked_Not)%Z eqn:Hb.
    + injection Hrun as <- <-. split; [done|]. split; [done|]. exists row. split; [done|by apply Z.eqb_eq].
    + unfold chat_set_blocked in Hrun. bind_inv Hrun as u c2 H2. bind_inv H2 as u2 c3 [-> _]%ensure_ok_inv.
      injection H2 as <-. injection Hrun as <- <-. by eapply unblock_spec.
Qed.

(** A one-to-one chat has one member, and members belong to chats that were
    given out. *)
Record members_ok (c : Ctx) : Prop := {
  members_seq : ∀ i k, (i, k) ∈ chats_contacts c → (i ≤ chats_seq c)%Z;
  one_member : ∀ i k k', (ChatRow.typ <$> chats c) !! i = Some Chattype_Single →
    (i, k) ∈ chats_contacts c → (i, k') ∈ chats_contacts c → k = k';
}.

Definition member_view (c : Ctx) := (chats_seq c, chats_contacts c, ChatRow.typ <$> chats c).

Lemma members_ok_ext c c' : member_view c' = member_view c → members_ok c → members_ok c'.
Proof. intros [= E1 E2 E3] [H1 H2]. split; rewrite ?E1, ?E2, ?E3; done. Qed.

(** [contact_id] is the member of [chat_id], and nobody else is. *)
Definition lone_member (c : Ctx) (chat_id contact_id : Z) : Prop :=
  ∀ k, (chat_id, k) ∈ chats_contacts c ↔ k = contact_id.

Lemma lone_chat_member c i k : lone_member c i k → chat_member c i = Some k.
Proof.
  intros Hl. unfold chat_member. destruct (pick _) as [[j k']|] eqn:Hp.
  - apply pick_in, list_elem_of_filter in Hp as [Hj Hin%elem_of_elements]. cbn in *. subst j.
    apply Hl in Hin. by subst.
  - apply pick_None in Hp. exfalso. apply (not_elem_of_nil (i, k)). rewrite <-Hp.
    apply list_elem_of_filter. split; [done|]. apply elem_of_elements. by apply Hl.
Qed.

Lemma get_for_contact_member mid k c c' res :
  members_ok c → lookup_by_contact k c = (c, Ok None) →
  get_for_contact mid k Blocked_Not c = (c', Ok res) → lone_member c' res.1 k.
Proof.
  intros Hok Hnone Hrun. unfold get_for_contact in Hrun.
  bind_inv Hrun as ? c0 [-> _]%ensure_ok_inv. bind_inv Hrun as found c1 Hl. rewrite Hnone in Hl.
  injection Hl as <- <-. rewrite run_bind_gets in Hrun. unfold id in Hrun.
  bind_inv Hrun as row c2 [-> _]%or_bail_ok_inv. bind_inv Hrun as contact c2 [-> _]%or_bail_ok_inv.
  bind_inv Hrun as chat_id c2 Hins. unfold transaction, insert_chat, ensure in Hins. unfold_cmd.
  destruct (_ <=? u32_max)%Z; [|done]. injection Hins as <- <-. set (c2 := set_chats_contacts _ _) in Hrun.
  apply bind_ok_inv in Hrun as (chat & c3 & H3 & Hrun). apply bind_ok_inv in Hrun as (enc & c4 & H4 & Hrun).
  apply bind_ok_inv in Hrun as (u & c5 & H5 & Hrun). injection Hrun as <- <-.
  apply (preserves_run _ _ _ _ _ (load_chat_frame (λ c, chat_tables c = chat_tables c2) _)) in H3; [|done].
  apply (preserves_run _ _ _ _ _ (chat_is_encrypted_frame (λ c, chat_tables c = chat_tables c2) _)) in H4; [|done].
  assert (chat_tables c5 = chat_tables c2) as Heq.
  { destruct (_ && _); [|by injection H5 as <- _].
    by apply (preserves_run _ _ _ _ _ (add_e2ee_notice_frame _ _ _ _) H5). }
  injection Heq as _ _ E. intros k'. cbn [fst]. rewrite E. unfold c2. cbn [set_chats_contacts chats_contacts].
  rewrite elem_of_union, elem_of_singleton. split; [|intros ->; by left].
  intros [[= ->]|Hin]; [done|]. apply (members_seq _ Hok) in Hin. lia.
Qed.

Lemma create_for_contact_member mid k c c' i :
  members_ok c → create_for_contact mid k c = (c', Ok i) → lone_member c' i k.
Proof.
  intros Hok Hrun. unfold create_for_contact, create_for_contact_with_blocked in Hrun.
  destruct (decide (k = ContactId.UNDEFINED)) as [->|Hid]; [done|].
  bind_inv Hrun as found c1 Hl.
  destruct (lookup_by_contact_spec k c Hid) as [(? & ? & ? & He & _)|[[He Hn]|(j & row & He & Hrow & Hs & Hi)]];
    rewrite He in Hl; [done| |]; injection Hl as <- <-.
  - rewrite run_bind_gets in Hrun. destruct (_ || _); [|done]. bind_inv Hrun as res c2 Hget.
    apply get_for_contact_member in Hget as Hm; [|done|done]. destruct res as [chat_id b].
    bind_inv Hrun as u c3 H3. injection Hrun as <- <-. cbn [fst] in *.
    apply (preserves_run _ _ _ _ _ (scaleup_origin_frame chat_tables _ _ (chat_tables c2)
             (λ _ _, eq_refl) (λ _ _, eq_refl) (λ _ _, eq_refl))) in H3; [|done].
    injection H3 as _ _ E3. intros k'. rewrite E3. apply Hm.
  - assert (lone_member c j k) as Hlone.
    { destruct Hs as [(r & Hr & Ht) Hin]. intros k'. split; [|by intros ->]. intros Hin'.
      eapply (one_member _ Hok j); [|done|done]. rewrite lookup_fmap, Hr. cbn. by rewrite Ht. }
    destruct (_ || _).
    + by injection Hrun as <- <-.
    + unfold chat_set_blocked in Hrun. bind_inv Hrun as u c2 H2. bind_inv H2 as u2 c3 [-> _]%ensure_ok_inv.
      injection H2 as <-. by injection Hrun as <- <-.
Qed.

(** C24: asking for the chat with a contact gives the contact's only one-to-one
    chat, unblocked, and asking again finds the same chat and changes nothing:
    every mail written to a person lands in one chat. *)
Theorem create_for_contact_stable (mid mid' : str) (contact_id chat_id : Z) (c c' : Ctx) :
  chats_ok c →
  create_for_contact mid contact_id c = (c', Ok chat_id) →
  chats_ok c'
  ∧ (∀ i, single_chat c' i contact_id ↔ i = chat_id)
  ∧ lookup_by_contact contact_id c' = (c', Ok (Some (chat_id, Blocked_Not)))
  ∧ create_for_contact mid' contact_id c' = (c', Ok chat_id).
Proof.
  intros Hok Hrun. destruct (create_for_contact_spec _ _ _ _ _ Hok Hrun) as (Hid & Hok' & Hs & row & Hrow & Hb).
  assert (lookup_by_contact contact_id c' = (c', Ok (Some (chat_id, Blocked_Not)))) as Hl.
  { destruct (lookup_by_contact_spec contact_id c' Hid)
      as [(i & r & e & _ & Hr & Hi & Hbad)|[[_ Hn]|(i & r & Hl & Hr & Hi & _)]].
    - rewrite (chats_single _ Hok' _ _ _ Hi Hs), Hrow in Hr. injection Hr as <-. destruct Hbad. rewrite Hb. done.
    - destruct (Hn chat_id); [by eapply chats_special|done].
    - rewrite (chats_single _ Hok' _ _ _ Hi Hs) in *. rewrite Hrow in Hr. injection Hr as <-. by rewrite Hl, Hb. }
  split; [done|]. split; [intros i; split; [intros Hi; by eapply chats_single|by intros ->]|].
  split; [done|]. unfold create_for_contact, create_for_contact_with_blocked. by rewrite run_bind, Hl.
Qed.

End chats.

(** ** A new account that knows one person *)

Definition newcomer : Ctx :=
  set_chats_seq (λ _, DC_CHAT_ID_LAST_SPECIAL)
    (set_contacts <[10%Z := ContactRow.mk (lit "Bob") (lit "bob@x") 64 false 5 [] (lit "B0B") 0]> empty_ctx).

Lemma newcomer_ok : chats_ok newcomer.
Proof.
  split.
  - done.
  - intros i [row Hrow]. vm_compute in Hrow. discriminate Hrow.
  - intros i k Hin. cbn in Hin. set_solver.
  - intros i k [_ Hin]. cbn in Hin. set_solver.
  - intros i j k [_ Hin]. cbn in Hin. set_solver.
Qed.

Definition chat_with (k : Z) : cmd Ctx Z :=
  @create_for_contact ascii_case first_choice (lit "Me") (lit "Device") (lit "Encrypted.") (lit "notice@x") k.

Lemma create_for_contact_stable_witness :
  outcome (chat_with 10) newcomer = Ok 10%Z
  ∧ chats_ok (final (chat_with 10) newcomer)
  ∧ chat_with 10 (final (chat_with 10) newcomer) = (final (chat_with 10) newcomer, Ok 10%Z).
Proof.
  destruct (chat_with 10 newcomer) as [c' r] eqn:E. unfold outcome, final. rewrite E. cbn [fst snd].
  assert (r = Ok 10%Z) as -> by (apply (f_equal snd) in E; cbn [snd] in E; rewrite <-E; vm_compute; reflexivity).
  destruct (@create_for_contact_stable ascii_case first_choice (lit "Me") (lit "Device") (lit "Encrypted.")
    (lit "notice@x") (lit "notice@x") 10 10 newcomer c' newcomer_ok E) as (Hok & _ & _ & Hrun).
  split; [reflexivity|]. split; [exact Hok|exact Hrun].
Defined.

(** A new encrypted chat starts with its notice, and the contact counts as
    somebody the user writes to. *)
Example first_mail :
  let c := final (chat_with 10) newcomer in
  (ContactRow.origin <$> contacts c !! 10%Z) = Some (Origin.to_i64 Origin.CreateChat)
  ∧ (Msg.txt <$> (map_to_list (msgs c)).*2) = [lit "Encrypted."]
  ∧ outcome (chat_with 11) c = Err "Can not create chat for non-existing contact".
Proof. vm_compute. repeat split; reflexivity. Qed.
