(* ===== verification/Drafts.v ===== *)
(** * Drafts: the draft of a chat ([chat.rs], [message.rs]).

    A message in memory, as far as a text mail needs it, and the operations on
    the one draft a chat has: [get_draft], [set_draft], [do_set_draft] and
    [maybe_delete_draft].  Drafts of attachments are not modelled. *)

From S2P Require Import Prelude Text Substr Store Labels Trash.
From S2P Require Import Params Policy Receipts Structured Truncate Chats.

(** A message in memory. *)
Module Message.
Record t := mk {
  id : Z; (** 0 when unset *)
  rfc724_mid : str;
  chat_id : Z;
  state : MessageState.t;
  text : str;
  subject : str;
  param : Params;
  in_reply_to : option str;
  hidden : bool;
  mime_modified : bool;
  timestamp_sort : Z;
}.

(** [Message::new_text] *)
Definition new_text (mid text : str) : t := mk 0 mid 0 MessageState.Undefined text [] ∅ None false false 0.

Definition with_id (i : Z) (m : t) : t :=
  mk i (rfc724_mid m) (chat_id m) (state m) (text m) (subject m) (param m) (in_reply_to m) (hidden m)
    (mime_modified m) (timestamp_sort m).
Definition with_place (chat : Z) (s : MessageState.t) (m : t) : t :=
  mk (id m) (rfc724_mid m) chat s (text m) (subject m) (param m) (in_reply_to m) (hidden m)
    (mime_modified m) (timestamp_sort m).
Definition with_text (x : str) (m : t) : t :=
  mk (id m) (rfc724_mid m) (chat_id m) (state m) x (subject m) (param m) (in_reply_to m) (hidden m)
    (mime_modified m) (timestamp_sort m).
Definition set_subject (x : str) (m : t) : t :=
  mk (id m) (rfc724_mid m) (chat_id m) (state m) (text m) x (param m) (in_reply_to m) (hidden m)
    (mime_modified m) (timestamp_sort m).
Definition with_param (p : Params) (m : t) : t :=
  mk (id m) (rfc724_mid m) (chat_id m) (state m) (text m) (subject m) p (in_reply_to m) (hidden m)
    (mime_modified m) (timestamp_sort m).
Definition with_reply (r : option str) (m : t) : t :=
  mk (id m) (rfc724_mid m) (chat_id m) (state m) (text m) (subject m) (param m) r (hidden m)
    (mime_modified m) (timestamp_sort m).
Definition with_hidden (h : bool) (m : t) : t :=
  mk (id m) (rfc724_mid m) (chat_id m) (state m) (text m) (subject m) (param m) (in_reply_to m) h
    (mime_modified m) (timestamp_sort m).
Definition with_timestamp_sort (ts : Z) (m : t) : t :=
  mk (id m) (rfc724_mid m) (chat_id m) (state m) (text m) (subject m) (param m) (in_reply_to m) (hidden m)
    (mime_modified m) ts.

Definition set_html (html : option str) (m : t) : t :=
  match html with
  | Some html => mk (id m) (rfc724_mid m) (chat_id m) (state m) (text m) (subject m)
                   (Params.set Key.SendHtml html (param m)) (in_reply_to m) (hidden m) true (timestamp_sort m)
  | None => mk (id m) (rfc724_mid m) (chat_id m) (state m) (text m) (subject m)
              (Params.remove Key.SendHtml (param m)) (in_reply_to m) (hidden m) false (timestamp_sort m)
  end.

Definition is_system_message (m : t) : bool := negb (get_cmd (param m) =? SystemMessage.Unknown)%Z.
End Message.

(** The rows a message and its chat are found by. *)
Definition is_draft_of (chat_id : Z) (m : Msg.t) : bool :=
  (Msg.chat_id m =? chat_id)%Z && (Msg.state m =? MessageState.to_i64 MessageState.OutDraft)%Z.

Definition msg_is_special (id : Z) : bool := (id <=? DC_MSG_ID_LAST_SPECIAL)%Z.

Section drafts.
Context `{!UnicodeCase, !SqlChoice}.

Definition get_draft_msg_id (c : Ctx) (chat_id : Z) : option Z :=
  fst <$> pick (filter (λ r, is_draft_of chat_id r.2 = true) (map_to_list (msgs c))).

Definition get_draft (chat_id : Z) : cmd Ctx (option (Z * Msg.t)) :=
  if chat_is_special chat_id then mret None
  else
    found ← gets (λ c, get_draft_msg_id c chat_id);
    match found with
    | Some id => m ← Structured.load_from_db id; mret (Some (id, m))
    | None => mret None
    end.

(** [DELETE FROM msgs WHERE chat_id=? AND state=?] *)
Definition delete_drafts (chat_id : Z) : Ctx → Ctx :=
  set_msgs (filter (λ r, is_draft_of chat_id r.2 = false)).

Definition maybe_delete_draft (chat_id : Z) : cmd Ctx bool :=
  found ← gets (λ c, get_draft_msg_id c chat_id);
  modify (delete_drafts chat_id) ;;
  mret (bool_decide (is_Some found)).

Definition draft_row (msg : Message.t) (now : Z) : Msg.t := {|
  Msg.rfc724_mid := Some (Message.rfc724_mid msg);
  Msg.pre_rfc724_mid := Some [];
  Msg.mime_in_reply_to := Some (default [] (Message.in_reply_to msg));
  Msg.mime_references := None;
  Msg.subject := Some [];
  Msg.txt := Message.text msg;
  Msg.txt_normalized := normalize_text (Message.text msg);
  Msg.timestamp := Some now;
  Msg.timestamp_sent := 0;
  Msg.timestamp_rcvd := 0;
  Msg.chat_id := Message.chat_id msg;
  Msg.from_id := ContactId.SELF;
  Msg.to_id := 0;
  Msg.state := MessageState.to_i64 MessageState.OutDraft;
  Msg.hidden := true;
  Msg.param := Params.to_string (Message.param msg);
  Msg.ephemeral_timer := 0;
  Msg.ephemeral_timestamp := 0;
  Msg.deleted := false;
  Msg.typ := Viewtype_Text;
  Msg.download_state := 0;
|}.

(** The columns the update of a draft writes. *)
Definition redraft (msg : Message.t) (now : Z) (m : Msg.t) : Msg.t := {|
  Msg.rfc724_mid := Msg.rfc724_mid m;
  Msg.pre_rfc724_mid := Msg.pre_rfc724_mid m;
  Msg.mime_in_reply_to := Some (default [] (Message.in_reply_to msg));
  Msg.mime_references := Msg.mime_references m;
  Msg.subject := Msg.subject m;
  Msg.txt := Message.text msg;
  Msg.txt_normalized := normalize_text (Message.text msg);
  Msg.timestamp := Some now;
  Msg.timestamp_sent := Msg.timestamp_sent m;
  Msg.timestamp_rcvd := Msg.timestamp_rcvd m;
  Msg.chat_id := Msg.chat_id m;
  Msg.from_id := Msg.from_id m;
  Msg.to_id := Msg.to_id m;
  Msg.state := Msg.state m;
  Msg.hidden := Msg.hidden m;
  Msg.param := Params.to_string (Message.param msg);
  Msg.ephemeral_timer := Msg.ephemeral_timer m;
  Msg.ephemeral_timestamp := Msg.ephemeral_timestamp m;
  Msg.deleted := Msg.deleted m;
  Msg.typ := Viewtype_Text;
  Msg.download_state := Msg.download_state m;
|}.

(** Whether [type <> ?2 OR txt <> ?3 ..]: a comparison with NULL does not hold. *)
Definition differs (a : option str) (b : option str) : bool :=
  match a, b with Some a, Some b => negb (bool_decide (a = b)) | _, _ => false end.

Definition draft_changed (msg : Message.t) (m : Msg.t) : bool :=
  negb (Msg.typ m =? Viewtype_Text)%Z
  || negb (bool_decide (Msg.txt m = Message.text msg))
  || differs (Msg.txt_normalized m) (normalize_text (Message.text msg))
  || negb (bool_decide (Msg.param m = Params.to_string (Message.param msg)))
  || differs (Msg.mime_in_reply_to m) (Some (default [] (Message.in_reply_to msg))).

(** [ChatId::do_set_draft] of a text message: the message with its new place,
    and whether something changed. *)
Definition do_set_draft (chat_id : Z) (msg : Message.t) : cmd Ctx (Message.t * bool) :=
  ensure (negb (is_empty (Message.text msg) && is_empty (default [] (Message.in_reply_to msg))))
    "No text and no quote in draft" ;;
  let msg := Message.with_place chat_id MessageState.OutDraft msg in
  now ← gets clock;
  old_draft ← (if msg_is_special (Message.id msg) then mret None else get_draft chat_id);
  match old_draft with
  | Some (old, m) =>
      if decide (old = Message.id msg) then
        if draft_changed msg m
        then modify (set_msgs (alter (redraft msg now) old)) ;; mret (msg, true)
        else mret (msg, false)
      else
        id ← transaction (modify (delete_drafts chat_id) ;; insert_msg (draft_row msg now));
        mret (Message.with_id id msg, true)
  | None =>
      id ← transaction (modify (delete_drafts chat_id) ;; insert_msg (draft_row msg now));
      mret (Message.with_id id msg, true)
  end.

Definition set_draft (chat_id : Z) (msg : option Message.t) : cmd Ctx (option Message.t) :=
  if chat_is_special chat_id then mret msg
  else
    match msg with
    | None => maybe_delete_draft chat_id ;; mret None
    | Some msg => '(msg, _) ← do_set_draft chat_id msg; mret (Some msg)
    end.

(** ** One draft per chat *)

Definition draft (c : Ctx) (chat_id i : Z) : Prop :=
  ∃ m, msgs c !! i = Some m ∧ is_draft_of chat_id m = true.

Record drafts_ok (c : Ctx) : Prop := {
  msgs_given : ∀ i, is_Some (msgs c !! i) → (i ≤ msgs_seq c)%Z;
  one_draft : ∀ chat_id i j, draft c chat_id i → draft c chat_id j → i = j;
}.

Lemma get_draft_msg_id_spec c chat_id i :
  drafts_ok c → draft c chat_id i → get_draft_msg_id c chat_id = Some i.
Proof.
  intros Hok Hd. unfold get_draft_msg_id. destruct (pick _) as [[j m]|] eqn:Hp.
  - apply pick_in, list_elem_of_filter in Hp as [Hm Hin%elem_of_map_to_list]. cbn in *. f_equal.
    eapply (one_draft _ Hok chat_id); [by exists m|done].
  - destruct Hd as (m & Hm & Hd). apply pick_None in Hp. exfalso. apply (not_elem_of_nil (i, m)).
    rewrite <-Hp. apply list_elem_of_filter. split; [done|by apply elem_of_map_to_list].
Qed.

Lemma get_draft_msg_id_Some c chat_id i : get_draft_msg_id c chat_id = Some i → draft c chat_id i.
Proof.
  unfold get_draft_msg_id. intros ([j m] & Hp & ->)%fmap_Some.
  apply pick_in, list_elem_of_filter in Hp as [Hm Hin%elem_of_map_to_list]. by exists m.
Qed.

Lemma draft_chat chat_id chat_id' m : is_draft_of chat_id m = true → is_draft_of chat_id' m = true → chat_id = chat_id'.
Proof. unfold is_draft_of. rewrite !andb_true_iff, !Z.eqb_eq. naive_solver. Qed.

Lemma draft_row_is_draft msg now : is_draft_of (Message.chat_id msg) (draft_row msg now) = true.
Proof. unfold is_draft_of. cbn. by rewrite Z.eqb_refl. Qed.

(** Of the messages, only the draft of the chat is replaced: every other row is
    as it was, text, parameters and all, and none is added but [i]. *)
Definition untouched (chat_id : Z) (c c' : Ctx) (i : Z) : Prop :=
  (∀ j m, msgs c !! j = Some m → ¬ draft c chat_id j → msgs c' !! j = Some m)
  ∧ (∀ j m, msgs c' !! j = Some m → j ≠ i → msgs c !! j = Some m ∧ ¬ draft c chat_id j).

(** Replacing the drafts of a chat by a new one. *)
Lemma replace_draft chat_id msg now c c' i :
  drafts_ok c → Message.chat_id msg = chat_id →
  transaction (modify (delete_drafts chat_id) ;; insert_msg (draft_row msg now)) c = (c', Ok i) →
  drafts_ok c' ∧ msgs c' !! i = Some (draft_row msg now)
  ∧ (∀ other j, other ≠ chat_id → draft c' other j ↔ draft c other j)
  ∧ untouched chat_id c c' i.
Proof.
  intros Hok Hchat Hrun. unfold transaction, insert_msg, ensure in Hrun. unfold_cmd.
  destruct (_ <=? u32_max)%Z; [|done]. injection Hrun as <- <-.
  set (i := (msgs_seq c + 1)%Z). set (row := draft_row msg now).
  set (c1 := set_msgs <[i := row]> (set_msgs_seq (λ _, i) (delete_drafts chat_id c))).
  assert (∀ j m, msgs c1 !! j = Some m ↔
    j = i ∧ m = row ∨ j ≠ i ∧ msgs c !! j = Some m ∧ is_draft_of chat_id m = false) as Hrows.
  { intros j m. cbn. destruct (decide (j = i)) as [->|Hji].
    - rewrite lookup_insert_eq. naive_solver.
    - rewrite lookup_insert_ne, map_lookup_filter_Some by done. cbn. naive_solver. }
  assert (∀ other j, draft c1 other j ↔ other = chat_id ∧ j = i ∨ other ≠ chat_id ∧ draft c other j) as Hd.
  { intros other j. pose proof (draft_row_is_draft msg now) as Hrow. rewrite Hchat in Hrow. split.
    - intros (m & [[-> ->]|(Hji & Hm & Hn)]%Hrows & Hother).
      + left. split; [by eapply draft_chat|done].
      + right. split; [by intros ->; rewrite Hn in Hother|by exists m].
    - intros [[-> ->]|(Hne & m & Hm & Hother)]; [exists row; split; [apply Hrows; by left|done]|].
      exists m. split; [|done]. apply Hrows. right. split_and!; [|done|].
      + intros ->. assert (is_Some (msgs c !! i)) as Hi by eauto. apply (msgs_given _ Hok) in Hi. subst i. lia.
      + destruct (is_draft_of chat_id m) eqn:E; [|done]. destruct Hne. by eapply draft_chat. }
  split; [split|split; [|split; [|split]]].
  - intros j [m [[-> _]|(_ & Hm & _)]%Hrows]; cbn; [done|].
    assert (j ≤ msgs_seq c)%Z by (apply (msgs_given _ Hok); eauto). subst i. lia.
  - intros k j1 j2 [[? ->]|[? D1]]%Hd [[? ->]|[? D2]]%Hd; [done|congruence|congruence|by eapply one_draft].
  - apply Hrows. by left.
  - intros other j Hne. rewrite Hd. naive_solver.
  - intros j m Hm Hn. apply Hrows. right. split_and!; [|done|].
    + intros ->. assert (is_Some (msgs c !! i)) as Hi by eauto. apply (msgs_given _ Hok) in Hi. subst i. lia.
    + destruct (is_draft_of chat_id m) eqn:E; [|done]. destruct Hn. by exists m.
  - intros j m [[? _]|(_ & Hm & Hn)]%Hrows Hji; [done|]. split; [done|]. intros (m' & Hm' & Hd'). congruence.
Qed.

Lemma redraft_is_draft msg now m chat_id : is_draft_of chat_id (redraft msg now m) = is_draft_of chat_id m.
Proof. done. Qed.

Lemma redraft_ok msg now i c :
  let c' := set_msgs (alter (redraft msg now) i) c in
  (∀ chat_id j, draft c' chat_id j ↔ draft c chat_id j) ∧ (drafts_ok c → drafts_ok c').
Proof.
  cbv zeta. set (c' := set_msgs _ c).
  assert (∀ chat_id j, draft c' chat_id j ↔ draft c chat_id j) as Hd.
  { intros chat_id j. unfold draft, c'. cbn. destruct (decide (j = i)) as [->|Hji].
    - rewrite lookup_alter_eq. destruct (msgs c !! i); naive_solver.
    - by rewrite lookup_alter_ne. }
  split; [done|]. intros [H1 H2]. split.
  - intros j Hj. apply (H1 j). cbn in Hj. by rewrite lookup_alter_is_Some in Hj.
  - intros chat_id j1 j2 D1%Hd D2%Hd. by eapply H2.
Qed.

(** The draft [i] of the chat has the text and the parameters of [msg], and all
    other messages, the drafts of other chats among them, are as in [c]. *)
Definition drafted (chat_id : Z) (msg : Message.t) (c c' : Ctx) (i : Z) : Prop :=
  drafts_ok c'
  ∧ get_draft_msg_id c' chat_id = Some i
  ∧ (∃ row, msgs c' !! i = Some row ∧ Msg.txt row = Message.text msg
            ∧ Msg.param row = Params.to_string (Message.param msg))
  ∧ (∀ other j, other ≠ chat_id → draft c' other j ↔ draft c other j)
  ∧ untouched chat_id c c' i.

Lemma new_drafted chat_id msg now c c' i :
  drafts_ok c → Message.chat_id msg = chat_id →
  transaction (modify (delete_drafts chat_id) ;; insert_msg (draft_row msg now)) c = (c', Ok i) →
  drafted chat_id msg c c' i.
Proof.
  intros Hok Hchat Ht. apply replace_draft in Ht as (Hok' & Hrow & Hothers & Hun); [|done|done].
  split; [done|]. split; [|split; [by eexists|done]].
  apply get_draft_msg_id_spec; [done|]. exists (draft_row msg now). split; [done|].
  rewrite <-Hchat. apply draft_row_is_draft.
Qed.

Lemma get_draft_inv chat_id c c' old :
  get_draft chat_id c = (c', Ok old) →
  c' = c ∧ match old with Some (i, m) => draft c chat_id i ∧ msgs c !! i = Some m | None => True end.
Proof.
  unfold get_draft. destruct (chat_is_special chat_id); [by intros [= -> <-]|].
  rewrite run_bind_gets. destruct (get_draft_msg_id c chat_id) as [i|] eqn:Hi; [|by intros [= -> <-]].
  intros Hrun. bind_inv Hrun as m c1 Hm. unfold Structured.load_from_db in Hm.
  bind_inv Hm as u c2 [-> _]%ensure_ok_inv. rewrite run_bind_gets in Hm.
  bind_inv Hm as m2 c3 [-> Hm2]%or_bail_ok_inv. apply or_bail_ok_inv in Hm as [-> Hm].
  assert (m = m2) as ->.
  { repeat (apply bind_Some in Hm as (? & _ & Hm)). by injection Hm. }
  assert (msgs c !! i = Some m2) as Hi2.
  { apply bind_Some in Hm2 as (m3 & Hi3 & Hm2). destruct (is_live m3); [by injection Hm2 as <-|done]. }
  injection Hrun as <- <-. split; [done|]. split; [by apply get_draft_msg_id_Some|done].
Qed.

(** Rewriting the draft, or leaving it as it is. *)
Lemma redraft_untouched chat_id msg now i c :
  drafts_ok c → draft c chat_id i → untouched chat_id c (set_msgs (alter (redraft msg now) i) c) i.
Proof.
  intros Hok Hd. split; cbn [set_msgs msgs].
  - intros j m Hm Hn. rewrite lookup_alter_ne; [done|]. by intros ->.
  - intros j m Hm Hji. rewrite lookup_alter_ne in Hm by done. split; [done|].
    intros Hj. by destruct Hji; eapply one_draft.
Qed.

Lemma unchanged_untouched chat_id i c : drafts_ok c → draft c chat_id i → untouched chat_id c c i.
Proof. intros Hok Hd. split; [done|]. intros j m Hm Hji. split; [done|]. intros Hj. by destruct Hji; eapply one_draft. Qed.

Lemma draft_unchanged msg m : draft_changed msg m = false →
  Msg.txt m = Message.text msg ∧ Msg.param m = Params.to_string (Message.param msg).
Proof.
  unfold draft_changed. rewrite !orb_false_iff, !negb_false_iff, !bool_decide_eq_true. naive_solver.
Qed.

(** C36: writing a draft replaces the draft of the chat: afterwards the chat has
    exactly one, found under the id the message now carries, with its text and
    parameters; every other message, the drafts of other chats with their text
    and parameters included, is left as it was. *)
Theorem set_draft_get_draft (chat_id : Z) (msg msg' : Message.t) (c c' : Ctx) :
  drafts_ok c → chat_is_special chat_id = false →
  set_draft chat_id (Some msg) c = (c', Ok (Some msg')) →
  drafted chat_id msg c c' (Message.id msg').
Proof.
  intros Hok Hsp Hrun. unfold set_draft in Hrun. rewrite Hsp in Hrun. bind_inv Hrun as [m b] c0 H1.
  injection Hrun as <- <-. unfold do_set_draft in H1. bind_inv H1 as u c2 [-> _]%ensure_ok_inv.
  rewrite run_bind_gets in H1. set (msg1 := Message.with_place chat_id MessageState.OutDraft msg) in H1.
  bind_inv H1 as old c3 Hold.
  assert (c3 = c ∧ match old with Some (i, m) => draft c chat_id i ∧ msgs c !! i = Some m | None => True end)
    as [-> Hdraft].
  { destruct (msg_is_special _); [by injection Hold as <- <-|by apply get_draft_inv]. }
  destruct old as [[o row]|]; [case_decide as Ho|].
  - destruct Hdraft as [Hd Hrow]. destruct (draft_changed msg1 row) eqn:Hch.
    + rewrite run_bind_modify in H1. injection H1 as <- <- _. rewrite <-Ho.
      destruct (redraft_ok msg1 (clock c) o c) as [Hiff Hok']. split; [by apply Hok'|].
      split; [by apply get_draft_msg_id_spec; [apply Hok'|apply Hiff]|]. split; [|split; [intros; apply Hiff|by apply redraft_untouched]].
      cbn. rewrite lookup_alter_eq, Hrow. by eexists.
    + injection H1 as <- <- _. rewrite <-Ho. apply draft_unchanged in Hch as [Ht Hp].
      split; [done|]. split; [by apply get_draft_msg_id_spec|]. split; [by exists row|]. split; [done|by apply unchanged_untouched].
  - bind_inv H1 as i c4 Hins. injection H1 as <- <- _. by apply (new_drafted chat_id msg1 (clock c)).
  - bind_inv H1 as i c4 Hins. injection H1 as <- <- _. by apply (new_drafted chat_id msg1 (clock c)).
Qed.

End drafts.

(** ** A first draft *)

Lemma no_drafts : drafts_ok empty_ctx.
Proof.
  split.
  - intros i [m Hm]. vm_compute in Hm. discriminate Hm.
  - intros chat_id i j (m & Hm & _). vm_compute in Hm. discriminate Hm.
Qed.

Definition note : Message.t := Message.new_text (lit "d") (lit "Half a lett").
Definition noted : Message.t := Message.with_id 10 (Message.with_place 10 MessageState.OutDraft note).

Lemma set_draft_get_draft_witness :
  @drafted first_choice 10 note empty_ctx (final (@set_draft ascii_case first_choice 10 (Some note)) empty_ctx) 10.
Proof.
  apply (@set_draft_get_draft ascii_case first_choice 10 note noted); [exact no_drafts|reflexivity|].
  vm_compute. reflexivity.
Defined.
