(* ===== verification/Extras.v ===== *)
(** * Extras: what is kept beside a message: its importance,
    [core/src/email/importance.rs], and its original bytes,
    [core/src/email/rawmime.rs]. *)

From S2P Require Import Prelude Text Store.

Module Importance.
Inductive t := Low | Normal | High.

#[global] Instance eq_dec : EqDecision t.
Proof. solve_decision. Defined.

Definition to_i64 (i : t) : Z := match i with Low => -1 | Normal => 0 | High => 1 end.

Definition from_i64 (value : Z) : t :=
  if (0 <? value)%Z then High else if (value <? 0)%Z then Low else Normal.

Definition header_importance (i : t) : option str :=
  match i with High => Some (lit "high") | Low => Some (lit "low") | Normal => None end.

Definition header_x_priority (i : t) : option str :=
  match i with
  | High => Some (lit "1 (Highest)") | Low => Some (lit "5 (Lowest)") | Normal => None
  end.

Definition parse_x_priority (value : str) : option t :=
  digits ← parse_i64 (take_while is_ascii_digit (trim value));
  if (digits =? 1)%Z || (digits =? 2)%Z then Some High
  else if (digits =? 3)%Z then Some Normal
  else if (digits =? 4)%Z || (digits =? 5)%Z then Some Low
  else None.

Section parse.
Context `{!UnicodeCase}.

Definition parse_importance (value : str) : option t :=
  let v := to_lowercase (trim value) in
  if decide (v = lit "high") then Some High
  else if decide (v = lit "normal") then Some Normal
  else if decide (v = lit "low") then Some Low
  else None.

Definition parse_priority (value : str) : option t :=
  let v := to_lowercase (trim value) in
  if decide (v = lit "urgent") then Some High
  else if decide (v = lit "normal") then Some Normal
  else if decide (v = lit "non-urgent") then Some Low
  else None.

Definition from_headers (importance x_priority priority : option str) : t :=
  match importance ≫= parse_importance with
  | Some i => i
  | None =>
      match x_priority ≫= parse_x_priority with
      | Some i => i
      | None => default Normal (priority ≫= parse_priority)
      end
  end.
End parse.

Definition set (msg_id : Z) (importance : t) : cmd Ctx unit :=
  if decide (importance = Normal) then modify (set_msg_importance (delete msg_id))
  else modify (set_msg_importance <[msg_id := to_i64 importance]>).

Definition of_msg (c : Ctx) (msg_id : Z) : t :=
  from_option from_i64 Normal (msg_importance c !! msg_id).
End Importance.

Module RawMime.
Module Retention.
Inductive t := Disabled | Days (days : Z) | Forever.

#[global] Instance eq_dec : EqDecision t.
Proof. solve_decision. Defined.

Definition from_days (days : Z) : t :=
  if (days =? 0)%Z then Disabled else if (days <? 0)%Z then Forever else Days (Z.abs days).

Definition load (c : Ctx) : t := from_days (get_config_int c Config.RawMimeRetentionDays).

Definition expires_at (r : t) (now : Z) : option Z :=
  match r with
  | Disabled => Some now
  | Forever => None
  | Days d => Some (sat_add now (sat_mul d 86400))
  end.
End Retention.

Section store.
(** [BlobObject::create_and_deduplicate_from_bytes]: writes the bytes, a list of
    numbers here, to a file and returns its name. *)
Context (create_and_deduplicate_from_bytes : str → result str).

Definition store_with_retention (msg_id : Z) (raw : str) (retention : Retention.t) : cmd Ctx unit :=
  now ← gets clock;
  blobname ← lift (create_and_deduplicate_from_bytes raw);
  modify (set_raw_mime <[msg_id := RawMimeRow.mk blobname (Z.min (Z.of_nat (length raw)) i64_max) now
                                     (Retention.expires_at retention now)]>).

Definition store (msg_id : Z) (raw : str) : cmd Ctx unit :=
  retention ← gets Retention.load;
  if decide (retention = Retention.Disabled) then mret tt
  else store_with_retention msg_id raw retention.
End store.

Definition is_retained (c : Ctx) (msg_id : Z) : bool := bool_decide (is_Some (raw_mime c !! msg_id)).

(** [expires_at IS NOT NULL AND expires_at <= now] *)
Definition row_expired (now : Z) (r : RawMimeRow.t) : bool :=
  match RawMimeRow.expires_at r with Some t => (t <=? now)%Z | None => false end.

Definition expire : cmd Ctx nat := λ c,
  let expired := filter (λ kv, row_expired (clock c) kv.2 = true) (raw_mime c) in
  let rest := filter (λ kv, row_expired (clock c) kv.2 = false) (raw_mime c) in
  let orphaned := filter (λ kv : Z * RawMimeRow.t, live_msg c kv.1 = false) rest in
  (set_raw_mime (λ _, filter (λ kv, live_msg c kv.1 = true) rest) c,
   Ok (size expired + size orphaned)).

Definition delete (msg_id : Z) : cmd Ctx unit := modify (set_raw_mime (base.delete msg_id)).
End RawMime.

(** What is written on the wire reads back, from either header alone. *)
Lemma importance_survives_the_wire `{!UnicodeCase} (i : Importance.t) :
  Importance.from_headers (Importance.header_importance i) None None = i
  ∧ Importance.from_headers None (Importance.header_x_priority i) None = i.
Proof.
  assert (∀ s, forallb is_ascii (trim s) = true →
    Importance.parse_importance s =
      let v := ascii_lower <$> trim s in
      if decide (v = lit "high") then Some Importance.High
      else if decide (v = lit "normal") then Some Importance.Normal
      else if decide (v = lit "low") then Some Importance.Low else None) as Hp.
  { intros s Hs. unfold Importance.parse_importance. by rewrite lower_ascii. }
  split.
  - unfold Importance.from_headers. destruct i; cbn [Importance.header_importance mbind option_bind].
    + rewrite Hp by done. vm_compute. done.
    + done.
    + rewrite Hp by done. vm_compute. done.
  - destruct i; vm_compute; done.
Qed.

Lemma importance_read_back (msg_id : Z) (i : Importance.t) (c : Ctx) :
  Importance.of_msg (final (Importance.set msg_id i) c) msg_id = i.
Proof.
  unfold Importance.of_msg, Importance.set, final. case_decide as Hi.
  - subst i. rewrite run_modify. cbn [fst set_msg_importance msg_importance]. by rewrite lookup_delete_eq.
  - rewrite run_modify. cbn [fst set_msg_importance msg_importance]. rewrite lookup_insert_eq. by destruct i.
Qed.
