(* ===== verification/Mailbox.v ===== *)
(** * Mailbox: how core drives the email layer: the hooks that run on every
    received message, at the end of [receive_imf_inner] in
    [core/src/receive_imf.rs], and the calls that [housekeeping] in
    [core/src/sql.rs] makes. *)

From S2P Require Import Prelude Text Store Structured ContactTools Contacts.
From S2P Require Import Labels LabelSync Tags Trash Gating Blocklist Threading.
From S2P Require Import Policy Receipts Compose Extras.

Section mailbox.
Context `{!UnicodeCase, !SqlChoice}.
Context (create_and_deduplicate_from_bytes : str → result str).
Context {serde_json : Json} (parse_mail : list N → option ParsedMail).
Context (create_keypair : str → result str).

(** What reception knows of a message: its bytes, as they came and decrypted,
    the recipients, the three headers of importance, and what is needed of the
    sender. *)
Record Received := MkReceived {
  imf_raw : str;
  decoded_data : list N;
  email_recipients : list Recipient.t;
  h_importance : option str;
  h_x_priority : option str;
  h_priority : option str;
  rfc724_mid_orig : str;
  mime_sender : MimeSender;
}.

(** Every hook is best effort: [.log_err(context).ok()]. *)
Definition arrival_hooks (r : Received) (msg_id : Z) : cmd Ctx unit :=
  attempt (RawMime.store create_and_deduplicate_from_bytes msg_id (imf_raw r)) ;;
  attempt (Recipients.store msg_id (email_recipients r)) ;;
  attempt (assign_stored msg_id) ;;
  attempt (drain_pending msg_id) ;;
  attempt (Gating.apply msg_id) ;;
  attempt (Importance.set msg_id
    (Importance.from_headers (h_importance r) (h_x_priority r) (h_priority r))) ;;
  attempt (Blocklist.apply msg_id) ;;
  attempt (Structured.store parse_mail msg_id (decoded_data r) (imf_raw r)) ;;
  mret tt.

Definition received_hooks (r : Received) (msg_ids : list Z) : cmd Ctx unit :=
  for_each msg_ids (arrival_hooks r) ;;
  attempt (adopt create_keypair (mime_sender r)) ;;
  attempt (apply_server_retention (rfc724_mid_orig r)) ;;
  mret tt.

Definition housekeeping_email : cmd Ctx unit :=
  attempt RawMime.expire ;;
  attempt Recipients.prune ;;
  attempt Threading.prune ;;
  attempt Labels.prune ;;
  attempt expire_on_server ;;
  attempt Policy.prune ;;
  attempt Receipts.prune ;;
  attempt sweep ;;
  attempt purge ;;
  attempt Structured.prune ;;
  mret tt.

(** [sql::prune_tombstones], at the end of housekeeping. *)
Definition on_server (c : Ctx) (m : Msg.t) : bool :=
  existsb (λ r, bool_decide (Msg.rfc724_mid m = Some (ImapRow.rfc724_mid r.2))
                && negb (is_empty (ImapRow.target r.2))) (map_to_list (imap_tbl c)).

Definition stale_tombstone (c : Ctx) (m : Msg.t) : bool :=
  negb (is_live m)
  && match Msg.timestamp m with
     | Some t => (t <=? sat_sub (clock c) (2 * 24 * 3600))%Z
     | None => false
     end
  && negb (on_server c m).

Definition prune_tombstones : cmd Ctx unit :=
  modify (λ c, set_msgs (filter (λ r, stale_tombstone c r.2 = false)) c).

Lemma run_attempt_seq {S A B} (m : cmd S A) (k : cmd S B) (s : S) :
  (attempt m ≫= λ _, k) s = k (final m s).
Proof. rewrite run_bind. unfold attempt, final. by destruct (m s) as [s' [a|e]]. Qed.

(** ** Housekeeping *)

(** The tables that decide what the deadlines do. *)
Definition same_mail (c c' : Ctx) : Prop :=
  msgs c' = msgs c ∧ labels c' = labels c ∧ labels_seq c' = labels_seq c
  ∧ trashed_msgs c' = trashed_msgs c ∧ held_msgs c' = held_msgs c
  ∧ config c' = config c ∧ env c' = env c ∧ clock c' = clock c.

Lemma same_mail_trans c1 c2 c3 : same_mail c1 c2 → same_mail c2 c3 → same_mail c1 c3.
Proof. unfold same_mail. intuition congruence. Qed.

Lemma expire_fold_frame l c :
  same_mail c (foldl expire_one c l) ∧ msg_labels (foldl expire_one c l) = msg_labels c.
Proof.
  revert c. induction l as [|x l IH]; intros c; [done|]. cbn [foldl].
  destruct (IH (expire_one c x)) as [H1 H2]. split; [|by rewrite H2].
  eapply same_mail_trans; [|exact H1]. done.
Qed.

(** The state in which the deadlines run. *)
Definition before_deadlines (c : Ctx) : Ctx :=
  final Receipts.prune (final Policy.prune (final expire_on_server (final Labels.prune
    (final Threading.prune (final Recipients.prune (final RawMime.expire c)))))).

Lemma housekeeping_final c :
  housekeeping_email c
  = (final Structured.prune (final purge (final sweep (before_deadlines c))), Ok tt).
Proof. unfold housekeeping_email. by rewrite !run_attempt_seq. Qed.

Lemma before_deadlines_frame c :
  same_mail c (before_deadlines c)
  ∧ msg_labels (before_deadlines c) = filter (λ ml, live_msg c ml.1 = true) (msg_labels c).
Proof.
  unfold before_deadlines.
  set (c1 := final Labels.prune _).
  assert (same_mail c c1 ∧ msg_labels c1 = filter (λ ml, live_msg c ml.1 = true) (msg_labels c)) as [H1 L1] by done.
  destruct (expire_fold_frame (due_on_server c1) c1) as [H2 L2].
  assert (final expire_on_server c1 = foldl expire_one c1 (due_on_server c1)) as ->
    by (unfold final; by rewrite expire_run).
  set (c2 := foldl expire_one c1 _) in *.
  split.
  - eapply same_mail_trans; [exact H1|]. eapply same_mail_trans; [exact H2|]. done.
  - change (msg_labels c2 = filter (λ ml, live_msg c ml.1 = true) (msg_labels c)). by rewrite L2.
Qed.

(** [sweep] by its effect on the trash: the messages it moves are labelled and
    get a full window, unless a deadline is already recorded for them. *)
Record swept (moved : list Z) (c c' : Ctx) : Prop := {
  sw_msgs : msgs c' = msgs c;
  sw_labels : labels c' = labels c ∧ labels_seq c' = labels_seq c;
  sw_config : config c' = config c ∧ env c' = env c ∧ clock c' = clock c;
  sw_trash x : trashed_label c' x ↔ trashed_label c x ∨ x ∈ moved;
  sw_rows x : trashed_msgs c' !! x =
    match trashed_msgs c !! x with
    | Some r => Some r
    | None => if decide (x ∈ moved)
              then Some (TrashedRow.mk (clock c) (sat_add (clock c) (purge_secs c))
                           (Reason.to_i64 Reason.Unaccepted))
              else None
    end;
}.

Lemma swept_nothing h c : swept [] c (set_held_msgs h c).
Proof.
  split; try done.
  - intros x. split; [by left|]. intros [?|Hin]; [done|]. by apply not_elem_of_nil in Hin.
  - intros x. cbn [set_held_msgs trashed_msgs]. destruct (trashed_msgs c !! x); [done|].
    by rewrite decide_False by apply not_elem_of_nil.
Qed.

(** What the sweep moves. *)
Definition swept_ids (c : Ctx) : list Z := if (hold_days c <=? 0)%Z then [] else expired_holds c.

Lemma sweep_swept c : labels_ok c → swept (swept_ids c) c (final sweep c).
Proof.
  intros Hok. unfold final, sweep, swept_ids. rewrite run_bind_gets.
  destruct (hold_days c <=? 0)%Z; [apply swept_nothing|].
  rewrite !run_bind_gets. fold (expired_holds c).
  destruct (is_empty (expired_holds c)) eqn:He.
  { replace (expired_holds c) with ([] : list Z) by by destruct (expired_holds c). apply swept_nothing. }
  assert (expired_holds c ≠ []) as Hne by by destruct (expired_holds c).
  destruct (to_trash_run (expired_holds c) Reason.Unaccepted (clock c) c Hok Hne)
    as (i & q & T & Hi & Hrun & HT & _).
  rewrite run_bind, Hrun. set (c1 := set_trashed_msgs _ _).
  assert (labels_ok c1) as Hok1 by by eapply labels_ok_ext; [..|exact Hok].
  destruct (unhold_run (expired_holds c) c1 Hok1) as (c' & Hun & Hu).
  { intros x Hx. unfold expired_holds in Hx. apply list_elem_of_fmap in Hx as ([y t] & -> & Hin).
    apply list_elem_of_filter in Hin as [_ Hin]. apply elem_of_map_to_list in Hin. by exists t. }
  rewrite Hun. cbn [fst]. destruct Hu as [(h & s & Hc') _ Hl].
  assert (labels c' = labels c) as El by (by rewrite Hc').
  split; try (by rewrite Hc').
  - intros x. rewrite (trashed_label_row c i x Hok Hi).
    assert (label_row c' TRASH i) as Hi' by (unfold label_row; by rewrite El).
    assert (labels_ok c') as Hok' by (eapply labels_ok_ext; [..|exact Hok]; by rewrite Hc').
    rewrite (trashed_label_row c' i x Hok' Hi'), Hl.
    assert (¬ label_row c1 UNVERIFIED i) as Hnu by by apply trash_not_unverified.
    change (msg_labels c1) with (mark true (expired_holds c) i (msg_labels c)).
    rewrite elem_of_mark. case_decide as Hd; [tauto|]. split; [tauto|].
    intros [?|Hx]; [tauto|]. by destruct Hd.
Qed.

Lemma trashed_label_ext c c' x :
  labels c' = labels c → ((∀ i, (x, i) ∈ msg_labels c' ↔ (x, i) ∈ msg_labels c)) →
  trashed_label c' x ↔ trashed_label c x.
Proof. intros El Hl. unfold trashed_label, label_row. rewrite El. by setoid_rewrite Hl. Qed.

Lemma purge_secs_ext c c' : config c' = config c → env c' = env c → purge_secs c' = purge_secs c.
Proof.
  intros E1 E2. unfold purge_secs, purge_days, get_config_int, get_config, get_config_opt,
    get_config_key, get_raw_config. by rewrite E1, E2.
Qed.

(** The two deadlines, as the run finds them at its start. *)
Lemma housekeeping_run (c : Ctx) (id : Z) (m : Msg.t) :
  labels_ok c → (1 ≤ purge_days c)%Z → in_i64 (clock c + purge_days c * 86400) →
  msgs c !! id = Some m → is_live m = true →
  (is_Some (trashed_msgs c !! id) → trashed_label c id) →
  outcome housekeeping_email c = Ok tt
  ∧ (trashed_label c id ∧ (deadline c id ≤ clock c)%Z →
     msgs (final housekeeping_email c) !! id = Some (tombstone true m))
  ∧ (¬ (trashed_label c id ∧ (deadline c id ≤ clock c)%Z) →
     msgs (final housekeeping_email c) !! id = Some m).
Proof.
  intros Hok Hdays Hin Hm Hlive Hcons. unfold outcome, final at 1 2. rewrite housekeeping_final. cbn [fst snd].
  split; [done|].
  destruct (before_deadlines_frame c) as [(Em & El & Es & Et & Eh & Ec & Ee & Ek) Hlab].
  set (d := before_deadlines c) in *.
  assert (labels_ok d) as Hokd by (eapply labels_ok_ext; [..|exact Hok]; done).
  pose proof (sweep_swept d Hokd) as Hsw. set (e := final sweep d) in *. clearbody e.
  destruct Hsw as [Sm [Sl Ss] (Sc & Se & Sk) Str Srow].
  assert (labels_ok e) as Hoke by (eapply labels_ok_ext; [..|exact Hokd]; congruence).
  destruct (purge_spec e id m Hoke) as (_ & Hyes & Hno); [by rewrite Sm, Em|].
  assert (trashed_label d id ↔ trashed_label c id) as Htd.
  { apply trashed_label_ext; [done|]. intros i. rewrite Hlab, elem_of_filter. cbn [fst].
    unfold live_msg. rewrite Hm, Hlive. tauto. }
  assert (purge_secs d = (purge_days c * 86400)%Z) as Hsecs
    by (rewrite (purge_secs_ext c d) by done; apply purge_secs_exact).
  assert (trashed_label e id ∧ (deadline e id ≤ clock e)%Z
          ↔ trashed_label c id ∧ (deadline c id ≤ clock c)%Z) as Hiff.
  { unfold deadline. rewrite Srow, Et, Sk, Ek, Str, Htd.
    rewrite (purge_secs_ext d e), Hsecs, (purge_secs_exact c) by done.
    rewrite sat_add_exact by done. destruct (trashed_msgs c !! id) as [r|].
    - assert (trashed_label c id) by eauto. tauto.
    - assert (∀ z, (clock c + purge_days c * 86400 ≤ clock c)%Z → z) as Hfar by (intros z Hz; lia).
      case_decide; cbn [TrashedRow.purge_at]; split; intros [_ Hz]; by apply Hfar. }
  unfold final. rewrite Hiff in Hyes, Hno. split; auto.
Qed.

Lemma housekeeping_destroys (c : Ctx) (id : Z) (m : Msg.t) :
  labels_ok c → (1 ≤ purge_days c)%Z → in_i64 (clock c + purge_days c * 86400) →
  msgs c !! id = Some m → is_live m = true → trashed_label c id → (deadline c id ≤ clock c)%Z →
  msgs (final housekeeping_email c) !! id = Some (tombstone true m).
Proof. intros Hok Hd Hi Hm Hl Ht Hle. destruct (housekeeping_run c id m) as (_ & Hy & _); auto. Qed.

Lemma hold_days_ext c c' : config c' = config c → env c' = env c → hold_days c' = hold_days c.
Proof.
  intros E1 E2. unfold hold_days, get_config_int, get_config, get_config_opt, get_config_key, get_raw_config.
  by rewrite E1, E2.
Qed.

Lemma purge_days_ext c c' : config c' = config c → env c' = env c → purge_days c' = purge_days c.
Proof.
  intros E1 E2. unfold purge_days, get_config_int, get_config, get_config_opt, get_config_key, get_raw_config.
  by rewrite E1, E2.
Qed.

(** C9: housekeeping destroys mail only through the trash.  With a purge window of
    at least a day, and for a message that has no deadline left over from an
    earlier stay in the trash (one outside the trash has no deadline row), a live
    message is turned into a tombstone exactly when it carries the Trash label and
    its deadline has passed at the start of the run, whatever else the run prunes,
    expires and sweeps; otherwise it survives unchanged, also when the sweep moves
    it to the trash in the same run.  A deadline left over destroys mail too early
    ([stale_deadline_destroys]). *)
Theorem housekeeping_spares_mail (c : Ctx) (id : Z) (m : Msg.t) :
  labels_ok c → (1 ≤ purge_days c)%Z → in_i64 (clock c + purge_days c * 86400) →
  msgs c !! id = Some m → is_live m = true →
  (is_Some (trashed_msgs c !! id) → trashed_label c id) →
  outcome housekeeping_email c = Ok tt
  ∧ (trashed_label c id ∧ (deadline c id ≤ clock c)%Z →
     msgs (final housekeeping_email c) !! id = Some (tombstone true m))
  ∧ (¬ (trashed_label c id ∧ (deadline c id ≤ clock c)%Z) →
     msgs (final housekeeping_email c) !! id = Some m).
Proof. apply housekeeping_run. Qed.

(** A message in the trash whose deadline is to come survives the end of a run. *)
Lemma purge_keeps_deadline (e : Ctx) (id : Z) (m : Msg.t) (r : TrashedRow.t) :
  labels_ok e → msgs e !! id = Some m → is_live m = true → trashed_label e id →
  trashed_msgs e !! id = Some r → (clock e < TrashedRow.purge_at r)%Z →
  let p := final Structured.prune (final purge e) in
  labels_ok p ∧ config p = config e ∧ env p = env e ∧ clock p = clock e
  ∧ msgs p !! id = Some m ∧ trashed_label p id ∧ trashed_msgs p !! id = Some r.
Proof.
  intros Hok Hm Hlive Ht Hr Hlt. cbn zeta. destruct (purge_spec e id m Hok Hm) as (_ & _ & Hno).
  assert (msgs (purge e).1 !! id = Some m) as Hm'.
  { apply Hno. unfold deadline. rewrite Hr. intros [_ ?]. lia. }
  destruct (purge_frame e Hok) as (M & T & Hpf & HT).
  assert (T !! id = Some r) as HTr by (apply HT; [done| |done|done]; unfold live_msg; by rewrite Hm).
  unfold final at 1 2 3 4 5 6 7. unfold Structured.prune, modify. cbn [fst].
  change (final purge e) with ((purge e).1). rewrite Hpf in Hm' |- *. clear Hpf.
  split_and!; try done. eapply labels_ok_ext; [..|exact Hok]; done.
Qed.

(** The state after the run that throws unaccepted mail away. *)
Lemma overdue_mail_trashed (c : Ctx) (id t : Z) (m : Msg.t) :
  labels_ok c → (1 ≤ purge_days c)%Z → (0 ≤ clock c)%Z → in_i64 (clock c + purge_days c * 86400) →
  msgs c !! id = Some m → is_live m = true → trashed_msgs c !! id = None →
  held_msgs c !! id = Some t → (0 < hold_days c)%Z → overdue c t = true →
  let c' := final housekeeping_email c in
  labels_ok c' ∧ config c' = config c ∧ env c' = env c ∧ clock c' = clock c
  ∧ msgs c' !! id = Some m ∧ trashed_label c' id
  ∧ trashed_msgs c' !! id = Some (TrashedRow.mk (clock c) (clock c + purge_days c * 86400)
                                    (Reason.to_i64 Reason.Unaccepted)).
Proof.
  intros Hok Hdays Hpos Hin Hm Hlive Hnt Hheld Hhold Hover. cbn zeta.
  assert (final housekeeping_email c = final Structured.prune (final purge (final sweep (before_deadlines c)))) as ->
    by (unfold final at 1; by rewrite housekeeping_final).
  destruct (before_deadlines_frame c) as [(Em & El & Es & Et & Eh & Ec & Ee & Ek) _].
  generalize dependent (before_deadlines c). intros d Em El Es Et Eh Ec Ee Ek.
  assert (labels_ok d) as Hokd by (eapply labels_ok_ext; [..|exact Hok]; done).
  assert (hold_days d = hold_days c) as Ehd by (by apply hold_days_ext).
  assert (purge_secs d = (purge_days c * 86400)%Z) as Hsecs
    by (rewrite (purge_secs_ext c d) by done; apply purge_secs_exact).
  assert (id ∈ swept_ids d) as Hmoved.
  { unfold swept_ids. rewrite Ehd. destruct (Z.leb_spec (hold_days c) 0); [lia|].
    apply elem_of_expired_holds; [rewrite Ek; destruct Hin; lia|lia|]. exists t.
    rewrite Eh. split; [done|]. unfold overdue in *. by rewrite Ehd, Ek. }
  destruct (sweep_swept d Hokd) as [Sm [Sl Ss] (Sc & Se & Sk) Str Srow].
  generalize dependent (final sweep d). intros e Sm Sl Ss Sc Se Sk Str Srow.
  assert (trashed_msgs e !! id = Some (TrashedRow.mk (clock c) (clock c + purge_days c * 86400)
            (Reason.to_i64 Reason.Unaccepted))) as Hre.
  { rewrite Srow, Et, Hnt, decide_True, Ek, Hsecs, sat_add_exact by done. done. }
  set (r := TrashedRow.mk (clock c) (clock c + purge_days c * 86400) _) in *.
  destruct (purge_keeps_deadline e id m r) as (P1 & P2 & P3 & P4 & P5 & P6 & P7);
    [| |exact Hlive| |exact Hre| |].
  - eapply labels_ok_ext; [..|exact Hokd]; congruence.
  - by rewrite Sm, Em.
  - apply Str. by right.
  - unfold r. cbn [TrashedRow.purge_at]. rewrite Sk, Ek. lia.
  - split_and!; [exact P1|congruence..|exact P5|exact P6|exact P7].
Qed.

(** Mail of a stranger nobody accepts does not stay for ever: the first run
    of housekeeping after the holding time throws it away, recoverably, and the
    first run after the trash window destroys it. *)
Theorem unaccepted_mail_is_destroyed (c : Ctx) (id t later : Z) (m : Msg.t) :
  labels_ok c → (1 ≤ purge_days c)%Z → (0 ≤ clock c)%Z → in_i64 (later + purge_days c * 86400) →
  msgs c !! id = Some m → is_live m = true → trashed_msgs c !! id = None →
  held_msgs c !! id = Some t → (0 < hold_days c)%Z → (t + hold_days c * 86400 ≤ clock c)%Z →
  (clock c + purge_days c * 86400 ≤ later)%Z →
  let c1 := final housekeeping_email c in
  let c2 := final housekeeping_email (set_clock (λ _, later) c1) in
  msgs c1 !! id = Some m ∧ trashed_label c1 id
  ∧ msgs c2 !! id = Some (tombstone true m).
Proof.
  intros Hok Hdays Hpos Hin Hm Hlive Hnt Hheld Hhold Hover%Z.leb_le Hlater. cbn zeta.
  assert (in_i64 (clock c + purge_days c * 86400)) as Hin1 by (unfold in_i64, i64_min, i64_max in *; lia).
  destruct (overdue_mail_trashed c id t m Hok Hdays Hpos Hin1 Hm Hlive Hnt Hheld Hhold Hover)
    as (Hok1 & Ec & Ee & _ & Hm1 & Hl1 & Hr).
  split; [done|]. split; [done|]. generalize dependent (final housekeeping_email c). intros c1 Hok1 Ec Ee Hm1 Hl1 Hr.
  assert (purge_days (set_clock (λ _, later) c1) = purge_days c) as Epd by by apply purge_days_ext.
  apply (housekeeping_destroys (set_clock (λ _, later) c1) id m); try done.
  - eapply labels_ok_ext; [..|exact Hok1]; done.
  - by rewrite Epd.
  - by rewrite Epd.
  - unfold deadline. cbn [set_clock trashed_msgs clock]. rewrite Hr. done.
Qed.

(** ** Arrival *)

Lemma raw_store_frame msg_id raw c :
  ∃ f, final (RawMime.store create_and_deduplicate_from_bytes msg_id raw) c = set_raw_mime f c.
Proof.
  assert (c = set_raw_mime (λ x, x) c) as Hid by by destruct c.
  unfold final, RawMime.store. rewrite run_bind_gets. case_decide; [exists (λ x, x); exact Hid|].
  unfold RawMime.store_with_retention. rewrite run_bind_gets, run_bind. unfold lift.
  destruct (create_and_deduplicate_from_bytes raw); [by eexists|exists (λ x, x); exact Hid].
Qed.

Lemma assign_stored_frame msg_id m c :
  threads_ok c → msgs c !! msg_id = Some m →
  ∃ T M R q, final (assign_stored msg_id) c = with_threads T M R (set_threads_seq (λ _, q) c)
             ∧ is_Some (M !! msg_id).
Proof.
  intros Hok Hm. unfold final, assign_stored. rewrite run_bind_gets, Hm, run_bind.
  set (h := ThreadHeaders.mk _ _ _ _ _).
  destruct (assign_run msg_id h c Hok) as (tid & c' & Hrun & Has). rewrite Hrun. cbn [fst].
  destruct (as_frame _ _ _ _ _ Has) as (T & M & R & q & E). exists T, M, R, q. split; [done|].
  pose proof (as_msgs _ _ _ _ _ Has msg_id) as Hmt. rewrite E in Hmt.
  change (msg_threads (with_threads T M R _)) with M in Hmt. rewrite Hmt, decide_True by done. eauto.
Qed.

Lemma drain_nothing msg_id m c :
  msgs c !! msg_id = Some m → pending_for c (default [] (Msg.rfc724_mid m)) = [] →
  final (drain_pending msg_id) c = c.
Proof.
  intros Hm Hp. unfold final, drain_pending. rewrite run_bind_gets. unfold id in *. rewrite Hm. cbn zeta.
  destruct (is_empty _); [done|]. by rewrite Hp.
Qed.

Lemma importance_frame msg_id i c : ∃ f, final (Importance.set msg_id i) c = set_msg_importance f c.
Proof. unfold final, Importance.set. case_decide; by eexists. Qed.

Lemma structured_frame msg_id found c :
  ∃ f, final (store_found msg_id found) c = set_structured_data f c.
Proof.
  assert (c = set_structured_data (λ x, x) c) as Hid by by destruct c.
  unfold final, store_found. destruct (is_empty found); [exists (λ x, x); exact Hid|].
  pose proof (may_act_final msg_id c) as Hact. unfold final in Hact. rewrite run_bind.
  destruct (may_act msg_id c) as [d [b|e]]; cbn in Hact; subst d; [|exists (λ x, x); exact Hid].
  unfold transaction. rewrite for_each_modify. cbn [fst]. clear. revert c.
  induction found as [|x l IH]; intros c; cbn [foldl]; [exists (λ x, x); by destruct c|].
  unfold insert_object at 2. match goal with |- context [set_structured_data ?g c] => set (h := g) end.
  destruct (IH (set_structured_data h c)) as [f ->]. by exists (λ t, f (h t)).
Qed.

(** Whether reception holds a message. *)
Definition to_hold (c : Ctx) (m : Msg.t) : Prop :=
  is_enabled c = true ∧ Msg.to_id m = ContactId.SELF ∧ ¬ trusted c (Msg.from_id m).

(** The state in which gating decides about a message no label waits for. *)
Lemma before_gating r msg_id m c :
  threads_ok c → msgs c !! msg_id = Some m → pending_for c (default [] (Msg.rfc724_mid m)) = [] →
  ∃ f g T M R q s,
    arrival_hooks r msg_id c
    = (set_structured_data s (final (Blocklist.apply msg_id) (final (Importance.set msg_id
         (Importance.from_headers (h_importance r) (h_x_priority r) (h_priority r)))
         (final (Gating.apply msg_id)
           (with_threads T M R (set_threads_seq (λ _, q) (set_msg_recipients g (set_raw_mime f c))))))), Ok tt)
    ∧ is_Some (M !! msg_id).
Proof.
  intros Hok Hm Hp. unfold arrival_hooks. rewrite !run_attempt_seq.
  destruct (raw_store_frame msg_id (imf_raw r) c) as [f ->].
  assert (∃ g, final (Recipients.store msg_id (email_recipients r)) (set_raw_mime f c)
               = set_msg_recipients g (set_raw_mime f c)) as [g ->]
    by (unfold final; rewrite RecipientsFacts.store_run; by eexists).
  destruct (assign_stored_frame msg_id m (set_msg_recipients g (set_raw_mime f c)))
    as (T & M & R & q & -> & HM); [by destruct Hok; split|done|].
  rewrite (drain_nothing msg_id m) by done.
  match goal with |- context [final (Structured.store _ _ _ _) ?d] =>
    destruct (structured_frame msg_id (extract parse_mail (decoded_data r) (imf_raw r)) d) as [s Hs] end.
  exists f, g, T, M, R, q, s. split; [exact (f_equal (λ d, (d, Ok tt)) Hs)|done].
Qed.

Lemma to_hold_dec c m : to_hold c m ∨ ¬ to_hold c m.
Proof.
  destruct (is_trusted_run c (Msg.from_id m)) as (b & _ & Hb).
  destruct (is_enabled c) eqn:He; [|right; intros (He' & _); congruence].
  destruct (decide (Msg.to_id m = ContactId.SELF)); [|right; by intros (_ & Hto & _)].
  destruct b; [right; intros (_ & _ & Hn); apply Hn; by apply Hb|].
  left. split_and!; [done..|]. intros Ht%Hb. done.
Qed.

Lemma rejected_dec c m : rejected c m ∨ ¬ rejected c m.
Proof.
  destruct (decide (Msg.to_id m = ContactId.SELF)); [|right; by intros (Hto & _)].
  destruct (decide (Msg.from_id m = ContactId.SELF)); [right; by intros (_ & Hf & _)|].
  destruct (get_contact c (Msg.from_id m)) as [k|] eqn:Hk;
    [|right; intros (_ & _ & k & Hk' & _); congruence].
  destruct (matches c (Contact.addr k)) eqn:Hma; [left; split_and!; eauto|].
  right. intros (_ & _ & k' & Hk' & Hma'). congruence.
Qed.

(** What gating and the blocklist do to a message that carries no label yet. *)
Record filed (c : Ctx) (id : Z) (m : Msg.t) (c' : Ctx) : Prop := {
  fl_msgs : msgs c' = msgs c;
  fl_threads : msg_threads c' = msg_threads c;
  fl_held t : held_msgs c' !! id = Some t ↔ to_hold c m ∧ t = clock c;
  fl_hold : unverified_label c' id ↔ to_hold c m;
  fl_trash : trashed_label c' id ↔ rejected c m;
  fl_deadline : rejected c m → deadline c' id = sat_add (clock c) (purge_secs c);
  fl_others x i : x ≠ id → (x, i) ∈ msg_labels c' ↔ (x, i) ∈ msg_labels c;
}.

(** After gating: only the row and the label of the message itself. *)
Lemma gating_step c id m :
  labels_ok c → msgs c !! id = Some m → (∀ i, (id, i) ∉ msg_labels c) → held_msgs c !! id = None →
  ∃ h L, final (Gating.apply id) c = set_held_msgs (λ _, h) (set_msg_labels (λ _, L) c)
  ∧ (∀ t, h !! id = Some t ↔ to_hold c m ∧ t = clock c)
  ∧ (∀ i, (id, i) ∈ L ↔ to_hold c m ∧ label_row c UNVERIFIED i)
  ∧ (∀ x i, x ≠ id → (x, i) ∈ L ↔ (x, i) ∈ msg_labels c).
Proof.
  intros Hok Hm Hnl Hnh. unfold final. destruct (to_hold_dec c m) as [Hh|Hh].
  - destruct Hh as (He & Hto & Hn). destruct (apply_holds c id m Hok Hm He Hto Hn) as (i & Hi & ->).
    exists (<[id := clock c]> (held_msgs c)), ({[ (id, i) ]} ∪ msg_labels c). split_and!.
    + cbn [fst]. unfold set_held_msgs. cbn. by rewrite Hnh.
    + intros t. rewrite lookup_insert_eq. split; [by intros [= ->]|by intros [_ ->]].
    + intros j. rewrite elem_of_union, elem_of_singleton. split.
      * intros [[= ->]|Hin]; [done|by destruct (Hnl j)].
      * intros [_ Hj]. left. by rewrite (label_row_unique c UNVERIFIED i j).
    + intros x j Hx. rewrite elem_of_union, elem_of_singleton. split; [|by right].
      intros [[= -> ->]|?]; done.
  - rewrite (apply_passes c id m Hm Hh). exists (held_msgs c), (msg_labels c). split_and!.
    + by destruct c.
    + intros t. rewrite Hnh. split; [done|by intros [? _]].
    + intros j. split; [intros Hin; by destruct (Hnl j)|tauto].
    + done.
Qed.

Lemma blocklist_step c id m :
  labels_ok c → msgs c !! id = Some m → (∀ i, label_row c TRASH i → (id, i) ∉ msg_labels c) →
  trashed_msgs c !! id = None →
  ∃ t L, final (Blocklist.apply id) c = set_trashed_msgs (λ _, t) (set_msg_labels (λ _, L) c)
  ∧ (rejected c m → t !! id = Some (TrashedRow.mk (clock c) (sat_add (clock c) (purge_secs c))
                                      (Reason.to_i64 Reason.Blocked)))
  ∧ (∀ i, (id, i) ∈ L ↔ (id, i) ∈ msg_labels c ∨ (rejected c m ∧ label_row c TRASH i))
  ∧ (∀ x i, x ≠ id → (x, i) ∈ L ↔ (x, i) ∈ msg_labels c).
Proof.
  intros Hok Hm Hnl Hnt. unfold final. destruct (rejected_dec c m) as [Hr|Hr].
  - destruct (apply_rejects c id m Hok Hm Hr) as (i & t & Hi & -> & Ht).
    exists t, (mark true [id] i (msg_labels c)). split_and!.
    + done.
    + intros _. by rewrite Ht, Hnt.
    + intros j. rewrite elem_of_mark. case_decide as Hd.
      * destruct Hd as [_ ->]. tauto.
      * split; [tauto|]. intros [?|[_ Hj]]; [done|]. destruct Hd. split; [left|].
        by apply (label_row_unique c TRASH).
    + intros x j Hx. rewrite elem_of_mark. rewrite decide_False; [done|].
      intros [?%list_elem_of_singleton _]. done.
  - rewrite (apply_accepts c id m Hm Hr). exists (trashed_msgs c), (msg_labels c).
    split_and!; [by destruct c|done|tauto|done].
Qed.

Lemma filed_arrival c id m imp :
  labels_ok c → msgs c !! id = Some m → (∀ i, (id, i) ∉ msg_labels c) →
  held_msgs c !! id = None → trashed_msgs c !! id = None →
  filed c id m (final (Blocklist.apply id) (final (Importance.set id imp) (final (Gating.apply id) c))).
Proof.
  intros Hok Hm Hnl Hnh Hnt.
  destruct (gating_step c id m Hok Hm Hnl Hnh) as (h & L & -> & Hh & HL & HLo).
  destruct (importance_frame id imp (set_held_msgs (λ _, h) (set_msg_labels (λ _, L) c))) as [f ->].
  set (d := set_msg_importance f _).
  assert (∀ n i, label_row d n i ↔ label_row c n i) as Hrow by done.
  destruct (blocklist_step d id m) as (t & K & -> & Ht & HK & HKo).
  { eapply labels_ok_ext; [..|exact Hok]; done. }
  { done. }
  { intros i Hi. change (msg_labels d) with L. rewrite HL. intros [_ Hu].
    by apply (trash_not_unverified c i). }
  { done. }
  assert (rejected d m ↔ rejected c m) as Hrej by done. rewrite Hrej in Ht. setoid_rewrite Hrej in HK.
  change (msg_labels d) with L in HK, HKo.
  destruct (reserved_at c UNVERIFIED Hok unverified_reserved) as (lu & _ & Hlu).
  destruct (reserved_at c TRASH Hok trash_reserved) as (lt & _ & Hlt).
  split; try done.
  - split.
    + intros (i & Hi & Hin). apply HK in Hin as [[? _]%HL|[_ Ht']]; [done|].
      by destruct (trash_not_unverified c i Ht').
    + intros Hhold. exists (Label.id lu). split; [done|]. apply HK. left. by apply HL.
  - split.
    + intros (i & Hi & Hin). apply HK in Hin as [[_ Hu]%HL|[? _]]; [|done].
      by destruct (trash_not_unverified c i Hi).
    + intros Hr. exists (Label.id lt). split; [done|]. apply HK. by right.
  - intros Hr. unfold deadline. change (trashed_msgs (set_trashed_msgs (λ _, t) _)) with t.
    by rewrite Ht.
  - intros x i Hx. change (msg_labels (set_trashed_msgs (λ _, t) _)) with K. by rewrite HKo, HLo.
Qed.

(** C10: where a new message ends up, when no label change waits for it.
    Whatever the hooks on arrival do, no message is changed or lost, the message
    is in a conversation, it is held with the Unverified label exactly when gating
    is on, the message is incoming and its sender is not trusted, and it is in the
    trash, with a full window to be recovered in, exactly when it is incoming and
    its sender is blocked; no other message changes its labels.  The two verdicts
    are independent: mail of a sender who is blocked and not trusted is in the
    trash and is held as well ([blocked_stranger_listed_twice]), where the
    documentation has it in the trash rather than in Unverified. *)
Theorem arrival_files_exactly (r : Received) (c : Ctx) (id : Z) (m : Msg.t) :
  labels_ok c → threads_ok c → msgs c !! id = Some m →
  pending_for c (default [] (Msg.rfc724_mid m)) = [] →
  (∀ i, (id, i) ∉ msg_labels c) → held_msgs c !! id = None → trashed_msgs c !! id = None →
  let c' := final (arrival_hooks r id) c in
  outcome (arrival_hooks r id) c = Ok tt
  ∧ msgs c' = msgs c ∧ is_Some (thread_of c' id)
  ∧ (unverified_label c' id ↔ to_hold c m)
  ∧ (∀ t, held_msgs c' !! id = Some t ↔ to_hold c m ∧ t = clock c)
  ∧ (trashed_label c' id ↔ rejected c m)
  ∧ (rejected c m → deadline c' id = sat_add (clock c) (purge_secs c))
  ∧ ∀ x i, x ≠ id → (x, i) ∈ msg_labels c' ↔ (x, i) ∈ msg_labels c.
Proof.
  intros Hok Hth Hm Hp Hnl Hnh Hnt c'. unfold c', outcome, final.
  destruct (before_gating r id m c Hth Hm Hp) as (f & g & T & M & R & q & s & -> & HM). cbn [fst snd].
  set (d := with_threads T M R _).
  destruct (filed_arrival d id m
    (Importance.from_headers (h_importance r) (h_x_priority r) (h_priority r))) as
    [F1 F2 F3 F4 F6 F7 F8]; [by eapply labels_ok_ext; [..|exact Hok]|done..|].
  split_and!; [done|exact F1| |exact F4|exact F3|exact F6|exact F7|exact F8].
  unfold thread_of. change (msg_threads (set_structured_data _ ?x)) with (msg_threads x).
  rewrite F2. exact HM.
Qed.

(** ** Tombstones *)

(** Tombstones are forgotten only when they are two days old and the
    message is gone from the server: mail is never touched, and a message
    destroyed in the last two days stays known, so that it is not downloaded
    again. *)
Theorem prune_tombstones_exact (c : Ctx) (id : Z) (m : Msg.t) :
  msgs c !! id = Some m → in_i64 (clock c - 172800) →
  let forgotten := is_live m = false ∧ on_server c m = false
                   ∧ ∃ t, Msg.timestamp m = Some t ∧ (t ≤ clock c - 172800)%Z in
  (forgotten → msgs (final prune_tombstones c) !! id = None)
  ∧ (¬ forgotten → msgs (final prune_tombstones c) !! id = Some m).
Proof.
  intros Hm Hr forgotten. unfold final, prune_tombstones, modify. cbn [fst set_msgs msgs].
  rewrite map_lookup_filter, Hm. cbn [mbind option_bind fst snd].
  assert (stale_tombstone c m = false ↔ ¬ forgotten) as Hiff.
  { unfold stale_tombstone, forgotten. change (2 * 24 * 3600)%Z with 172800%Z. rewrite sat_sub_exact by done.
    destruct (is_live m); [split; [by intros _ (? & _)|done]|].
    destruct (on_server c m); [rewrite andb_false_r; split; [by intros _ (_ & ? & _)|done]|].
    rewrite andb_true_r. destruct (Msg.timestamp m) as [t|]; [|split; [by intros _ (_ & _ & ? & ? & _)|done]].
    cbn [negb andb]. rewrite Z.leb_gt. split; [intros Hlt (_ & _ & t' & [= <-] & ?); lia|].
    intros Hn. apply Z.nle_gt. intros ?. apply Hn. eauto. }
  split; intros Hf; case_guard as Hg; try done; exfalso; [by apply Hiff in Hg|by apply Hg, Hiff].
Qed.
End mailbox.

(** ** Instances *)

(** Blobs named by a constant: any file system does for these. *)
Definition one_blob (raw : str) : result str := Ok (lit "blob.eml").

Definition marked_urgent : Received :=
  MkReceived (lit "From: spam@example.com") [] [] (Some (lit "high")) None None (lit "a@b")
    (MkMimeSender None None (lit "spam@example.com") None).

Definition no_mail (raw : list N) : option ParsedMail := None.

Lemma housekeeping_spares_mail_witness :
  let c := set_clock (λ _, 9000000%Z) (final (@trash ascii_case first_choice [20%Z]) with_window) in
  msgs (final (@housekeeping_email ascii_case first_choice) c) !! 20%Z
    = Some (tombstone true the_message)
  ∧ msgs (final (@housekeeping_email ascii_case first_choice) later_account) !! 20%Z = Some the_message.
Proof.
  intros c. assert (@trashed_label ascii_case c 20) as Ht.
  { exists 2%Z. split; [|vm_compute; reflexivity]. eexists. split; vm_compute; reflexivity. }
  split.
  - destruct (@housekeeping_spares_mail ascii_case first_choice c 20 the_message) as (_ & H & _).
    + apply wf_labelsb_sound. vm_compute. reflexivity.
    + vm_compute. discriminate.
    + vm_compute. split; discriminate.
    + vm_compute. reflexivity.
    + reflexivity.
    + intros _. exact Ht.
    + apply H. split; [exact Ht|vm_compute; discriminate].
  - destruct (@housekeeping_spares_mail ascii_case first_choice later_account 20 the_message)
      as (_ & _ & H).
    + apply wf_labelsb_sound. vm_compute. reflexivity.
    + vm_compute. discriminate.
    + vm_compute. split; discriminate.
    + vm_compute. reflexivity.
    + reflexivity.
    + intros [x Hx]. vm_compute in Hx. discriminate.
    + apply H. intros [_ Hd]. vm_compute in Hd. by destruct Hd.
Defined.

Lemma blocked_account_threads : threads_ok blocked_account.
Proof. destruct threads_ok_empty. by split. Qed.

Lemma arrival_files_exactly_witness :
  let c' := final (@arrival_hooks ascii_case first_choice one_blob number_json no_mail marked_urgent 20) blocked_account in
  @trashed_label ascii_case c' 20 ∧ @unverified_label ascii_case c' 20
  ∧ @deadline c' 20 = 2593000%Z.
Proof.
  destruct (@arrival_files_exactly ascii_case first_choice one_blob number_json no_mail marked_urgent blocked_account 20 spam
              blocked_account_ok blocked_account_threads) as (_ & _ & _ & Hu & _ & Ht & Hd & _).
  - vm_compute. reflexivity.
  - vm_compute. reflexivity.
  - intros i. change (msg_labels blocked_account) with (∅ : gset (Z * Z)). apply not_elem_of_empty.
  - vm_compute. reflexivity.
  - vm_compute. reflexivity.
  - split; [apply Ht; exact spam_rejected|]. split.
    + apply Hu. split; [vm_compute; reflexivity|]. split; [reflexivity|].
      destruct (is_trusted_run blocked_account 10) as (b & Hrun & Hb).
      change (Msg.from_id spam) with 10%Z. rewrite <-Hb. vm_compute in Hrun. congruence.
    + rewrite Hd by exact spam_rejected. vm_compute. reflexivity.
Defined.

(** The mail of a blocked stranger is thrown away and still waits in the view of
    unverified mail, with its row of held messages. *)
Example blocked_stranger_listed_twice :
  let c' := final (@arrival_hooks ascii_case first_choice one_blob number_json no_mail marked_urgent 20) blocked_account in
  outcome (@Tags.messages ascii_case first_choice SystemTag.Trash) c' = Ok [20%Z]
  ∧ outcome (@Tags.messages ascii_case first_choice SystemTag.Unverified) c' = Ok [20%Z]
  ∧ is_Some (held_msgs c' !! 20%Z).
Proof. vm_compute. split_and!; [reflexivity..|]. by eexists. Qed.

(** The premise on rows without the label is needed: a message thrown away
    here, taken out of the trash on another device and thrown away again keeps
    the deadline of the first time, because only [reconcile] drops the row, and
    is destroyed as soon as housekeeping runs. *)
Example stale_deadline_destroys :
  let first := final (@trash ascii_case first_choice [20%Z]) with_window in
  let restored := final (@Labels.sync_set ascii_case first_choice [lit "a@b"] TRASH false 2000%Z) first in
  let again := final (@trash ascii_case first_choice [20%Z]) (set_clock (λ _, 9000000%Z) restored) in
  msg_labels restored = ∅ ∧ is_Some (trashed_msgs restored !! 20%Z)
  ∧ deadline again 20 = 2593000%Z
  ∧ msgs (final (@housekeeping_email ascii_case first_choice) again) !! 20%Z
    = Some (tombstone true the_message).
Proof. vm_compute. split_and!; eauto. Qed.

Lemma prune_tombstones_exact_witness :
  let m := tombstone true the_message in
  let c := set_clock (λ _, 9000000%Z) (set_msgs <[20%Z := m]> empty_ctx) in
  msgs (final prune_tombstones c) !! 20%Z = None
  ∧ msgs (final prune_tombstones (set_imap <[1%Z := at_inbox (lit "a@b") 1]> c)) !! 20%Z = Some m.
Proof.
  intros m c. split.
  - apply (prune_tombstones_exact c 20 m); [reflexivity|split; vm_compute; discriminate|].
    split; [reflexivity|]. split; [reflexivity|]. eexists. split; [reflexivity|vm_compute; discriminate].
  - apply (prune_tombstones_exact (set_imap _ c) 20 m); [reflexivity|split; vm_compute; discriminate|].
    intros (_ & Hs & _). vm_compute in Hs. discriminate.
Defined.

(** Housekeeping destroys a message that is past its deadline and leaves
    what was extracted from it in the database; only a run after the tombstone
    itself is gone removes it. *)
Example destroyed_objects_linger :
  let c := set_structured_data <[(20%Z, 0%Z) := StructuredRow.mk (lit "{}") 1 0]>
             (set_clock (λ _, 9000000%Z) (final (@trash ascii_case first_choice [20%Z]) with_window)) in
  let c1 := final (@housekeeping_email ascii_case first_choice) c in
  msgs c1 !! 20%Z = Some (tombstone true the_message)
  ∧ Structured.of_msg c1 20 = [StructuredObject.mk 0 (lit "{}") true Source.Alternative]
  ∧ Structured.of_msg (final (@housekeeping_email ascii_case first_choice) (final prune_tombstones c1)) 20 = [].
Proof. vm_compute. done. Qed.

Lemma unaccepted_mail_is_destroyed_witness :
  let c1 := final (@housekeeping_email ascii_case first_choice) later_account in
  msgs c1 !! 20%Z = Some the_message
  ∧ msgs (final (@housekeeping_email ascii_case first_choice) (set_clock (λ _, 9000000%Z) c1)) !! 20%Z
    = Some (tombstone true the_message).
Proof.
  destruct (@unaccepted_mail_is_destroyed ascii_case first_choice later_account 20 1000 9000000 the_message)
    as (H1 & _ & H2).
  - apply wf_labelsb_sound. vm_compute. reflexivity.
  - vm_compute. discriminate.
  - vm_compute. discriminate.
  - vm_compute. split; discriminate.
  - vm_compute. reflexivity.
  - reflexivity.
  - vm_compute. reflexivity.
  - vm_compute. reflexivity.
  - vm_compute. reflexivity.
  - vm_compute. discriminate.
  - vm_compute. discriminate.
  - split; [exact H1|exact H2].
Defined.
