(* ===== verification/Search.v ===== *)
(** * Search: finding messages by text, recipient, label, tag and chat,
    [core/src/email/search.rs].

    The query is assembled as SQL; its [WHERE] clause is the function [selected],
    one conjunct per fragment. *)

From S2P Require Import Prelude Text Substr Store Labels Migrations Tags Trash.

(** ** The query *)

Module SearchQuery.
Record t := mk {
  text : str;
  label : option Z;
  tag : option SystemTag.t;
  chat_id : option Z;
}.

Definition of_text (needle : str) : t := mk needle None None None.
Definition with_label (q : t) (label : Z) : t := mk (text q) (Some label) (tag q) (chat_id q).
Definition with_tag (q : t) (tag : SystemTag.t) : t := mk (text q) (label q) (Some tag) (chat_id q).

Definition is_empty (q : t) : bool :=
  Text.is_empty (trim (text q))
  && match label q with None => true | Some _ => false end
  && match tag q with None => true | Some _ => false end
  && match chat_id q with None => true | Some _ => false end.
End SearchQuery.

Definition LIMIT : nat := 1000.

Section search.
Context `{!UnicodeCase}.

(** [LEFT JOIN contacts ct], [LEFT JOIN chats c] *)
Definition sender_blocked (c : Ctx) (m : Msg.t) : bool :=
  match contacts c !! Msg.from_id m with Some ct => ContactRow.blocked ct | None => false end.

Definition chat_blocked (c : Ctx) (m : Msg.t) : bool :=
  match chats c !! Msg.chat_id m with Some ch => (ChatRow.blocked ch =? 1)%Z | None => false end.

Definition LAST_SPECIAL_CHAT : Z := 9.

(** The part every query has. *)
Definition visible (c : Ctx) (tag : option SystemTag.t) (m : Msg.t) : bool :=
  (LAST_SPECIAL_CHAT <? Msg.chat_id m)%Z
  && (bool_decide (tag = Some SystemTag.Drafts) || negb (Msg.hidden m))
  && negb (chat_blocked c m) && negb (sender_blocked c m).

Definition text_matches (c : Ctx) (id : Z) (m : Msg.t) (needle : str) : bool :=
  let pattern := [PERCENT] ++ needle ++ [PERCENT] in
  like pattern (default (Msg.txt m) (Msg.txt_normalized m))
  || like pattern (sql_lower (default [] (Msg.subject m)))
  || existsb (λ r, (r.1.1.1 =? id)%Z && (like pattern r.1.2 || like pattern (sql_lower r.2.1)))
       (map_to_list (msg_recipients c)).

(** A stored tag by the normalized name of its label. *)
Definition has_label_named (c : Ctx) (id : Z) (name_norm : str) : bool :=
  existsb (λ r, bool_decide ((id, r.1) ∈ msg_labels c) && bool_decide (LabelRow.name_norm r.2 = name_norm))
    (map_to_list (labels c)).

Definition state_between (lo hi : MessageState.t) (m : Msg.t) : bool :=
  (MessageState.to_i64 lo <=? Msg.state m)%Z && (Msg.state m <=? MessageState.to_i64 hi)%Z.

Definition tag_matches (c : Ctx) (id : Z) (m : Msg.t) (tag : SystemTag.t) : bool :=
  match SystemTag.stored_name tag with
  | Some name => has_label_named c id (to_lowercase name)
  | None =>
      match tag with
      | SystemTag.Drafts => state_between MessageState.OutDraft MessageState.OutDraft m
      | SystemTag.Sent => state_between MessageState.OutPending MessageState.OutMdnRcvd m
      | SystemTag.Inbox => state_between MessageState.InFresh MessageState.InSeen m && negb (filed c id)
      | _ => false
      end
  end.

Definition selected (c : Ctx) (q : SearchQuery.t) (id : Z) (m : Msg.t) : bool :=
  let needle := to_lowercase (trim (SearchQuery.text q)) in
  visible c (SearchQuery.tag q) m
  && (is_empty needle || text_matches c id m needle)
  && match SearchQuery.label q with
     | Some label => bool_decide ((id, label) ∈ msg_labels c)
     | None => true
     end
  && match SearchQuery.tag q with Some tag => tag_matches c id m tag | None => true end
  && match SearchQuery.chat_id q with Some chat_id => (Msg.chat_id m =? chat_id)%Z | None => true end.

(** The ids of the rows the query selects, newest first. *)
Definition hits (c : Ctx) (q : SearchQuery.t) : list Z :=
  sort_by (λ a b, (b <=? a)%Z)
    (fst <$> filter (λ r, selected c q r.1 r.2 = true) (map_to_list (msgs c))).

Definition search (c : Ctx) (q : SearchQuery.t) : list Z :=
  if SearchQuery.is_empty q then [] else take LIMIT (hits c q).

(** ** Results *)

Lemma elem_of_hits c q id :
  id ∈ hits c q ↔ ∃ m, msgs c !! id = Some m ∧ selected c q id m = true.
Proof.
  unfold hits. rewrite elem_of_sort_by, list_elem_of_fmap. split.
  - intros ([i m] & -> & Hin). apply list_elem_of_filter in Hin as [Hs Hin].
    apply elem_of_map_to_list in Hin. eauto.
  - intros (m & Hm & Hs). exists (id, m). split; [done|]. apply list_elem_of_filter.
    split; [done|]. by apply elem_of_map_to_list.
Qed.

Lemma hits_sorted c q : StronglySorted (λ a b, (b < a)%Z) (hits c q).
Proof.
  assert (NoDup (hits c q)) as Hnd.
  { unfold hits, sort_by. rewrite merge_sort_Permutation.
    apply NoDup_fmap_fst; [|apply NoDup_filter, NoDup_map_to_list].
    intros x y1 y2 [_ H1]%list_elem_of_filter [_ H2]%list_elem_of_filter.
    apply elem_of_map_to_list in H1, H2. congruence. }
  assert (Transitive (λ a b : Z, Is_true (b <=? a)%Z)) as Htr.
  { intros x y z H1%Is_true_true%Z.leb_le H2%Is_true_true%Z.leb_le. apply Is_true_true, Z.leb_le. lia. }
  assert (Total (λ a b : Z, Is_true (b <=? a)%Z)) as Hto.
  { intros x y. destruct (Z.le_ge_cases y x); [left|right]; by apply Is_true_true, Z.leb_le. }
  assert (StronglySorted (λ a b, Is_true (b <=? a)%Z) (hits c q)) as Hs
    by apply (StronglySorted_merge_sort (λ a b : Z, Is_true (b <=? a)%Z)).
  induction Hs as [|x l Hs IH Hx]; [constructor|]. apply NoDup_cons in Hnd as [Hni Hnd].
  constructor; [by apply IH|]. apply Forall_forall. intros y Hy.
  eapply Forall_forall in Hx; [|exact Hy]. apply Is_true_true, Z.leb_le in Hx.
  assert (x ≠ y) by (by intros ->). lia.
Qed.

(** A query for a tag alone, on a message that the query is allowed to see. *)
Definition tag_query (tag : SystemTag.t) : SearchQuery.t := SearchQuery.mk [] None (Some tag) None.

Lemma has_label_named_iff c id n :
  has_label_named c id n = true
  ↔ ∃ i r, labels c !! i = Some r ∧ LabelRow.name_norm r = n ∧ (id, i) ∈ msg_labels c.
Proof.
  unfold has_label_named. rewrite existsb_exists. split.
  - intros ([i r] & Hin & Hb). apply andb_prop in Hb as [H1 H2].
    apply bool_decide_eq_true in H1, H2. rewrite <-list_elem_of_In, elem_of_map_to_list in Hin. eauto.
  - intros (i & r & Hr & Hn & Hin). exists (i, r). rewrite <-list_elem_of_In, elem_of_map_to_list.
    split; [done|]. cbn [fst snd]. by rewrite !bool_decide_true.
Qed.

Lemma tag_matches_view `{!SqlChoice} c tag id m st :
  labels_ok c → msgs c !! id = Some m → MessageState.from_i64 (Msg.state m) = Some st →
  is_live m = true → Msg.hidden m = false ∨ tag = SystemTag.Drafts →
  ∃ ids, messages tag c = (c, Ok ids) ∧ (tag_matches c id m tag = true ↔ id ∈ ids).
Proof.
  intros Hok Hm Hst Hlive Hvis. unfold tag_matches.
  destruct (SystemTag.stored_name tag) as [name|] eqn:Hname.
  - destruct (messages_stored c tag name Hok Hname) as (i & r & Hr & Hnr & Hrun).
    exists (msgs_with c i). split; [done|]. rewrite has_label_named_iff, elem_of_msgs_with.
    assert (Msg.hidden m = false) as Hh by (destruct Hvis; [done|by subst]).
    assert (to_lowercase name = normalize name) as ->.
    { unfold normalize. f_equal. destruct tag; try discriminate Hname; injection Hname as <-; reflexivity. }
    split.
    + intros (j & s & Hs & Hns & Hin). exists m.
      assert (i = j) as -> by (eapply (lok_unique _ c Hok); eauto; congruence). done.
    + intros (m' & _ & Hin & _). eauto.
  - destruct (elem_of_messages c tag id m st Hok Hm Hst Hlive Hvis) as (ids & Hrun & Hin).
    exists ids. split; [done|]. rewrite Hin. apply from_i64_Some in Hst.
    assert (∀ a b : bool, a = b → (a = true ↔ b = true)) as Hab by by intros a b ->.
    unfold state_between, tagb. apply Hab. rewrite Hst.
    destruct tag; try done; rewrite ?stored_empty; by destruct st.
Qed.

(** What a search shows of the messages at all: those of an ordinary chat that is
    not blocked, from a sender who is not blocked, and not hidden unless drafts
    are asked for. *)
Definition shown (c : Ctx) (tag : SystemTag.t) (m : Msg.t) : Prop :=
  (LAST_SPECIAL_CHAT < Msg.chat_id m)%Z ∧ chat_blocked c m = false ∧ sender_blocked c m = false
  ∧ (Msg.hidden m = false ∨ tag = SystemTag.Drafts).

Lemma visible_shown c tag m : visible c (Some tag) m = true ↔ shown c tag m.
Proof.
  unfold visible, shown. rewrite !andb_true_iff, orb_true_iff, !negb_true_iff, Z.ltb_lt, bool_decide_eq_true.
  naive_solver.
Qed.

(** C25: searching within a tag finds what the view of the tag lists, without
    what is blocked.  For a message with a state, a search for the tag alone
    finds it exactly when the view of the tag lists it, and its chat is ordinary
    and not blocked, its sender is not blocked, and it is not hidden unless
    drafts are asked for; the two are written as queries of their own.  Of the
    hits, newest first and each once, the first thousand are returned; an empty
    query returns nothing. *)
Theorem search_agrees_with_views `{!SqlChoice} c tag id m st :
  labels_ok c → msgs c !! id = Some m → MessageState.from_i64 (Msg.state m) = Some st →
  ∃ ids, outcome (messages tag) c = Ok ids
    ∧ (id ∈ hits c (tag_query tag) ↔ id ∈ ids ∧ shown c tag m)
    ∧ search c (tag_query tag) = take LIMIT (hits c (tag_query tag))
    ∧ StronglySorted (λ a b, (b < a)%Z) (hits c (tag_query tag))
    ∧ search c (SearchQuery.of_text []) = [].
Proof.
  intros Hok Hm Hst.
  assert (id ∈ hits c (tag_query tag) ↔ tag_matches c id m tag = true ∧ shown c tag m) as Hhits.
  { rewrite elem_of_hits, <-visible_shown. unfold selected, tag_query.
    cbn [SearchQuery.text SearchQuery.label SearchQuery.tag SearchQuery.chat_id].
    assert (to_lowercase (trim []) = []) as -> by by rewrite lower_ascii. cbn [is_empty orb].
    split.
    - intros (m' & Hm' & Hsel). assert (m' = m) as -> by congruence. rewrite !andb_true_iff in Hsel. tauto.
    - intros [Ht Hv]. exists m. split; [done|]. by rewrite Ht, Hv. }
  destruct (decide (shown c tag m)) as [Hs|Hs].
  - assert (is_live m = true) as Hlive.
    { destruct Hs as [Hchat _]. unfold is_live, DC_CHAT_ID_TRASH, LAST_SPECIAL_CHAT in *.
      apply negb_true_iff, Z.eqb_neq. lia. }
    destruct (tag_matches_view c tag id m st Hok Hm Hst Hlive) as (ids & Hrun & Htag); [apply Hs|].
    exists ids. unfold outcome. rewrite Hrun, Hhits, Htag. split_and!; [done|done|done|apply hits_sorted|done].
  - assert (∃ ids, messages tag c = (c, Ok ids)) as [ids Hrun].
    { unfold messages. destruct (SystemTag.stored_name tag) as [name|] eqn:Hname; [|by eexists].
      destruct (messages_stored c tag name Hok Hname) as (i & r & _ & _ & Hrun).
      unfold messages in Hrun. rewrite Hname in Hrun. eauto. }
    exists ids. unfold outcome. rewrite Hrun, Hhits. split_and!; [done|tauto|done|apply hits_sorted|done].
Qed.

(** Reference: where a needle is looked for, and how letters compare there. *)
Lemma text_search_exact c id m text :
  forallb no_wildcard (to_lowercase (trim text)) = true →
  text_matches c id m (to_lowercase (trim text)) = true
  ↔ let n := sql_lower (to_lowercase (trim text)) in
    contains_str n (sql_lower (default (Msg.txt m) (Msg.txt_normalized m))) = true
    ∨ contains_str n (sql_lower (default [] (Msg.subject m))) = true
    ∨ ∃ kind addr name ord, msg_recipients c !! (id, kind, addr) = Some (name, ord)
        ∧ (contains_str n (sql_lower addr) = true ∨ contains_str n (sql_lower name) = true).
Proof.
  intros Hw. unfold text_matches. cbv zeta. rewrite !orb_true_iff, !like_contains by done.
  assert (∀ s, sql_lower (sql_lower s) = sql_lower s) as Hidem.
  { intros s. unfold sql_lower. rewrite <-list_fmap_compose. apply list_fmap_ext. intros. apply ascii_lower_idemp. }
  rewrite Hidem, existsb_exists. split.
  - intros [[Ht|Hs]|([[[i k] a] [n o]] & Hin & Hb)]; [tauto..|]. right. right. cbn [fst snd] in Hb.
    apply andb_prop in Hb as [Hi%Z.eqb_eq Hb]. subst i. rewrite <-list_elem_of_In, elem_of_map_to_list in Hin.
    exists k, a, n, o. split; [done|].
    by rewrite orb_true_iff, !like_contains, Hidem in Hb by done.
  - intros [Ht|[Hs|(k & a & n & o & Hr & Hb)]]; [tauto..|]. right. exists (id, k, a, (n, o)).
    rewrite <-list_elem_of_In, elem_of_map_to_list. split; [done|]. cbn [fst snd].
    rewrite Z.eqb_refl. cbn [andb]. by rewrite orb_true_iff, !like_contains, Hidem by done.
Qed.
End search.

(** ** Instances *)

Lemma search_agrees_with_views_witness :
  let c := final (@trash ascii_case first_choice [20%Z]) with_window in
  @search ascii_case c (tag_query SystemTag.Trash) = [20%Z]
  ∧ ∃ ids, outcome (@messages ascii_case first_choice SystemTag.Trash) c = Ok ids ∧ 20%Z ∈ ids.
Proof.
  intros c. split; [vm_compute; reflexivity|].
  destruct (@search_agrees_with_views ascii_case first_choice c SystemTag.Trash 20 the_message
              MessageState.InFresh) as (ids & Hids & Hin & _).
  - apply wf_labelsb_sound. vm_compute. reflexivity.
  - vm_compute. reflexivity.
  - vm_compute. reflexivity.
  - exists ids. split; [exact Hids|]. apply Hin. vm_compute. left.
Defined.

Definition with_text (txt subject : str) (m : Msg.t) : Msg.t :=
  Msg.mk (Msg.rfc724_mid m) (Msg.pre_rfc724_mid m) (Msg.mime_in_reply_to m) (Msg.mime_references m)
    (Some subject) txt None (Msg.timestamp m) (Msg.timestamp_sent m) (Msg.timestamp_rcvd m)
    (Msg.chat_id m) (Msg.from_id m) (Msg.to_id m) (Msg.state m) (Msg.hidden m) (Msg.param m)
    (Msg.ephemeral_timer m) (Msg.ephemeral_timestamp m) (Msg.deleted m) (Msg.typ m) (Msg.download_state m).

(** Wildcards in what the user typed are not escaped. *)
Example typed_wildcards_match :
  let c := set_msgs <[21%Z := with_text (lit "lost in transit") [] the_message]> empty_ctx in
  @search ascii_case c (SearchQuery.of_text (lit "t_a%t")) = [21%Z].
Proof. vm_compute. done. Qed.

(** The needle is lower-cased by Unicode, the subject by ASCII: a subject with a
    capital umlaut is not found by the very same text. *)
Lemma accented_subject_not_found `{!UnicodeCase} :
  to_lowercase [196%N] = [228%N] →
  search (set_msgs <[21%Z := with_text [] [196%N] the_message]> empty_ctx)
    (SearchQuery.of_text [196%N]) = [].
Proof.
  intros Hl. unfold search, SearchQuery.is_empty, hits, selected, SearchQuery.of_text.
  cbn [SearchQuery.text SearchQuery.label SearchQuery.tag SearchQuery.chat_id].
  change (trim [196%N]) with [196%N]. rewrite Hl. vm_compute. done.
Qed.
