(* ===== verification/AddressBook.v ===== *)
(** * AddressBook: what is known about a person beyond their key,
    [core/src/email/addressbook.rs].

    The tables [contact_details], [contact_phones], [contact_categories] and
    [contact_category_members], and the search over all contacts. *)

From S2P Require Import Prelude Text Substr Store Labels.

#[local] Arguments trim : simpl never.

(** Contact ids at or below this are reserved. *)
Definition FIRST_REAL_CONTACT : Z := 9.

Module Phone.
Record t := mk { label : str; number : str }.
End Phone.

Module Details.
Record t := mk {
  organisation : str;
  job_title : str;
  postal : str;
  website : str;
  notes : str;
  phones : list Phone.t;
}.
End Details.

Module Category.
Record t := mk { id : Z; name : str; color : option Z }.
End Category.

Module Book.
Section book.
Context `{!UnicodeCase, !SqlChoice}.

Definition normalize (name : str) : str := to_lowercase (trim name).

(** ** Details *)

(** [SELECT label, number .. WHERE contact_id=? ORDER BY seq] *)
Definition phones_of (c : Ctx) (contact_id : Z) : list Phone.t :=
  (λ r, Phone.mk r.2.1 r.2.2) <$>
    rows_of contact_id (contact_phones c).

Definition details (c : Ctx) (contact_id : Z) : Details.t :=
  let phones := phones_of c contact_id in
  match contact_details c !! contact_id with
  | None => Details.mk [] [] [] [] [] phones
  | Some r =>
      Details.mk (DetailsRow.organisation r) (DetailsRow.job_title r) (DetailsRow.postal r)
        (DetailsRow.website r) (DetailsRow.notes r) phones
  end.

(** [i64::try_from(seq).unwrap_or(i64::MAX)] *)
Definition seq_of (n : nat) : Z := Z.min (Z.of_nat n) i64_max.

Definition insert_phone (contact_id : Z) (r : nat * Phone.t) : cmd Ctx unit := λ c,
  let key := (contact_id, seq_of r.1) in
  match contact_phones c !! key with
  | Some _ => (c, Err "UNIQUE constraint failed: contact_phones.contact_id, contact_phones.seq")
  | None =>
      (set_contact_phones <[key := (trim (Phone.label r.2), trim (Phone.number r.2))]> c, Ok tt)
  end.

Definition kept_phones (d : Details.t) : list Phone.t :=
  filter (λ p, trim (Phone.number p) ≠ []) (Details.phones d).

Definition set_details (contact_id : Z) (d : Details.t) : cmd Ctx unit :=
  transaction (
    modify (set_contact_details <[contact_id :=
      DetailsRow.mk (trim (Details.organisation d)) (trim (Details.job_title d))
        (trim (Details.postal d)) (trim (Details.website d)) (trim (Details.notes d))]>) ;;
    modify (set_contact_phones (filter (λ r, r.1.1 ≠ contact_id))) ;;
    for_each (imap pair (kept_phones d)) (insert_phone contact_id)).

(** ** Categories *)

Definition row_to_category (r : Z * CategoryRow.t) : Category.t :=
  Category.mk r.1 (CategoryRow.name r.2) (CategoryRow.color r.2 ≫= u32_try_from).

Definition category_leb (a b : Z * CategoryRow.t) : bool :=
  str_leb (CategoryRow.name_norm a.2) (CategoryRow.name_norm b.2).

Definition categories (c : Ctx) : list Category.t :=
  row_to_category <$> sort_by category_leb (map_to_list (contact_categories c)).

Definition category_rows (c : Ctx) (name_norm : str) : list (Z * CategoryRow.t) :=
  filter (λ r, CategoryRow.name_norm r.2 = name_norm) (map_to_list (contact_categories c)).

Definition category_by_norm (c : Ctx) (name_norm : str) : option Category.t :=
  row_to_category <$> pick (category_rows c name_norm).

(** [INSERT .. ON CONFLICT(name_norm) DO NOTHING] *)
Definition insert_category (row : CategoryRow.t) (c : Ctx) : Ctx :=
  match category_rows c (CategoryRow.name_norm row) with
  | [] =>
      let id := (contact_categories_seq c + 1)%Z in
      set_contact_categories_seq (λ _, id) (set_contact_categories <[id := row]> c)
  | _ => c
  end.

Definition create_category (name : str) (color : option Z) : cmd Ctx Category.t :=
  let trimmed := trim name in
  ensure (negb (is_empty trimmed)) "a category needs a name" ;;
  let name_norm := normalize trimmed in
  modify (insert_category (CategoryRow.mk trimmed name_norm color)) ;;
  cat ← gets (λ c, category_by_norm c name_norm);
  or_bail cat "category vanished immediately after being created".

(** [UPDATE .. SET name, name_norm WHERE id]; the constraint on [name_norm]
    fails the statement when it would make two rows equal. *)
Definition update_category_name (id : Z) (name name_norm : str) : cmd Ctx unit := λ c,
  if decide (contact_categories c !! id = None
             ∨ Forall (λ r, r.1 = id) (category_rows c name_norm)) then
    (set_contact_categories
       (alter (λ r, CategoryRow.mk name name_norm (CategoryRow.color r)) id) c, Ok tt)
  else (c, Err "UNIQUE constraint failed: contact_categories.name_norm").

Definition rename_category (id : Z) (new_name : str) : cmd Ctx unit :=
  let trimmed := trim new_name in
  ensure (negb (is_empty trimmed)) "a category needs a name" ;;
  let name_norm := normalize trimmed in
  existing ← gets (λ c, category_by_norm c name_norm);
  ensure (match existing with
          | Some e => bool_decide (Category.id e = id)
          | None => true
          end) "a category with this name already exists" ;;
  update_category_name id trimmed name_norm.

Definition set_category_color (id : Z) (color : option Z) : cmd Ctx unit :=
  modify (set_contact_categories
    (alter (λ r, CategoryRow.mk (CategoryRow.name r) (CategoryRow.name_norm r) color) id)).

Definition delete_category (id : Z) : cmd Ctx unit :=
  transaction (
    modify (set_contact_category_members (filter (λ r, r.2 ≠ id))) ;;
    modify (set_contact_categories (delete id))).

Definition assign (contact_id category_id : Z) : cmd Ctx unit :=
  modify (set_contact_category_members (λ t, {[ (contact_id, category_id) ]} ∪ t)).

Definition unassign (contact_id category_id : Z) : cmd Ctx unit :=
  modify (set_contact_category_members (λ t, t ∖ {[ (contact_id, category_id) ]})).

Definition categories_of (c : Ctx) (contact_id : Z) : list Category.t :=
  row_to_category <$> sort_by category_leb
    (filter (λ r, (contact_id, r.1) ∈ contact_category_members c)
       (map_to_list (contact_categories c))).

(** ** Search *)

Definition matches_needle (c : Ctx) (id : Z) (r : ContactRow.t) (needle : str) : bool :=
  let pattern := [PERCENT] ++ needle ++ [PERCENT] in
  let d := default (DetailsRow.mk [] [] [] [] []) (contact_details c !! id) in
  like pattern (sql_lower (ContactRow.addr r))
  || like pattern (sql_lower (ContactRow.name r))
  || like pattern (sql_lower (ContactRow.authname r))
  || like pattern (sql_lower (DetailsRow.organisation d))
  || like pattern (sql_lower (DetailsRow.job_title d))
  || like pattern (sql_lower (DetailsRow.notes d))
  || existsb (λ p, (p.1.1 =? id)%Z && like pattern (sql_lower p.2.2))
       (map_to_list (contact_phones c)).

Definition selects (c : Ctx) (query : str) (category : option Z) (include_blocked : bool)
    (r : Z * ContactRow.t) : bool :=
  (FIRST_REAL_CONTACT <? r.1)%Z
  && (include_blocked || negb (ContactRow.blocked r.2))
  && (let needle := to_lowercase (trim query) in
      is_empty needle || matches_needle c r.1 r.2 needle)
  && match category with
     | Some id => bool_decide ((r.1, id) ∈ contact_category_members c)
     | None => true
     end.

(** [LOWER(IFNULL(NULLIF(c.name, ''), c.authname)), LOWER(c.addr)] *)
Definition sort_key (r : ContactRow.t) : str * str :=
  (sql_lower (if is_empty (ContactRow.name r) then ContactRow.authname r else ContactRow.name r),
   sql_lower (ContactRow.addr r)).

Definition key_leb (a b : str * str) : bool :=
  if decide (a.1 = b.1) then str_leb a.2 b.2 else str_leb a.1 b.1.

Definition search (c : Ctx) (query : str) (category : option Z) (include_blocked : bool) : list Z :=
  fst <$> sort_by (λ a b, key_leb (sort_key a.2) (sort_key b.2))
    (filter (λ r, selects c query category include_blocked r = true) (contact_rows c)).

(** ** Details are read back as they were written *)

Definition trimmed_phone (p : Phone.t) : str * str := (trim (Phone.label p), trim (Phone.number p)).

Lemma insert_phones_run contact_id (l : list Phone.t) (k : nat) (c : Ctx) :
  (Z.of_nat (k + length l) ≤ i64_max)%Z →
  (∀ i, (Z.of_nat k ≤ i)%Z → contact_phones c !! (contact_id, i) = None) →
  for_each (imap (λ i p, (k + i, p)) l) (insert_phone contact_id) c
  = (set_contact_phones
       (λ t, (list_to_map (numbered contact_id k (trimmed_phone <$> l)) : gmap _ _) ∪ t) c, Ok tt).
Proof.
  revert k c. induction l as [|p l IH]; intros k c Hk Hfree.
  - cbn. unfold set_contact_phones. rewrite map_empty_union. by destruct c.
  - rewrite imap_cons, fmap_cons, numbered_cons, Nat.add_0_r. cbn [for_each list_to_map fst snd].
    assert (imap ((λ i p, (k + i, p)) ∘ S) l = imap (λ i p, (S k + i, p)) l) as ->
      by (apply imap_ext; intros i x _; unfold compose; f_equal; lia).
    cbn [length] in Hk. assert (seq_of k = Z.of_nat k) as Hs by (unfold seq_of; lia).
    erewrite run_bind_ok; last first.
    { unfold insert_phone. cbn [fst snd]. rewrite Hs, Hfree by lia. done. }
    rewrite IH; [|lia|].
    2:{ intros i Hi. unfold set_contact_phones. cbn [contact_phones]. rewrite lookup_insert_ne by (intros [=]; lia). apply Hfree. lia. }
    f_equal. unfold set_contact_phones. cbn. f_equal.
    rewrite insert_union_singleton_l, (insert_union_singleton_l (list_to_map _)), <-!(assoc_L (∪)).
    rewrite (assoc_L (∪)), (assoc_L (∪)). f_equal. apply map_union_comm.
    apply map_disjoint_singleton_r, not_elem_of_list_to_map_1.
    rewrite list_elem_of_fmap. intros (x & E & [_ Hx]%elem_of_numbered).
    rewrite <-E in Hx. cbn in Hx. lia.
Qed.

(** Reading as the edit form does, and what it holds after it was saved. *)
Definition trimmed (d : Details.t) : Details.t :=
  Details.mk (trim (Details.organisation d)) (trim (Details.job_title d)) (trim (Details.postal d))
    (trim (Details.website d)) (trim (Details.notes d))
    ((λ p, Phone.mk (trim (Phone.label p)) (trim (Phone.number p))) <$> kept_phones d).

Definition only_other_phones (contact_id : Z) (t : gmap (Z * Z) (str * str)) :=
  filter (λ r, r.1.1 ≠ contact_id) t.

Lemma set_details_run contact_id (d : Details.t) (c : Ctx) :
  (Z.of_nat (length (kept_phones d)) ≤ i64_max)%Z →
  set_details contact_id d c
  = (set_contact_phones
       (λ t, (list_to_map (numbered contact_id 0 (trimmed_phone <$> kept_phones d)) : gmap _ _)
               ∪ only_other_phones contact_id t)
       (set_contact_details <[contact_id :=
          DetailsRow.mk (trim (Details.organisation d)) (trim (Details.job_title d))
            (trim (Details.postal d)) (trim (Details.website d)) (trim (Details.notes d))]> c), Ok tt).
Proof.
  intros Hl. unfold set_details, transaction. rewrite !run_bind_modify.
  change (imap pair (kept_phones d)) with (imap (λ i p, (0 + i, p)) (kept_phones d)).
  rewrite insert_phones_run; [done|done|].
  intros i _. apply map_lookup_filter_None. right. intros v _. cbn. naive_solver.
Qed.

Lemma phones_of_set contact_id (l : list (str * str)) c :
  phones_of (set_contact_phones
       (λ t, (list_to_map (numbered contact_id 0 l) : gmap _ _) ∪ only_other_phones contact_id t) c)
    contact_id
  = (λ p, Phone.mk p.1 p.2) <$> l.
Proof.
  unfold phones_of. cbn [contact_phones set_contact_phones]. rewrite read_numbered.
  2:{ intros x [v [_ ?]%map_lookup_filter_Some]. done. }
  rewrite <-(numbered_snd contact_id 0 l) at 2. rewrite <-list_fmap_compose. done.
Qed.

Lemma details_other contact_id other (row : DetailsRow.t) (l : list (str * str)) c :
  other ≠ contact_id →
  details (set_contact_phones
       (λ t, (list_to_map (numbered contact_id 0 l) : gmap _ _) ∪ only_other_phones contact_id t)
       (set_contact_details <[contact_id := row]> c)) other
  = details c other.
Proof.
  intros Hne. unfold details, phones_of, set_contact_phones, set_contact_details.
  cbn [contact_phones contact_details]. rewrite lookup_insert_ne by done.
  erewrite (rows_of_ext other); [done|]. intros i. rewrite lookup_union_r.
  - unfold only_other_phones. rewrite map_lookup_filter.
    destruct (contact_phones c !! (other, i)); [|done]. cbn. by rewrite option_guard_True.
  - apply not_elem_of_list_to_map_1. rewrite list_elem_of_fmap.
    intros (x & E & [Hx _]%elem_of_numbered). by rewrite <-E in Hx.
Qed.

Lemma kept_phones_trimmed d : kept_phones (trimmed d) = Details.phones (trimmed d).
Proof.
  unfold kept_phones at 1. apply filter_all. cbn. intros p.
  rewrite list_elem_of_fmap. intros (q & -> & [Hq _]%list_elem_of_filter). cbn. by rewrite trim_idemp.
Qed.

Lemma trimmed_idemp d : trimmed (trimmed d) = trimmed d.
Proof.
  unfold trimmed at 1. rewrite kept_phones_trimmed. unfold trimmed. cbn. rewrite !trim_idemp. f_equal.
  rewrite <-list_fmap_compose. apply list_fmap_ext. intros i p _. cbn. by rewrite !trim_idemp.
Qed.

(** Saving the details of a contact succeeds, and they are read back with
    every field trimmed and the phones with a number, in the order given; the
    details of other contacts are untouched, and saving again what was read
    changes nothing. *)
Theorem details_roundtrip (c : Ctx) (contact_id : Z) (d : Details.t) :
  (Z.of_nat (length (Details.phones d)) ≤ i64_max)%Z →
  ∃ c', set_details contact_id d c = (c', Ok tt)
    ∧ details c' contact_id = trimmed d
    ∧ (∀ other, other ≠ contact_id → details c' other = details c other)
    ∧ set_details contact_id (details c' contact_id) c' = (c', Ok tt).
Proof.
  intros Hl. pose proof (length_filter (λ p, trim (Phone.number p) ≠ []) (Details.phones d)) as Hk.
  change (filter _ _) with (kept_phones d) in Hk.
  rewrite set_details_run by lia. eexists. split; [done|].
  match goal with |- details ?x _ = _ ∧ _ => set (c' := x) end.
  assert (details c' contact_id = trimmed d) as Hd.
  { unfold details, c'. rewrite phones_of_set.
    unfold set_contact_phones, set_contact_details. cbn [contact_details]. rewrite lookup_insert_eq.
    unfold trimmed. cbn. f_equal. by rewrite <-list_fmap_compose. }
  split; [done|]. split; [intros other Hne; by apply details_other|].
  rewrite Hd, set_details_run.
  2:{ rewrite kept_phones_trimmed. cbn. rewrite length_fmap. lia. }
  f_equal. rewrite kept_phones_trimmed. unfold c', set_contact_phones, set_contact_details. cbn.
  rewrite !trim_idemp, insert_insert_eq. f_equal.
  rewrite <-list_fmap_compose.
  assert (trimmed_phone ∘ (λ p, Phone.mk (trim (Phone.label p)) (trim (Phone.number p))) <$> kept_phones d
          = trimmed_phone <$> kept_phones d) as ->.
  { apply list_fmap_ext. intros i p _. unfold trimmed_phone. cbn. by rewrite !trim_idemp. }
  f_equal. unfold only_other_phones. apply map_eq. intros [k i].
  destruct (decide (k = contact_id)) as [->|Hne].
  - trans (None : option (str * str)); [|symmetry]; apply map_lookup_filter_None; right; by intros v _ [].
  - rewrite map_lookup_filter, lookup_union_r.
    + rewrite !map_lookup_filter. destruct (contact_phones c !! _) as [v|]; [|done]. cbn.
      repeat case_guard; cbn; repeat case_guard; tauto || done.
    + apply not_elem_of_list_to_map_1. rewrite list_elem_of_fmap.
      intros (x & E & [Hx _]%elem_of_numbered). by rewrite <-E in Hx.
Qed.

(** ** Search *)

(** The texts of a contact that are searched. *)
Definition searched_fields (c : Ctx) (id : Z) (r : ContactRow.t) : list str :=
  let d := details c id in
  [ContactRow.addr r; ContactRow.name r; ContactRow.authname r;
   Details.organisation d; Details.job_title d; Details.notes d]
  ++ (Phone.number <$> Details.phones d).

Lemma phone_number_iff c id (P : str → bool) :
  existsb (λ p, (p.1.1 =? id)%Z && P p.2.2) (map_to_list (contact_phones c)) = true
  ↔ ∃ n, n ∈ Phone.number <$> phones_of c id ∧ P n = true.
Proof.
  rewrite existsb_exists. unfold phones_of. rewrite <-list_fmap_compose. split.
  - intros ([[k i] v] & Hin & Hb). apply andb_prop in Hb as [Hk%Z.eqb_eq Hp]. cbn in Hk, Hp. subst k.
    rewrite <-list_elem_of_In, elem_of_map_to_list in Hin. exists v.2. split; [|done].
    apply list_elem_of_fmap. exists ((id, i), v). split; [done|]. by apply elem_of_rows_of.
  - intros (n & Hn & Hp). apply list_elem_of_fmap in Hn as ([[k i] v] & -> & Hr).
    apply elem_of_rows_of in Hr as [Hk Hl]. cbn in *. subst k. exists ((id, i), v).
    rewrite <-list_elem_of_In, elem_of_map_to_list. split; [done|]. cbn. by rewrite Z.eqb_refl.
Qed.

(** A needle without wildcards matches where it occurs in a searched text. *)
Lemma matches_needle_iff c id r needle :
  forallb no_wildcard needle = true →
  matches_needle c id r needle = true
  ↔ ∃ t, t ∈ searched_fields c id r ∧ contains_str (sql_lower needle) (sql_lower t) = true.
Proof.
  intros Hw. set (P := λ t, like ([PERCENT] ++ needle ++ [PERCENT]) (sql_lower t)).
  assert (∀ t, P t = true ↔ contains_str (sql_lower needle) (sql_lower t) = true) as HP
    by (intros t; unfold P; by rewrite like_contains, sql_lower_idemp).
  setoid_rewrite <-HP. unfold matches_needle. cbv zeta.
  change (λ p : Z * Z * (str * str), (p.1.1 =? id)%Z && _) with (λ p : Z * Z * (str * str), (p.1.1 =? id)%Z && P p.2.2).
  rewrite !orb_true_iff, phone_number_iff. unfold searched_fields. cbv zeta.
  setoid_rewrite elem_of_app. repeat setoid_rewrite elem_of_cons.
  assert (∀ x, x ∈ ([] : list str) ↔ False) as Hnil by (intros x; split; [apply not_elem_of_nil|done]).
  setoid_rewrite Hnil.
  assert (phones_of c id = Details.phones (details c id)) as <-
    by (unfold details; by destruct (contact_details c !! id)).
  assert (∀ f g, (∀ r, f (Details.mk (DetailsRow.organisation r) (DetailsRow.job_title r) (DetailsRow.postal r)
                    (DetailsRow.website r) (DetailsRow.notes r) (phones_of c id)) = (g r : str)) →
            f (details c id) = g (default (DetailsRow.mk [] [] [] [] []) (contact_details c !! id))) as Hd.
  { intros f g Hfg. rewrite <-Hfg. unfold details. by destruct (contact_details c !! id). }
  rewrite (Hd Details.organisation DetailsRow.organisation), (Hd Details.job_title DetailsRow.job_title),
    (Hd Details.notes DetailsRow.notes) by done.
  clear Hd Hnil HP. split.
  - intros [[[[[[H1|H1]|H1]|H1]|H1]|H1]|(n & Hn & H1)]; eauto 10.
  - intros (t & [Ht|Ht] & HPt); [|right; eauto].
    left. destruct Ht as [ ->|[ ->|[ ->|[ ->|[ ->|[ ->|[]]]]]]]; unfold P in HPt; tauto.
Qed.

Lemma elem_of_search c query category include_blocked id :
  id ∈ search c query category include_blocked
  ↔ ∃ r, contacts c !! id = Some r ∧ selects c query category include_blocked (id, r) = true.
Proof.
  unfold search. rewrite list_elem_of_fmap. split.
  - intros ([i r] & -> & Hin). rewrite elem_of_sort_by in Hin.
    apply list_elem_of_filter in Hin as [Hs Hin]. unfold contact_rows in Hin.
    apply elem_of_map_to_list in Hin. eauto.
  - intros (r & Hr & Hs). exists (id, r). split; [done|]. rewrite elem_of_sort_by.
    apply list_elem_of_filter. split; [done|]. by apply elem_of_map_to_list.
Qed.

Lemma search_NoDup c query category include_blocked : NoDup (search c query category include_blocked).
Proof.
  unfold search, sort_by. rewrite merge_sort_Permutation.
  apply NoDup_fmap_fst; [|apply NoDup_filter, NoDup_map_to_list].
  intros x y1 y2 [_ H1]%list_elem_of_filter [_ H2]%list_elem_of_filter.
  apply elem_of_map_to_list in H1, H2. congruence.
Qed.

(** The address book finds every contact of the mailbox, of any origin, with
    a key or without, blocked ones on request, exactly once: those with the
    text typed in their address, names, details or phone numbers, up to ASCII
    case, and in the category asked for.  The text has no wildcard of [LIKE]. *)
Theorem book_search_exact (c : Ctx) (query : str) (category : option Z) (include_blocked : bool) :
  let needle := to_lowercase (trim query) in
  forallb no_wildcard needle = true →
  NoDup (search c query category include_blocked)
  ∧ ∀ id, id ∈ search c query category include_blocked
    ↔ ∃ r, contacts c !! id = Some r ∧ (ContactId.LAST_SPECIAL < id)%Z
        ∧ (ContactRow.blocked r = true → include_blocked = true)
        ∧ (needle = [] ∨ ∃ t, t ∈ searched_fields c id r
              ∧ contains_str (sql_lower needle) (sql_lower t) = true)
        ∧ (∀ k, category = Some k → (id, k) ∈ contact_category_members c).
Proof.
  intros needle Hw. split; [apply search_NoDup|]. intros id. rewrite elem_of_search.
  apply exist_proper. intros r. unfold selects. fold needle. cbn [fst snd].
  rewrite !andb_true_iff, !orb_true_iff, negb_true_iff, Z.ltb_lt, matches_needle_iff by done.
  assert (is_empty needle = true ↔ needle = []) as -> by (destruct needle; split; done).
  assert (match category with Some k => bool_decide ((id, k) ∈ contact_category_members c) | None => true end = true
          ↔ ∀ k, category = Some k → (id, k) ∈ contact_category_members c) as ->.
  { destruct category as [k|]; [|by split]. rewrite bool_decide_eq_true. split; [by intros ? ? [= <-]|eauto]. }
  assert (include_blocked = true ∨ ContactRow.blocked r = false
          ↔ (ContactRow.blocked r = true → include_blocked = true)) as ->
    by (destruct include_blocked, (ContactRow.blocked r); naive_solver).
  tauto.
Qed.

(** ** Categories *)

Record categories_inv (c : Ctx) : Prop := {
  inv_category id r : contact_categories c !! id = Some r →
    CategoryRow.name_norm r = normalize (CategoryRow.name r)
    ∧ CategoryRow.name r ≠ [] ∧ trim (CategoryRow.name r) = CategoryRow.name r;
  inv_unique i j r s : contact_categories c !! i = Some r → contact_categories c !! j = Some s →
    CategoryRow.name_norm r = CategoryRow.name_norm s → i = j;
  inv_seq id : is_Some (contact_categories c !! id) → (id ≤ contact_categories_seq c)%Z;
  inv_members p : p ∈ contact_category_members c → (p.2 ≤ contact_categories_seq c)%Z;
}.

Lemma elem_of_category_rows c norm x :
  x ∈ category_rows c norm ↔ contact_categories c !! x.1 = Some x.2 ∧ CategoryRow.name_norm x.2 = norm.
Proof.
  unfold category_rows. rewrite list_elem_of_filter. destruct x as [i r]. rewrite elem_of_map_to_list.
  cbn. tauto.
Qed.

(** The calls of the address book; a client assigns to a category it has seen. *)
Inductive book_step : Ctx → Ctx → Prop :=
  | step_create name color c : book_step c (final (create_category name color) c)
  | step_rename id name c : book_step c (final (rename_category id name) c)
  | step_color id color c : book_step c (final (set_category_color id color) c)
  | step_delete id c : book_step c (final (delete_category id) c)
  | step_assign contact id c : is_Some (contact_categories c !! id) → book_step c (final (assign contact id) c)
  | step_unassign contact id c : book_step c (final (unassign contact id) c)
  | step_details contact d c : book_step c (final (set_details contact d) c).

Lemma insert_category_inv name color c :
  categories_inv c → trim name ≠ [] →
  categories_inv (insert_category (CategoryRow.mk (trim name) (normalize (trim name)) color) c).
Proof.
  intros Hi Hne. unfold insert_category. cbn [CategoryRow.name_norm].
  destruct (category_rows c _) as [|x xs] eqn:E; [|done].
  assert (∀ i r, contact_categories c !! i = Some r → CategoryRow.name_norm r ≠ normalize (trim name)) as Hfresh.
  { intros i r Hr En. apply (not_elem_of_nil (i, r)). rewrite <-E. by apply elem_of_category_rows. }
  pose proof (inv_seq c Hi) as Hs. set (n := (contact_categories_seq c + 1)%Z).
  constructor; unfold set_contact_categories_seq, set_contact_categories;
    cbn [contact_categories contact_categories_seq contact_category_members].
  - intros id r. rewrite lookup_insert. case_decide; [|by apply inv_category].
    intros [= <-]. cbn. by rewrite trim_idemp.
  - intros i j r s. rewrite !lookup_insert. repeat case_decide; subst; [done|..].
    + intros [= <-] Hs' En. by destruct (Hfresh j s).
    + intros Hr [= <-] En. by destruct (Hfresh i r).
    + by apply inv_unique.
  - intros id. rewrite lookup_insert. case_decide; [intros _; lia|]. intros Hid%Hs. lia.
  - intros p Hp%(inv_members c Hi). lia.
Qed.

Lemma update_category_name_inv id name c :
  categories_inv c → trim name ≠ [] →
  categories_inv (final (update_category_name id (trim name) (normalize (trim name))) c).
Proof.
  intros Hi Hne. unfold update_category_name, final. case_decide as Hd; [|done]. cbn [fst].
  set (f := λ r, CategoryRow.mk (trim name) (normalize (trim name)) (CategoryRow.color r)).
  destruct (contact_categories c !! id) as [r0|] eqn:E0.
  2:{ unfold set_contact_categories. rewrite alter_id; [by destruct c|]. intros r Hr. congruence. }
  destruct Hd as [|Hd]; [done|].
  assert (∀ i r, i ≠ id → contact_categories c !! i = Some r →
            CategoryRow.name_norm r ≠ normalize (trim name)) as Hfresh.
  { intros i r Hii Hr En. rewrite Forall_forall in Hd. apply Hii, (Hd (i, r)).
    by apply elem_of_category_rows. }
  constructor; unfold set_contact_categories;
    cbn [contact_categories contact_categories_seq contact_category_members].
  - intros i r. destruct (decide (i = id)) as [->|Hii].
    + rewrite lookup_alter_eq, E0. intros [= <-]. cbn. by rewrite trim_idemp.
    + rewrite lookup_alter_ne by done. by apply inv_category.
  - intros i j r s. destruct (decide (i = id)) as [->|Hii], (decide (j = id)) as [->|Hij]; [done|..].
    + rewrite lookup_alter_eq, E0, lookup_alter_ne by done. intros [= <-] Hs En. by destruct (Hfresh j s).
    + rewrite lookup_alter_eq, E0, lookup_alter_ne by done. intros Hr [= <-] En. by destruct (Hfresh i r).
    + rewrite !lookup_alter_ne by done. by apply inv_unique.
  - intros i. destruct (decide (i = id)) as [->|Hii]; [intros _; apply inv_seq; eauto|].
    rewrite lookup_alter_ne by done. by apply inv_seq.
  - by apply inv_members.
Qed.

Lemma set_details_categories contact d c :
  contact_categories (final (set_details contact d) c) = contact_categories c
  ∧ contact_categories_seq (final (set_details contact d) c) = contact_categories_seq c
  ∧ contact_category_members (final (set_details contact d) c) = contact_category_members c.
Proof.
  set (P := λ c', contact_categories c' = contact_categories c
    ∧ contact_categories_seq c' = contact_categories_seq c
    ∧ contact_category_members c' = contact_category_members c).
  change (P (final (set_details contact d) c)). unfold set_details, final, transaction.
  rewrite !run_bind_modify.
  match goal with |- P (fst (match ?m ?c0 with _ => _ end)) => assert (P (final m c0)) as Hm end.
  2:{ unfold final in Hm. destruct (for_each _ _ _) as [c1 [[]|e]]; cbn in *; [done|by split_and!]. }
  apply preserves_final; [|by split_and!].
  apply preserves_for_each. intros [i p] c0 Hc0. unfold insert_phone. cbn [fst snd].
  by destruct (contact_phones c0 !! _).
Qed.

Lemma create_category_run name color c :
  trim name ≠ [] →
  let row := CategoryRow.mk (trim name) (normalize (trim name)) color in
  create_category name color c
  = (insert_category row c,
     match category_by_norm (insert_category row c) (normalize (trim name)) with
     | Some x => Ok x
     | None => Err "category vanished immediately after being created"
     end).
Proof.
  intros Hne row. unfold create_category.
  assert (is_empty (trim name) = false) as -> by by destruct (trim name).
  cbn [negb ensure]. rewrite run_bind_ret, run_bind_modify, run_bind_gets. fold row.
  by destruct (category_by_norm _ _).
Qed.

Lemma rename_category_inv id name c : categories_inv c → categories_inv (final (rename_category id name) c).
Proof.
  intros Hi. unfold rename_category, final.
  destruct (is_empty (trim name)) eqn:Et; [done|]. cbn [negb ensure]. rewrite run_bind_ret, run_bind_gets.
  destruct (match category_by_norm c _ with Some e => _ | None => _ end); [|done].
  cbn [ensure]. rewrite run_bind_ret. apply update_category_name_inv; [done|].
  by destruct (trim name).
Qed.

Lemma set_category_color_inv id color c :
  categories_inv c → categories_inv (final (set_category_color id color) c).
Proof.
  intros Hi. constructor; unfold final, set_category_color, modify, set_contact_categories;
    cbn [fst contact_categories contact_categories_seq contact_category_members].
  - intros i r. rewrite lookup_alter_Some.
    intros [(-> & r0 & Hr & ->)|[_ Hr]]; [|by eapply inv_category]. by apply (inv_category c Hi) in Hr.
  - intros i j r s. rewrite !lookup_alter_Some.
    intros [(-> & r0 & Hr & ->)|[Hii Hr]] [(-> & s0 & Hs & ->)|[Hij Hs]] En; cbn in En; [done|..];
      by eapply (inv_unique c Hi).
  - intros i Hs. apply inv_seq; [done|]. destruct Hs as [r Hr]. rewrite lookup_alter_Some in Hr.
    destruct Hr as [(<- & r0 & ? & _)|[_ ?]]; eauto.
  - by apply inv_members.
Qed.

Lemma delete_category_inv id c : categories_inv c → categories_inv (final (delete_category id) c).
Proof.
  intros Hi. unfold delete_category, transaction, final. rewrite run_bind_modify, run_modify. cbn [fst].
  constructor; unfold set_contact_categories, set_contact_category_members;
    cbn [contact_categories contact_categories_seq contact_category_members].
  - intros i r [_ Hr]%lookup_delete_Some. by eapply inv_category.
  - intros i j r s [_ Hr]%lookup_delete_Some [_ Hs]%lookup_delete_Some. by eapply inv_unique.
  - intros i [r [_ Hr]%lookup_delete_Some]. apply inv_seq; eauto.
  - intros p [_ Hp]%elem_of_filter. by apply inv_members.
Qed.

Lemma book_step_inv c c' : categories_inv c → book_step c c' → categories_inv c'.
Proof.
  intros Hi Hst. destruct Hst as [name color c|id name c|id color c|id c|contact id c Hid|contact id c|contact d c].
  - destruct (decide (trim name = [])) as [Et|Et].
    + unfold create_category, final. by rewrite Et.
    + unfold final. rewrite create_category_run by done. by apply insert_category_inv.
  - by apply rename_category_inv.
  - by apply set_category_color_inv.
  - by apply delete_category_inv.
  - destruct Hi as [Hc Hu Hs Hm]. constructor; try done. intros p.
    unfold final, assign, modify, set_contact_category_members. cbn. rewrite elem_of_union, elem_of_singleton.
    intros [->|Hp]; [by apply Hs|by apply Hm].
  - destruct Hi as [Hc Hu Hs Hm]. constructor; try done. intros p.
    unfold final, unassign, modify, set_contact_category_members. cbn. rewrite elem_of_difference.
    intros [Hp _]. by apply Hm.
  - destruct (set_details_categories contact d c) as (E1 & E2 & E3). destruct Hi as [Hc Hu Hs Hm].
    constructor; rewrite ?E1, ?E2, ?E3; done.
Qed.

(** After the insertion there is a row of this name. *)
Lemma category_rows_inserted row c :
  category_rows (insert_category row c) (CategoryRow.name_norm row) ≠ [].
Proof.
  unfold insert_category. destruct (category_rows c (CategoryRow.name_norm row)) as [|y ys] eqn:E; [|by rewrite E].
  intros Ep. apply (not_elem_of_nil ((contact_categories_seq c + 1)%Z, row)). rewrite <-Ep.
  apply elem_of_category_rows. split; [apply lookup_insert_eq|done].
Qed.

(** In every history of the address book the names of categories are
    trimmed, not empty and unique up to case, and creating a category gives
    the one of that name: as it was when it exists, and otherwise a new one
    without members, also when one of that name was deleted before. *)
Theorem category_history (c c' : Ctx) (name : str) (color : option Z) :
  categories_inv c → rtc book_step c c' → trim name ≠ [] →
  categories_inv c'
  ∧ ∃ c'' cat, create_category name color c' = (c'', Ok cat)
    ∧ normalize (Category.name cat) = normalize name
    ∧ contact_category_members c'' = contact_category_members c'
    ∧ if decide (contact_categories c' !! Category.id cat = None)
      then Category.name cat = trim name ∧ ∀ contact, (contact, Category.id cat) ∉ contact_category_members c''
      else c'' = c'.
Proof.
  intros Hi Hrtc Hne.
  assert (categories_inv c') as Hi' by (induction Hrtc; eauto using book_step_inv).
  split; [done|]. clear c Hi Hrtc. rewrite create_category_run by done. cbv zeta.
  set (row := CategoryRow.mk (trim name) (normalize (trim name)) color).
  pose proof (insert_category_inv name color c' Hi' Hne) as Hi''. fold row in Hi''.
  pose proof (category_rows_inserted row c') as Hrow. cbn [row CategoryRow.name_norm] in Hrow.
  unfold category_by_norm. destruct (pick _) as [[i r]|] eqn:Ep; [|by apply pick_None in Ep].
  do 2 eexists. split; [done|].
  apply pick_in, elem_of_category_rows in Ep as [Er En]. cbn [fst snd] in *. cbn.
  destruct (inv_category _ Hi'' _ _ Er) as (En' & _ & _).
  assert (normalize (trim name) = normalize name) as Ht by (unfold normalize; by rewrite trim_idemp).
  split; [congruence|]. unfold insert_category in *. cbn [CategoryRow.name_norm row] in *.
  destruct (category_rows c' (normalize (trim name))) as [|y ys] eqn:E.
  - split; [done|]. unfold set_contact_categories_seq, set_contact_categories in Er.
    cbn [contact_categories] in Er. rewrite lookup_insert in Er. case_decide as Hi0.
    + injection Er as <-. subst i. rewrite decide_True.
      * split; [done|]. intros contact Hm%(inv_members c' Hi'). cbn in Hm. lia.
      * apply eq_None_not_Some. intros Hs%(inv_seq c' Hi'). lia.
    + exfalso. apply (not_elem_of_nil (i, r)). rewrite <-E. by apply elem_of_category_rows.
  - split; [done|]. rewrite decide_False; [done|]. congruence.
Qed.

Lemma empty_categories_inv : categories_inv empty_ctx.
Proof. constructor; cbn; [done|done| |set_solver]. by intros id [r Hr]. Qed.
End book.
End Book.

(** ** Concrete instances *)

Definition ada : Ctx :=
  set_contacts <[10%Z := ContactRow.mk (lit "Ada") (lit "ada@example.org") 67108864 true 0 [] [] 0]>
    empty_ctx.

Definition ada_details : Details.t :=
  Details.mk (lit " Engines Ltd ") [] [] [] []
    [Phone.mk (lit "work") (lit " 555 0199"); Phone.mk (lit "home") (lit "  ")].

Lemma details_roundtrip_witness :
  ∃ c', Book.set_details 10 ada_details ada = (c', Ok tt)
    ∧ Book.details c' 10 = Details.mk (lit "Engines Ltd") [] [] [] [] [Phone.mk (lit "work") (lit "555 0199")].
Proof.
  destruct (Book.details_roundtrip ada 10 ada_details) as (c' & Hrun & Hd & _); [vm_compute; discriminate|].
  exists c'. split; [exact Hrun|]. rewrite Hd. vm_compute. reflexivity.
Defined.

Lemma book_search_exact_witness :
  10%Z ∈ @Book.search ascii_case ada (lit "EXAMPLE.org ") None true
  ∧ 10%Z ∉ @Book.search ascii_case ada (lit "EXAMPLE.org ") None false.
Proof.
  pose proof (@Book.book_search_exact ascii_case ada (lit "EXAMPLE.org ") None true) as H1.
  pose proof (@Book.book_search_exact ascii_case ada (lit "EXAMPLE.org ") None false) as H2.
  destruct H1 as [_ H1]; [vm_compute; reflexivity|]. destruct H2 as [_ H2]; [vm_compute; reflexivity|].
  split.
  - apply H1. eexists. split; [reflexivity|]. split; [vm_compute; reflexivity|]. split; [done|].
    split; [|done]. right. exists (lit "ada@example.org"). split; [left|vm_compute; reflexivity].
  - intros Hin. apply H2 in Hin as (r & Hr & _ & Hb & _). vm_compute in Hr. injection Hr as <-.
    discriminate (Hb eq_refl).
Defined.

Lemma category_history_witness :
  let c := final (@Book.create_category ascii_case first_choice (lit "Work") None) empty_ctx in
  let c := final (Book.assign 10 1) c in
  let c := final (Book.delete_category 1) c in
  ∃ c' cat, @Book.create_category ascii_case first_choice (lit "work") None c = (c', Ok cat)
    ∧ (10%Z, Category.id cat) ∉ contact_category_members c'.
Proof.
  intros c0 c1 c2.
  destruct (@Book.category_history ascii_case first_choice empty_ctx c2 (lit "work") None)
    as (_ & c' & cat & Hrun & _ & _ & Hd).
  - apply (@Book.empty_categories_inv ascii_case).
  - eapply rtc_l; [apply (@Book.step_create ascii_case first_choice (lit "Work") None)|].
    eapply rtc_l; [apply (Book.step_assign 10 1); vm_compute; eexists; reflexivity|].
    eapply rtc_l; [apply (Book.step_delete 1)|]. apply rtc_refl.
  - vm_compute. discriminate.
  - exists c', cat. split; [exact Hrun|]. case_decide as Hn; [apply Hd|].
    exfalso. subst c'. apply Hn. assert (c2 = set_contact_categories_seq (λ _, 1%Z) empty_ctx) as -> by (vm_compute; reflexivity).
    reflexivity.
Defined.

(** [LOWER] leaves letters outside ASCII alone while the text typed is
    lower-cased by Rust: a name with a capital among them is not found, however
    it is typed. *)
Example accented_name_not_found `{!UnicodeCase} :
  to_lowercase [201; 109]%N = [233; 109]%N →
  let c := set_contacts <[10%Z := ContactRow.mk [201; 109]%N [] 67108864 false 0 [] [] 0]> empty_ctx in
  Book.search c [201; 109]%N None true = [].
Proof.
  intros Hl c. unfold Book.search, contact_rows.
  change (map_to_list (contacts c)) with [(10%Z, ContactRow.mk [201; 109]%N [] 67108864 false 0 [] [] 0)].
  rewrite filter_cons_False; [done|]. unfold Book.selects.
  change (trim [201; 109]%N) with [201; 109]%N. rewrite Hl. vm_compute. discriminate.
Qed.
