(* ===== verification/WireText.v ===== *)
(** * WireText: the plain text of an outgoing message and the signature under
    it, [core/src/email/signature.rs], [split_signature] of
    [core/src/email/sendopts.rs] and the text part of [core/src/mimefactory.rs],
    with what the reader's [simplify] makes of it. *)

From S2P Require Import Prelude Text Substr Store Flowed Simplify Policy.

(** ** Signatures *)

Module Signature.
Record t := mk { plain : str; html : str }.

(** Three [replace]s of one character each. *)
Definition escape_html (s : str) : str :=
  replace_char 62 (lit "&gt;") (replace_char 60 (lit "&lt;") (replace_char 38 (lit "&amp;") s)).

Definition QUOTE : N := 34.

Definition default_html (plain : str) : str :=
  lit "<pre class=" ++ [QUOTE] ++ lit "signature" ++ [QUOTE; 62%N] ++ escape_html plain ++ lit "</pre>".

Definition load (c : Ctx) : option t :=
  let plain := trim_end (default [] (get_config c Config.EmailSignature)) in
  if is_empty (trim plain) then None
  else
    let configured_html := default [] (get_config c Config.EmailSignatureHtml) in
    Some (mk plain (if is_empty (trim configured_html) then default_html plain else configured_html)).

Definition load_for (c : Ctx) (msg_id : Z) : option t :=
  if SendOptions.signature_in_body (SendOptions.load c msg_id)
  then (λ plain, mk plain []) <$> SendOptions.signature c msg_id
  else load c.

Definition append_to_html (html : str) (signature : t) : str :=
  if is_empty (Signature.html signature) then html
  else
    let block := lit "<div class=" ++ [QUOTE] ++ lit "signature-sep" ++ [QUOTE] ++ lit ">--</div>"
                 ++ Signature.html signature in
    match rsplit_once_str (lit "</body>") html with
    | Some (before, after) => before ++ block ++ lit "</body>" ++ after
    | None => html ++ block
    end.
End Signature.

(** The last line that is a separator. *)
Fixpoint rposition (p : str → bool) (ix : nat) (lines : list str) : option nat :=
  match lines with
  | [] => None
  | l :: lines =>
      match rposition p (S ix) lines with
      | Some i => Some i
      | None => if p l then Some ix else None
      end
  end.

Definition is_separator (line : str) : bool := bool_decide (trim_end line = lit "--").

Definition split_signature (text : str) : str * option str :=
  let lines := split LF text in
  match rposition is_separator 0 lines with
  | None => (text, None)
  | Some at_ =>
      let body := join [LF] (take at_ lines) in
      let signature := trim_end (join [LF] (drop (S at_) lines)) in
      (trim_end body, if is_empty (trim signature) then None else Some signature)
  end.

(** ** The text part *)

Definition CRLF : str := [CR; LF].
Definition FWDHINT : str :=
  lit "---------- Forwarded message ----------" ++ CRLF ++ lit "From: Delta Chat" ++ CRLF ++ CRLF.

(** The quote above the text. *)
Definition quote_block (msg_quoted_text : str) : str :=
  (split LF msg_quoted_text ≫= λ quoted_line, lit "> " ++ quoted_line ++ CRLF) ++ CRLF.

Definition quoted_part (quoted_text : option str) (is_encrypted protect_quote : bool) (final_text : str) : str :=
  let quoted := quote_block <$> quoted_text in
  let quoted := if negb is_encrypted && protect_quote then Some (lit "> ..." ++ CRLF ++ CRLF) else quoted in
  match quoted with
  | Some q => q
  | None => if starts_with [GT] final_text then CRLF else []
  end.

Definition footer_text (is_reaction : bool) (signature : option Signature.t) (selfstatus : str) : str :=
  if is_reaction then []
  else match signature with Some s => Signature.plain s | None => selfstatus end.

Definition message_text (forwarded : bool) (quoted_text : option str) (is_encrypted protect_quote : bool)
    (final_text footer : str) : str :=
  (if forwarded then FWDHINT else [])
  ++ quoted_part quoted_text is_encrypted protect_quote final_text
  ++ escape_message_footer_marks final_text
  ++ (if negb (is_empty final_text) && negb (is_empty footer) then CRLF ++ CRLF else [])
  ++ (if negb (is_empty footer) then lit "-- " ++ CRLF else [])
  ++ footer.

(** ** What the reader sees *)

Lemma retain_app a b : retain_no_cr (a ++ b) = retain_no_cr a ++ retain_no_cr b.
Proof. apply filter_app. Qed.

Lemma retain_id s : CR ∉ s → retain_no_cr s = s.
Proof.
  unfold retain_no_cr. induction s as [|c s IH]; [done|]. intros Hc.
  rewrite filter_cons_True by set_solver. by rewrite IH by set_solver.
Qed.

Lemma elem_of_join_split c s x : x ∈ s → x ≠ c → ∃ l, l ∈ split c s ∧ x ∈ l.
Proof.
  intros Hx Hne. rewrite <-(join_split c s) in Hx. revert Hx.
  induction (split c s) as [|l ls IH]; [set_solver|]. intros Hx.
  assert (x ∈ l ∨ x ∈ join [c] ls) as [?|Hj] by (destruct ls; set_solver); [set_solver|].
  destruct (IH Hj) as (l' & ? & ?). set_solver.
Qed.

Lemma elem_of_split_piece c s l x : l ∈ split c s → x ∈ l → x ∈ s.
Proof.
  intros Hl Hx. rewrite <-(join_split c s). revert Hl.
  induction (split c s) as [|k ls IH]; [set_solver|]. intros [->|Hl]%elem_of_cons.
  - destruct ls; set_solver.
  - specialize (IH Hl). destruct ls; set_solver.
Qed.

Lemma escape_no_cr t : CR ∉ t → CR ∉ escape_message_footer_marks t.
Proof.
  intros Ht Hin. destruct (elem_of_join_split LF _ _ Hin) as (l & Hl & Hx); [done|].
  fold (split_lines (escape_message_footer_marks t)) in Hl. rewrite escape_lines in Hl.
  apply list_elem_of_fmap in Hl as (l0 & -> & Hl0). apply Ht. eapply elem_of_split_piece; [exact Hl0|].
  unfold esc_line, sub_prefix in Hx. destruct (strip_prefix_str FOOTER l0) as [r|] eqn:E; [|done].
  apply strip_prefix_str_Some in E as ->. apply elem_of_app in Hx as [Hx|Hx]; [|set_solver].
  vm_compute in Hx. set_solver.
Qed.

(** The lines of the quote. *)
Lemma split_quote_block q rest :
  CR ∉ q → split LF (retain_no_cr (quote_block q) ++ rest)
  = ((λ l, lit "> " ++ l) <$> split LF q) ++ [[]] ++ split LF rest.
Proof.
  intros Hq. unfold quote_block. rewrite retain_app, <-app_assoc.
  assert (∀ ls, Forall (λ l, LF ∉ l ∧ CR ∉ l) ls → split LF (retain_no_cr (ls ≫= λ l, lit "> " ++ l ++ CRLF)
            ++ retain_no_cr CRLF ++ rest) = ((λ l, lit "> " ++ l) <$> ls) ++ [[]] ++ split LF rest) as H.
  { induction 1 as [|l ls [Hlf Hcr] _ IH].
    - exact (split_cons_eq LF rest).
    - rewrite bind_cons, retain_app, <-!app_assoc, fmap_cons.
      assert (retain_no_cr (lit "> " ++ l ++ CRLF) = (lit "> " ++ l) ++ [LF]) as ->.
      { rewrite !retain_app, (retain_id l), <-app_assoc by done. done. }
      assert (∀ X Y : str, (X ++ [LF]) ++ Y = X ++ LF :: Y) as -> by (intros; by rewrite <-app_assoc).
      rewrite split_app, IH. rewrite split_none; [done|].
      apply not_elem_of_app. split; [vm_compute; set_solver|done]. }
  apply H. apply Forall_forall. intros l Hl. split.
  - pose proof (split_pieces LF q) as Hp. by eapply Forall_forall in Hp.
  - intros Hx. apply Hq. by eapply elem_of_split_piece.
Qed.

Definition FWD_LINES : list str :=
  [lit "---------- Forwarded message ----------"; lit "From: Delta Chat"; []].

(** The quote that is sent. *)
Definition sent_quote (quoted_text : option str) (is_encrypted protect_quote : bool) : option str :=
  if negb is_encrypted && protect_quote then Some (lit "...") else quoted_text.

Definition quote_lines (quote : option str) (t : str) : list str :=
  match quote with
  | Some q => ((λ l, lit "> " ++ l) <$> split LF q) ++ [[]]
  | None => if starts_with [GT] t then [[]] else []
  end.

(** The lines of the text with the blank line that sets off the footer. *)
Definition body_lines (t footer : str) : list str :=
  if is_empty footer then esc_line <$> split LF t
  else if is_empty t then [] else (esc_line <$> split LF t) ++ [[]].

Definition footer_lines (footer : str) : list str :=
  if is_empty footer then [] else FOOTER :: split LF footer.

Lemma message_lines forwarded quoted enc protect t footer :
  CR ∉ t → CR ∉ footer → CR ∉ default [] quoted →
  split LF (retain_no_cr (message_text forwarded quoted enc protect t footer))
  = (if forwarded then FWD_LINES else []) ++ quote_lines (sent_quote quoted enc protect) t
    ++ body_lines t footer ++ footer_lines footer.
Proof.
  intros Ht Hf Hq. unfold message_text. rewrite !retain_app.
  rewrite (retain_id (escape_message_footer_marks t)), (retain_id footer) by auto using escape_no_cr.
  set (B := escape_message_footer_marks t ++ _).
  assert (split LF B = body_lines t footer ++ footer_lines footer) as HB.
  { unfold B, body_lines, footer_lines. destruct footer as [|f0 footer]; cbn [is_empty negb andb].
    - rewrite andb_false_r. change (retain_no_cr []) with ([] : str).
      rewrite !app_nil_r. apply escape_lines.
    - destruct t as [|t0 t]; cbn [is_empty negb andb].
      + change (split LF (lit "-- " ++ LF :: f0 :: footer) = FOOTER :: split LF (f0 :: footer)).
        by rewrite split_app.
      + change (split LF (escape_message_footer_marks (t0 :: t) ++ LF :: [] ++ LF :: lit "-- " ++ LF :: f0 :: footer)
                = ((esc_line <$> split LF (t0 :: t)) ++ [[]]) ++ FOOTER :: split LF (f0 :: footer)).
        rewrite !split_app. fold (split_lines (escape_message_footer_marks (t0 :: t))).
        rewrite escape_lines, <-app_assoc. done. }
  assert (split LF (retain_no_cr (quoted_part quoted enc protect t) ++ B)
          = quote_lines (sent_quote quoted enc protect) t ++ split LF B) as HQ.
  { unfold quoted_part, sent_quote, quote_lines. destruct (negb enc && protect).
    - change (lit "> ..." ++ CRLF ++ CRLF) with (quote_block (lit "...")).
      rewrite split_quote_block, <-app_assoc by (vm_compute; set_solver). done.
    - destruct quoted as [q|]; cbn [fmap option_fmap option_map].
      + by rewrite split_quote_block, <-app_assoc.
      + destruct (starts_with [GT] t); [exact (split_cons_eq LF B)|done]. }
  rewrite <-HB, <-HQ. destruct forwarded; [|done].
  set (X := _ ++ B). change (split LF (lit "---------- Forwarded message ----------" ++ LF ::
    lit "From: Delta Chat" ++ LF :: [] ++ LF :: X) = FWD_LINES ++ split LF X).
  rewrite !split_app. done.
Qed.

(** ** The stages of the reader *)

Lemma unquote_quoted l : unquote (lit "> " ++ l) = l.
Proof. done. Qed.

Lemma top_loop_quotes qs l f last h rest :
  top_loop true l (((λ l, lit "> " ++ l) <$> qs) ++ [] :: rest) f last h
  = match qs with
    | [] => (f, last)
    | _ => (match last with None => l | Some _ => f end, Some (l + pred (length qs)))
    end.
Proof.
  revert l f last. induction qs as [|q qs IH]; intros l f last; [done|].
  rewrite fmap_cons. cbn [app top_loop].
  change (is_plain_quote (lit "> " ++ q)) with true. cbn iota. rewrite IH.
  destruct qs as [|q' qs]; cbn [length pred]; [by rewrite Nat.add_0_r|].
  assert (S l + length qs = l + S (length qs)) as -> by lia. by destruct last.
Qed.

Lemma remove_sent_quote quote t rest :
  (starts_with [GT] t = false → quote = None → line_is is_plain_quote (head rest) = false) →
  remove_top_quote (quote_lines quote t ++ rest) true
  = ((match quote with Some _ => [[]] | None => quote_lines None t end) ++ rest, quote).
Proof.
  intros Hr. unfold remove_top_quote, quote_lines. destruct quote as [q|].
  - rewrite <-app_assoc. cbn [app]. rewrite top_loop_quotes.
    destruct (split LF q) as [|q0 qs] eqn:E; [by destruct (split_nonempty LF q)|]. rewrite <-E.
    set (ql := (λ l, lit "> " ++ l) <$> split LF q).
    assert (S (0 + pred (length (split LF q))) = length ql) as ->.
    { unfold ql. rewrite length_fmap, E. done. }
    rewrite drop_app_length, take_app_length, drop_0. f_equal. f_equal.
    unfold ql. rewrite <-list_fmap_compose.
    rewrite (list_fmap_ext _ id), list_fmap_id; [apply join_split|]. intros _ l _. apply unquote_quoted.
  - destruct (starts_with [GT] t) eqn:Et; [done|].
    specialize (Hr eq_refl eq_refl). destruct rest as [|l rest]; [done|].
    simpl in Hr |- *. by rewrite Hr.
Qed.

Lemma find_footer_mark all ix lines m rest near :
  Forall (λ l, is_footer_mark l = false) lines → is_footer_mark m = true →
  find_footer all ix (lines ++ m :: rest) near = Some (ix + length lines).
Proof.
  intros Hl Hm. revert ix near. induction Hl as [|l lines Hl _ IH]; intros ix near; cbn [app find_footer].
  - rewrite Hm. f_equal. simpl. lia.
  - rewrite Hl, IH. f_equal. simpl. lia.
Qed.

Lemma find_footer_none all ix lines near :
  Forall (λ l, is_footer_mark l = false ∧ l ≠ lit "--") lines → find_footer all ix lines near = near.
Proof.
  intros Hl. revert ix near. induction Hl as [|l lines [Hl Hn] _ IH]; intros ix near; cbn [find_footer]; [done|].
  rewrite Hl, IH. unfold is_nearly_footer. by rewrite bool_decide_false.
Qed.

Lemma esc_line_dashes l : esc_line l = lit "--" → l = lit "--".
Proof.
  unfold esc_line, sub_prefix. destruct (strip_prefix_str FOOTER l); [done|done].
Qed.

(** Cutting the footer off what was sent. *)
Lemma remove_sent_footer pre t footer :
  pre = [] ∨ pre = [[]] →
  (footer = [] → Forall (λ l, l ≠ lit "--") (split LF t)) →
  remove_message_footer (pre ++ body_lines t footer ++ footer_lines footer)
  = (pre ++ body_lines t footer, if is_empty footer then None else Some (split LF footer)).
Proof.
  intros Hpre Hd.
  assert (Forall (λ l, is_footer_mark l = false) (pre ++ body_lines t footer)) as Hm.
  { apply Forall_app_2; [destruct Hpre as [->| ->]; repeat constructor|].
    assert (Forall (λ l, is_footer_mark l = false) (esc_line <$> split LF t)) as He.
    { apply Forall_fmap, Forall_true. intros l. apply esc_line_no_mark. }
    unfold body_lines. destruct (is_empty footer); [done|]. destruct (is_empty t); [constructor|].
    apply Forall_app_2; [done|]. repeat constructor. }
  unfold remove_message_footer, footer_lines. destruct footer as [|f0 footer]; cbn [is_empty].
  - rewrite app_nil_r, find_footer_none; [done|].
    apply Forall_app_2; [destruct Hpre as [->| ->]; repeat constructor; done|].
    apply Forall_fmap. eapply Forall_impl; [exact (Hd eq_refl)|]. intros l Hl. simpl.
    split; [apply esc_line_no_mark|]. intros E. by apply Hl, esc_line_dashes.
  - rewrite app_assoc, find_footer_mark by done. rewrite Nat.add_0_l, take_app_length.
    f_equal. f_equal. rewrite cons_middle, app_assoc, drop_app_length'; [done|].
    rewrite !length_app. simpl. lia.
Qed.

Lemma render_sent pre t footer :
  pre = [] ∨ pre = [[]] → Forall (λ l, is_marked l = false) (split LF t) →
  render_message (pre ++ body_lines t footer) false = squeeze (split LF t).
Proof.
  intros Hpre Hm.
  assert (render_message (esc_line <$> split LF t) false = squeeze (split LF t)) as Hr.
  { apply render_escaped, Forall_and. split; [apply split_pieces|done]. }
  assert (∀ ls, render_message (pre ++ ls) false = render_message ls false) as Hp.
  { intros ls. destruct Hpre as [->| ->]; [done|]. unfold render_message. cbn [app].
    by rewrite squeeze_cons_blank. }
  rewrite Hp. unfold body_lines. destruct (is_empty footer); [done|]. destruct t as [|t0 t]; [done|].
  cbn [is_empty]. rewrite <-Hr. unfold render_message. by rewrite squeeze_snoc_blank.
Qed.

(** The first line the reader looks at decides whether the message counts as
    forwarded, or as one that starts with a quote. *)
Lemma first_line_of t footer :
  starts_with [GT] t = false →
  ∃ l, head (body_lines t footer ++ footer_lines footer) = Some l ∧ is_plain_quote l = false
       ∧ (l = lit "---------- Forwarded message ----------" → head (split LF t) = Some l).
Proof.
  intros Ht. destruct (split LF t) as [|h ls] eqn:E; [by destruct (split_nonempty LF t)|].
  assert (is_plain_quote (esc_line h) = false) as Hq.
  { unfold is_plain_quote. destruct (starts_with [GT] (esc_line h)) eqn:Eq; [|done].
    unfold esc_line, sub_prefix in Eq. destruct (strip_prefix_str FOOTER h); [done|].
    apply starts_with_iff in Eq as [r ->]. apply split_head in E as [r' ->].
    by rewrite <-app_assoc, starts_with_app in Ht. }
  assert (esc_line h = lit "---------- Forwarded message ----------" → h = esc_line h) as Hh.
  { unfold esc_line, sub_prefix. by destruct (strip_prefix_str FOOTER h). }
  unfold body_lines, footer_lines. rewrite E. destruct (is_empty footer).
  - exists (esc_line h). split_and!; [done|done|]. intros Hl. simpl. by rewrite <-(Hh Hl).
  - destruct (is_empty t).
    + exists FOOTER. by split_and!.
    + exists (esc_line h). split_and!; [done|done|]. intros Hl. simpl. by rewrite <-(Hh Hl).
Qed.

Lemma skip_sent_header forwarded quote t footer :
  (forwarded = false → quote = None →
   head (split LF t) ≠ Some (lit "---------- Forwarded message ----------")) →
  let rest := quote_lines quote t ++ body_lines t footer ++ footer_lines footer in
  skip_forward_header ((if forwarded then FWD_LINES else []) ++ rest) = (rest, forwarded).
Proof.
  intros Hf rest. destruct forwarded; [done|]. cbn [app].
  assert (∀ l, head rest = Some l → l ≠ lit "---------- Forwarded message ----------") as Hne.
  { intros l Hl ->. unfold rest, quote_lines in Hl. destruct quote as [q|].
    - destruct (split LF q) as [|q0 qs] eqn:E; [by destruct (split_nonempty LF q)|].
      rewrite fmap_cons in Hl. done.
    - destruct (starts_with [GT] t) eqn:Et; [done|].
      destruct (first_line_of t footer Et) as (l & Hl' & _ & Hh).
      rewrite app_nil_l, Hl' in Hl. simplify_eq. by apply Hf, Hh. }
  destruct rest as [|l0 [|l1 [|l2 rest]]]; [done..|]. cbn [skip_forward_header].
  by rewrite bool_decide_false by (by apply Hne).
Qed.

(** C29: what is written is what is read.  The reader of a message gets its text
    with only superfluous blank lines squeezed out, whatever lines of dashes it
    has, the quote above it as quoted (hidden when it would leak from an
    encrypted message), the forwarded mark exactly when it was forwarded, and
    the signature or status as the footer.  The text, the quote and the footer
    have no carriage return; without a footer, the text must not have a line of
    two dashes ([bare_dashes_cut_text]); it must not start with the forwarding
    mark, nor contain a line that starts like an escaped mark
    ([signature_completes_mark]). *)
Theorem sent_text_is_read forwarded quoted enc protect t footer :
  CR ∉ t → CR ∉ footer → CR ∉ default [] quoted →
  Forall (λ l, is_marked l = false) (split LF t) →
  (footer = [] → Forall (λ l, l ≠ lit "--") (split LF t)) →
  (forwarded = false → sent_quote quoted enc protect = None →
   head (split LF t) ≠ Some (lit "---------- Forwarded message ----------")) →
  simplify (message_text forwarded quoted enc protect t footer) true
  = SimplifiedText.mk (squeeze (split LF t)) forwarded false (sent_quote quoted enc protect)
      (if is_empty footer then None else Some (render_message (split LF footer) false)).
Proof.
  intros Ht Hf Hq Hm Hd Hh. unfold simplify, split_lines. rewrite message_lines by done.
  rewrite skip_sent_header by done. cbn iota.
  set (quote := sent_quote quoted enc protect) in *.
  rewrite remove_sent_quote.
  2: { intros Et _. destruct (first_line_of t footer Et) as (l & -> & Hl & _). done. }
  assert (∃ pre, (pre = [] ∨ pre = [[]]) ∧ (match quote with Some _ => [[]] | None => quote_lines None t end) = pre)
    as (pre & Hpre & ->).
  { destruct quote; [eauto|]. unfold quote_lines. destruct (starts_with [GT] t); eauto. }
  cbn iota zeta. rewrite remove_sent_footer by done. cbn iota zeta. rewrite render_sent by done.
  by destruct (is_empty footer).
Qed.

(** A text without superfluous blank lines is read as it is. *)
Lemma sent_text_unchanged t : tidy_lines (split LF t) = split LF t → squeeze (split LF t) = t.
Proof. intros E. by rewrite squeeze_tidy, E, join_split. Qed.

(** ** The composer's signature *)

Lemma rposition_none p ix lines : Forall (λ l, p l = false) lines → rposition p ix lines = None.
Proof. intros Hl. revert ix. induction Hl as [|l lines Hp _ IH]; intros ix; simpl; [done|]. by rewrite IH, Hp. Qed.

Lemma rposition_app p ix A m B :
  p m = true → Forall (λ l, p l = false) B → rposition p ix (A ++ m :: B) = Some (ix + length A).
Proof.
  intros Hm HB. revert ix. induction A as [|l A IH]; intros ix; cbn [app rposition length].
  - rewrite rposition_none, Hm by done. f_equal. lia.
  - rewrite IH. f_equal. lia.
Qed.

(** The separator the composer writes is found again, below whatever the body
    has of its own. *)
Lemma split_signature_exact body sig :
  Forall (λ l, is_separator l = false) (split LF sig) →
  split_signature (body ++ LF :: FOOTER ++ LF :: sig)
  = (trim_end body, if is_empty (trim (trim_end sig)) then None else Some (trim_end sig)).
Proof.
  intros Hs. unfold split_signature. rewrite split_app, split_app.
  rewrite (split_none LF FOOTER) by (vm_compute; set_solver). cbn [app].
  rewrite rposition_app by done. rewrite Nat.add_0_l, take_app_length, join_split.
  rewrite cons_middle, app_assoc, drop_app_length' by (rewrite length_app; simpl; lia).
  by rewrite join_split.
Qed.

(** A signature the composer shows in the body is sent once, as a footer.
    What the user typed above the last separator is the text the reader gets,
    what is below it is the footer, and the configured signature is not added. *)
Theorem body_signature_sent_once c id choice body sig selfstatus :
  CR ∉ body → CR ∉ sig → is_empty (trim (trim_end sig)) = false →
  Forall (λ l, is_separator l = false) (split LF sig) →
  Forall (λ l, is_marked l = false) (split LF (trim_end body)) →
  head (split LF (trim_end body)) ≠ Some (lit "---------- Forwarded message ----------") →
  let '(text, signature) := split_signature (body ++ LF :: FOOTER ++ LF :: sig) in
  let c' := final (SendOptions.set id (SendOptions.mk choice true) signature) c in
  let footer := footer_text false (Signature.load_for c' id) selfstatus in
  simplify (message_text false None true false text footer) true
  = SimplifiedText.mk (squeeze (split LF (trim_end body))) false false None
      (Some (render_message (split LF (trim_end sig)) false)).
Proof.
  intros Hb Hs Hne Hsep Hm Hh. rewrite split_signature_exact, Hne by done. cbv zeta iota.
  set (c' := final _ c).
  assert (Signature.load_for c' id = Some (Signature.mk (trim_end sig) [])) as ->.
  { unfold Signature.load_for, SendOptions.load, SendOptions.signature, c', final, SendOptions.set.
    rewrite decide_False by (intros E; by simplify_eq). rewrite run_modify. cbn [fst].
    change (msg_send_options (set_msg_send_options ?f c)) with (f (msg_send_options c)).
    rewrite !lookup_insert_eq. done. }
  cbn [footer_text Signature.plain].
  assert (∀ s, CR ∉ s → CR ∉ trim_end s) as Htr.
  { intros s Hcr Hin. apply Hcr. unfold trim_end, drop_while_end in Hin.
    apply elem_of_reverse in Hin. destruct (drop_while_suffix is_whitespace (reverse s)) as (k & Hk & _).
    apply elem_of_reverse. rewrite Hk. set_solver. }
  rewrite sent_text_is_read; [|by auto|by auto|set_solver|done| |done].
  - destruct (trim_end sig); [done|]. done.
  - intros E. rewrite E in Hne. done.
Qed.

(** ** Instances *)

Lemma sent_text_is_read_witness :
  simplify (message_text true (Some (lit "asked")) true false (lit "-- answer") (lit "Alice")) true
  = SimplifiedText.mk (lit "-- answer") true false (Some (lit "asked")) (Some (lit "Alice")).
Proof.
  rewrite (sent_text_is_read true (Some (lit "asked")) true false (lit "-- answer") (lit "Alice")).
  - vm_compute. reflexivity.
  - vm_compute. set_solver.
  - vm_compute. set_solver.
  - vm_compute. set_solver.
  - repeat constructor.
  - discriminate.
  - discriminate.
Defined.

Lemma body_signature_sent_once_witness :
  let '(text, signature) := split_signature (lit "hello" ++ LF :: FOOTER ++ LF :: lit "Alice") in
  let c' := final (SendOptions.set 7 (SendOptions.mk EncryptionChoice.Auto true) signature) empty_ctx in
  let footer := footer_text false (Signature.load_for c' 7) (lit "busy") in
  simplify (message_text false None true false text footer) true
  = SimplifiedText.mk (lit "hello") false false None (Some (lit "Alice")).
Proof.
  apply (body_signature_sent_once empty_ctx 7 EncryptionChoice.Auto (lit "hello") (lit "Alice") (lit "busy")).
  - vm_compute. set_solver.
  - vm_compute. set_solver.
  - reflexivity.
  - repeat constructor.
  - repeat constructor.
  - discriminate.
Defined.

(** Escaping does not protect a line of two dashes: without a footer, such a
    line after a blank one is taken for a footer mark, and the reader loses the
    rest of the text. *)
Example bare_dashes_cut_text :
  let t := lit "hello" ++ [LF; LF] ++ lit "--" ++ [LF] ++ lit "world" in
  SimplifiedText.text (simplify (message_text false None true false t []) true) = lit "hello"
  ∧ SimplifiedText.footer (simplify (message_text false None true false t []) true) = Some (lit "world").
Proof. vm_compute. done. Qed.

(** The blank line that sets off the signature can complete a forwarding mark. *)
Example signature_completes_mark :
  let t := lit "---------- Forwarded message ----------" ++ [LF] ++ lit "From: me" in
  SimplifiedText.text (simplify (message_text false None true false t (lit "Alice")) true) = []
  ∧ SimplifiedText.is_forwarded (simplify (message_text false None true false t (lit "Alice")) true) = true.
Proof. vm_compute. done. Qed.

(** A removed signature is replaced by the status. *)
Example removed_signature_sends_status :
  let '(text, signature) := split_signature (lit "hello") in
  let c' := final (SendOptions.set 7 (SendOptions.mk EncryptionChoice.Auto true) signature) empty_ctx in
  footer_text false (Signature.load_for c' 7) (lit "busy") = lit "busy".
Proof. vm_compute. done. Qed.

(** Escaping leaves no mark-up. *)
Lemma escape_html_no_tags s : 60%N ∉ Signature.escape_html s ∧ 62%N ∉ Signature.escape_html s.
Proof.
  unfold Signature.escape_html.
  assert (∀ c by_ x s, x ∈ replace_char c by_ s → x ∈ by_ ∨ (x ∈ s ∧ x ≠ c)) as Hr.
  { intros c b x l Hx. unfold replace_char in Hx. apply list_elem_of_bind in Hx as (y & Hy & Hin).
    case_decide; [by left|]. apply list_elem_of_singleton in Hy. subst. by right. }
  split; intros [H|[H Hne]]%Hr; try done; try (vm_compute in H; set_solver).
  apply Hr in H as [H|[H Hne']]; [vm_compute in H; set_solver|done].
Qed.
