(* ===== verification/Send.v ===== *)
(** * Send: composing and sending a mail ([email/compose.rs], [chat.rs]).

    The whole way of a composed text mail: [compose::send], the draft that gives
    it an id (in [Drafts]), [send_msg], [prepare_send_msg], [prepare_msg_raw] and
    [create_send_msg_jobs] up to the row of the [smtp] queue.  Attachments, which
    go through the blob directory, are not modelled.  Rendering is an argument:
    the MIME text and the subject line, or an error. *)

From S2P Require Import Prelude Text Substr Store Labels Trash Gating Blocklist Threading.
From S2P Require Import Params Policy Receipts Compose ContactTools Contacts Structured Truncate Extras.
From S2P Require Import WireText Chats Drafts.

(** What a call that writes other tables leaves alone. *)
Ltac framed := preserve; try (apply preserves_modify; intros ? <-; reflexivity).

Section send.
Context `{!UnicodeCase, !SqlChoice}.
Context (self_msg device_messages messages_e2ee_info_msg : str).
Context (create_keypair : str → result str).
Context (addresses_from_public_key : str → option (list str)).
Context (create_and_deduplicate_from_bytes : str → result str).
(** The text [unencrypted_email] of [stock_str] for a domain, and the rendering of
    a message for an envelope: the MIME text and the subject. *)
Context (unencrypted_email : str → str).
Context (render : Ctx → Message.t → Envelope.t → result (str * str)).

(** ** Whether a chat can be sent to *)

Inductive CantSendReason :=
  SpecialChat | DeviceChat | ContactRequest | ReadOnlyMailingList | InBroadcast | NotAMember | MissingKey.

Definition is_self_in_chat (c : Ctx) (chat : Chat.t) : bool :=
  if decide (Chat.typ chat ∈ [Chattype_Single; Chattype_OutBroadcast; Chattype_Mailinglist]) then true
  else bool_decide ((Chat.id chat, ContactId.SELF) ∈ chats_contacts c).

(** The last check: the chat of a key-contact whose key is not held. *)
Definition member_key_missing (chat : Chat.t) : cmd Ctx bool :=
  c ← gets id;
  match get_chat_contacts c (Chat.id chat) with
  | [] => mret false
  | member :: _ =>
      contact ← or_bail (get_contact c member) "contact not found";
      mret (match Contact.fingerprint contact with
            | Some fingerprint => negb (bool_decide (fingerprint ∈ public_keys c))
            | None => false
            end)
  end.

Definition why_cant_send_ext (chat : Chat.t) (skip_fn : CantSendReason → bool)
    : cmd Ctx (option CantSendReason) :=
  if chat_is_special (Chat.id chat) && negb (skip_fn SpecialChat) then mret (Some SpecialChat)
  else if Chat.is_device_talk chat && negb (skip_fn DeviceChat) then mret (Some DeviceChat)
  else if Chat.is_contact_request chat && negb (skip_fn ContactRequest) then mret (Some ContactRequest)
  else if (Chat.typ chat =? Chattype_Mailinglist)%Z
          && is_empty (default [] (Params.get (Chat.param chat) Key.ListPost))
          && negb (skip_fn ReadOnlyMailingList) then mret (Some ReadOnlyMailingList)
  else if (Chat.typ chat =? Chattype_InBroadcast)%Z && negb (skip_fn InBroadcast) then mret (Some InBroadcast)
  else
    member ← gets (λ c, is_self_in_chat c chat);
    if negb (skip_fn NotAMember) && negb member then mret (Some NotAMember)
    else if negb (skip_fn MissingKey) && (Chat.typ chat =? Chattype_Single)%Z then
      missing ← member_key_missing chat;
      mret (if missing : bool then Some MissingKey else None)
    else mret None.

(** What [prepare_send_msg] lets pass. *)
Definition skip_fn (msg : Message.t) (reason : CantSendReason) : bool :=
  let cmd_ := get_cmd (Message.param msg) in
  match reason with
  | ContactRequest => (cmd_ =? SystemMessage.SecurejoinMessage)%Z
  | NotAMember => (cmd_ =? SystemMessage.MemberRemovedFromGroup)%Z
  | InBroadcast =>
      negb (default 0%Z (get_int (Message.param msg) Key.Reaction) =? 0)%Z
      || (cmd_ =? SystemMessage.MemberRemovedFromGroup)%Z || (cmd_ =? SystemMessage.SecurejoinMessage)%Z
  | MissingKey => default false (Params.get_bool (Message.param msg) Key.ForcePlaintext)
  | _ => false
  end.

(** ** The place in the conversation *)

(** The newest message of the chat a new one refers to. *)
Definition may_be_parent (chat_id : Z) (m : Msg.t) : bool :=
  (Msg.chat_id m =? chat_id)%Z
  && ((MessageState.to_i64 MessageState.InFresh <=? Msg.state m)%Z
      && (Msg.state m <=? MessageState.to_i64 MessageState.InSeen)%Z
      || (MessageState.to_i64 MessageState.OutPending <=? Msg.state m)%Z)
  && negb (Msg.hidden m)
  && (Msg.download_state m =? 0)%Z
  && negb (Msg.from_id m =? ContactId.INFO)%Z.

(** [ORDER BY timestamp DESC, id DESC], NULL last. *)
Definition newer_leb (a b : Z * Msg.t) : bool :=
  match Msg.timestamp a.2, Msg.timestamp b.2 with
  | Some x, Some y => (y <? x)%Z || ((x =? y)%Z && (b.1 <=? a.1)%Z)
  | Some _, None => true
  | None, Some _ => false
  | None, None => (b.1 <=? a.1)%Z
  end.

Definition get_parent_mime_headers (c : Ctx) (chat_id : Z) : result (option (str * str * str)) :=
  match sort_by newer_leb (filter (λ r, may_be_parent chat_id r.2 = true) (map_to_list (msgs c))) with
  | [] => Ok None
  | (_, m) :: _ =>
      match Msg.rfc724_mid m, Msg.mime_in_reply_to m with
      | Some mid, Some in_reply_to => Ok (Some (mid, in_reply_to, default [] (Msg.mime_references m)))
      | _, _ => Err "Invalid column type Null"
      end
  end.

(** [rsplit(' ').take(2)], put back in order. *)
Definition last_two (references : str) : list str :=
  let pieces := split BLANK references in drop (length pieces - 2) pieces.

Definition new_references (msg_mid : str) (parent : str * str * str) : str :=
  let '(mid, in_reply_to, references) := parent in
  let references_vec := last_two (if is_empty references then in_reply_to else references) in
  let references_vec :=
    if negb (is_empty mid) && negb (bool_decide (mid ∈ references_vec))
    then references_vec ++ [mid] else references_vec in
  if is_empty references_vec then msg_mid else join [BLANK] references_vec.

(** ** Writing the message *)

(** The columns [prepare_msg_raw] writes; the rest is kept in an update and
    takes its default in an insert. *)
Definition raw_row (msg : Message.t) (to_id : Z) (msg_text references : str) (timer : Timer.t)
    (ephemeral_timestamp : Z) (old : Msg.t) : Msg.t := {|
  Msg.rfc724_mid := Some (Message.rfc724_mid msg);
  Msg.pre_rfc724_mid := Msg.pre_rfc724_mid old;
  Msg.mime_in_reply_to := Some (default [] (Message.in_reply_to msg));
  Msg.mime_references := Some references;
  Msg.subject := Some (Message.subject msg);
  Msg.txt := msg_text;
  Msg.txt_normalized := normalize_text msg_text;
  Msg.timestamp := Some (Message.timestamp_sort msg);
  Msg.timestamp_sent := Msg.timestamp_sent old;
  Msg.timestamp_rcvd := Msg.timestamp_rcvd old;
  Msg.chat_id := Message.chat_id msg;
  Msg.from_id := ContactId.SELF;
  Msg.to_id := to_id;
  Msg.state := MessageState.to_i64 (Message.state msg);
  Msg.hidden := Message.hidden msg;
  Msg.param := Params.to_string (Message.param msg);
  Msg.ephemeral_timer := Timer.to_u32 timer;
  Msg.ephemeral_timestamp := ephemeral_timestamp;
  Msg.deleted := Msg.deleted old;
  Msg.typ := Viewtype_Text;
  Msg.download_state := Msg.download_state old;
|}.

Definition default_row : Msg.t :=
  Msg.mk (Some []) (Some []) (Some []) None (Some []) [] None (Some 0%Z) 0 0 0 0 0 0 false [] 0 0 false 0 0.

(** [Chat::prepare_msg_raw] for a one-to-one chat, of a message that carries no
    location.  [mid] is the Message-ID made up for a message without one. *)
Definition prepare_msg_raw (mid : str) (chat : Chat.t) (msg : Message.t) (update_msg_id : option Z)
    : cmd Ctx Message.t :=
  let msg := if is_empty (Message.rfc724_mid msg)
             then Message.mk (Message.id msg) mid (Message.chat_id msg) (Message.state msg) (Message.text msg)
                    (Message.subject msg) (Message.param msg) (Message.in_reply_to msg) (Message.hidden msg)
                    (Message.mime_modified msg) (Message.timestamp_sort msg)
             else msg in
  c ← gets id;
  to_id ← or_bail (chat_member c (Chat.id chat)) "Cannot set message, contact not found";
  let msg := Message.with_param
    (set_optional Key.Bot (if get_config_bool c Config.Bot then Some (lit "1") else None) (Message.param msg)) msg in
  '(msg, references) ←
    (if Chat.is_self_talk chat then mret (msg, [])
     else
       parent ← lift (get_parent_mime_headers c (Chat.id chat));
       match parent with
       | Some (parent_mid, in_reply_to, references) =>
           let msg' :=
             match Message.in_reply_to msg with
             | None => if negb (is_empty parent_mid) then Message.with_reply (Some parent_mid) msg else msg
             | Some _ => msg
             end in
           mret (msg', new_references (Message.rfc724_mid msg) (parent_mid, in_reply_to, references))
       | None => mret (msg, Message.rfc724_mid msg)
       end);
  timer ← (if (get_cmd (Message.param msg) =? SystemMessage.EphemeralTimerChanged)%Z then mret Timer.Disabled
           else get_ephemeral_timer (Chat.id chat));
  let ephemeral_timestamp :=
    match timer with Timer.Disabled => 0%Z | _ => sat_add (clock c) (Timer.to_u32 timer) end in
  let '(msg_text, _) := truncate_msg_text c (Message.text msg) in
  let msg := Message.with_place (Chat.id chat) (Message.state msg) msg in
  match update_msg_id with
  | Some id =>
      modify (set_msgs (alter (raw_row msg to_id msg_text references timer ephemeral_timestamp) id)) ;;
      mret (Message.with_id id msg)
  | None =>
      id ← insert_msg (raw_row msg to_id msg_text references timer ephemeral_timestamp default_row);
      mret (Message.with_id id msg)
  end.

(** [unarchive_if_not_muted] for a message that is not fresh. *)
Definition unarchive_row (now : Z) (r : ChatRow.t) : ChatRow.t :=
  if (ChatRow.archived r =? 1)%Z && negb ((ChatRow.muted_until r =? -1)%Z || (now <? ChatRow.muted_until r)%Z)
  then ChatRow.mk (ChatRow.typ r) (ChatRow.name r) (ChatRow.grpid r) (ChatRow.blocked r)
         (ChatRow.ephemeral_timer r) (ChatRow.param r) 0 (ChatRow.muted_until r)
  else r.

Definition unarchive_if_not_muted (chat_id : Z) : cmd Ctx unit :=
  modify (λ c, set_chats (alter (unarchive_row (clock c)) chat_id) c).

(** ** The queue *)

(** [msg.update_param] *)
Definition with_packed (param : str) (m : Msg.t) : Msg.t := {|
  Msg.rfc724_mid := Msg.rfc724_mid m;
  Msg.pre_rfc724_mid := Msg.pre_rfc724_mid m;
  Msg.mime_in_reply_to := Msg.mime_in_reply_to m;
  Msg.mime_references := Msg.mime_references m;
  Msg.subject := Msg.subject m;
  Msg.txt := Msg.txt m;
  Msg.txt_normalized := Msg.txt_normalized m;
  Msg.timestamp := Msg.timestamp m;
  Msg.timestamp_sent := Msg.timestamp_sent m;
  Msg.timestamp_rcvd := Msg.timestamp_rcvd m;
  Msg.chat_id := Msg.chat_id m;
  Msg.from_id := Msg.from_id m;
  Msg.to_id := Msg.to_id m;
  Msg.state := Msg.state m;
  Msg.hidden := Msg.hidden m;
  Msg.param := param;
  Msg.ephemeral_timer := Msg.ephemeral_timer m;
  Msg.ephemeral_timestamp := Msg.ephemeral_timestamp m;
  Msg.deleted := Msg.deleted m;
  Msg.typ := Msg.typ m;
  Msg.download_state := Msg.download_state m;
|}.

Definition update_param (msg : Message.t) : cmd Ctx unit :=
  modify (set_msgs (alter (with_packed (Params.to_string (Message.param msg))) (Message.id msg))).

(** The [UPDATE] before the queue: sort the message to the bottom, and keep the
    Message-ID of a pre-message, the subject and the parameters. *)
Definition sent_states : list Z := [10; 13; 16; 18; 20; 24; 26]%Z.

Definition max_timestamp (c : Ctx) (chat_id msg_id : Z) : option Z :=
  foldr (λ r acc,
    if decide (Msg.state r.2 ∈ sent_states ∧ Msg.chat_id r.2 = chat_id ∧ (r.1 ≤ msg_id)%Z) then
      match Msg.timestamp r.2, acc with
      | Some t, Some a => Some (Z.max t a)
      | Some t, None => Some t
      | None, acc => acc
      end
    else acc) None (map_to_list (msgs c)).

Definition with_sent (timestamp : option Z) (subject param : str) (m : Msg.t) : Msg.t := {|
  Msg.rfc724_mid := Msg.rfc724_mid m;
  Msg.pre_rfc724_mid := Some [];
  Msg.mime_in_reply_to := Msg.mime_in_reply_to m;
  Msg.mime_references := Msg.mime_references m;
  Msg.subject := Some subject;
  Msg.txt := Msg.txt m;
  Msg.txt_normalized := Msg.txt_normalized m;
  Msg.timestamp := timestamp;
  Msg.timestamp_sent := Msg.timestamp_sent m;
  Msg.timestamp_rcvd := Msg.timestamp_rcvd m;
  Msg.chat_id := Msg.chat_id m;
  Msg.from_id := Msg.from_id m;
  Msg.to_id := Msg.to_id m;
  Msg.state := Msg.state m;
  Msg.hidden := Msg.hidden m;
  Msg.param := param;
  Msg.ephemeral_timer := Msg.ephemeral_timer m;
  Msg.ephemeral_timestamp := Msg.ephemeral_timestamp m;
  Msg.deleted := Msg.deleted m;
  Msg.typ := Msg.typ m;
  Msg.download_state := Msg.download_state m;
|}.

(** [get_published_secondary_self_addrs] and [smtp::add_self_recipients] *)
Definition secondary_self_addrs (c : Ctx) : list str :=
  (filter (λ t, t.2 = true ∧ get_raw_config c (lit "configured_addr") ≠ Some t.1) (transports c)).*1.

Definition add_self_recipients (encrypted : bool) (recipients : list str) : cmd Ctx (list str) :=
  c ← gets id;
  from ← or_bail (get_config_key c (lit "configured_addr")) "No self addr configured";
  mret (recipients ++ (if encrypted then secondary_self_addrs c else []) ++ [from]).

(** The two parameters the encryption policy reads and writes, and whether the
    user wrote the message. *)
Definition policy_view (msg : Message.t) : Param.t :=
  Param.mk (negb (Message.is_system_message msg)) (get_int (Message.param msg) Key.GuaranteeE2ee)
    (get_int (Message.param msg) Key.ForcePlaintext).

(** What the policy wrote, put back into the message: it sets a key or leaves it. *)
Definition put_changed (k : Key.t) (old new : option Z) (q : Params) : Params :=
  if decide (new = old) then q
  else match new with Some v => set_int k v q | None => Params.remove k q end.

Definition with_policy (p : Param.t) (msg : Message.t) : Message.t :=
  let old := policy_view msg in
  Message.with_param
    (put_changed Key.ForcePlaintext (Param.force_plaintext old) (Param.force_plaintext p)
      (put_changed Key.GuaranteeE2ee (Param.guarantee_e2ee old) (Param.guarantee_e2ee p) (Message.param msg)))
    msg.

(** [MimeFactory::from_msg] of a text message to the one-to-one chat with
    [contact_id], with the origin it raises; [from_msg] computes the addressing. *)
Definition mime_factory (attach_profile_data : bool) (contact_id : Z) (msg : Message.t) : cmd Ctx Envelope.t :=
  chat ← load_chat (Message.chat_id msg);
  c ← gets id;
  from_addr ← or_bail (get_config_key c (lit "configured_addr")) "No self addr configured";
  if Chat.is_self_talk chat then
    let name := match Params.get (Message.param msg) Key.OverrideSenderDisplayname with
                | Some name => name
                | None => if attach_profile_data then default [] (get_config_key c (lit "displayname")) else []
                end in
    mret (Envelope.mk [(name, from_addr)] [] [] true)
  else
    or_bail (Store.contacts c !! contact_id) "invalid column type" ;;
    (if decide (contact_id = ContactId.SELF
                ∨ get_cmd (Message.param msg) ∈ [SystemMessage.MemberRemovedFromGroup; SystemMessage.SecurejoinMessage])
     then mret tt else scaleup_origin [contact_id] Origin.OutgoingTo) ;;
    c ← gets id;
    lift (from_msg addresses_from_public_key attach_profile_data c (Message.id msg) contact_id (policy_view msg)).

(** The recipients of a header. *)
Definition of_header (kind : RecipientKind.t) (header : list (str * str)) : list Recipient.t :=
  (λ r, Recipient.mk kind r.2 r.1) <$> header.

(** What is recorded about a message that is about to go out. *)
Definition record_sent (msg_id : Z) (env : Envelope.t) (recipients : list str) (mime : str) : cmd Ctx unit :=
  attempt (RawMime.store create_and_deduplicate_from_bytes msg_id mime) ;;
  bcc ← gets (λ c, Recipients.load_kind c msg_id RecipientKind.Bcc);
  let sent_to :=
    of_header RecipientKind.To (Envelope.to env) ++ of_header RecipientKind.Cc (Envelope.cc env) ++ bcc in
  attempt (Recipients.store msg_id sent_to) ;;
  attempt (assign_stored msg_id) ;;
  attempt (record_undelivered msg_id ((Envelope.to env).*2 ++ (Envelope.cc env).*2) recipients) ;;
  mret tt.

(** The queue's transaction.  The code collects what [stmt.execute] returns, the
    number of rows written. *)
Definition enqueue (msg : Message.t) (recipients : list str) (mime : str) : cmd Ctx (list Z) :=
  if is_empty recipients then mret []
  else
    id ← gets (λ c, smtp_seq c + 1)%Z;
    modify (set_smtp_seq (λ _, id)) ;;
    modify (set_smtp (λ q, q ++ [SmtpRow.mk id (Message.rfc724_mid msg) (join [BLANK] recipients) mime (Message.id msg) 0])) ;;
    mret [1%Z].

(** The refusal of a cleartext rendering: the message fails and the chat tells why. *)
Definition refuse_cleartext (notice_mid : str) (msg : Message.t) : cmd Ctx unit :=
  c ← gets id;
  let addr := default [] (get_config_key c (lit "configured_addr")) in
  let text := unencrypted_email (default [] (split AT addr !! 1%nat)) in
  set_msg_failed (Message.id msg) (Message.state msg) ;;
  add_info_msg_with_cmd notice_mid (Message.chat_id msg) text SystemMessage.InvalidUnencryptedMail
    (Message.timestamp_sort msg) (Message.timestamp_sort msg) ;;
  bail "e2e encryption unavailable".

(** The second half of [create_send_msg_jobs]: the rendered message is recorded
    and queued. *)
Definition queue_rendered (msg : Message.t) (env : Envelope.t) (recipients : list str) (mime subject : str)
    : cmd Ctx (list Z) :=
  let param := if Envelope.is_encrypted env then set_int Key.GuaranteeE2ee 1 (Message.param msg)
               else Params.remove Key.GuaranteeE2ee (Message.param msg) in
  modify (λ c, set_msgs (alter (with_sent (max_timestamp c (Message.chat_id msg) (Message.id msg))
                                  subject (Params.to_string param)) (Message.id msg)) c) ;;
  record_sent (Message.id msg) env recipients mime ;;
  transaction (enqueue msg recipients mime).

(** [create_send_msg_jobs] of a text message to the one-to-one chat with
    [contact_id], one that changes neither the name nor the description of a
    group.  A text has no pre-message; locations, the avatar and the device sync
    a rendering may carry are not part of it. *)
Definition create_send_msg_jobs (notice_mid : str) (attach_profile_data : bool) (contact_id : Z) (msg : Message.t)
    : cmd Ctx (list Z) :=
  email_contacts ← gets (λ c, get_chat_contacts c (Message.chat_id msg));
  '(p, _) ← prepare_send (Message.id msg) (policy_view msg) email_contacts;
  let msg := with_policy p msg in
  attempt (apply_default_timer (Message.chat_id msg) (Message.id msg) email_contacts) ;;
  needs ← gets (λ c, needs_encryption c p);
  factory ← caught (mime_factory attach_profile_data contact_id msg);
  match factory with
  | Err e => set_msg_failed (Message.id msg) (Message.state msg) ;; bail e
  | Ok env =>
      c ← gets id;
      if bool_decide (is_Some (get_int (Message.param msg) Key.WebxdcIntegration)) && Message.hidden msg
         || negb (get_config_bool c Config.BccSelf) && is_empty (Envelope.recipients env)
      then
        update_param (Message.with_param (set_int Key.GuaranteeE2ee 1 (Message.param msg)) msg) ;;
        set_delivered (Message.id msg) ;;
        mret []
      else
        match render c msg env with
        | Err e => set_msg_failed (Message.id msg) (Message.state msg) ;; bail e
        | Ok (mime, subject) =>
            recipients ← (if get_config_bool c Config.BccSelf
                          then add_self_recipients (Envelope.is_encrypted env) (Envelope.recipients env)
                          else mret (Envelope.recipients env));
            if needs && negb (Envelope.is_encrypted env) then refuse_cleartext notice_mid msg ;; mret []
            else queue_rendered msg env recipients mime subject
        end
  end.

(** [prepare_send_msg] for a one-to-one chat. *)
Definition prepare_send_msg (notice_mid mid : str) (attach_profile_data : bool) (chat_id : Z) (msg : Message.t) : cmd Ctx Message.t :=
  chat ← load_chat chat_id;
  reason ← why_cant_send_ext chat (skip_fn msg);
  match reason with
  | Some _ => bail "Cannot send"
  | None =>
      let '(msg, update_msg_id) :=
        if decide (Message.state msg = MessageState.OutDraft) then
          (Message.with_hidden false msg,
           if negb (msg_is_special (Message.id msg)) && (Message.chat_id msg =? chat_id)%Z
           then Some (Message.id msg) else None)
        else (msg, None) in
      encrypted ← (if decide (Message.state msg = MessageState.Undefined
                             ∧ get_cmd (Message.param msg) ≠ SystemMessage.SecurejoinMessage)
                   then chat_is_encrypted chat else mret false);
      msg ← (if encrypted : bool then
               let msg := Message.with_param (set_int Key.GuaranteeE2ee 1 (Message.param msg)) msg in
               (if negb (Message.id msg =? 0)%Z then update_param msg else mret tt) ;; mret msg
             else mret msg);
      now ← gets clock;
      let msg := Message.with_timestamp_sort now (Message.with_place (Message.chat_id msg) MessageState.OutPending msg) in
      (if negb (Message.hidden msg) then unarchive_if_not_muted chat_id else mret tt) ;;
      msg ← prepare_msg_raw mid chat msg update_msg_id;
      c ← gets id;
      contact_id ← or_bail (chat_member c chat_id) "contact not found";
      create_send_msg_jobs notice_mid attach_profile_data contact_id msg ;;
      mret msg
  end.

Definition send_msg (notice_mid mid : str) (attach_profile_data : bool) (chat_id : Z) (msg : Message.t) : cmd Ctx Z :=
  ensure (negb (chat_is_special chat_id)) "chat_id cannot be a special chat" ;;
  let msg := if decide (Message.state msg = MessageState.Undefined) then msg
             else Message.with_param (Params.remove Key.ForcePlaintext (Params.remove Key.GuaranteeE2ee (Message.param msg))) msg in
  let msg := if Message.is_system_message msg
             then Message.with_text (sanitize_bidi_characters (Message.text msg)) msg else msg in
  msg ← prepare_send_msg notice_mid mid attach_profile_data chat_id msg;
  mret (Message.id msg).

(** ** [compose::send] *)

Definition recipients_empty (r : RecipientSet.t) : bool :=
  is_empty (RecipientSet.to r) && is_empty (RecipientSet.cc r) && is_empty (RecipientSet.bcc r).

(** The contact a mail is addressed to: one with a key when we hold one. *)
Definition primary_contact (primary : str) : cmd Ctx Z :=
  let '(name, addr) := split_addr (trim primary) in
  known ← gets (λ c, key_contact_for c (addr_normalize addr));
  match known with
  | Some contact_id => mret contact_id
  | None =>
      contact_addr ← lift (contact_address addr);
      '(contact_id, _) ← add_or_lookup create_keypair name contact_addr Origin.OutgoingTo;
      mret contact_id
  end.

(** The message, without an attachment. *)
Definition compose_msg (mid subject text : str) (html : option str) : Message.t :=
  let msg := Message.new_text mid text in
  let msg := if negb (is_empty (trim subject)) then Message.set_subject subject msg else msg in
  match trim <$> html with
  | Some html => if negb (is_empty html) then Message.set_html (Some html) msg else msg
  | None => msg
  end.

(** [mid] and [notice_mid] are the random Message-IDs of the mail and of the
    notice a new encrypted chat, or a refused cleartext, adds to the chat. *)
Definition send (notice_mid mid : str) (attach_profile_data : bool) (recipients : RecipientSet.t)
    (subject text : str) (html : option str) (importance : Importance.t) (options : SendOptions.t) : cmd Ctx Z :=
  ensure (negb (recipients_empty recipients)) "a message needs a recipient" ;;
  primary ← or_bail (head (RecipientSet.to recipients)) "a message needs at least one To: address";
  check recipients options ;;
  contact_id ← primary_contact primary;
  chat_id ← create_for_contact self_msg device_messages messages_e2ee_info_msg notice_mid contact_id;
  let '(text, signature) :=
    if SendOptions.signature_in_body options then split_signature text else (text, None) in
  let msg := compose_msg mid subject text html in
  stored ← set_draft chat_id (Some msg);
  let msg := default msg stored in
  ensure (negb (Message.id msg =? 0)%Z) "draft was not persisted" ;;
  set_recipients create_keypair (Message.id msg) recipients ;;
  Importance.set (Message.id msg) importance ;;
  SendOptions.set (Message.id msg) options signature ;;
  send_msg notice_mid mid attach_profile_data chat_id msg.

(** ** The queue *)

(** What stays as it is until the message is queued: the queue, the settings and
    the user's own addresses; and, once the recipients are stored, these and the
    members of the chats. *)
Definition queue_view (c : Ctx) := (smtp c, config c, env c, transports c).
Definition letter_view (c : Ctx) := (queue_view c, msg_recipients c, chats_contacts c).

Lemma coarser_view {A V U} (view : Ctx → V) (f : V → U) (m : cmd Ctx A) :
  (∀ v, preserves (λ c, view c = v) m) → ∀ u, preserves (λ c, f (view c) = u) m.
Proof.
  intros Hm u c <-. pose proof (Hm (view c) c eq_refl) as Hc.
  destruct (m c) as [c' [a|e]]; by rewrite Hc.
Qed.

Lemma queue_of_letter {A} (m : cmd Ctx A) :
  (∀ v, preserves (λ c, letter_view c = v) m) → ∀ v, preserves (λ c, queue_view c = v) m.
Proof. apply (coarser_view letter_view (λ v, v.1.1)). Qed.

(** Until the chat and the draft are there. *)

Lemma update_chat_names_types k c : ChatRow.typ <$> chats (update_chat_names k c) = ChatRow.typ <$> chats c.
Proof.
  unfold update_chat_names. destruct (pick _) as [[i row]|]; [|done]. destruct (contacts c !! k); [|done].
  cbn [set_chats chats]. apply map_eq. intros j. rewrite !lookup_fmap. destruct (decide (j = i)) as [->|Hj].
  - rewrite lookup_alter_eq. by destruct (chats c !! i).
  - by rewrite lookup_alter_ne.
Qed.

(** What adding contacts leaves alone. *)
Definition contact_view (c : Ctx) := (queue_view c, msgs_seq c, member_view c).

Lemma add_or_lookup_frame name addr origin v :
  preserves (λ c, contact_view c = v) (add_or_lookup create_keypair name addr origin).
Proof.
  unfold add_or_lookup, add_or_lookup_ext, self_fingerprint, generate_keypair, upsert_contact. framed.
  apply preserves_modify. intros c <-. unfold contact_view, member_view. rewrite update_chat_names_types.
  unfold update_chat_names. destruct (pick _) as [[i row]|]; [|done]. by destruct (contacts c !! _).
Qed.

Lemma add_recipients_frame kind typed v :
  preserves (λ c, contact_view c = v) (add_recipients create_keypair kind typed).
Proof.
  induction typed as [|t typed IH]; cbn [add_recipients]; unfold add_recipient; framed. apply add_or_lookup_frame.
Qed.

Lemma recipients_store_frame {V} (view : Ctx → V) msg_id rs v :
  (∀ f c, view (set_msg_recipients f c) = view c) → preserves (λ c, view c = v) (Recipients.store msg_id rs).
Proof. intros Hv. unfold Recipients.store. preserve; apply preserves_modify; intros c <-; apply Hv. Qed.

Lemma set_recipients_frame msg_id rs v :
  preserves (λ c, contact_view c = v) (set_recipients create_keypair msg_id rs).
Proof.
  unfold set_recipients. preserve; auto using add_recipients_frame. by apply recipients_store_frame.
Qed.

Lemma primary_contact_frame primary v : preserves (λ c, contact_view c = v) (primary_contact primary).
Proof. unfold primary_contact. framed. apply add_or_lookup_frame. Qed.

Lemma queue_of_contact {A} (m : cmd Ctx A) :
  (∀ v, preserves (λ c, contact_view c = v) m) → ∀ v, preserves (λ c, queue_view c = v) m.
Proof. apply (coarser_view contact_view (λ v, v.1.1)). Qed.

Lemma check_frame (P : Ctx → Prop) recipients options : preserves P (check recipients options).
Proof. unfold check. preserve. Qed.

Lemma scaleup_queue {V} (view : Ctx → V) ids origin v :
  (∀ f c, view (set_contacts f c) = view c) → (∀ f c, view (set_msg_labels f c) = view c) →
  (∀ f c, view (set_held_msgs f c) = view c) → preserves (λ c, view c = v) (scaleup_origin ids origin).
Proof. by apply scaleup_origin_frame. Qed.

Lemma lookup_by_contact_frame (P : Ctx → Prop) k : preserves P (lookup_by_contact k).
Proof. unfold lookup_by_contact. preserve. Qed.

Lemma add_info_msg_frame mid chat_id text cmd_ t1 t2 v :
  preserves (λ c, letter_view c = v) (add_info_msg_with_cmd mid chat_id text cmd_ t1 t2).
Proof. unfold add_info_msg_with_cmd, get_ephemeral_timer, insert_msg. framed. Qed.

Lemma create_for_contact_frame mid k v :
  preserves (λ c, queue_view c = v) (create_for_contact self_msg device_messages messages_e2ee_info_msg mid k).
Proof.
  unfold create_for_contact, create_for_contact_with_blocked, get_for_contact, insert_chat, add_e2ee_notice, chat_set_blocked.
  framed; auto using lookup_by_contact_frame, load_chat_frame, chat_is_encrypted_frame.
  - apply queue_of_letter. intros. apply add_info_msg_frame.
  - by apply scaleup_queue.
Qed.

(** Ids of messages are given out above the special ones. *)
Definition seq_ok (c : Ctx) : Prop := (DC_MSG_ID_LAST_SPECIAL ≤ msgs_seq c)%Z.

Lemma insert_msg_seq m : preserves seq_ok (insert_msg m).
Proof.
  intros c Hc. unfold insert_msg, ensure, seq_ok in *. unfold_cmd. destruct (_ <=? u32_max)%Z; cbn; lia.
Qed.

Lemma create_for_contact_seq mid k :
  preserves seq_ok (create_for_contact self_msg device_messages messages_e2ee_info_msg mid k).
Proof.
  unfold create_for_contact, create_for_contact_with_blocked, get_for_contact, insert_chat, add_e2ee_notice, chat_set_blocked,
    add_info_msg_with_cmd, get_ephemeral_timer.
  preserve; auto using lookup_by_contact_frame, load_chat_frame, chat_is_encrypted_frame, insert_msg_seq;
    try (by apply preserves_modify).
  intros c Hc. pose proof (scaleup_queue msgs_seq [k] Origin.CreateChat (msgs_seq c)
    (λ _ _, eq_refl) (λ _ _, eq_refl) (λ _ _, eq_refl) c eq_refl) as Hs.
  unfold seq_ok in *. destruct (scaleup_origin _ _ c) as [c' [u|e]]; by rewrite Hs.
Qed.

Lemma set_draft_frame chat_id msg v : preserves (λ c, letter_view c = v) (set_draft chat_id msg).
Proof. unfold set_draft, maybe_delete_draft, do_set_draft, get_draft, Structured.load_from_db, insert_msg. framed. Qed.

(** From the draft to the envelope. *)

Lemma prepare_send_frame (P : Ctx → Prop) msg_id p contacts : preserves P (prepare_send msg_id p contacts).
Proof. unfold prepare_send. preserve. Qed.

Lemma apply_default_timer_queue chat_id msg_id contacts v :
  preserves (λ c, letter_view c = v) (apply_default_timer chat_id msg_id contacts).
Proof. unfold apply_default_timer, get_ephemeral_timer, inner_set_ephemeral_timer. framed. Qed.

Lemma mime_factory_frame attach contact_id msg v :
  preserves (λ c, letter_view c = v) (mime_factory attach contact_id msg).
Proof. unfold mime_factory. preserve; auto using load_chat_frame. by apply scaleup_queue. Qed.

Lemma set_msg_failed_frame msg_id state v : preserves (λ c, letter_view c = v) (set_msg_failed msg_id state).
Proof. unfold set_msg_failed. framed. Qed.

Lemma refuse_cleartext_frame notice_mid msg v :
  preserves (λ c, letter_view c = v) (refuse_cleartext notice_mid msg).
Proof. unfold refuse_cleartext. preserve; auto using set_msg_failed_frame, add_info_msg_frame. Qed.

Lemma update_param_frame msg v : preserves (λ c, letter_view c = v) (update_param msg).
Proof. unfold update_param. framed. Qed.

Lemma set_delivered_frame msg_id v : preserves (λ c, letter_view c = v) (set_delivered msg_id).
Proof. unfold set_delivered. framed. Qed.

Lemma prepare_msg_raw_frame mid chat msg update v :
  preserves (λ c, letter_view c = v) (prepare_msg_raw mid chat msg update).
Proof. unfold prepare_msg_raw, get_ephemeral_timer, insert_msg. framed. Qed.

Lemma why_cant_send_ext_frame (P : Ctx → Prop) chat skip : preserves P (why_cant_send_ext chat skip).
Proof. unfold why_cant_send_ext, member_key_missing. preserve. Qed.

(** What addressing a mail read, and nothing after it writes. *)
Definition address_view (c : Ctx) := (config c, env c, transports c, contacts c, public_keys c, chats c, chats_contacts c).

Lemma record_sent_frame msg_id env recipients mime v :
  preserves (λ c, (smtp c, address_view c) = v) (record_sent msg_id env recipients mime).
Proof.
  unfold record_sent, RawMime.store, RawMime.store_with_retention, record_undelivered, assign_stored, assign.
  framed; try (by apply recipients_store_frame); unfold merge_thread, insert_thread; framed.
Qed.

Lemma queue_rendered_frame msg env recipients mime subject v :
  preserves (λ c, address_view c = v) (queue_rendered msg env recipients mime subject).
Proof.
  unfold queue_rendered, enqueue. cbv zeta. framed.
  exact (coarser_view (λ c, (smtp c, address_view c)) snd _ (record_sent_frame _ _ _ _) v).
Qed.

(** ** A refused mail is not queued *)

(** Where the call fails, the queue is as it was. *)
Definition clean {A} (m : cmd Ctx A) : Prop :=
  ∀ v, spec (λ c, queue_view c = v) m (λ _ _, True) (λ c, queue_view c = v).

Lemma clean_bind {A B} (m : cmd Ctx A) (k : A → cmd Ctx B) :
  (∀ v, preserves (λ c, queue_view c = v) m) → (∀ a, clean (k a)) → clean (m ≫= k).
Proof.
  intros Hm Hk v. eapply spec_bind; [apply Hm|]. intros a. apply Hk.
Qed.

Lemma clean_then_ret {A B} (m : cmd Ctx A) (f : A → B) : clean m → clean (a ← m; mret (f a)).
Proof. intros Hm v c Hc. rewrite run_bind. specialize (Hm v c Hc). by destruct (m c) as [c' [a|e]]. Qed.

Lemma clean_keeps {A} (m : cmd Ctx A) : (∀ v, preserves (λ c, queue_view c = v) m) → clean m.
Proof. intros Hm v c Hc. specialize (Hm v c Hc). by destruct (m c) as [c' [a|e]]. Qed.

Lemma clean_letter {A B} (m : cmd Ctx A) (k : A → cmd Ctx B) :
  (∀ v, preserves (λ c, letter_view c = v) m) → (∀ a, clean (k a)) → clean (m ≫= k).
Proof. intros Hm. apply clean_bind. by apply queue_of_letter. Qed.

Lemma queue_rendered_clean msg env recipients mime subject : clean (queue_rendered msg env recipients mime subject).
Proof.
  unfold queue_rendered. cbv zeta. apply clean_bind; [intros v; framed|intros _].
  apply clean_bind; [|intros _ v c Hc].
  - intros v. refine (coarser_view (λ c, (smtp c, address_view c)) (λ x, (x.1, x.2.1.1.1.1.1.1, x.2.1.1.1.1.1.2, x.2.1.1.1.1.2)) _ _ v).
    intros u. apply record_sent_frame.
  - unfold transaction, enqueue. by destruct (is_empty _).
Qed.

Lemma create_send_msg_jobs_clean notice_mid attach contact_id msg :
  clean (create_send_msg_jobs notice_mid attach contact_id msg).
Proof.
  unfold create_send_msg_jobs.
  apply clean_bind; [intros v; framed|intros contacts].
  apply clean_bind; [intros v; apply prepare_send_frame|intros [p mode]]. cbv zeta.
  apply clean_letter; [intros v; preserve; apply apply_default_timer_queue|intros _].
  apply clean_bind; [intros v; framed|intros needs].
  apply clean_letter; [intros v; preserve; apply mime_factory_frame|intros [env|e]].
  2:{ apply clean_letter; [intros v; apply set_msg_failed_frame|intros _ v]. by intros c Hc. }
  apply clean_bind; [intros v; framed|intros c3]. destruct (_ || _).
  { apply clean_letter; [intros v; apply update_param_frame|intros _].
    apply clean_letter; [intros v; apply set_delivered_frame|intros _ v]. by intros c Hc. }
  destruct (render _ _ env) as [[mime subject]|e].
  2:{ apply clean_letter; [intros v; apply set_msg_failed_frame|intros _ v]. by intros c Hc. }
  apply clean_bind; [intros v; unfold add_self_recipients; framed|intros recipients].
  destruct (needs && _); [|apply queue_rendered_clean].
  apply clean_letter; [intros v; apply refuse_cleartext_frame|intros _ v]. by intros c Hc.
Qed.

Lemma send_msg_clean notice_mid mid attach chat_id msg : clean (send_msg notice_mid mid attach chat_id msg).
Proof.
  unfold send_msg. apply clean_bind; [intros v; framed|intros _]. cbv zeta. apply clean_then_ret.
  match goal with |- clean (prepare_send_msg _ _ _ _ ?m) => generalize m end. intros msg1. unfold prepare_send_msg.
  apply clean_bind; [intros v; apply load_chat_frame|intros chat].
  apply clean_bind; [intros v; apply why_cant_send_ext_frame|intros [reason|]]; [by intros v c Hc|].
  destruct (if decide (Message.state msg1 = MessageState.OutDraft) then _ else _) as [msg2 update].
  apply clean_bind; [intros v; case_decide; [apply chat_is_encrypted_frame|framed]|intros encrypted].
  apply clean_bind; [intros v; destruct encrypted; unfold update_param; framed|intros msg3].
  apply clean_bind; [intros v; framed|intros now].
  apply clean_bind; [intros v; unfold unarchive_if_not_muted; framed|intros _].
  apply clean_letter; [intros v; apply prepare_msg_raw_frame|intros msg4].
  apply clean_bind; [intros v; framed|intros c4]. apply clean_bind; [intros v; framed|intros contact_id].
  apply (clean_then_ret _ (λ _, msg4)), create_send_msg_jobs_clean.
Qed.

Lemma send_clean notice_mid mid attach recipients subject text html importance options :
  clean (send notice_mid mid attach recipients subject text html importance options).
Proof.
  unfold send. apply clean_bind; [intros v; framed|intros _]. apply clean_bind; [intros v; framed|intros primary].
  apply clean_bind; [intros v; apply check_frame|intros _].
  apply clean_bind; [apply queue_of_contact; intros; apply primary_contact_frame|intros contact_id].
  apply clean_bind; [intros v; apply create_for_contact_frame|intros chat_id].
  destruct (if SendOptions.signature_in_body options then _ else _) as [body signature].
  apply clean_letter; [intros v; apply set_draft_frame|intros stored]. cbv zeta.
  apply clean_bind; [intros v; framed|intros _].
  apply clean_bind; [apply queue_of_contact; intros; apply set_recipients_frame|intros _].
  apply clean_bind; [intros v; unfold Importance.set; framed|intros _].
  apply clean_bind; [intros v; unfold SendOptions.set; framed|intros _]. apply send_msg_clean.
Qed.

(** ** A mail that was sent *)

(** The user's own addresses a mail goes to besides. *)
Definition own_copies (c : Ctx) (env : Envelope.t) : list str :=
  if get_config_bool c Config.BccSelf
  then (if Envelope.is_encrypted env then secondary_self_addrs c else [])
       ++ option_list (get_config_key c (lit "configured_addr"))
  else [].

(** The row of the queue for a message: its rendering for the envelope, to the
    envelope's recipients and the user's own copies. *)
Definition queued (msg : Message.t) (env : Envelope.t) (c : Ctx) (row : SmtpRow.t) : Prop :=
  SmtpRow.msg_id row = Message.id msg
  ∧ SmtpRow.rfc724_mid row = Message.rfc724_mid msg
  ∧ SmtpRow.recipients row = join [BLANK] (Envelope.recipients env ++ own_copies c env)
  ∧ (∃ subject, render c msg env = Ok (SmtpRow.mime row, subject))
  ∧ SmtpRow.retries row = 0%Z.

(** What became of the queue of [c] for a message addressed there: a row, or
    nothing when there is nobody to send to. *)
Definition handed_on (forced : Prop) (msg : Message.t) (env : Envelope.t) (c c' : Ctx) : Prop :=
  address_view c' = address_view c
  ∧ (Envelope.recipients env ++ own_copies c env = [] ∧ smtp c' = smtp c
     ∨ ∃ row, smtp c' = smtp c ++ [row] ∧ queued msg env c row ∧ (forced → Envelope.is_encrypted env = true)).

Lemma queue_rendered_ok msg env recipients mime subject c c' rows :
  queue_rendered msg env recipients mime subject c = (c', Ok rows) → recipients ≠ [] →
  ∃ row, smtp c' = smtp c ++ [row] ∧ SmtpRow.msg_id row = Message.id msg ∧ SmtpRow.rfc724_mid row = Message.rfc724_mid msg
    ∧ SmtpRow.recipients row = join [BLANK] recipients ∧ SmtpRow.mime row = mime ∧ SmtpRow.retries row = 0%Z.
Proof.
  intros Hrun Hne. unfold queue_rendered in Hrun. cbv zeta in Hrun. rewrite run_bind_modify in Hrun.
  bind_inv Hrun as u c1 H1.
  apply (preserves_run _ _ _ _ _ (coarser_view (λ c, (smtp c, address_view c)) fst _ (record_sent_frame _ _ _ _) (smtp c))) in H1;
    [|done]. cbn [fst] in H1. unfold transaction, enqueue in Hrun.
  destruct recipients as [|a recipients]; [done|]. cbn [is_empty] in Hrun. unfold_cmd. injection Hrun as <- _.
  eexists. cbn [set_smtp smtp set_smtp_seq]. rewrite H1. by split_and!.
Qed.

Lemma add_self_recipients_ok encrypted recipients c c' res :
  add_self_recipients encrypted recipients c = (c', Ok res) →
  c' = c ∧ res = recipients ++ (if encrypted then secondary_self_addrs c else [])
             ++ option_list (get_config_key c (lit "configured_addr")) ∧ res ≠ [].
Proof.
  unfold add_self_recipients. rewrite run_bind_gets. intros Hrun. unfold id in Hrun.
  bind_inv Hrun as from c1 [-> Hfrom]%or_bail_ok_inv. injection Hrun as <- <-. rewrite Hfrom.
  split_and!; [done|done|]. destruct recipients; [|done]. by destruct (if encrypted then _ else _).
Qed.

Lemma effective_forced c contacts :
  get_config_bool c Config.ForceEncryption = true → EncryptionMode.effective c contacts = EncryptionMode.Strict.
Proof.
  intros Hforce. apply load_strict in Hforce. unfold EncryptionMode.effective. rewrite Hforce. clear Hforce.
  induction contacts as [|x contacts IH]; [done|]. cbn [foldl].
  by destruct (EncryptionMode.for_contact c x) as [[]|].
Qed.

(** The account forces encryption, and the message is not marked as plain text. *)
Definition not_plain (p : Params) : Prop := Param.get_bool (get_int p Key.ForcePlaintext) = false.

Definition forces (c : Ctx) (msg : Message.t) : Prop :=
  get_config_bool c Config.ForceEncryption = true ∧ not_plain (Message.param msg).

Lemma forces_ext c c' : queue_view c' = queue_view c →
  get_config_bool c' Config.ForceEncryption = get_config_bool c Config.ForceEncryption.
Proof.
  intros [= _ E2 E3 _]. unfold get_config_bool, get_config, get_config_opt, get_config_key, get_raw_config.
  by rewrite E2, E3.
Qed.

Lemma needs_forced msg_id msg contacts c c' p' mode c1 :
  prepare_send msg_id (policy_view msg) contacts c = (c', Ok (p', mode)) → forces c msg →
  queue_view c1 = queue_view c → needs_encryption c1 p' = true.
Proof.
  intros Hrun [Hforce Hp] Hv. pose proof (prepare_send_reads msg_id (policy_view msg) contacts c) as Hread.
  rewrite Hrun in Hread. cbn in Hread. subst c'.
  assert (needs_encryption c p' = true) as Hn.
  { eapply prepare_send_strict; [done| |done]. by apply effective_forced. }
  unfold needs_encryption in *. by rewrite (forces_ext c c1 Hv).
Qed.

Lemma queue_of_view c c' : letter_view c' = letter_view c → queue_view c' = queue_view c.
Proof. by intros [= E1 E2 E3 E4 _ _]; unfold queue_view; rewrite E1, E2, E3, E4. Qed.

Lemma letter_run {A} (m : cmd Ctx A) c0 c c' r :
  (∀ v, preserves (λ c, letter_view c = v) m) → m c = (c', r) → letter_view c = letter_view c0 →
  letter_view c' = letter_view c0.
Proof. intros Hm Hrun Hc. exact (preserves_run _ _ _ _ _ (Hm _) Hrun Hc). Qed.

(** The whole of [create_send_msg_jobs]: the message is addressed in a state that
    differs from the first in none of what is stored about the letter. *)
Lemma create_send_msg_jobs_ok notice_mid attach contact_id msg c c' rows :
  create_send_msg_jobs notice_mid attach contact_id msg c = (c', Ok rows) → Message.hidden msg = false →
  ∃ p env c1 c2, letter_view c1 = letter_view c ∧ letter_view c2 = letter_view c
    ∧ mime_factory attach contact_id (with_policy p msg) c1 = (c2, Ok env)
    ∧ handed_on (forces c msg) (with_policy p msg) env c2 c'.
Proof.
  intros Hrun Hhid. unfold create_send_msg_jobs in Hrun. rewrite run_bind_gets in Hrun.
  bind_inv Hrun as [p mode] c1 Hp. apply (preserves_run _ _ _ _ _ (prepare_send_frame (eq c) _ _ _)) in Hp as Hc1; [|done]. subst c1.
  cbv zeta in Hrun. bind_inv Hrun as o c1 H1.
  apply (letter_run _ c) in H1; [|intros v; preserve; apply apply_default_timer_queue|done].
  rewrite run_bind_gets in Hrun. bind_inv Hrun as factory c2 Hm.
  assert (∃ r, mime_factory attach contact_id (with_policy p msg) c1 = (c2, r) ∧ factory = r) as (r & Hm' & ->).
  { unfold caught in Hm. destruct (mime_factory _ _ _ c1) as [x r]. injection Hm as -> ->. by exists factory. }
  clear Hm. apply (letter_run _ c) in Hm' as H2; [|intros v; apply mime_factory_frame|done].
  destruct r as [env|e]; [|by bind_inv Hrun as u c3 _]. rewrite run_bind_gets in Hrun. unfold id in Hrun.
  exists p, env, c1, c2. split_and!; [done..|]. unfold handed_on.
  change (Message.hidden (with_policy p msg)) with (Message.hidden msg) in Hrun. rewrite Hhid, andb_false_r in Hrun. cbn [orb] in Hrun.
  destruct (negb (get_config_bool c2 Config.BccSelf) && is_empty (Envelope.recipients env)) eqn:Hnobody.
  { bind_inv Hrun as u1 c3 H3. bind_inv Hrun as u2 c4 H4. injection Hrun as <- _.
    injection H3 as <-. injection H4 as <-. split; [done|]. left. apply andb_prop in Hnobody as [Hb Hr].
    apply negb_true_iff in Hb. unfold own_copies. rewrite Hb. by destruct (Envelope.recipients env). }
  destruct (render c2 _ env) as [[mime subject]|e] eqn:Hr; [|by bind_inv Hrun as u c3 _].
  bind_inv Hrun as recipients c3 H3.
  assert (c3 = c2 ∧ recipients = Envelope.recipients env ++ own_copies c2 env ∧ recipients ≠ []) as (-> & Hrec & Hne).
  { unfold own_copies. destruct (get_config_bool c2 Config.BccSelf).
    - by apply add_self_recipients_ok in H3 as (-> & -> & ?).
    - injection H3 as <- <-. rewrite app_nil_r. split_and!; [done..|]. by destruct (Envelope.recipients env). }
  destruct (needs_encryption c1 p && negb (Envelope.is_encrypted env)) eqn:Hgate.
  { bind_inv Hrun as u c4 H4. unfold refuse_cleartext in H4. rewrite run_bind_gets in H4. bind_inv H4 as u1 c5 _.
    by bind_inv H4 as u2 c6 _. }
  split; [by apply (preserves_run _ _ _ _ _ (queue_rendered_frame _ _ _ _ _ (address_view c2)) Hrun)|].
  right. apply queue_rendered_ok in Hrun as (row & Hsmtp & R1 & R2 & R3 & R4 & R5); [|done].
  exists row. split; [done|]. split; [|].
  - split_and!; [done|done|by rewrite R3, Hrec|by exists subject; rewrite R4|done].
  - intros Hf. rewrite (needs_forced _ _ _ _ _ _ _ _ Hp Hf (queue_of_view _ _ H1)) in Hgate.
    by destruct (Envelope.is_encrypted env).
Qed.

(** ** The message on its way *)

(** What of a message is kept: its id, its Message-ID, its chat, what was written,
    and whether it is marked as plain text. *)
Definition letter (m : Message.t) :=
  (Message.id m, Message.rfc724_mid m, Message.chat_id m, Message.text m, Message.subject m,
   Message.param m !! Key.ForcePlaintext).

Lemma set_optional_other k x p : k ≠ Key.ForcePlaintext →
  set_optional k x p !! Key.ForcePlaintext = p !! Key.ForcePlaintext.
Proof.
  intros Hk. unfold set_optional, Params.set, Params.remove.
  destruct x; [by rewrite lookup_insert_ne|by rewrite lookup_delete_ne].
Qed.

Lemma prepare_msg_raw_letter mid chat msg i c c' msg' :
  prepare_msg_raw mid chat msg (Some i) c = (c', Ok msg') → Message.rfc724_mid msg = mid →
  Message.id msg = i → Message.chat_id msg = Chat.id chat →
  letter msg' = letter msg ∧ Message.hidden msg' = Message.hidden msg.
Proof.
  unfold prepare_msg_raw. intros Hrun Hmid Hi Hchat.
  assert (∀ b : bool, (if b then Message.mk (Message.id msg) mid (Message.chat_id msg) (Message.state msg) (Message.text msg)
                    (Message.subject msg) (Message.param msg) (Message.in_reply_to msg) (Message.hidden msg)
                    (Message.mime_modified msg) (Message.timestamp_sort msg) else msg) = msg) as Hsame.
  { intros []; [|done]. rewrite <-Hmid. by destruct msg. }
  rewrite Hsame in Hrun. clear Hsame. rewrite run_bind_gets in Hrun.
  bind_inv Hrun as to_id c1 [-> _]%or_bail_ok_inv.
  bind_inv Hrun as [m refs] c2 Hm. bind_inv Hrun as timer c3 Ht.
  assert (letter m = letter msg ∧ Message.hidden m = Message.hidden msg) as [Hl Hh].
  { destruct (Chat.is_self_talk chat).
    - injection Hm as _ <- _. unfold letter. cbn. by rewrite set_optional_other by done.
    - bind_inv Hm as parent c4 _. destruct parent as [[[pm irt] rs]|]; injection Hm as _ <- _.
      + destruct (Message.in_reply_to _), (negb (is_empty pm)); unfold letter; cbn; by rewrite set_optional_other by done.
      + unfold letter. cbn. by rewrite set_optional_other by done. }
  destruct (truncate_msg_text _ _) as [msg_text has_html]. clear Hm Ht.
  injection Hrun as _ <-. unfold letter in *. cbn. injection Hl as E1 E2 E3 E4 E5 E6.
  rewrite E2, E4, E5, E6, Hh, <-Hi, <-Hchat. done.
Qed.

(** A message with a draft: it keeps its id, is shown, and is given to
    [create_send_msg_jobs] for the member of the chat. *)
Lemma prepare_send_msg_ok notice_mid mid attach chat_id msg c c' msg' :
  prepare_send_msg notice_mid mid attach chat_id msg c = (c', Ok msg') →
  Message.state msg = MessageState.OutDraft → msg_is_special (Message.id msg) = false →
  Message.chat_id msg = chat_id → Message.rfc724_mid msg = mid →
  ∃ c1 contact_id rows, letter_view c1 = letter_view c ∧ chat_member c1 chat_id = Some contact_id
    ∧ create_send_msg_jobs notice_mid attach contact_id msg' c1 = (c', Ok rows)
    ∧ letter msg' = letter msg ∧ Message.hidden msg' = false.
Proof.
  intros Hrun Hst Hid Hchat Hmid. unfold prepare_send_msg in Hrun.
  bind_inv Hrun as chat c1 Hload. assert (c1 = c ∧ Chat.id chat = chat_id) as [-> Hcid].
  { unfold load_chat in Hload. rewrite run_bind_gets in Hload. bind_inv Hload as row c2 [-> _]%or_bail_ok_inv.
    bind_inv Hload as u1 c2 [-> _]%ensure_ok_inv. bind_inv Hload as u2 c2 [-> _]%ensure_ok_inv. by injection Hload as <- <-. }
  clear Hload. bind_inv Hrun as reason c1 Hreason. apply (preserves_run _ _ _ _ _ (why_cant_send_ext_frame (eq c) _ _)) in Hreason; [|done].
  subst c1. destruct reason; [done|].
  rewrite decide_True in Hrun by done. rewrite Hid, Hchat, Z.eqb_refl in Hrun. cbn [negb andb] in Hrun.
  rewrite decide_False in Hrun by (cbn; rewrite Hst; naive_solver). rewrite run_bind_ret, run_bind_ret, run_bind_gets in Hrun.
  set (msg1 := Message.with_timestamp_sort _ _) in Hrun. cbv zeta in Hrun.
  bind_inv Hrun as u c1 H1. apply (letter_run _ c) in H1; [|intros v; unfold unarchive_if_not_muted; framed|done].
  bind_inv Hrun as msg2 c2 H2. apply prepare_msg_raw_letter in H2 as Hl; [|cbn; congruence..].
  apply (letter_run _ c) in H2; [|intros v; apply prepare_msg_raw_frame|done].
  rewrite run_bind_gets in Hrun. bind_inv Hrun as contact_id c3 [-> Hmem]%or_bail_ok_inv. bind_inv Hrun as rows c3 H3.
  injection Hrun as <- <-. exists c2, contact_id, rows. destruct Hl as [Hl Hh]. done.
Qed.

Lemma send_msg_ok notice_mid mid attach chat_id msg c c' i :
  send_msg notice_mid mid attach chat_id msg c = (c', Ok i) →
  Message.state msg = MessageState.OutDraft → msg_is_special (Message.id msg) = false →
  Message.chat_id msg = chat_id → Message.rfc724_mid msg = mid → Message.is_system_message msg = false →
  i = Message.id msg ∧ ∃ c1 contact_id msg' rows, letter_view c1 = letter_view c ∧ chat_member c1 chat_id = Some contact_id
    ∧ create_send_msg_jobs notice_mid attach contact_id msg' c1 = (c', Ok rows)
    ∧ (Message.id msg', Message.rfc724_mid msg', Message.chat_id msg', Message.text msg', Message.subject msg')
      = (Message.id msg, mid, chat_id, Message.text msg, Message.subject msg)
    ∧ not_plain (Message.param msg') ∧ Message.hidden msg' = false.
Proof.
  intros Hrun Hst Hid Hchat Hmid Hsys. unfold send_msg in Hrun. bind_inv Hrun as u c1 [-> _]%ensure_ok_inv.
  rewrite decide_False in Hrun by (by rewrite Hst). set (msg1 := Message.with_param _ msg) in Hrun.
  assert (Message.is_system_message msg1 = false) as Hsys1.
  { rewrite <-Hsys. unfold Message.is_system_message, get_cmd, get_int, Params.get. subst msg1. cbn.
    unfold Params.remove. by rewrite !lookup_delete_ne by done. }
  rewrite Hsys1 in Hrun. bind_inv Hrun as msg2 c2 H2. injection Hrun as <- <-.
  apply prepare_send_msg_ok in H2 as (c1 & k & rows & Hv & Hk & Hjobs & Hl & Hh); [|done..].
  injection Hl as E1 E2 E3 E4 E5 E6. split; [done|]. exists c1, k, msg2, rows. split_and!; [done|done|done| | |done].
  - rewrite E1, E2, E3, E4, E5. by subst msg1; cbn; rewrite Hchat, Hmid.
  - unfold not_plain, get_int, Params.get. rewrite E6. subst msg1. cbn. unfold Params.remove. by rewrite lookup_delete_eq.
Qed.

(** ** Before the message is sent *)

Lemma set_draft_ok chat_id msg c c' stored :
  Message.id msg = 0%Z → set_draft chat_id (Some msg) c = (c', Ok stored) →
  (Message.id (default msg stored) ≠ 0%Z) → seq_ok c →
  ∃ i, default msg stored = Message.with_id i (Message.with_place chat_id MessageState.OutDraft msg)
       ∧ msg_is_special i = false.
Proof.
  intros Hid Hrun Hne Hseq. unfold set_draft in Hrun.
  destruct (chat_is_special chat_id); [by injection Hrun as _ <-|]. bind_inv Hrun as [m b] c1 H1.
  injection Hrun as _ <-. cbn. unfold do_set_draft in H1. bind_inv H1 as u c2 [-> _]%ensure_ok_inv.
  rewrite run_bind_gets in H1. cbn [Message.id Message.with_place] in H1. rewrite Hid in H1.
  change (msg_is_special 0) with true in H1. cbv iota in H1. rewrite run_bind_ret in H1. bind_inv H1 as i c2 H2.
  injection H1 as _ <- _. exists i. split; [done|]. unfold transaction, insert_msg, ensure in H2. unfold_cmd.
  destruct (_ <=? u32_max)%Z; [|done]. injection H2 as _ <-. unfold msg_is_special, seq_ok in *.
  apply Z.leb_gt. cbn. lia.
Qed.

Lemma add_recipients_ok kind typed c c' rs :
  add_recipients create_keypair kind typed c = (c', Ok rs) → rs = typed ≫= read_typed kind.
Proof.
  revert c c' rs. induction typed as [|t typed IH]; intros c c' rs Hrun; cbn [add_recipients] in Hrun; [by injection Hrun|].
  bind_inv Hrun as r c1 H1. bind_inv Hrun as rs' c2 H2. injection Hrun as _ <-.
  rewrite (IH _ _ _ H2), bind_cons. f_equal. clear H2 IH.
  unfold add_recipient in H1. cbv zeta in H1. unfold read_typed, typed_blank, typed_addr.
  destruct (is_empty (trim t)); [by injection H1|]. destruct (split_addr (trim t)) as [name addr].
  bind_inv H1 as a c3 _. bind_inv H1 as o c4 _. by injection H1.
Qed.

(** Recipients as they are read back: To, Cc, Bcc. *)
Definition by_kind (rs : list Recipient.t) : list Recipient.t :=
  filter (λ r, Recipient.kind r = RecipientKind.To) rs ++ filter (λ r, Recipient.kind r = RecipientKind.Cc) rs
  ++ filter (λ r, Recipient.kind r = RecipientKind.Bcc) rs.

(** The recipients typed, each once in each kind. *)
Definition stored_recipients (recipients : RecipientSet.t) : list Recipient.t :=
  by_kind (RecipientsFacts.firsts [] (typed_recipients recipients)).

Lemma set_recipients_ok msg_id recipients c c' u :
  set_recipients create_keypair msg_id recipients c = (c', Ok u) →
  Recipients.load c' msg_id = stored_recipients recipients.
Proof.
  unfold set_recipients. intros Hrun. bind_inv Hrun as to c1 H1%add_recipients_ok.
  bind_inv Hrun as cc c2 H2%add_recipients_ok. bind_inv Hrun as bcc c3 H3%add_recipients_ok. subst to cc bcc.
  fold (typed_recipients recipients) in Hrun. pose proof (RecipientsFacts.load_stored msg_id (typed_recipients recipients) c3) as Hl.
  unfold final in Hl. by rewrite Hrun in Hl.
Qed.

(** The message as it was written: without its signature, if that is sent apart. *)
Definition composed (mid subject text : str) (html : option str) (options : SendOptions.t) : Message.t :=
  compose_msg mid subject (if SendOptions.signature_in_body options then (split_signature text).1 else text) html.

Lemma compose_msg_facts mid subject text html :
  let m := compose_msg mid subject text html in
  Message.id m = 0%Z ∧ Message.rfc724_mid m = mid ∧ Message.is_system_message m = false.
Proof. cbv zeta. unfold compose_msg. repeat case_match; done. Qed.

(** What sending did with a mail, from the state [c] to [c']: [contact_id] is the
    person its first recipient stands for and the only member of its chat, [msg]
    what was written, [env] the envelope of the recipients typed, made in a state
    with the settings of [c] and the contacts, keys and chats of [c']. *)
Definition dispatched (attach : bool) (recipients : RecipientSet.t) (written : Message.t) (c c' : Ctx) (i : Z) : Prop :=
  ∃ primary contact_id msg env c1 c2,
    head (RecipientSet.to recipients) = Some primary ∧ outcome (primary_contact primary) c = Ok contact_id
    ∧ (Message.id msg, Message.rfc724_mid msg, Message.text msg, Message.subject msg)
      = (i, Message.rfc724_mid written, Message.text written, Message.subject written)
    ∧ lone_member c' (Message.chat_id msg) contact_id
    ∧ Recipients.load c1 i = stored_recipients recipients
    ∧ mime_factory attach contact_id msg c1 = (c2, Ok env)
    ∧ queue_view c2 = queue_view c
    ∧ handed_on (get_config_bool c Config.ForceEncryption = true) msg env c2 c'.

Lemma queue_run {A} (m : cmd Ctx A) c0 c c' r :
  (∀ v, preserves (λ c, queue_view c = v) m) → m c = (c', r) → queue_view c = queue_view c0 → queue_view c' = queue_view c0.
Proof. intros Hm Hrun Hc. exact (preserves_run _ _ _ _ _ (Hm _) Hrun Hc). Qed.

(** The chat of the mail: its only member is the person the mail is for. *)
Lemma mail_chat notice_mid primary c c1 c2 contact_id chat_id :
  members_ok c → seq_ok c → primary_contact primary c = (c1, Ok contact_id) →
  create_for_contact self_msg device_messages messages_e2ee_info_msg notice_mid contact_id c1 = (c2, Ok chat_id) →
  lone_member c2 chat_id contact_id ∧ seq_ok c2 ∧ queue_view c2 = queue_view c.
Proof.
  intros Hok Hseq H1 H2. apply (preserves_run _ _ _ _ _ (primary_contact_frame primary (contact_view c))) in H1; [|done].
  injection H1 as E1 E2 E3 E4 Eseq Em1 Em2 Em3. split_and!.
  - eapply create_for_contact_member; [|done]. apply (members_ok_ext c); [|done]. unfold member_view. by rewrite Em1, Em2, Em3.
  - apply (preserves_run _ _ _ _ _ (create_for_contact_seq _ _) H2). unfold seq_ok in *. by rewrite Eseq.
  - apply (queue_run _ c) in H2; [done|intros v; apply create_for_contact_frame|].
    unfold queue_view. by rewrite E1, E2, E3, E4.
Qed.

(** What is stored with the draft before it is sent. *)
Lemma draft_dressed msg_id recipients importance options signature c c1 c2 c3 u1 u2 u3 :
  set_recipients create_keypair msg_id recipients c = (c1, Ok u1) →
  Importance.set msg_id importance c1 = (c2, Ok u2) → SendOptions.set msg_id options signature c2 = (c3, Ok u3) →
  Recipients.load c3 msg_id = stored_recipients recipients
  ∧ queue_view c3 = queue_view c ∧ chats_contacts c3 = chats_contacts c.
Proof.
  intros H1 H2 H3. apply set_recipients_ok in H1 as Hl.
  apply (preserves_run _ _ _ _ _ (set_recipients_frame _ _ (contact_view c))) in H1; [|done].
  apply (letter_run _ c1) in H2; [|intros v; unfold Importance.set; framed|done].
  apply (letter_run _ c1) in H3; [|intros v; unfold SendOptions.set; framed|done].
  injection H1 as E1 E2 E3 E4 _ _ Ec _. injection H3 as F1 F2 F3 F4 F5 F6. split_and!.
  - rewrite <-Hl. unfold Recipients.load. by rewrite F5.
  - unfold queue_view. by rewrite F1, F2, F3, F4, E1, E2, E3, E4.
  - by rewrite F6.
Qed.

Lemma handed_on_mono (F G : Prop) msg env c c' : (G → F) → handed_on F msg env c c' → handed_on G msg env c c'.
Proof.
  intros HGF [Hv [Hnone|(row & Hrow & Hq & Hf)]]; split; [done|by left|done|right]. exists row. auto.
Qed.

(** C1: a mail that could not be sent is not in the queue of outgoing mail.  One
    that was is there once, or not at all when its envelope is empty and no copy
    goes to the user: rendered from the text and the subject that were written,
    under the id returned, for the envelope of the person its first recipient
    stands for and of the recipients that were typed, and addressed to exactly
    that envelope and to the user's own copies; and it is encrypted when the
    account forces encryption, whatever the composer, the drafts and the contacts
    of the mail were.  One-to-one chats are to have one member, and ids of
    messages to be given out above the special ones. *)
Theorem send_queue (notice_mid mid : str) (attach : bool) (recipients : RecipientSet.t) (subject text : str)
    (html : option str) (importance : Importance.t) (options : SendOptions.t) (c : Ctx) :
  members_ok c → seq_ok c →
  match send notice_mid mid attach recipients subject text html importance options c with
  | (c', Err _) => smtp c' = smtp c
  | (c', Ok i) => dispatched attach recipients (composed mid subject text html options) c c' i
  end.
Proof.
  intros Hok Hseq. pose proof (send_clean notice_mid mid attach recipients subject text html importance options _ c eq_refl) as Hclean.
  destruct (send _ _ _ _ _ _ _ _ _ c) as [c' [i|e]] eqn:Hrun; [clear Hclean|by injection Hclean].
  unfold send in Hrun. bind_inv Hrun as u1 c0 [-> _]%ensure_ok_inv. bind_inv Hrun as primary c0 [-> Hprim]%or_bail_ok_inv.
  bind_inv Hrun as u2 c0 Hcheck. apply (preserves_run _ _ _ _ _ (check_frame (eq c) _ _)) in Hcheck; [|done]. subst c0.
  bind_inv Hrun as k c1 H1. bind_inv Hrun as chat_id c2 H2.
  destruct (mail_chat _ _ _ _ _ _ _ Hok Hseq H1 H2) as (Hlone & Hseq2 & Hq2).
  destruct (if SendOptions.signature_in_body options then _ else _) as [body signature] eqn:Hbody.
  assert (compose_msg mid subject body html = composed mid subject text html options) as Hmsg.
  { unfold composed. destruct (SendOptions.signature_in_body options); [by rewrite Hbody|by injection Hbody as <- _]. }
  rewrite Hmsg in Hrun. clear Hbody Hmsg. set (written := composed _ _ _ _ _) in *.
  destruct (compose_msg_facts mid subject (if SendOptions.signature_in_body options then (split_signature text).1 else text) html)
    as (W1 & W2 & W3). fold (composed mid subject text html options) in W1, W2, W3. fold written in W1, W2, W3.
  bind_inv Hrun as stored c3 H3. cbv zeta in Hrun. bind_inv Hrun as u3 c4 [-> Hne]%ensure_ok_inv.
  apply negb_true_iff, Z.eqb_neq in Hne.
  destruct (set_draft_ok _ _ _ _ _ W1 H3 Hne Hseq2) as (j & Hj & Hsp). rewrite Hj in Hrun. clear Hj Hne.
  apply (letter_run _ c2) in H3; [|intros v; apply set_draft_frame|done].
  bind_inv Hrun as u4 c4 H4. bind_inv Hrun as u5 c5 H5. bind_inv Hrun as u6 c6 H6.
  destruct (draft_dressed _ _ _ _ _ _ _ _ _ _ _ _ H4 H5 H6) as (Hload & Hq6 & Hcc6). cbn [Message.id Message.with_id] in Hload.
  apply send_msg_ok in Hrun as (-> & c7 & k' & msg & rows & Hv7 & Hmem & Hjobs & Hm & Hnp & Hh); [|done..].
  apply create_send_msg_jobs_ok in Hjobs as (p & env & c8 & c9 & Hv8 & Hv9 & Hfac & Hon); [|done].
  pose proof (queue_of_view _ _ H3) as Hq3.
  assert (queue_view c7 = queue_view c) as Hq7 by (rewrite (queue_of_view _ _ Hv7); congruence).
  assert (chats_contacts c7 = chats_contacts c2) as Hcc7 by (injection Hv7; injection H3; congruence).
  assert (k' = k) as ->.
  { assert (lone_member c7 chat_id k) as Hl7 by (intros x; rewrite Hcc7; apply Hlone).
    apply lone_chat_member in Hl7. congruence. }
  injection Hm as M1 M2 M3 M4 M5. exists primary, k, (with_policy p msg), env, c8, c9. split_and!.
  - done.
  - unfold outcome. by rewrite H1.
  - cbn. by rewrite M1, M2, M4, M5, W2.
  - intros x. cbn. rewrite M3. destruct Hon as [Hav _]. injection Hav as _ _ _ _ _ _ ->. injection Hv9 as _ _ _ _ _ ->.
    rewrite Hcc7. apply Hlone.
  - cbn. rewrite <-Hload. unfold Recipients.load. injection Hv8 as _ _ _ _ -> _. by injection Hv7 as _ _ _ _ -> _.
  - done.
  - rewrite (queue_of_view _ _ Hv9). done.
  - eapply handed_on_mono; [|exact Hon]. intros Hf. split; [|done]. by rewrite (forces_ext c).
Qed.

End send.

Section record.
Context `{!UnicodeCase} (create_and_deduplicate_from_bytes : str → result str).

(** ** What is recorded about a message that went out *)

Lemma firsts_kind k rs seen seen' :
  (∀ a, (k, a) ∈ seen ↔ (k, a) ∈ seen') →
  filter (λ r, Recipient.kind r = k) (RecipientsFacts.firsts seen rs)
  = RecipientsFacts.firsts seen' (filter (λ r, Recipient.kind r = k) rs).
Proof.
  revert seen seen'. induction rs as [|[k' a n] rs IH]; intros seen seen' Hs; [done|].
  rewrite filter_cons. cbn [RecipientsFacts.firsts Recipient.kind Recipient.addr].
  destruct (decide (k' = k)) as [->|Hk].
  - cbn [RecipientsFacts.firsts Recipient.kind Recipient.addr]. destruct (decide ((k, a) ∈ seen)) as [H1|H1].
    + rewrite decide_True by (by apply Hs). by apply IH.
    + rewrite decide_False by (by rewrite <-Hs). rewrite filter_cons, decide_True by done.
      f_equal. apply IH. intros a'. set_solver.
  - case_decide.
    + by apply IH.
    + rewrite filter_cons, decide_False by done. apply IH. intros a'. rewrite elem_of_cons, Hs. naive_solver.
Qed.

Lemma firsts_nodup rs seen :
  NoDup ((λ r, (Recipient.kind r, Recipient.addr r)) <$> rs) →
  (∀ r, r ∈ rs → (Recipient.kind r, Recipient.addr r) ∉ seen) →
  RecipientsFacts.firsts seen rs = rs.
Proof.
  revert seen. induction rs as [|r rs IH]; intros seen Hnd Hs; [done|]. cbn.
  apply NoDup_cons in Hnd as [Hr Hnd]. rewrite decide_False by (apply Hs; by left). f_equal.
  apply IH; [done|]. intros r' Hr' [E|Hin]%elem_of_cons; [|by eapply Hs; [right|]].
  apply Hr. rewrite <-E. by apply (list_elem_of_fmap_2 (λ r, (Recipient.kind r, Recipient.addr r))).
Qed.

Lemma NoDup_fmap_omap {A B C} (f : A → option B) (g : B → C) (l : list A) :
  NoDup l →
  (∀ x y r r', x ∈ l → y ∈ l → f x = Some r → f y = Some r' → g r = g r' → x = y) →
  NoDup (g <$> omap f l).
Proof.
  induction l as [|x l IH]; intros Hnd Hinj; [constructor|]. apply NoDup_cons in Hnd as [Hx Hnd].
  assert (NoDup (g <$> omap f l)) by (apply IH; [done|]; intros; eapply Hinj; by eauto using list_elem_of_further).
  cbn. destruct (f x) as [r|] eqn:Hr; [|done]. cbn. constructor; [|done].
  intros (r' & E & (y & Hy & Hry)%list_elem_of_omap)%list_elem_of_fmap.
  apply Hx. by rewrite (Hinj x y r r'); [|left|right| | |].
Qed.

Lemma recipient_kind_inj z z' k : RecipientKind.from_i64 z = Some k → RecipientKind.from_i64 z' = Some k → z = z'.
Proof.
  unfold RecipientKind.from_i64.
  repeat match goal with |- context [(?a =? ?b)%Z] => destruct (Z.eqb_spec a b) end; congruence.
Qed.

(** A message's stored recipients have no duplicates. *)
Lemma load_nodup c msg_id :
  NoDup ((λ r, (Recipient.kind r, Recipient.addr r)) <$> Recipients.load c msg_id).
Proof.
  unfold Recipients.load. apply NoDup_fmap_omap.
  - unfold sort_by. rewrite merge_sort_Permutation. apply NoDup_filter, NoDup_map_to_list.
  - intros [[[i k] a] v] [[[i' k'] a'] v'] r r' Hx Hy Hr Hr' E.
    apply elem_of_sort_by, list_elem_of_filter in Hx as [Hi Hx%elem_of_map_to_list].
    apply elem_of_sort_by, list_elem_of_filter in Hy as [Hi' Hy%elem_of_map_to_list]. cbn in *. subst i i'.
    apply bind_Some in Hr as (kd & Hk & [= <-]). apply bind_Some in Hr' as (kd' & Hk' & [= <-]). cbn in *.
    injection E as -> ->. rewrite (recipient_kind_inj _ _ _ Hk Hk') in *. rewrite Hx in Hy. by injection Hy as <-.
Qed.

Lemma load_kind_kept c msg_id k :
  RecipientsFacts.firsts [] (Recipients.load_kind c msg_id k) = Recipients.load_kind c msg_id k.
Proof.
  apply firsts_nodup; [|intros r _; apply not_elem_of_nil]. unfold Recipients.load_kind.
  pose proof (load_nodup c msg_id) as Hnd. revert Hnd. generalize (Recipients.load c msg_id). intros l Hnd.
  induction l as [|r l IH]; [done|]. cbn in Hnd. apply NoDup_cons in Hnd as [Hr Hnd].
  rewrite filter_cons. case_decide; [|by apply IH]. cbn. constructor; [|by apply IH].
  intros (r' & E & [_ Hin]%list_elem_of_filter)%list_elem_of_fmap. apply Hr. rewrite E.
  by apply (list_elem_of_fmap_2 (λ r, (Recipient.kind r, Recipient.addr r))).
Qed.

Lemma store_other_tables msg_id rs c :
  msg_undelivered (final (Recipients.store msg_id rs) c) = msg_undelivered c
  ∧ ∃ u, Recipients.store msg_id rs c = (final (Recipients.store msg_id rs) c, Ok u).
Proof. unfold final. rewrite RecipientsFacts.store_run. split; [done|]. by eexists. Qed.

Lemma set_msg_undelivered_id f c : f (msg_undelivered c) = msg_undelivered c → set_msg_undelivered f c = c.
Proof. intros H1. destruct c. unfold set_msg_undelivered. cbn in *. by rewrite H1. Qed.

Lemma record_undelivered_final msg_id addressed sent_to c :
  final (record_undelivered msg_id addressed sent_to) c
  = set_msg_undelivered (λ t, list_to_set ((λ a, (msg_id, a)) <$>
      filter (λ a, to_lowercase a ∉ to_lowercase <$> sent_to) addressed) ∪ t) c.
Proof.
  unfold final, record_undelivered. set (dropped := filter _ addressed). clearbody dropped.
  assert (foldl (λ c addr, set_msg_undelivered (λ t, {[(msg_id, addr)]} ∪ t) c) c dropped
          = set_msg_undelivered (λ t, list_to_set ((λ a, (msg_id, a)) <$> dropped) ∪ t) c) as Hfold.
  { induction dropped as [|a dropped IH] in c |- *.
    - symmetry. apply set_msg_undelivered_id. apply (left_id_L ∅ (∪)).
    - cbn [foldl]. rewrite IH. destruct c. unfold set_msg_undelivered. cbn. f_equal. set_solver. }
  destruct dropped as [|a dropped]; [by rewrite <-Hfold|].
  cbn [is_empty]. rewrite run_bind. unfold transaction. by rewrite for_each_modify, Hfold.
Qed.

Lemma run_attempt_then {A B} (m : cmd Ctx A) (k : cmd Ctx B) c : (attempt m ;; k) c = k (final m c).
Proof. rewrite run_bind. unfold attempt, final. by destruct (m c) as [c' [a|e]]. Qed.

Lemma assign_stored_tables msg_id v :
  preserves (λ c, (msg_recipients c, msg_undelivered c) = v) (assign_stored msg_id).
Proof. unfold assign_stored, assign. framed; unfold merge_thread, insert_thread; framed. Qed.

Lemma raw_store_tables msg_id raw v :
  preserves (λ c, (msg_recipients c, msg_undelivered c) = v)
    (RawMime.store create_and_deduplicate_from_bytes msg_id raw).
Proof. unfold RawMime.store, RawMime.store_with_retention. framed. Qed.

Lemma filter_of_header k k' header :
  filter (λ r, Recipient.kind r = k) (of_header k' header) = if decide (k' = k) then of_header k' header else [].
Proof.
  unfold of_header. case_decide as Hk.
  - apply filter_all. intros r (x & -> & _)%list_elem_of_fmap. done.
  - apply filter_none. intros r (x & -> & _)%list_elem_of_fmap. done.
Qed.

Lemma filter_load_kind k k' c msg_id :
  filter (λ r, Recipient.kind r = k) (Recipients.load_kind c msg_id k')
  = if decide (k' = k) then Recipients.load_kind c msg_id k' else [].
Proof.
  unfold Recipients.load_kind. case_decide as Hk; [apply filter_all|apply filter_none];
    intros r [Hr _]%list_elem_of_filter; congruence.
Qed.

Lemma load_ext c c' msg_id : msg_recipients c' = msg_recipients c → Recipients.load c' msg_id = Recipients.load c msg_id.
Proof. unfold Recipients.load. by intros ->. Qed.

(** C23: what is recorded of a mail that goes out is what went out: the To and Cc
    addresses of its headers, and the blind copies the composer stored, which no
    header shows; a visible addressee outside the envelope is noted as not
    reached, and nobody else is. *)
Theorem sent_record (msg_id : Z) (env : Envelope.t) (recipients : list str) (mime : str) (c : Ctx) :
  let c' := final (record_sent create_and_deduplicate_from_bytes msg_id env recipients mime) c in
  Recipients.load c' msg_id
  = RecipientsFacts.firsts [] (of_header RecipientKind.To (Envelope.to env))
    ++ RecipientsFacts.firsts [] (of_header RecipientKind.Cc (Envelope.cc env))
    ++ Recipients.load_kind c msg_id RecipientKind.Bcc
  ∧ ∀ i a, (i, a) ∈ msg_undelivered c' ↔ (i, a) ∈ msg_undelivered c
      ∨ i = msg_id ∧ a ∈ (Envelope.to env).*2 ++ (Envelope.cc env).*2
        ∧ to_lowercase a ∉ to_lowercase <$> recipients.
Proof.
  cbv zeta. set (c' := final _ c). unfold final, record_sent in c'. subst c'.
  rewrite run_attempt_then, run_bind_gets, !run_attempt_then. cbn [fst mret cmd_ret]. rewrite record_undelivered_final.
  set (c1 := final (RawMime.store _ _ _) c). set (c2 := final (Recipients.store _ _) c1).
  set (c3 := final (assign_stored _) c2).
  pose proof (preserves_final _ _ c (raw_store_tables msg_id mime _) eq_refl) as [= R1 U1]. fold c1 in R1, U1.
  pose proof (preserves_final _ _ c2 (assign_stored_tables msg_id _) eq_refl) as [= R3 U3]. fold c3 in R3, U3.
  destruct (store_other_tables msg_id (of_header RecipientKind.To (Envelope.to env)
    ++ of_header RecipientKind.Cc (Envelope.cc env) ++ Recipients.load_kind c1 msg_id RecipientKind.Bcc) c1) as [U2 _].
  change (final (Recipients.store _ _) c1) with c2 in U2. split.
  - rewrite (load_ext c2) by done. unfold c2. rewrite RecipientsFacts.load_stored.
    rewrite !(firsts_kind _ _ [] []) by done. rewrite !filter_app.
    rewrite !filter_of_header, !filter_load_kind.
    repeat first [rewrite decide_False by congruence|rewrite decide_True by done]. rewrite !app_nil_r, !app_nil_l, load_kind_kept. unfold Recipients.load_kind. by rewrite (load_ext c1 c).
  - intros i a. cbn. rewrite U3, U2, U1, elem_of_union, elem_of_list_to_set, list_elem_of_fmap.
    setoid_rewrite list_elem_of_filter. naive_solver.
Qed.

End record.

(** ** Mail from a new account *)

Definition desk : Ctx :=
  let c := set_transports (λ _, [(lit "me@home", true)]) (set_clock (λ _, 1000%Z) empty_ctx) in
  let c := set_raw_config (lit "configured_addr") (Some (lit "me@home")) c in
  final (EncryptionMode.set EncryptionMode.Opportunistic) c.

(** The rendering keeps what it was given apart: the body after the marker. *)
Definition plain_render (c : Ctx) (msg : Message.t) (env : Envelope.t) : result (str * str) :=
  Ok ((if Envelope.is_encrypted env then lit "pgp:" else lit "txt:") ++ Message.text msg, Message.subject msg).

Definition written (mid : string) (to cc bcc : list string) (subject text : string) (options : SendOptions.t) : cmd Ctx Z :=
  @send ascii_case first_choice (lit "Me") (lit "Device") (lit "Encrypted.") (λ _, Ok (lit "5E1F")) no_relays
    (λ _, Ok (lit "blob")) (λ _, lit "unencrypted") plain_render (lit "notice") (lit mid) true
    (RecipientSet.mk (lit <$> to) (lit <$> cc) (lit <$> bcc)) (lit subject) (lit text) None Importance.Normal options.

Definition mail (mid : string) (to cc bcc : list string) (subject text : string) : cmd Ctx Z :=
  written mid to cc bcc subject text SendOptions.default.

(** A mail with a copy and a blind copy: one row of the queue for the three, the
    recipients recorded with the blind copy, the message pending. *)
Example first_letter :
  let run := mail "m1" ["bob@site"] ["ann@site"] ["eve@site"] "Hello" "How are you?" desk in
  run.2 = Ok 10%Z
  ∧ smtp run.1 = [SmtpRow.mk 1 (lit "m1") (lit "bob@site ann@site eve@site") (lit "txt:How are you?") 10 0]
  ∧ Recipients.load run.1 10
    = [Recipient.mk RecipientKind.To (lit "bob@site") []; Recipient.mk RecipientKind.Cc (lit "ann@site") [];
       Recipient.mk RecipientKind.Bcc (lit "eve@site") []]
  ∧ ((λ m, (Msg.state m, Msg.hidden m, Msg.subject m)) <$> msgs run.1 !! 10%Z) = Some (20%Z, false, Some (lit "Hello")).
Proof. vm_compute. split_and!; reflexivity. Qed.

Lemma desk_members : members_ok desk.
Proof. split; intros i k; change (chats_contacts desk) with (∅ : gset (Z * Z)); set_solver. Qed.

Lemma send_queue_witness :
  let run := mail "m1" ["bob@site"] ["ann@site"] ["eve@site"] "Hello" "How are you?" desk in
  @dispatched ascii_case first_choice (λ _, Ok (lit "5E1F")) no_relays plain_render true
    (RecipientSet.mk [lit "bob@site"] [lit "ann@site"] [lit "eve@site"])
    (composed (lit "m1") (lit "Hello") (lit "How are you?") None SendOptions.default) desk run.1 10
  ∧ length (smtp run.1) = 1%nat.
Proof.
  intros run. split; [|vm_compute; reflexivity].
  pose proof (@send_queue ascii_case first_choice (lit "Me") (lit "Device") (lit "Encrypted.") (λ _, Ok (lit "5E1F")) no_relays
    (λ _, Ok (lit "blob")) (λ _, lit "unencrypted") plain_render (lit "notice") (lit "m1") true
    (RecipientSet.mk [lit "bob@site"] [lit "ann@site"] [lit "eve@site"]) (lit "Hello") (lit "How are you?") None
    Importance.Normal SendOptions.default desk desk_members) as Hq.
  assert (run.2 = Ok 10%Z) as Hrun by (vm_compute; reflexivity). subst run. unfold mail, written in *.
  change (lit <$> ["bob@site"]) with [lit "bob@site"] in *. change (lit <$> ["ann@site"]) with [lit "ann@site"] in *.
  change (lit <$> ["eve@site"]) with [lit "eve@site"] in *.
  destruct (@send _ _ _ _ _ _ _ _ _ _ _ _ _ _ _ _ _ _ _ desk) as [c' r]. cbn [fst snd] in *. subst r.
  apply Hq. vm_compute. discriminate.
Defined.

(** The draft of the chat is lost when another mail to the same person is sent. *)
Example sending_drops_draft :
  let c := final (mail "m1" ["bob@site"] [] [] "Hello" "How are you?") desk in
  let c := final (@set_draft ascii_case first_choice 10 (Some (Message.new_text (lit "d") (lit "Half a lett")))) c in
  let c' := final (mail "m2" ["bob@site"] [] [] "News" "All well.") c in
  (Msg.txt <$> (msgs c !! 11%Z)) = Some (lit "Half a lett")
  ∧ msgs c' !! 11%Z = None
  ∧ @get_draft_msg_id first_choice c' 10 = None.
Proof. vm_compute. split_and!; reflexivity. Qed.

(** A mail refused for an invalid copy leaves a draft behind, one with an empty
    body a contact and a chat. *)
Example refusals_leave_traces :
  let bad_copy := mail "m1" ["bob@site"] ["nonsense"] [] "Hello" "How are you?" desk in
  let no_body := mail "m1" ["bob@site"] [] [] "See subject" "" desk in
  bad_copy.2 = Err "invalid address" ∧ @get_draft_msg_id first_choice bad_copy.1 10 = Some 10%Z
  ∧ no_body.2 = Err "No text and no quote in draft"
  ∧ (ContactRow.addr <$> contacts no_body.1 !! 10%Z) = Some (lit "bob@site") ∧ is_Some (chats no_body.1 !! 10%Z).
Proof. vm_compute. split_and!; eauto. Qed.

(** A new mail to the same person refers to the last one of the chat, whatever
    its subject, and joins its conversation. *)
Example every_mail_is_a_reply :
  let c := final (mail "m1" ["bob@site"] [] [] "Hello" "How are you?") desk in
  let c := final (mail "m2" ["bob@site"] [] [] "Invoice" "Please pay.") (set_clock (λ _, 2000%Z) c) in
  (Msg.mime_in_reply_to <$> msgs c !! 11%Z) = Some (Some (lit "m1"))
  ∧ msg_threads c !! 10%Z = msg_threads c !! 11%Z ∧ is_Some (msg_threads c !! 10%Z).
Proof. vm_compute. split_and!; eauto. Qed.

(** Mail the policy refuses while it is being sent stays pending, with no row in
    the queue: Bob is end-to-end only and his key is not held. *)
Example refused_mail_stays_pending :
  let c := final (mail "m1" ["bob@site"] [] [] "Hello" "How are you?") desk in
  let c := final (EncryptionMode.set_for_contact 10 (Some EncryptionMode.Strict)) c in
  let run := mail "m2" ["bob@site"] [] [] "Secret" "Eyes only." c in
  run.2 = Err "cannot send: have no key, and this conversation is set to end-to-end only"
  ∧ (Msg.state <$> msgs run.1 !! 11%Z) = Some (MessageState.to_i64 MessageState.OutPending)
  ∧ length (smtp run.1) = 1%nat.
Proof. vm_compute. split_and!; reflexivity. Qed.

(** The default timer is set on the chat after the first message was written:
    that message does not expire here. *)
Example first_letter_never_expires :
  let c := final (set_default_timer (Timer.Enabled 3600)) desk in
  let c := final (mail "m1" ["bob@site"] [] [] "Hello" "How are you?") c in
  let c := final (mail "m2" ["bob@site"] [] [] "More" "And you?") c in
  (ChatRow.ephemeral_timer <$> chats c !! 10%Z) = Some 3600%Z
  ∧ (Msg.ephemeral_timer <$> msgs c !! 10%Z) = Some 0%Z
  ∧ (Msg.ephemeral_timer <$> msgs c !! 11%Z) = Some 3600%Z.
Proof. vm_compute. split_and!; reflexivity. Qed.
