(* ===== verification/Smtp.v ===== *)
(** * Smtp: the queue of outgoing mail ([smtp.rs], [smtp/send.rs]).

    What happens to the rows [Send] queues: attempts and their limit, mail to
    many recipients in chunks, the state of the message afterwards, and the
    queue of read receipts.  The server is an interface: connecting, handing over
    a mail, closing the connection; so is the rendering of a receipt. *)

From S2P Require Import Prelude Text Substr Store Labels Trash.
From S2P Require Import Params Policy Receipts Compose ContactTools Contacts Structured Truncate Chats.
From S2P Require Import Flowed WireText Drafts Send.

(** [async_smtp::error::Error]: a permanent answer with the digits of its code,
    the first word of its text and the whole error as text. *)
Module SmtpError.
Inductive t :=
  | Permanent (category detail : Z) (first_word : option str) (text : str)
  | Transient
  | Other.
End SmtpError.

(** [smtp::send::Error] *)
Module SendError.
Inductive t :=
  | Envelope (text : str)
  | SmtpSend (err : SmtpError.t)
  | NoTransport
  | Other (text : str).
End SendError.

Module SendResult.
Inductive t := Success | Failure (err : str) | Retry.

#[global] Instance eq_dec : EqDecision t.
Proof. solve_decision. Defined.
End SendResult.

(** A connection to a server: [connect_configured], [Smtp::send],
    [disconnect], and whether the rate limiter allows automatic mail. *)
Class Server (W : Type) := {
  connect_configured : W → W * result unit;
  hand_over : W → list str → str → W * option SendError.t;
  disconnect : W → W;
  may_send : W → bool;
}.

(** The status of an attempt, and whether the connection is closed. *)
Definition send_status (sent : option SendError.t) : SendResult.t * bool :=
  match sent with
  | None => (SendResult.Success, false)
  | Some (SendError.SmtpSend err) =>
      (match err with
       | SmtpError.Permanent category detail first_word text =>
           let maybe_transient :=
             (category =? 5)%Z && (detail =? 0)%Z && bool_decide (first_word = Some (lit "5.5.0")) in
           if maybe_transient then SendResult.Retry
           else SendResult.Failure (lit "Permanent SMTP error: " ++ text)
       | _ => SendResult.Retry
       end, true)
  | Some (SendError.Envelope text) => (SendResult.Failure text, true)
  | Some SendError.NoTransport => (SendResult.Failure (lit "SMTP has not transport"), false)
  | Some (SendError.Other text) => (SendResult.Failure text, true)
  end.

Definition with_retries (f : Z → Z) (r : SmtpRow.t) : SmtpRow.t :=
  SmtpRow.mk (SmtpRow.id r) (SmtpRow.rfc724_mid r) (SmtpRow.recipients r) (SmtpRow.mime r) (SmtpRow.msg_id r)
    (f (SmtpRow.retries r)).

Definition with_recipients (recipients : str) (r : SmtpRow.t) : SmtpRow.t :=
  SmtpRow.mk (SmtpRow.id r) (SmtpRow.rfc724_mid r) recipients (SmtpRow.mime r) (SmtpRow.msg_id r) (SmtpRow.retries r).

(** [UPDATE smtp .. WHERE id=?], [SELECT .. WHERE id=?], [DELETE .. WHERE id=?] *)
Definition update_row (rowid : Z) (f : SmtpRow.t → SmtpRow.t) : Ctx → Ctx :=
  set_smtp (fmap (λ r, if decide (SmtpRow.id r = rowid) then f r else r)).

Definition find_row (c : Ctx) (rowid : Z) : option SmtpRow.t :=
  head (filter (λ r, SmtpRow.id r = rowid) (smtp c)).

Definition delete_row (rowid : Z) : Ctx → Ctx := set_smtp (filter (λ r, SmtpRow.id r ≠ rowid)).

Definition msg_has_pending_smtp_job (c : Ctx) (msg_id : Z) : bool :=
  existsb (λ r, SmtpRow.msg_id r =? msg_id)%Z (smtp c).

(** [Message::load_from_db_optional] *)
Definition load_from_db_optional (id : Z) : cmd Ctx (option Msg.t) :=
  ensure (DC_MSG_ID_LAST_SPECIAL <? id)%Z "Can not load special message ID from DB" ;;
  m ← gets (λ c, msgs c !! id);
  match m ≫= (λ m, if is_live m then Some m else None) with
  | None => mret None
  | Some m =>
      or_bail (_ ← MessageState.from_i64 (Msg.state m); _ ← Msg.rfc724_mid m; _ ← Msg.pre_rfc724_mid m;
               _ ← Msg.timestamp m; _ ← Msg.subject m; Some m) "Invalid column type" ;;
      mret (Some m)
  end.

Definition loaded_state (m : Msg.t) : MessageState.t :=
  default MessageState.Undefined (MessageState.from_i64 (Msg.state m)).

Section smtp.
Context `{!UnicodeCase, !SqlChoice, Server W}.
Context (unencrypted_email : str → str).
(** [async_smtp::EmailAddress::new] accepts the text. *)
Context (valid_address : str → bool).
(** [get_max_smtp_rcpt_to], from the server's metadata or the provider's entry. *)
Context (get_max_smtp_rcpt_to : Ctx → result Z).

(** The relays of a public key, and the rendering of a receipt: its Message-ID
    and its text. *)
Context (addresses_from_public_key : str → option (list str)).
Context (render_mdn : Ctx → Z → str → list str → result (str * str)).

(** A database operation, and an operation of the connection. *)
Definition db {A} (m : cmd Ctx A) : cmd (Ctx * W) A := λ s, let '(c, r) := m s.1 in ((c, s.2), r).
Definition net {A} (f : W → W * A) : cmd (Ctx * W) A := λ s, let '(w, a) := f s.2 in ((s.1, w), Ok a).

Definition fail_msg (msg_id : Z) : cmd Ctx unit :=
  m ← Structured.load_from_db msg_id; set_msg_failed msg_id (loaded_state m).

Definition smtp_send (recipients : list str) (message : str) (msg_id : option Z)
    : cmd (Ctx * W) SendResult.t :=
  if is_empty recipients then mret SendResult.Success
  else
    connected ← net connect_configured;
    match connected with
    | Err _ => mret SendResult.Retry
    | Ok _ =>
        send_result ← net (λ w, hand_over w recipients message);
        let '(status, closes) := send_status send_result in
        (if closes : bool then net (λ w, (disconnect w, tt)) else mret tt) ;;
        match status, msg_id with
        | SendResult.Failure _, Some msg_id => attempt (db (fail_msg msg_id)) ;; mret status
        | _, _ => mret status
        end
    end.

(** The loop over the chunks of the recipients. *)
Fixpoint send_chunks (fuel : nat) (rowid : Z) (chunk_size : Z) (msg_id : Z) (body : str) (unsent : list str)
    : cmd (Ctx * W) SendResult.t :=
  match fuel with
  | O => bail "out of fuel"
  | S fuel =>
      ensure (Z.of_nat (length unsent) <=? u32_max)%Z "Too many SMTP recipients" ;;
      let split_index := Z.to_nat (Z.min chunk_size (Z.of_nat (length unsent))) in
      let chunk := take split_index unsent in
      let rest := drop split_index unsent in
      status ← smtp_send chunk body (Some msg_id);
      if negb (bool_decide (status = SendResult.Success)) || is_empty rest then mret status
      else
        db (modify (update_row rowid (with_recipients (join [BLANK] rest)))) ;;
        send_chunks fuel rowid chunk_size msg_id body rest
  end.

(** The notice of a server that refuses unencrypted mail. *)
Definition refused_notice (notice_mid : str) (msg_id : Z) (err : str) : cmd Ctx unit :=
  if contains_str (lit "invalid unencrypted mail") (to_lowercase err) then
    c ← gets id;
    match msgs c !! msg_id with
    | None => mret tt
    | Some m =>
        timestamp_sort ← or_bail (Msg.timestamp m) "Invalid column type";
        let addr := default [] (get_config_key c (lit "configured_addr")) in
        let text := unencrypted_email (default [] (split AT addr !! 1%nat)) in
        add_info_msg_with_cmd notice_mid (Msg.chat_id m) text SystemMessage.InvalidUnencryptedMail
          timestamp_sort timestamp_sort ;;
        mret tt
    end
  else mret tt.

(** The recipients of a row the server will be given. *)
Definition row_recipients (recipients : str) : list str :=
  filter (λ a, valid_address a = true) (split BLANK recipients).

Definition give_up_row (rowid msg_id : Z) : cmd Ctx unit :=
  modify (delete_row rowid) ;;
  m ← load_from_db_optional msg_id;
  match m with Some m => set_msg_failed msg_id (loaded_state m) | None => mret tt end.

Definition send_msg_to_smtp (notice_mid : str) (rowid : Z) : cmd (Ctx * W) unit :=
  connected ← net connect_configured;
  match connected with
  | Err e => bail e
  | Ok _ =>
      db (modify (update_row rowid (with_retries (λ n, n + 1)%Z))) ;;
      row ← db (gets (λ c, find_row c rowid));
      match row with
      | None => mret tt
      | Some row =>
          let msg_id := SmtpRow.msg_id row in
          if (6 <? SmtpRow.retries row)%Z then db (give_up_row rowid msg_id)
          else
            let recipients_list := row_recipients (SmtpRow.recipients row) in
            limit ← db (gets get_max_smtp_rcpt_to);
            limit ← lift limit;
            status ← send_chunks (S (length recipients_list)) rowid (Z.max limit 1) msg_id (SmtpRow.mime row)
                       recipients_list;
            match status with
            | SendResult.Retry => bail "Retry"
            | SendResult.Success =>
                db (modify (delete_row rowid)) ;;
                pending ← db (gets (λ c, msg_has_pending_smtp_job c msg_id));
                if negb pending then db (set_delivered msg_id) else mret tt
            | SendResult.Failure err =>
                db (refused_notice notice_mid msg_id err) ;;
                db (modify (delete_row rowid)) ;;
                bail "Failure"
            end
      end
  end.
(** ** Read receipts *)

(** The addressing of [MimeFactory::from_mdn], and whether it is encrypted. *)
Definition from_mdn (c : Ctx) (contact_id : Z) : result (list str * bool) :=
  match get_contact c contact_id with
  | None => Err "contact not found"
  | Some contact =>
      match get_config_key c (lit "configured_addr") with
      | None => Err "No self addr configured"
      | Some _ =>
          let addr := Contact.addr contact in
          if (contact_id =? ContactId.SELF)%Z then Ok ([addr], true)
          else
            match Contact.fingerprint contact with
            | Some fingerprint =>
                Ok (if decide (fingerprint ∈ public_keys c)
                    then default [addr] (addresses_from_public_key fingerprint) else [addr], true)
            | None => Ok ([addr], false)
            end
      end
  end.

(** [INSERT INTO msgs(rfc724_mid, chat_id) VALUES (?,?)] *)
Definition tombstone_row (mid : str) : Msg.t :=
  Msg.mk (Some mid) (Some []) (Some []) None (Some []) [] None (Some 0%Z) 0 0 DC_CHAT_ID_TRASH 0 0 0 false [] 0 0 false 0 0.

Definition insert_tombstone (mid : str) : cmd Ctx Z := insert_msg (tombstone_row mid).

(** What a receipt is made of, before it is given to the server. *)
Definition prepare_mdn (rfc724_mid : str) (contact_id : Z) : cmd Ctx (list str * list str * str) :=
  c ← gets id;
  contact ← or_bail (get_contact c contact_id) "contact not found";
  ensure (negb (Contact.blocked contact)) "Contact is blocked" ;;
  let additional_rfc724_mids :=
    MdnRow.rfc724_mid <$> filter (λ r, MdnRow.from_id r = contact_id ∧ MdnRow.rfc724_mid r ≠ rfc724_mid) (smtp_mdns c) in
  '(recipients, encrypted) ← lift (from_mdn c contact_id);
  let recipients := if (contact_id =? ContactId.SELF)%Z then [] else recipients in
  '(mid, body) ← lift (render_mdn c contact_id rfc724_mid additional_rfc724_mids);
  recipients ← (if get_config_bool c Config.BccSelf then add_self_recipients encrypted recipients
                else mret recipients);
  insert_tombstone mid ;;
  mret (additional_rfc724_mids, filter (λ a, valid_address a = true) recipients, body).

(** [DELETE FROM smtp_mdns WHERE rfc724_mid = ?], for each *)
Definition delete_mdns (mids : list str) : Ctx → Ctx :=
  set_smtp_mdns (filter (λ r, MdnRow.rfc724_mid r ∉ mids)).

Definition send_mdn_rfc724_mid (rfc724_mid : str) (contact_id : Z) : cmd (Ctx * W) bool :=
  '(additional_rfc724_mids, recipients, body) ← db (prepare_mdn rfc724_mid contact_id);
  status ← smtp_send recipients body None;
  match status with
  | SendResult.Success => db (modify (delete_mdns (rfc724_mid :: additional_rfc724_mids))) ;; mret true
  | SendResult.Retry => mret false
  | SendResult.Failure _ => bail "Failure"
  end.

Definition mdn_retry (r : MdnRow.t) : MdnRow.t :=
  MdnRow.mk (MdnRow.msg_id r) (MdnRow.from_id r) (MdnRow.rfc724_mid r) (MdnRow.retries r + 1).

(** [SELECT .. FROM smtp_mdns ORDER BY retries LIMIT 1]: one of the rows with the
    fewest attempts. *)
Definition next_mdn (c : Ctx) : option MdnRow.t :=
  pick (filter (λ r, Forall (λ r', MdnRow.retries r <= MdnRow.retries r')%Z (smtp_mdns c)) (smtp_mdns c)).

Definition send_mdn : cmd (Ctx * W) bool :=
  db (modify (set_smtp_mdns (filter (λ r, ¬ (6 < MdnRow.retries r)%Z)))) ;;
  row ← db (gets next_mdn);
  match row with
  | None => mret false
  | Some row =>
      let rfc724_mid := MdnRow.rfc724_mid row in
      db (modify (set_smtp_mdns (fmap (λ r,
        if decide (MdnRow.rfc724_mid r = rfc724_mid) then mdn_retry r else r)))) ;;
      sent ← caught (send_mdn_rfc724_mid rfc724_mid (MdnRow.from_id row));
      match sent with
      | Err e => db (modify (delete_mdns [rfc724_mid])) ;; bail e
      | Ok false => bail "Temporary error while sending an MDN"
      | Ok true => mret true
      end
  end.

(** The loop of [send_mdns]; [None] when the fuel did not last. *)
Fixpoint send_mdns (fuel : nat) : cmd (Ctx * W) (option unit) :=
  match fuel with
  | O => mret None
  | S fuel =>
      can_send ← gets (λ s, may_send s.2);
      if negb can_send then mret (Some tt)
      else
        more_mdns ← send_mdn;
        if more_mdns : bool then send_mdns fuel else mret (Some tt)
  end.

(** [send_smtp_messages], without the device sync messages and the status
    updates it queues first when the limiter allows it. *)
Definition send_smtp_messages (notice_mid : str) : cmd (Ctx * W) unit :=
  can_send ← gets (λ s, may_send s.2);
  rowids ← db (gets (λ c, sort_by Z.leb (SmtpRow.id <$> smtp c)));
  for_each rowids (send_msg_to_smtp notice_mid) ;;
  if can_send : bool then
    fuel ← gets (λ s, S (length (smtp_mdns s.1)));
    send_mdns fuel ;; mret tt
  else mret tt.
End smtp.

(** ** Rows *)

Lemma find_update rowid f c :
  (∀ r, SmtpRow.id (f r) = SmtpRow.id r) →
  find_row (update_row rowid f c) rowid = f <$> find_row c rowid.
Proof.
  intros Hf. unfold find_row. change (smtp (update_row rowid f c))
    with ((λ r, if decide (SmtpRow.id r = rowid) then f r else r) <$> smtp c).
  induction (smtp c) as [|r q IH]; [done|]. rewrite fmap_cons, !filter_cons.
  destruct (decide (SmtpRow.id r = rowid)) as [E|E].
  - by rewrite decide_True by (by rewrite Hf).
  - by rewrite decide_False.
Qed.

Lemma find_delete rowid c : find_row (delete_row rowid c) rowid = None.
Proof.
  unfold find_row. change (smtp (delete_row rowid c)) with (filter (λ r, SmtpRow.id r ≠ rowid) (smtp c)).
  rewrite filter_none; [done|]. by intros r [Hr _]%list_elem_of_filter.
Qed.

(** What the server is given of a row, of what is left and of what was given. *)
Lemma row_recipients_join valid rest recipients :
  (∃ given, given ++ rest = row_recipients valid recipients) → rest ≠ [] →
  row_recipients valid (join [BLANK] rest) = rest.
Proof.
  intros [given Hg] Hne. unfold row_recipients in *.
  assert (∀ a, a ∈ rest → valid a = true ∧ a ∈ split BLANK recipients) as Hrest.
  { intros a Ha. apply (list_elem_of_filter (λ a, valid a = true)). rewrite <-Hg. apply elem_of_app. by right. }
  rewrite split_join; [|done|].
  - apply filter_all. intros a Ha. by apply Hrest.
  - intros a Ha. pose proof (split_pieces BLANK recipients) as Hp. rewrite Forall_forall in Hp. by apply Hp, Hrest.
Qed.

(** ** The book of what a server was given *)

(** Any server, with a book kept beside it of every mail handed over, to whom,
    and of the answer that came back, [None] for an acknowledged one.  A mail
    that was not acknowledged may still have been taken. *)
Record Booked (W : Type) : Type := Book {
  at_server : W;
  book : list (list str * str * option SendError.t);
}.
Arguments Book {W} _ _.
Arguments at_server {W} _.
Arguments book {W} _.

#[global] Instance booked_server `{Server W} : Server (Booked W) := {|
  connect_configured s := (Book (connect_configured (at_server s)).1 (book s), (connect_configured (at_server s)).2);
  hand_over s recipients message :=
    let answer := (hand_over (at_server s) recipients message).2 in
    (Book (hand_over (at_server s) recipients message).1 (book s ++ [(recipients, message, answer)]), answer);
  disconnect s := Book (disconnect (at_server s)) (book s);
  may_send s := may_send (at_server s);
|}.

Lemma run_bind_net {W A B} (f : W → W * A) (k : A → cmd (Ctx * W) B) c w :
  (net f ≫= k) (c, w) = k (f w).2 (c, (f w).1).
Proof. rewrite run_bind. unfold net. cbn. by destruct (f w). Qed.

Lemma run_bind_db {W A B} (m : cmd Ctx A) (k : A → cmd (Ctx * W) B) c w :
  (db m ≫= k) (c, w) = match m c with (c', Ok a) => k a (c', w) | (c', Err e) => ((c', w), Err e) end.
Proof. rewrite run_bind. unfold db. cbn. by destruct (m c) as [c' [a|e]]. Qed.

(** The book is only written to: without it the same happens. *)
Section erasure.
Context `{!UnicodeCase, Server W}.

Definition erases {A} (m : cmd (Ctx * Booked W) A) (m' : cmd (Ctx * W) A) : Prop :=
  ∀ s, m' (s.1, at_server s.2) = (((m s).1.1, at_server (m s).1.2), (m s).2).

Lemma erases_bind {A B} (m : cmd (Ctx * Booked W) A) m' (k : A → cmd (Ctx * Booked W) B) k' :
  erases m m' → (∀ a, erases (k a) (k' a)) → erases (m ≫= k) (m' ≫= k').
Proof.
  intros Hm Hk s. rewrite !run_bind, (Hm s). destruct (m s) as [s1 [a|e]]; cbn [fst snd]; [apply Hk|done].
Qed.

Lemma erases_ret {A} (a : A) : erases (mret a) (mret a).
Proof. by intros s. Qed.

Lemma erases_bail {A} e : erases (bail e : cmd _ A) (bail e).
Proof. by intros s. Qed.

Lemma erases_lift {A} (r : result A) : erases (lift r) (lift r).
Proof. by intros s; destruct r. Qed.

Lemma erases_ensure b e : erases (ensure b e) (ensure b e).
Proof. by intros s; destruct b. Qed.

Lemma erases_db {A} (m : cmd Ctx A) : erases (db m) (db m).
Proof. intros s. unfold db. cbn. by destruct (m s.1). Qed.

Lemma erases_attempt {A} (m : cmd (Ctx * Booked W) A) m' : erases m m' → erases (attempt m) (attempt m').
Proof. intros Hm s. unfold attempt. rewrite (Hm s). by destruct (m s) as [s1 [a|e]]. Qed.

Lemma erases_connect : erases (net connect_configured) (net connect_configured).
Proof. intros s. unfold net. cbn. by destruct (connect_configured (at_server s.2)). Qed.

Lemma erases_hand_over rs m : erases (net (λ w, hand_over w rs m)) (net (λ w, hand_over w rs m)).
Proof. intros s. unfold net. cbn. by destruct (hand_over (at_server s.2) rs m). Qed.

Lemma erases_disconnect : erases (net (λ w, (disconnect w, tt))) (net (λ w, (disconnect w, tt))).
Proof. by intros s. Qed.
End erasure.

Create HintDb erasing.
#[export] Hint Resolve erases_bind erases_ret erases_bail erases_lift erases_ensure erases_db erases_attempt
  erases_connect erases_hand_over erases_disconnect : erasing.

Ltac erasing :=
  repeat first
    [ progress intros
    | match goal with
      | |- erases (match ?x with _ => _ end) _ => destruct x
      | |- erases (_ ≫= _) _ => apply erases_bind
      end
    | solve [eauto with erasing nocore] ].

Section delivery.
Context `{!UnicodeCase, Server W}.
Context (unencrypted_email : str → str) (valid_address : str → bool) (get_max_smtp_rcpt_to : Ctx → result Z).

Lemma fail_msg_queue msg_id c : smtp (fail_msg msg_id c).1 = smtp c.
Proof.
  apply (preserves_final (λ c', smtp c' = smtp c) (fail_msg msg_id) c); [|done].
  unfold fail_msg, Structured.load_from_db, set_msg_failed. framed.
Qed.

Lemma erases_smtp_send recipients message msg_id :
  erases (smtp_send recipients message msg_id) (smtp_send (W := W) recipients message msg_id).
Proof. unfold smtp_send. erasing. Qed.

Lemma erases_send_chunks fuel rowid chunk_size msg_id body unsent :
  erases (send_chunks fuel rowid chunk_size msg_id body unsent) (send_chunks (W := W) fuel rowid chunk_size msg_id body unsent).
Proof.
  revert unsent. induction fuel as [|fuel IH]; intros unsent; cbn [send_chunks]; cbv zeta; erasing.
  apply erases_smtp_send.
Qed.

Lemma erases_send_msg notice_mid rowid :
  erases (send_msg_to_smtp unencrypted_email valid_address get_max_smtp_rcpt_to notice_mid rowid)
    (send_msg_to_smtp (W := W) unencrypted_email valid_address get_max_smtp_rcpt_to notice_mid rowid).
Proof. unfold send_msg_to_smtp. cbv zeta. erasing. apply erases_send_chunks. Qed.

(** A mail that is acknowledged, and the end of a round: either every mail of it
    was, or the last of what was still to go was refused. *)
Definition acknowledged (mime : str) (given : list (list str)) : list (list str * str * option SendError.t) :=
  (λ rs, (rs, mime, None)) <$> given.

Definition refusal (mime : str) (rest : list str) (last : list (list str * str * option SendError.t)) (e : SendError.t)
    : Prop :=
  ∃ rs, last = [(rs, mime, Some e)] ∧ rs ≠ [] ∧ rs `prefix_of` rest.

Lemma refused_status e : (send_status (Some e)).1 ≠ SendResult.Success.
Proof. destruct e as [| [] | |]; cbn; try done. by destruct (_ && _). Qed.

(** One attempt: it always ends with a status, leaves the queue alone, and is a
    success exactly when the mail was acknowledged. *)
Lemma smtp_send_run recipients message msg_id c (w : Booked W) :
  ∃ c' w' status,
    smtp_send recipients message msg_id (c, w) = ((c', w'), Ok status) ∧ smtp c' = smtp c
    ∧ (status ≠ SendResult.Success →
       recipients ≠ [] ∧
       ((status = SendResult.Retry ∧ book w' = book w)
        ∨ ∃ e, (send_status (Some e)).1 = status ∧ book w' = book w ++ [(recipients, message, Some e)]))
    ∧ (status = SendResult.Success →
       book w' = book w ++ acknowledged message (if is_empty recipients then [] else [recipients])).
Proof.
  unfold smtp_send. destruct (is_empty recipients) eqn:Hemp.
  { exists c, w, SendResult.Success. by rewrite app_nil_r. }
  assert (recipients ≠ []) as Hne by (by destruct recipients).
  rewrite run_bind_net. destruct (connect_configured (at_server w)) as [v1 [u|e]] eqn:Hv1;
    cbn [connect_configured booked_server at_server book]; rewrite Hv1; cbn [fst snd].
  2:{ exists c, (Book v1 (book w)), SendResult.Retry. split_and!; [done|done| |done]. intros _. split; [done|]. by left. }
  rewrite run_bind_net. cbn [hand_over booked_server at_server book].
  destruct (hand_over v1 recipients message) as [v2 [e|]]; cbn [fst snd].
  - pose proof (refused_status e) as Hns.
    destruct (send_status (Some e)) as [status closes] eqn:Hst. cbn in Hns. rewrite run_bind.
    set (b := book w ++ [(recipients, message, Some e)]).
    assert (∃ w3, (if closes then net (λ w, (disconnect w, tt)) else mret tt) (c, Book v2 b) = ((c, w3), Ok tt) ∧ book w3 = b)
      as (w3 & -> & Hw3).
    { destruct closes; [exists (Book (disconnect v2) b)|exists (Book v2 b)]; done. }
    assert (status ≠ SendResult.Success → recipients ≠ [] ∧
       ((status = SendResult.Retry ∧ book w3 = book w)
        ∨ ∃ e, (send_status (Some e)).1 = status ∧ book w3 = book w ++ [(recipients, message, Some e)])) as Hout.
    { intros _. split; [done|]. right. exists e. by rewrite Hst. }
    destruct status as [|err|]; [done| |by exists c, w3, SendResult.Retry].
    destruct msg_id as [i|]; [|by exists c, w3, (SendResult.Failure err)].
    pose proof (fail_msg_queue i c) as Hq.
    rewrite run_bind. unfold attempt, db. cbn [fst snd]. destruct (fail_msg i c) as [c' [[]|e']]; cbn in Hq;
      by exists c', w3, (SendResult.Failure err).
  - cbn. rewrite run_bind_ret. by eexists c, _, SendResult.Success.
Qed.

(** What is still to be sent of a row with this mail and number of attempts. *)
Definition row_left (c : Ctx) (rowid : Z) (mime : str) (n : Z) (rest : list str) : Prop :=
  ∃ row, find_row c rowid = Some row ∧ SmtpRow.mime row = mime ∧ SmtpRow.retries row = n
    ∧ row_recipients valid_address (SmtpRow.recipients row) = rest.

Lemma row_left_ext c c' rowid mime n rest : smtp c' = smtp c → row_left c rowid mime n rest → row_left c' rowid mime n rest.
Proof. unfold row_left, find_row. by intros ->. Qed.

Lemma row_left_update c rowid mime n rest rest' :
  row_left c rowid mime n rest → (∃ given, given ++ rest' = rest) → rest' ≠ [] →
  row_left (update_row rowid (with_recipients (join [BLANK] rest')) c) rowid mime n rest'.
Proof.
  intros (row & Hf & Hm & Hn & <-) [given Hg] Hne. exists (with_recipients (join [BLANK] rest') row). split_and!.
  - rewrite find_update by done. by rewrite Hf.
  - done.
  - done.
  - eapply row_recipients_join; [|done]. by exists given.
Qed.

(** The loop ends, with a status: what was acknowledged and what the row still
    holds are what there was to send, in order; all of it on success, and up to a
    refused mail, or a lost connection, otherwise. *)
Lemma send_chunks_run fuel rowid mime n chunk_size msg_id body unsent c (w : Booked W) :
  (length unsent < fuel)%nat → (1 <= chunk_size)%Z → (Z.of_nat (length unsent) <= u32_max)%Z →
  row_left c rowid mime n unsent →
  ∃ c' w' status given rest last,
    send_chunks fuel rowid chunk_size msg_id body unsent (c, w) = ((c', w'), Ok status)
    ∧ book w' = book w ++ acknowledged body given ++ last
    ∧ concat given ++ rest = unsent
    ∧ (status = SendResult.Success → rest = [] ∧ last = [])
    ∧ (status ≠ SendResult.Success →
       row_left c' rowid mime n rest
       ∧ ((status = SendResult.Retry ∧ last = []) ∨ ∃ e, refusal body rest last e ∧ (send_status (Some e)).1 = status)).
Proof.
  revert unsent c w. induction fuel as [|fuel IH]; intros unsent c w Hfuel Hchunk Hlen Hrow; [lia|].
  cbn [send_chunks]. rewrite (proj2 (Z.leb_le _ _) Hlen). cbn [ensure]. rewrite run_bind_ret. cbv zeta.
  set (i := Z.to_nat _). destruct (smtp_send_run (take i unsent) body (Some msg_id) c w)
    as (c1 & w1 & status & Hrun & Hq & Hno & Hyes).
  rewrite (run_bind_ok _ _ _ _ _ Hrun).
  destruct (decide (status = SendResult.Success)) as [->|Hs].
  2:{ rewrite bool_decide_eq_false_2 by done. cbn [negb orb]. destruct (Hno Hs) as [Hne Hbook].
      assert (row_left c1 rowid mime n unsent) as Hrow1 by (by eapply row_left_ext).
      destruct Hbook as [[-> Hbook]|(e & He & Hbook)].
      - exists c1, w1, SendResult.Retry, [], unsent, []. cbn [acknowledged fmap list_fmap app]. rewrite app_nil_r.
        split_and!; [done..|]. intros _. split; [done|by left].
      - exists c1, w1, status, [], unsent, [(take i unsent, body, Some e)]. split_and!; [done..|].
        intros _. split; [done|]. right. exists e. split; [|done]. exists (take i unsent).
        split_and!; [done..|]. exists (drop i unsent). by rewrite take_drop. }
  rewrite bool_decide_eq_true_2 by done. cbn [negb orb]. specialize (Hyes eq_refl).
  assert (∃ given, book w1 = book w ++ acknowledged body given ∧ concat given = take i unsent) as (g & Hlog & Hg).
  { eexists. split; [exact Hyes|]. destruct (take i unsent) as [|a l]; cbn; [done|]. by rewrite app_nil_r. }
  destruct (is_empty (drop i unsent)) eqn:Hrest.
  - assert (drop i unsent = []) as Hnil by (by destruct (drop i unsent)).
    exists c1, w1, SendResult.Success, g, [], []. split_and!; [done|by rewrite app_nil_r| |done|done].
    rewrite app_nil_r, Hg. rewrite <-(take_drop i unsent) at 2. by rewrite Hnil, app_nil_r.
  - assert (drop i unsent ≠ []) as Hne by (intros E; by rewrite E in Hrest).
    rewrite run_bind_db. cbn [modify].
    destruct (IH (drop i unsent) (update_row rowid (with_recipients (join [BLANK] (drop i unsent))) c1) w1)
      as (c' & w' & status & given & rest & last & Hrun' & Hlog' & Hconc & Hok & Hleft).
    + rewrite length_drop. destruct unsent as [|a l]; [by rewrite drop_nil in Hne|].
      subst i. cbn [length] in *. lia.
    + done.
    + rewrite length_drop. lia.
    + eapply row_left_update; [by eapply row_left_ext| |done]. exists (take i unsent). apply take_drop.
    + exists c', w', status, (g ++ given), rest, last. split_and!; [exact Hrun'| | |done|done].
      * unfold acknowledged in *. by rewrite Hlog', Hlog, fmap_app, <-!app_assoc.
      * rewrite concat_app, Hg, <-app_assoc, Hconc. apply take_drop.
Qed.

Lemma refused_notice_queue notice_mid msg_id err c :
  smtp (refused_notice unencrypted_email notice_mid msg_id err c).1 = smtp c.
Proof.
  apply (preserves_final (λ c', smtp c' = smtp c) (refused_notice unencrypted_email notice_mid msg_id err) c); [|done].
  unfold refused_notice, add_info_msg_with_cmd, get_ephemeral_timer, insert_msg. framed.
Qed.

Lemma give_up_row_queue rowid msg_id c : smtp (give_up_row rowid msg_id c).1 = smtp (delete_row rowid c).
Proof.
  unfold give_up_row. rewrite run_bind_modify.
  apply (preserves_final (λ c', smtp c' = smtp (delete_row rowid c))
    (m ← load_from_db_optional msg_id;
     match m with Some m => set_msg_failed msg_id (loaded_state m) | None => mret tt end)); [|done].
  unfold load_from_db_optional, set_msg_failed. framed.
Qed.

Lemma find_row_ext c c' rowid : smtp c' = smtp c → find_row c' rowid = find_row c rowid.
Proof. unfold find_row. by intros ->. Qed.

Lemma row_left_self c rowid row :
  find_row c rowid = Some row →
  row_left c rowid (SmtpRow.mime row) (SmtpRow.retries row) (row_recipients valid_address (SmtpRow.recipients row)).
Proof. intros Hf. by exists row. Qed.

Lemma row_left_found c rowid mime n rest row' :
  row_left c rowid mime n rest → find_row c rowid = Some row' →
  row_recipients valid_address (SmtpRow.recipients row') = rest ∧ SmtpRow.mime row' = mime.
Proof. intros (row & Hf & Hm & Hn & Hr) Hf'. rewrite Hf in Hf'. injection Hf' as <-. done. Qed.

(** What becomes of a row after a round of attempts that gave this status. *)
Lemma finish_run notice_mid rowid mime n rest msg_id status c w :
  (status ≠ SendResult.Success → row_left c rowid mime n rest) →
  ∃ c' r,
    (match status with
     | SendResult.Retry => bail "Retry"
     | SendResult.Success =>
         db (modify (delete_row rowid)) ;;
         pending ← db (gets (λ c, msg_has_pending_smtp_job c msg_id));
         if negb pending then db (set_delivered msg_id) else mret tt
     | SendResult.Failure err =>
         db (refused_notice unencrypted_email notice_mid msg_id err) ;;
         db (modify (delete_row rowid)) ;;
         bail "Failure"
     end : cmd (Ctx * Booked W) unit) (c, w) = ((c', w), r)
    ∧ (r = Ok tt → status = SendResult.Success ∧ find_row c' rowid = None)
    ∧ ((find_row c' rowid = None ∧ status ≠ SendResult.Retry) ∨ row_left c' rowid mime n rest).
Proof.
  intros Hleft. destruct status as [|err|].
  - rewrite run_bind_db. cbn [modify]. rewrite run_bind_db. unfold gets at 1.
    destruct (negb _).
    + eexists _, _. split; [reflexivity|]. rewrite (find_row_ext (delete_row rowid c)) by done. rewrite find_delete. split; [done|by left].
    + eexists _, _. split; [reflexivity|]. rewrite find_delete. split; [done|by left].
  - specialize (Hleft ltac:(done)). rewrite run_bind_db. pose proof (refused_notice_queue notice_mid msg_id err c) as Hq.
    destruct (refused_notice _ _ _ _ c) as [c1 [u|e]]; cbn in Hq.
    + rewrite run_bind_db. cbn [modify]. eexists _, _. split; [reflexivity|]. rewrite find_delete. split; [done|by left].
    + eexists _, _. split; [reflexivity|]. split; [done|]. right. by eapply row_left_ext.
  - eexists _, _. split; [reflexivity|]. split; [done|]. right. by apply Hleft.
Qed.

(** Why a row is no longer queued: everything was acknowledged, it had had its
    six attempts, or the last mail of the round was refused for good. *)
Definition left_queue (row : SmtpRow.t) (given : list (list str)) (rest : list str)
    (last : list (list str * str * option SendError.t)) : Prop :=
  (rest = [] ∧ last = [])
  ∨ ((6 <= SmtpRow.retries row)%Z ∧ given = [] ∧ last = [])
  ∨ ∃ e err, refusal (SmtpRow.mime row) rest last e ∧ (send_status (Some e)).1 = SendResult.Failure err.

(** The outcome of a round: the mails that were acknowledged, [given], the
    recipients not reached, and the refused mail it ended with, if any; [online]
    when there was a connection. *)
Definition round_outcome (online : Prop) (rowid : Z) (row : SmtpRow.t) (w : Booked W) (s : Ctx * Booked W)
    (r : result unit) : Prop :=
  ∃ given rest last,
    book s.2 = book w ++ acknowledged (SmtpRow.mime row) given ++ last
    ∧ concat given ++ rest = row_recipients valid_address (SmtpRow.recipients row)
    ∧ (last = [] ∨ ∃ e, refusal (SmtpRow.mime row) rest last e)
    ∧ ((find_row s.1 rowid = None ∧ left_queue row given rest last)
       ∨ ∃ n, row_left s.1 rowid (SmtpRow.mime row) n rest ∧ (online → n = (SmtpRow.retries row + 1)%Z ∧ (n <= 6)%Z))
    ∧ (r = Ok tt → (SmtpRow.retries row < 6)%Z → rest = [] ∧ find_row s.1 rowid = None).

Lemma nothing_given (online : Prop) rowid row w c1 w1 r :
  book w1 = book w →
  ((find_row c1 rowid = None ∧ (6 <= SmtpRow.retries row)%Z)
   ∨ ∃ n, row_left c1 rowid (SmtpRow.mime row) n (row_recipients valid_address (SmtpRow.recipients row))
          ∧ (online → n = (SmtpRow.retries row + 1)%Z ∧ (n <= 6)%Z)) →
  r ≠ Ok tt ∨ (6 <= SmtpRow.retries row)%Z →
  round_outcome online rowid row w (c1, w1) r.
Proof.
  intros Hlog Hleft Hr. exists [], (row_recipients valid_address (SmtpRow.recipients row)), [].
  cbn [acknowledged fmap list_fmap app]. rewrite app_nil_r. split_and!; [done|done|by left| |].
  - destruct Hleft as [[Hnone Hlim]|Hleft]; [left|by right]. split; [done|]. right. by left.
  - intros -> ?. destruct Hr; [done|lia].
Qed.

Lemma u32_chunks fuel rowid chunk_size msg_id body unsent (s : Ctx * Booked W) :
  (u32_max < Z.of_nat (length unsent))%Z →
  send_chunks (S fuel) rowid chunk_size msg_id body unsent s = (s, Err "Too many SMTP recipients").
Proof. intros Hlen. cbn [send_chunks]. by rewrite (proj2 (Z.leb_gt _ _) Hlen). Qed.

Lemma round_run notice_mid rowid row c (w : Booked W) :
  find_row c rowid = Some row →
  let run := send_msg_to_smtp unencrypted_email valid_address get_max_smtp_rcpt_to notice_mid rowid (c, w) in
  round_outcome ((connect_configured w).2 = Ok tt) rowid row w run.1 run.2.
Proof.
  intros Hfind run. subst run. unfold send_msg_to_smtp. rewrite run_bind_net.
  assert (book (connect_configured w).1 = book w) as Hc by done.
  destruct (connect_configured w) as [w1 [u|e]]; cbn [fst] in Hc; cbn [fst snd].
  2:{ apply nothing_given; [done| |by left]. right. exists (SmtpRow.retries row). split; [by apply row_left_self|done]. }
  rewrite run_bind_db, run_modify, run_bind_db, run_gets. set (c1 := update_row _ _ c).
  assert (find_row c1 rowid = Some (with_retries (λ n, n + 1)%Z row)) as Hfind1.
  { unfold c1. rewrite find_update by done. by rewrite Hfind. }
  set (all := row_recipients valid_address (SmtpRow.recipients row)).
  assert (row_left c1 rowid (SmtpRow.mime row) (SmtpRow.retries row + 1) all) as Hleft
    by (exact (row_left_self _ _ _ Hfind1)).
  rewrite Hfind1. cbn [SmtpRow.retries with_retries SmtpRow.msg_id SmtpRow.mime SmtpRow.recipients]. fold all.
  destruct (Z.ltb_spec 6 (SmtpRow.retries row + 1)) as [Hlim|Hlim].
  { unfold db. cbn [fst snd]. pose proof (give_up_row_queue rowid (SmtpRow.msg_id row) c1) as Hq.
    destruct (give_up_row _ _ c1) as [c2 r]. cbn [fst snd] in *.
    apply nothing_given; [done| |right; lia]. left. rewrite (find_row_ext _ _ _ Hq), find_delete. split; [done|lia]. }
  rewrite run_bind_db, run_gets, run_bind. unfold lift.
  destruct (get_max_smtp_rcpt_to c1) as [limit|e]; [|by apply nothing_given; [|right; eauto|left]].
  rewrite run_bind. destruct (Z.le_gt_cases (Z.of_nat (length all)) u32_max) as [Hlen|Hlen].
  2:{ rewrite u32_chunks by done. by apply nothing_given; [|right; eauto|left]. }
  destruct (send_chunks_run (S (length all)) rowid (SmtpRow.mime row) (SmtpRow.retries row + 1) (Z.max limit 1)
    (SmtpRow.msg_id row) (SmtpRow.mime row) all c1 w1)
    as (c2 & w2 & status & given & rest & last & -> & Hlog & Hconc & Hok & Hno); [lia|lia|done|done|].
  destruct (finish_run notice_mid rowid (SmtpRow.mime row) (SmtpRow.retries row + 1) rest (SmtpRow.msg_id row) status c2 w2)
    as (c3 & r & -> & Hr & Hend); [by intros Hs; apply Hno|].
  exists given, rest, last. cbn [fst snd]. split_and!.
  - by rewrite Hlog, Hc.
  - done.
  - destruct (decide (status = SendResult.Success)) as [Hs|Hs]; [left; by apply Hok|].
    destruct (Hno Hs) as [_ [[_ ->]|(e & He & _)]]; eauto.
  - destruct Hend as [[Hend Hs]|Hend]; [left; split; [done|]|right; eauto].
    destruct status as [|err|]; [left; by apply Hok| |done]. right; right.
    destruct (Hno ltac:(done)) as [_ [[? _]|(e & He & Hst)]]; [done|]. by exists e, err.
  - intros Hr' _. destruct (Hr Hr') as [-> Hnone]. split; [by apply Hok|done].
Qed.

(** C2: a round of attempts to send a queued mail accounts for every recipient.
    The mails the server acknowledged, followed by the recipients not reached,
    are what there was to send, in its order; after the acknowledged mails at
    most one more was handed over, refused, and to the next ones in line.  While
    the row is queued it holds the same mail for exactly those not reached, so
    nobody whose mail was acknowledged is written to again; and it leaves the
    queue only when there is nobody left, when the sixth attempt had been made
    before, or when the server refused for good. *)
Theorem delivery_exact (notice_mid : str) (rowid : Z) (row : SmtpRow.t) (c c' : Ctx) (w w' : W) (r : result unit) :
  find_row c rowid = Some row →
  send_msg_to_smtp unencrypted_email valid_address get_max_smtp_rcpt_to notice_mid rowid (c, w) = ((c', w'), r) →
  ∃ given rest last,
    send_msg_to_smtp unencrypted_email valid_address get_max_smtp_rcpt_to notice_mid rowid (c, Book w [])
    = ((c', Book w' (acknowledged (SmtpRow.mime row) given ++ last)), r)
    ∧ concat given ++ rest = row_recipients valid_address (SmtpRow.recipients row)
    ∧ (last = [] ∨ ∃ e, refusal (SmtpRow.mime row) rest last e)
    ∧ match find_row c' rowid with
      | Some row' => row_recipients valid_address (SmtpRow.recipients row') = rest ∧ SmtpRow.mime row' = SmtpRow.mime row
      | None => left_queue row given rest last
      end
    ∧ (r = Ok tt → (SmtpRow.retries row < 6)%Z → rest = [] ∧ find_row c' rowid = None).
Proof.
  intros Hfind Hrun. pose proof (round_run notice_mid rowid row c (Book w []) Hfind) as Hout. cbv zeta in Hout.
  pose proof (erases_send_msg notice_mid rowid (c, Book w [])) as Her. cbn [fst snd at_server] in Her. rewrite Hrun in Her.
  destruct (send_msg_to_smtp _ _ _ _ _ (c, Book w [])) as [[c2 [w2 b]] r2]. cbn [fst snd at_server] in Her.
  injection Her as <- <- <-. destruct Hout as (given & rest & last & Hbook & Hconc & Hlast & Hend & Hok).
  cbn [fst snd book app] in *. subst b. exists given, rest, last. split_and!; [done..| |done].
  destruct Hend as [[-> Hend]|(n & Hleft & _)]; [done|].
  pose proof Hleft as (row' & Hrow' & _). rewrite Hrow'. by eapply row_left_found.
Qed.

(** One round after the other. *)
Fixpoint rounds (n : nat) (notice_mid : str) (rowid : Z) (s : Ctx * W) : Ctx * W :=
  match n with
  | O => s
  | S n => rounds n notice_mid rowid
             (send_msg_to_smtp unencrypted_email valid_address get_max_smtp_rcpt_to notice_mid rowid s).1
  end.

Lemma absent_round notice_mid rowid c w :
  find_row c rowid = None →
  find_row (send_msg_to_smtp unencrypted_email valid_address get_max_smtp_rcpt_to notice_mid rowid (c, w)).1.1 rowid = None.
Proof.
  intros Hnone. unfold send_msg_to_smtp. rewrite run_bind_net.
  destruct (connect_configured w) as [w1 [u|e]]; cbn [fst snd]; [|done].
  rewrite run_bind_db, run_modify, run_bind_db, run_gets, find_update by done. rewrite Hnone. cbn [fmap option_fmap option_map].
  rewrite run_ret. cbn [fst]. rewrite find_update by done. by rewrite Hnone.
Qed.

Lemma absent_rounds n notice_mid rowid s : find_row s.1 rowid = None → find_row (rounds n notice_mid rowid s).1 rowid = None.
Proof.
  revert s. induction n as [|n IH]; intros [c w] Hnone; [done|]. cbn [rounds]. apply IH. by apply absent_round.
Qed.

Lemma round_left notice_mid rowid row c (w : W) :
  (connect_configured w).2 = Ok tt → find_row c rowid = Some row →
  let c' := (send_msg_to_smtp unencrypted_email valid_address get_max_smtp_rcpt_to notice_mid rowid (c, w)).1.1 in
  find_row c' rowid = None
  ∨ ∃ row', find_row c' rowid = Some row' ∧ SmtpRow.retries row' = (SmtpRow.retries row + 1)%Z ∧ (SmtpRow.retries row' <= 6)%Z.
Proof.
  intros Hconn Hfind. pose proof (round_run notice_mid rowid row c (Book w []) Hfind) as Hout. cbv zeta in Hout |- *.
  pose proof (erases_send_msg notice_mid rowid (c, Book w [])) as Her. cbn [fst snd at_server] in Her. rewrite Her. cbn [fst].
  destruct Hout as (given & rest & last & _ & _ & _ & [[Hnone _]|(n & (row' & Hrow' & _ & <- & _) & Hon)] & _); [by left|right].
  exists row'. destruct (Hon Hconn). done.
Qed.

Lemma rounds_drain n notice_mid rowid row c w :
  (∀ w, (connect_configured w).2 = Ok tt) →
  find_row c rowid = Some row → (6 - Z.of_nat n <= SmtpRow.retries row)%Z →
  find_row (rounds (S n) notice_mid rowid (c, w)).1 rowid = None.
Proof.
  intros Hconn. revert row c w. induction n as [|n IH]; intros row c w Hfind Hn; cbn [rounds];
    pose proof (round_left notice_mid rowid row c w (Hconn w) Hfind) as Hend;
    destruct (send_msg_to_smtp _ _ _ _ _ (c, w)) as [[c2 w2] r]; cbn [fst] in *;
    destruct Hend as [Hnone|(row2 & Hf2 & Hm1 & Hm6)].
  - done.
  - lia.
  - by apply (absent_rounds (S n)).
  - apply (IH row2 c2 w2 Hf2). lia.
Qed.

(** C30: no mail stays in the queue for ever: over a working connection, and
    whatever the server answers, a row is gone after the seventh round. *)
Theorem queue_drains (notice_mid : str) (rowid : Z) (row : SmtpRow.t) (c : Ctx) (w : W) :
  (∀ w, (connect_configured w).2 = Ok tt) →
  find_row c rowid = Some row → (0 <= SmtpRow.retries row)%Z →
  find_row (rounds 7 notice_mid rowid (c, w)).1 rowid = None.
Proof.
  intros Hconn Hfind Hpos. apply (rounds_drain 6 notice_mid rowid row); [done|done|lia].
Qed.

End delivery.

(** ** Receipts *)

Section receipts.
Context `{!SqlChoice, Server W}.
Context (valid_address : str → bool) (addresses_from_public_key : str → option (list str)).
Context (render_mdn : Ctx → Z → str → list str → result (str * str)).

Lemma prepare_mdn_queue rfc724_mid contact_id v :
  preserves (λ c, smtp_mdns c = v) (prepare_mdn valid_address addresses_from_public_key render_mdn rfc724_mid contact_id).
Proof. unfold prepare_mdn, insert_tombstone, insert_msg, add_self_recipients. framed. Qed.

Lemma fail_msg_mdns msg_id v : preserves (λ c, smtp_mdns c = v) (fail_msg msg_id).
Proof. unfold fail_msg, Structured.load_from_db, set_msg_failed. framed. Qed.

Lemma smtp_send_none recipients message c w :
  ∃ w' status, smtp_send recipients message None (c, w) = ((c, w'), Ok status).
Proof.
  unfold smtp_send. destruct (is_empty recipients); [by eexists _, _|].
  rewrite run_bind_net. destruct (connect_configured w) as [w1 [u|e]]; [|by eexists _, _].
  cbn [fst snd]. rewrite run_bind_net. destruct (hand_over w1 recipients message) as [w2 sent]. cbn [fst snd].
  destruct (send_status sent) as [status closes]. rewrite run_bind.
  destruct closes; destruct status; by eexists _, _.
Qed.

Lemma delete_mdns_shorter mid mids c :
  (∃ r, r ∈ smtp_mdns c ∧ MdnRow.rfc724_mid r = mid) →
  (length (smtp_mdns (delete_mdns (mid :: mids) c)) < length (smtp_mdns c))%nat.
Proof.
  intros (r & Hr & <-). change (smtp_mdns (delete_mdns (MdnRow.rfc724_mid r :: mids) c))
    with (filter (λ r', MdnRow.rfc724_mid r' ∉ MdnRow.rfc724_mid r :: mids) (smtp_mdns c)).
  apply (length_filter_lt _ _ r); [done|]. set_solver.
Qed.

(** There is a next receipt as long as there is one. *)
Lemma next_mdn_in c row : next_mdn c = Some row → row ∈ smtp_mdns c.
Proof. intros Hp. by apply pick_in, list_elem_of_filter in Hp as [_ Hp]. Qed.

Lemma fewest_attempts (l : list MdnRow.t) :
  l ≠ [] → ∃ r, r ∈ l ∧ Forall (λ r', MdnRow.retries r <= MdnRow.retries r')%Z l.
Proof.
  induction l as [|a l IH]; [done|]. intros _. destruct l as [|b l].
  { exists a. split; [left|]. repeat constructor. lia. }
  destruct IH as (r & Hr & Hall); [done|]. destruct (Z.le_gt_cases (MdnRow.retries a) (MdnRow.retries r)) as [Hle|Hgt].
  - exists a. split; [left|]. constructor; [lia|]. eapply Forall_impl; [exact Hall|]. cbn. lia.
  - exists r. split; [by right|]. constructor; [lia|done].
Qed.

Lemma next_mdn_none c : next_mdn c = None → smtp_mdns c = [].
Proof.
  intros Hp. apply pick_None in Hp. destruct (decide (smtp_mdns c = [])) as [|Hne]; [done|].
  destruct (fewest_attempts _ Hne) as (r & Hr & Hall). exfalso.
  assert (r ∈ filter (λ r, Forall (λ r', MdnRow.retries r <= MdnRow.retries r')%Z (smtp_mdns c)) (smtp_mdns c)) as Hin
    by (by apply list_elem_of_filter).
  rewrite Hp in Hin. set_solver.
Qed.

(** [send_mdn] says that there is nothing more only when there is not. *)
Lemma send_mdn_done c w c' w' :
  send_mdn valid_address addresses_from_public_key render_mdn (c, w) = ((c', w'), Ok false) → smtp_mdns c' = [].
Proof.
  unfold send_mdn. rewrite run_bind_db, run_modify, run_bind_db, run_gets.
  destruct (next_mdn _) as [row|] eqn:Hnext.
  - rewrite run_bind_db, run_modify, run_bind. unfold caught.
    destruct (send_mdn_rfc724_mid _ _ _ _ _ _) as [s [[]|e]]; [done|done|]. cbn beta iota.
    destruct s as [c2 w2]. rewrite run_bind_db. done.
  - intros [= <- _]. by apply next_mdn_none.
Qed.

Lemma send_mdn_shorter c w c' w' :
  send_mdn valid_address addresses_from_public_key render_mdn (c, w) = ((c', w'), Ok true) →
  (length (smtp_mdns c') < length (smtp_mdns c))%nat.
Proof.
  unfold send_mdn. rewrite run_bind_db, run_modify. set (c1 := set_smtp_mdns _ c).
  assert (length (smtp_mdns c1) <= length (smtp_mdns c))%nat as Hle1 by apply length_filter.
  rewrite run_bind_db, run_gets. destruct (next_mdn c1) as [row|] eqn:Hnext; [|done].
  rewrite run_bind_db, run_modify. set (c2 := set_smtp_mdns _ c1).
  assert (length (smtp_mdns c2) = length (smtp_mdns c1)) as Hlen2 by apply length_fmap.
  assert (∃ r, r ∈ smtp_mdns c2 ∧ MdnRow.rfc724_mid r = MdnRow.rfc724_mid row) as Hin.
  { apply next_mdn_in in Hnext. exists (mdn_retry row). split; [|done].
    unfold c2. apply list_elem_of_fmap. exists row. by rewrite decide_True. }
  rewrite run_bind. unfold caught, send_mdn_rfc724_mid. rewrite run_bind_db.
  pose proof (preserves_final _ _ c2 (prepare_mdn_queue (MdnRow.rfc724_mid row) (MdnRow.from_id row) _) eq_refl) as Hprep.
  unfold final in Hprep. destruct (prepare_mdn _ _ _ _ _ c2) as [c3 [[[additional recipients] body]|e]]; cbn [fst] in Hprep.
  2:{ cbn beta iota. rewrite run_bind_db. done. }
  rewrite run_bind. destruct (smtp_send_none recipients body c3 w) as (w4 & status & ->).
  destruct status as [|err|].
  - rewrite run_bind_db, run_modify, !run_ret. intros [= <- _].
    assert (length (smtp_mdns (delete_mdns (MdnRow.rfc724_mid row :: additional) c3)) < length (smtp_mdns c3))%nat.
    { apply delete_mdns_shorter. by rewrite Hprep. }
    rewrite Hprep in *. lia.
  - cbn beta iota. unfold bail at 1. rewrite run_bind_db. done.
  - done.
Qed.

(** C38: sending the queued receipts ends: the loop is through after at most one
    round more than there are receipts, whatever the server answers, since every
    round that asks for another has taken a receipt from the queue; and when it
    ends without an error no receipt is left or the rate limiter stopped it. *)
Theorem send_mdns_ends (fuel : nat) (c : Ctx) (w : W) :
  (length (smtp_mdns c) < fuel)%nat →
  let '((c', w'), r) := send_mdns valid_address addresses_from_public_key render_mdn fuel (c, w) in
  r ≠ Ok None ∧ (r = Ok (Some tt) → smtp_mdns c' = [] ∨ may_send w' = false).
Proof.
  revert c w. induction fuel as [|fuel IH]; intros c w Hf; [lia|].
  cbn [send_mdns]. rewrite !run_bind_gets. cbn [snd].
  destruct (may_send w) eqn:Hmay; cbn [negb]; [|rewrite run_ret; auto]. rewrite !run_bind.
  destruct (send_mdn _ _ _ (c, w)) as [[c' w'] [[]|e]] eqn:E; [| |done].
  - apply send_mdn_shorter in E. apply IH. lia.
  - apply send_mdn_done in E. rewrite run_ret. auto.
Qed.
End receipts.

(** ** A server with its answers written down *)

(** The answers to come, [None] for a mail taken over. *)
Definition Scripted : Type := list (option SendError.t).

#[global] Instance scripted_server : Server Scripted := {|
  connect_configured w := (w, Ok tt);
  hand_over w recipients message := match w with [] => ([], None) | answer :: answers => (answers, answer) end;
  disconnect w := w;
  may_send w := true;
|}.

(** One mail to three people, the server taking two at a time. *)
Definition posted : Ctx := final (mail "m1" ["bob@site"] ["ann@site"] ["eve@site"] "Hello" "How are you?") desk.

Definition accepts (addr : str) : bool := contains AT addr.

Definition attempt_row : Ctx * Booked Scripted → (Ctx * Booked Scripted) * result unit :=
  @send_msg_to_smtp ascii_case (Booked Scripted) _ (λ _, lit "unencrypted") accepts (λ _, Ok 2%Z) (lit "notice") 1.

Definition greylisted : option SendError.t := Some (SendError.SmtpSend SmtpError.Transient).

Definition state_in (c : Ctx) (id : Z) : option Z := Msg.state <$> msgs c !! id.

(** The second half is refused for now: the first two are not written to again. *)
Lemma delivery_exact_witness :
  let s := (posted, Book [None; greylisted; None] []) in
  let s1 := (attempt_row s).1 in
  let s2 := (attempt_row s1).1 in
  book s1.2 = [([lit "bob@site"; lit "ann@site"], lit "txt:How are you?", None);
               ([lit "eve@site"], lit "txt:How are you?", greylisted)]
  ∧ (SmtpRow.recipients <$> smtp s1.1) = [lit "eve@site"]
  ∧ book s2.2 = book s1.2 ++ [([lit "eve@site"], lit "txt:How are you?", None)]
  ∧ smtp s2.1 = [] ∧ state_in s2.1 10 = Some (MessageState.to_i64 MessageState.OutDelivered)
  ∧ ∃ given rest last,
      attempt_row s = ((s1.1, Book (at_server s1.2) (acknowledged (lit "txt:How are you?") given ++ last)), (attempt_row s).2)
      ∧ concat given ++ rest = [lit "bob@site"; lit "ann@site"; lit "eve@site"].
Proof.
  cbv zeta. split_and!; [vm_compute; reflexivity..|].
  destruct (@delivery_exact ascii_case Scripted _ (λ _, lit "unencrypted") accepts (λ _, Ok 2%Z) (lit "notice") 1
    (SmtpRow.mk 1 (lit "m1") (lit "bob@site ann@site eve@site") (lit "txt:How are you?") 10 0)
    posted (attempt_row (posted, Book [None; greylisted; None] [])).1.1
    [None; greylisted; None] (at_server (attempt_row (posted, Book [None; greylisted; None] [])).1.2)
    (attempt_row (posted, Book [None; greylisted; None] [])).2) as (given & rest & last & Hrun & Hall & _).
  - vm_compute. reflexivity.
  - vm_compute. reflexivity.
  - exists given, rest, last. split; [exact Hrun|]. rewrite Hall. vm_compute. reflexivity.
Defined.

(** Refused for good, the mail is not tried again, for those not yet reached
    either. *)
Example refused_for_good :
  let s := attempt_row (posted, Book [None; Some (SendError.SmtpSend (SmtpError.Permanent 5 5 None (lit "no")))] []) in
  (book s.1.2).*2 = [None; Some (SendError.SmtpSend (SmtpError.Permanent 5 5 None (lit "no")))]
  ∧ smtp s.1.1 = [] ∧ state_in s.1.1 10 = Some (MessageState.to_i64 MessageState.OutFailed).
Proof. vm_compute. split_and!; reflexivity. Qed.

(** A server that keeps putting the mail off: after seven rounds the row is gone
    and the message failed. *)
Lemma queue_drains_witness :
  let s := @rounds ascii_case Scripted _ (λ _, lit "unencrypted") accepts (λ _, Ok 2%Z) 7 (lit "notice") 1
             (posted, repeat greylisted 9) in
  find_row s.1 1 = None ∧ length s.2 = 3%nat ∧ state_in s.1 10 = Some (MessageState.to_i64 MessageState.OutFailed).
Proof.
  cbv zeta. split; [|split; vm_compute; reflexivity].
  apply (@queue_drains ascii_case Scripted _ (λ _, lit "unencrypted") accepts (λ _, Ok 2%Z) (lit "notice") 1
    (SmtpRow.mk 1 (lit "m1") (lit "bob@site ann@site eve@site") (lit "txt:How are you?") 10 0)).
  - intros w. reflexivity.
  - vm_compute. reflexivity.
  - vm_compute. discriminate.
Defined.

(** A mail none of whose addresses the SMTP library accepts counts as delivered,
    without having been given to the server. *)
Example delivered_to_nobody :
  let s := (@send_msg_to_smtp ascii_case (Booked Scripted) _ (λ _, lit "unencrypted") (λ _, false) (λ _, Ok 2%Z)
              (lit "notice") 1 (posted, Book [] [])) in
  s.2 = Ok tt ∧ book s.1.2 = [] ∧ smtp s.1.1 = []
  ∧ state_in s.1.1 10 = Some (MessageState.to_i64 MessageState.OutDelivered).
Proof. vm_compute. split_and!; reflexivity. Qed.

(** Two receipts for one sender go out as one mail. *)
Definition two_read : Ctx :=
  set_smtp_mdns (λ _, [MdnRow.mk 20 10 (lit "a@site") 0; MdnRow.mk 21 10 (lit "b@site") 0]) posted.

Definition receipts_pass (fuel : nat) : Ctx * Booked Scripted → (Ctx * Booked Scripted) * result (option unit) :=
  @send_mdns first_choice (Booked Scripted) _ accepts no_relays
    (λ _ _ mid others, Ok (lit "mdn", join [BLANK] (mid :: others))) fuel.

Lemma send_mdns_ends_witness :
  let run := receipts_pass 3 (two_read, Book [] []) in
  run.2 = Ok (Some tt) ∧ book run.1.2 = [([lit "bob@site"], lit "a@site b@site", None)]
  ∧ (smtp_mdns run.1.1 = [] ∨ may_send run.1.2 = false).
Proof.
  cbv zeta. split; [vm_compute; reflexivity|]. split; [vm_compute; reflexivity|].
  pose proof (@send_mdns_ends first_choice (Booked Scripted) _ accepts no_relays
    (λ _ _ mid others, Ok (lit "mdn", join [BLANK] (mid :: others))) 3 two_read (Book [] [])) as Hends.
  change (@send_mdns first_choice (Booked Scripted) _ accepts no_relays
    (λ _ _ mid others, Ok (lit "mdn", join [BLANK] (mid :: others))) 3 (two_read, Book [] []))
    with (receipts_pass 3 (two_read, Book [] [])) in Hends.
  assert ((receipts_pass 3 (two_read, Book [] [])).2 = Ok (Some tt)) as Hok by (vm_compute; reflexivity).
  destruct (receipts_pass 3 (two_read, Book [] [])) as [[c' w'] r]. cbn [fst snd] in *.
  apply Hends; [vm_compute; lia|exact Hok].
Defined.
