(* ===== verification/Seen.v ===== *)
(** * Seen: marking messages as seen ([message.rs]).

    [markseen_msgs]: the state of the messages, the start of their timers, the
    flags it leaves for the IMAP server and the read receipts it queues for
    [Smtp].  The events it emits are not part of it. *)

From S2P Require Import Prelude Text Substr Store Labels Trash Blocklist.
From S2P Require Import Params Policy Receipts Structured Truncate Chats Drafts WireText Send Smtp.

(** The columns of a message and its chat that are read. *)
Module SeenRow.
Record t := mk {
  id : Z;
  chat_id : Z;
  state : MessageState.t;
  param : Params;
  from_id : Z;
  rfc724_mid : str;
  hidden : bool;
  blocked : Z;
  ephemeral_timer : Z;
}.
End SeenRow.

(** [SELECT .. FROM msgs m LEFT JOIN chats c .. WHERE m.id=? AND m.chat_id>9] *)
Definition load_seen_row (id : Z) : cmd Ctx (option SeenRow.t) :=
  c ← gets Datatypes.id;
  match msgs c !! id with
  | None => mret None
  | Some m =>
      if (Msg.chat_id m <=? 9)%Z then mret None
      else
        row ← or_bail
          (state ← MessageState.from_i64 (Msg.state m);
           rfc724_mid ← Msg.rfc724_mid m;
           chat ← chats c !! Msg.chat_id m;
           if ((0 <=? ChatRow.blocked chat) && (ChatRow.blocked chat <=? 2)
               && (0 <=? Msg.ephemeral_timer m) && (Msg.ephemeral_timer m <=? u32_max))%Z
           then Some (SeenRow.mk id (Msg.chat_id m) state (unpack (Msg.param m)) (Msg.from_id m) rfc724_mid
                        (Msg.hidden m) (ChatRow.blocked chat) (Msg.ephemeral_timer m))
           else None) "Invalid column type";
        mret (Some row)
  end.

Fixpoint load_seen_rows (ids : list Z) : cmd Ctx (list SeenRow.t) :=
  match ids with
  | [] => mret []
  | id :: ids => row ← load_seen_row id; rows ← load_seen_rows ids; mret (option_list row ++ rows)
  end.

(** [UPDATE msgs SET ephemeral_timestamp = ..] *)
Definition start_timer (now : Z) (m : Msg.t) : Msg.t :=
  let due := (now + Msg.ephemeral_timer m)%Z in
  if (((Msg.ephemeral_timestamp m =? 0) || (due <? Msg.ephemeral_timestamp m)) && (0 <? Msg.ephemeral_timer m))%Z
  then {|
    Msg.rfc724_mid := Msg.rfc724_mid m; Msg.pre_rfc724_mid := Msg.pre_rfc724_mid m;
    Msg.mime_in_reply_to := Msg.mime_in_reply_to m; Msg.mime_references := Msg.mime_references m;
    Msg.subject := Msg.subject m; Msg.txt := Msg.txt m; Msg.txt_normalized := Msg.txt_normalized m;
    Msg.timestamp := Msg.timestamp m; Msg.timestamp_sent := Msg.timestamp_sent m;
    Msg.timestamp_rcvd := Msg.timestamp_rcvd m; Msg.chat_id := Msg.chat_id m; Msg.from_id := Msg.from_id m;
    Msg.to_id := Msg.to_id m; Msg.state := Msg.state m; Msg.hidden := Msg.hidden m; Msg.param := Msg.param m;
    Msg.ephemeral_timer := Msg.ephemeral_timer m; Msg.ephemeral_timestamp := due;
    Msg.deleted := Msg.deleted m; Msg.typ := Msg.typ m; Msg.download_state := Msg.download_state m;
  |} else m.

Definition start_ephemeral_timers_msgids (msg_ids : list Z) : cmd Ctx unit :=
  now ← gets clock;
  transaction (for_each msg_ids (λ id, modify (set_msgs (alter (start_timer now) id)))).

(** [update_msg_state] to [InSeen] *)
Definition update_msg_state_seen (id : Z) : cmd Ctx unit :=
  modify (set_msgs (alter (with_state (MessageState.to_i64 MessageState.InSeen)) id)).

(** Whom a receipt for the message goes to, [WantsMdn] cleared for a correspondent. *)
Definition receipt_to (row : SeenRow.t) : cmd Ctx (option Z) :=
  let wants_mdn := default false (Params.get_bool (SeenRow.param row) Key.WantsMdn) in
  should ← (if (SeenRow.blocked row =? Blocked_Not)%Z && negb (SeenRow.hidden row) && wants_mdn
               && (get_cmd (SeenRow.param row) =? SystemMessage.Unknown)%Z
            then should_send_mdn (SeenRow.from_id row) else mret false);
  if should : bool then
    modify (set_msgs (alter (with_packed (Params.to_string (Params.remove Key.WantsMdn (SeenRow.param row))))
                        (SeenRow.id row))) ;;
    mret (Some (SeenRow.from_id row))
  else gets (λ c, if get_config_bool c Config.BccSelf then Some ContactId.SELF else None).

Definition queue_receipt (row : SeenRow.t) (to_id : Z) : Ctx → Ctx :=
  set_smtp_mdns (λ q, q ++ [MdnRow.mk (SeenRow.id row) to_id (SeenRow.rfc724_mid row) 0]).

Definition mark_row (row : SeenRow.t) : cmd Ctx unit :=
  if decide (SeenRow.state row = MessageState.InFresh ∨ SeenRow.state row = MessageState.InNoticed) then
    update_msg_state_seen (SeenRow.id row) ;;
    modify (markseen_on_imap_table (SeenRow.rfc724_mid row)) ;;
    to_id ← receipt_to row;
    match to_id with Some to_id => modify (queue_receipt row to_id) | None => mret tt end
  else mret tt.

Definition LAST_MSG_ID : str := lit "last_msg_id".

(** Without the events. *)
Definition markseen_msgs (msg_ids : list Z) : cmd Ctx unit :=
  if is_empty msg_ids then mret tt
  else
    old_last_msg_id ← gets (λ c, default 0%Z (get_config_key c LAST_MSG_ID ≫= parse_u32));
    modify (set_raw_config LAST_MSG_ID (Some (show_Z (foldl Z.max old_last_msg_id msg_ids)))) ;;
    rows ← load_seen_rows msg_ids;
    (if existsb (λ r, negb (SeenRow.ephemeral_timer r =? 0)%Z) rows
     then start_ephemeral_timers_msgids msg_ids else mret tt) ;;
    for_each rows mark_row.

(** ** Who gets a receipt *)

(** The settings and tables a receipt depends on. *)
Record settings_same (c c' : Ctx) : Prop := {
  same_env : env c' = env c;
  same_contacts : contacts c' = contacts c;
  same_policy : contact_policy c' = contact_policy c;
  same_config : ∀ k, k ≠ LAST_MSG_ID → config c' !! k = config c !! k;
}.

Lemma settings_same_refl c : settings_same c c.
Proof. by split. Qed.

Lemma settings_same_trans c c1 c2 : settings_same c c1 → settings_same c1 c2 → settings_same c c2.
Proof.
  intros [A1 A2 A3 A4] [B1 B2 B3 B4]. split; try congruence. intros k Hk. by rewrite B4, A4.
Qed.

Lemma get_config_key_same c c' k : settings_same c c' → k ≠ LAST_MSG_ID → get_config_key c' k = get_config_key c k.
Proof.
  intros [E1 _ _ E4] Hk. unfold get_config_key, get_raw_config. by rewrite E1, E4.
Qed.

Lemma get_config_same c c' key : settings_same c c' → get_config c' key = get_config c key.
Proof.
  intros Hs. unfold get_config, get_config_opt. rewrite (get_config_key_same c c'); [done|done|].
  destruct key; vm_compute; discriminate.
Qed.

Lemma get_config_bool_same c c' key : settings_same c c' → get_config_bool c' key = get_config_bool c key.
Proof. intros Hs. unfold get_config_bool. by rewrite (get_config_same c c'). Qed.

Lemma should_send_mdn_same c c' k :
  settings_same c c' → outcome (should_send_mdn k) c' = outcome (should_send_mdn k) c.
Proof.
  intros Hs. unfold outcome, should_send_mdn. rewrite !run_bind_gets. unfold Datatypes.id.
  assert (MdnPolicy.load c' = MdnPolicy.load c) as ->.
  { unfold MdnPolicy.load, MdnPolicy.should_send_mdns, get_config_int.
    by rewrite (get_config_bool_same c c'), (get_config_same c c'). }
  assert (get_contact c' k = get_contact c k) as ->.
  { unfold get_contact. rewrite (same_contacts _ _ Hs).
    rewrite (get_config_key_same c c' (lit "configured_addr")); [done|done|vm_compute; discriminate]. }
  unfold mdn_for_contact, is_verified. rewrite (same_contacts _ _ Hs), (same_policy _ _ Hs).
  unfold or_bail. repeat (case_decide || case_match; try reflexivity).
Qed.

(** A receipt with a reason: the message was not seen yet, and it goes to the
    user's other devices, or to the sender of a visible user's message in an
    accepted chat who asked for it and whom the policy grants it. *)
Definition justified (c : Ctx) (mdn : MdnRow.t) : Prop :=
  ∃ m chat,
    msgs c !! MdnRow.msg_id mdn = Some m ∧ Msg.rfc724_mid m = Some (MdnRow.rfc724_mid mdn)
    ∧ Msg.state m ∈ [MessageState.to_i64 MessageState.InFresh; MessageState.to_i64 MessageState.InNoticed]
    ∧ chats c !! Msg.chat_id m = Some chat
    ∧ (MdnRow.from_id mdn = ContactId.SELF ∧ get_config_bool c Config.BccSelf = true
       ∨ MdnRow.from_id mdn = Msg.from_id m
         ∧ Params.get_bool (unpack (Msg.param m)) Key.WantsMdn = Some true
         ∧ Msg.hidden m = false ∧ ChatRow.blocked chat = Blocked_Not
         ∧ get_cmd (unpack (Msg.param m)) = SystemMessage.Unknown
         ∧ outcome (should_send_mdn (Msg.from_id m)) c = Ok true).

(** The row was read from the tables of [c]. *)
Definition read_from (c : Ctx) (row : SeenRow.t) : Prop :=
  ∃ m chat,
    msgs c !! SeenRow.id row = Some m ∧ chats c !! Msg.chat_id m = Some chat
    ∧ MessageState.from_i64 (Msg.state m) = Some (SeenRow.state row)
    ∧ Msg.rfc724_mid m = Some (SeenRow.rfc724_mid row)
    ∧ SeenRow.param row = unpack (Msg.param m) ∧ SeenRow.from_id row = Msg.from_id m
    ∧ SeenRow.hidden row = Msg.hidden m ∧ SeenRow.blocked row = ChatRow.blocked chat.

Lemma load_seen_row_inv id c c' row :
  load_seen_row id c = (c', Ok (Some row)) → c' = c ∧ read_from c row ∧ SeenRow.id row = id.
Proof.
  unfold load_seen_row. rewrite run_bind_gets. unfold Datatypes.id. destruct (msgs c !! id) as [m|] eqn:Hm; [|done].
  destruct (_ <=? 9)%Z; [done|]. intros Hrun. bind_inv Hrun as r c1 [-> Hr]%or_bail_ok_inv. injection Hrun as <- <-.
  apply bind_Some in Hr as (state & Hstate & Hr). apply bind_Some in Hr as (mid & Hmid & Hr).
  apply bind_Some in Hr as (chat & Hchat & Hr). destruct (_ && _); [|done]. injection Hr as <-.
  split; [done|]. split; [|done]. by exists m, chat.
Qed.

Lemma load_seen_row_frame (P : Ctx → Prop) id : preserves P (load_seen_row id).
Proof. unfold load_seen_row. preserve. Qed.

Lemma load_seen_rows_inv ids c c' rows :
  load_seen_rows ids c = (c', Ok rows) → c' = c ∧ Forall (read_from c) rows.
Proof.
  revert c rows. induction ids as [|id ids IH]; intros c rows Hrun; cbn [load_seen_rows] in Hrun.
  - injection Hrun as <- <-. by split.
  - bind_inv Hrun as row c1 H1. bind_inv Hrun as rows1 c2 H2. injection Hrun as <- <-.
    assert (c1 = c) as ->.
    { symmetry. exact (preserves_run (λ s, c = s) _ _ _ _ (load_seen_row_frame _ id) H1 eq_refl). }
    apply IH in H2 as [-> Hrows]. split; [done|]. destruct row as [row|]; [|done]. constructor; [|done].
    by apply load_seen_row_inv in H1 as (_ & ? & _).
Qed.

Lemma load_seen_rows_frame (P : Ctx → Prop) ids : preserves P (load_seen_rows ids).
Proof. induction ids; cbn [load_seen_rows]; preserve; apply load_seen_row_frame. Qed.

(** The receipts queued since [c], all of them justified. *)
Definition receipts_since (c c' : Ctx) : Prop :=
  settings_same c c' ∧ ∃ new, smtp_mdns c' = smtp_mdns c ++ new ∧ Forall (justified c) new.

Lemma receipts_since_ext c c1 c2 :
  receipts_since c c1 → settings_same c1 c2 → smtp_mdns c2 = smtp_mdns c1 → receipts_since c c2.
Proof.
  intros [Hs (new & Hq & Hn)] Hs2 Hq2. split; [by eapply settings_same_trans|]. exists new. by rewrite Hq2.
Qed.

Lemma receipts_since_msgs c c1 f : receipts_since c c1 → receipts_since c (set_msgs f c1).
Proof. intros Hr. eapply receipts_since_ext; [done| |done]. by split. Qed.

Lemma receipts_since_markseen c mid c1 : receipts_since c c1 → receipts_since c (markseen_on_imap_table mid c1).
Proof. intros Hr. eapply receipts_since_ext; [done| |done]. by split. Qed.

Lemma from_i64_eq z s : MessageState.from_i64 z = Some s → z = MessageState.to_i64 s.
Proof.
  unfold MessageState.from_i64. intros Hf. apply List.find_some in Hf as [_ E%Z.eqb_eq]. done.
Qed.

Lemma mark_row_receipts c row : read_from c row → preserves (receipts_since c) (mark_row row).
Proof.
  intros (m & chat & Hm & Hchat & Hstate & Hmid & Hparam & Hfrom & Hhid & Hbl). unfold mark_row.
  case_decide as Hfresh; [|preserve].
  assert (Msg.state m ∈ [MessageState.to_i64 MessageState.InFresh; MessageState.to_i64 MessageState.InNoticed]) as Hst.
  { apply from_i64_eq in Hstate. rewrite Hstate. destruct Hfresh as [-> | ->]; set_solver. }
  apply preserves_bind; [apply preserves_modify; intros; by apply receipts_since_msgs|intros _].
  apply preserves_bind; [apply preserves_modify; intros; by apply receipts_since_markseen|intros _].
  apply (spec_bind _ _ (λ to c', receipts_since c c' ∧
    match to with
    | Some to => justified c (MdnRow.mk (SeenRow.id row) to (SeenRow.rfc724_mid row) 0)
    | None => True
    end)).
  - intros c1 Hc1. unfold receipt_to. rewrite run_bind.
    destruct (_ && _) eqn:Hcond.
    + apply andb_true_iff in Hcond as [Hcond Hcmd%Z.eqb_eq]. apply andb_true_iff in Hcond as [Hcond Hwants].
      apply andb_true_iff in Hcond as [Hblock%Z.eqb_eq Hvis%negb_true_iff].
      destruct (should_send_mdn_run (SeenRow.from_id row) c1) as (b & Hb & _). rewrite Hb. destruct b.
      * cbn. split; [by apply receipts_since_msgs|]. exists m, chat. cbn. split_and!; try done. right.
        rewrite <-Hfrom, <-Hparam, <-Hhid, <-Hbl. split_and!; try done.
        -- destruct (Params.get_bool _ _) as [[]|]; done.
        -- rewrite <-(should_send_mdn_same c c1) by apply Hc1. unfold outcome. by rewrite Hb.
      * cbn. split; [done|]. destruct (get_config_bool c1 Config.BccSelf) eqn:Hself; [|done].
        exists m, chat. cbn. split_and!; try done. left. split; [done|]. by rewrite <-(get_config_bool_same c c1) by apply Hc1.
    + cbn. split; [done|]. destruct (get_config_bool c1 Config.BccSelf) eqn:Hself; [|done].
      exists m, chat. cbn. split_and!; try done. left. split; [done|]. by rewrite <-(get_config_bool_same c c1) by apply Hc1.
  - intros [to|].
    + intros c1 [[Hs (new & Hq & Hn)] Hj]. cbn. split; [eapply settings_same_trans; [done|by split]|].
      exists (new ++ [MdnRow.mk (SeenRow.id row) to (SeenRow.rfc724_mid row) 0]). cbn. rewrite Hq, app_assoc.
      split; [done|]. apply Forall_app. by split; [|constructor].
    + intros c1 [Hr _]. exact Hr.
Qed.

Lemma mark_rows_receipts c rows : Forall (read_from c) rows → preserves (receipts_since c) (for_each rows mark_row).
Proof.
  induction 1 as [|row rows Hrow _ IH]; cbn [for_each]; [preserve|].
  apply preserves_bind; [by apply mark_row_receipts|by intros _].
Qed.

Lemma last_msg_id_settings v c : settings_same c (set_raw_config LAST_MSG_ID (Some v) c).
Proof. split; try done. intros k Hk. cbn. by rewrite lookup_insert_ne. Qed.

(** C12: marking messages as seen queues no receipt without a reason: besides the
    copy for the user's own devices, a receipt goes only to the sender of a
    message that was not seen before, visible, asking for a receipt and not a
    system message, in a chat the user accepted, and only when the receipt
    policy grants it to that sender; receipts queued before stay as they are. *)
Theorem receipts_justified (msg_ids : list Z) (c : Ctx) :
  let c' := final (markseen_msgs msg_ids) c in
  ∃ new, smtp_mdns c' = smtp_mdns c ++ new ∧ Forall (justified c) new.
Proof.
  cbv zeta. enough (receipts_since c (final (markseen_msgs msg_ids) c)) as [_ H1] by exact H1.
  assert (receipts_since c c) as Hrefl.
  { split; [apply settings_same_refl|]. exists []. by rewrite app_nil_r. }
  unfold final, markseen_msgs. destruct (is_empty msg_ids); [exact Hrefl|].
  rewrite run_bind_gets, run_bind_modify. set (c1 := set_raw_config _ _ c).
  assert (receipts_since c c1) as Hc1 by (eapply receipts_since_ext; [done|apply last_msg_id_settings|done]).
  rewrite run_bind. destruct (load_seen_rows msg_ids c1) as [c2 [rows|e]] eqn:Hrows.
  - apply load_seen_rows_inv in Hrows as [-> Hrows].
    assert (Forall (read_from c) rows) as Hread by exact Hrows.
    match goal with |- receipts_since c ((?m : cmd Ctx unit) c1).1 => apply (preserves_final (receipts_since c) m c1); [|done] end.
    apply preserves_bind; [|intros _; by apply mark_rows_receipts].
    unfold start_ephemeral_timers_msgids. preserve. apply preserves_modify. intros. by apply receipts_since_msgs.
  - cbn. assert (c2 = c1) as ->; [|done].
    symmetry. exact (preserves_run (λ s, c1 = s) _ _ _ _ (load_seen_rows_frame _ msg_ids) Hrows eq_refl).
Qed.

(** ** Reading a mail twice *)

Definition unread : Msg.t :=
  let p := Params.to_string (set_int Key.WantsMdn 1 ∅) in
  Msg.mk (Some (lit "in@site")) (Some []) (Some []) None (Some []) (lit "Hi") None (Some 900%Z) 900 900 10 10
    ContactId.SELF (MessageState.to_i64 MessageState.InFresh) false p 0 0 false 10 0.

Definition inbox : Ctx :=
  let c := set_msgs <[20%Z := unread]> posted in
  final (MdnPolicy.set MdnPolicy.Always) c.

(** A mail read, put back to unread and read again is confirmed once to its sender;
    with copies to the own devices on, the second reading is told to these. *)
Example confirmed_once :
  let again c := set_msgs (alter (with_state (MessageState.to_i64 MessageState.InFresh)) 20%Z) c in
  let c1 := final (markseen_msgs [20%Z]) inbox in
  let c2 := final (markseen_msgs [20%Z]) (again c1) in
  let d := set_raw_config (lit "bcc_self") (Some (lit "1")) inbox in
  let d2 := final (markseen_msgs [20%Z]) (again (final (markseen_msgs [20%Z]) d)) in
  state_in c1 20 = Some (MessageState.to_i64 MessageState.InSeen)
  ∧ smtp_mdns c2 = [MdnRow.mk 20 10 (lit "in@site") 0]
  ∧ smtp_mdns d2 = [MdnRow.mk 20 10 (lit "in@site") 0; MdnRow.mk 20 ContactId.SELF (lit "in@site") 0].
Proof. vm_compute. split_and!; reflexivity. Qed.
