(* ===== verification/BlobCrypt.v ===== *)
(** * BlobCrypt: encryption of blobs at rest, [core/src/email/blobcrypt.rs], and
    what [core/src/email/vault.rs] reports of it.

    The state is the account with its blob directory.  The cipher and the random
    generator are third-party crates and interfaces here.  Every durable write
    can fail: [faults] says what becomes of the writes to come, so that a single
    failing write and a crash, after which nothing is written, are both cases. *)

From S2P Require Import Prelude Text Substr Store.

Abbreviation bytes := (list N).

(** ** Third-party code *)

(** [XChaCha20Poly1305]: what was encrypted decrypts, with the same key and
    nonce, to the plaintext. *)
Class Aead := {
  aead_encrypt : bytes → bytes → bytes → result bytes;
  aead_decrypt : bytes → bytes → bytes → result bytes;
  aead_roundtrip key nonce plaintext ciphertext :
    aead_encrypt key nonce plaintext = Ok ciphertext →
    aead_decrypt key nonce ciphertext = Ok plaintext;
}.

(** [rand::rng().fill_bytes] and [rand::random::<u64>]: the n-th draw. *)
Class Entropy := {
  fill_bytes : nat → nat → bytes;
  fill_bytes_length i n : length (fill_bytes i n) = n;
  fill_bytes_bounded i n : Forall (λ b, (b < 256)%N) (fill_bytes i n);
  random_u64 : nat → Z;
}.

(** ** The state *)

Inductive Entry := File (data : bytes) | Directory.

Record Disk := MkDisk {
  account : Ctx;
  db_encrypted : option bool; (** [Sql::is_encrypted]; [None] when it is not open *)
  blobdir : option (gmap str Entry); (** [None] before it is created *)
  draws : nat; (** random numbers drawn so far *)
  faults : nat → option nat; (** for the n-th write from now: [Some k], fails after [k] bytes *)
}.

Definition with_account (c : Ctx) (d : Disk) : Disk :=
  MkDisk c (db_encrypted d) (blobdir d) (draws d) (faults d).
Definition with_blobdir (b : option (gmap str Entry)) (d : Disk) : Disk :=
  MkDisk (account d) (db_encrypted d) b (draws d) (faults d).
Definition with_faults (f : nat → option nat) (d : Disk) : Disk :=
  MkDisk (account d) (db_encrypted d) (blobdir d) (draws d) f.
Definition with_db_encrypted (b : option bool) (d : Disk) : Disk :=
  MkDisk (account d) b (blobdir d) (draws d) (faults d).

(** A durable write: done, or torn after [k] bytes. *)
Definition durable (done : Disk → Disk) (torn : nat → Disk → Disk) : cmd Disk unit := λ d,
  let d' := with_faults (λ n, faults d (S n)) d in
  match faults d 0 with
  | None => (done d', Ok tt)
  | Some k => (torn k d', Err "i/o error")
  end.

(** Writes to the database are transactions. *)
Definition zoom {A} (m : cmd Ctx A) : cmd Disk A := λ d,
  let '(c, r) := m (account d) in (with_account c d, r).

Definition on_account {A} (m : cmd Ctx A) : cmd Disk A := durable id (λ _, id) ;; zoom m.

Definition draw {A} (f : nat → A) : cmd Disk A := λ d,
  (MkDisk (account d) (db_encrypted d) (blobdir d) (S (draws d)) (faults d), Ok (f (draws d))).

Definition contents (d : Disk) (name : str) : option bytes :=
  m ← blobdir d; e ← m !! name; match e with File data => Some data | Directory => None end.

(** [tokio::fs::read] *)
Definition fs_read (name : str) : cmd Disk bytes :=
  o ← gets (λ d, contents d name); or_bail o "cannot read file".

Definition put (name : str) (data : bytes) (d : Disk) : Disk :=
  with_blobdir (insert name (File data) <$> blobdir d) d.

(** [tokio::fs::write]: a failed write leaves a part of the file. *)
Definition fs_write (name : str) (data : bytes) : cmd Disk unit :=
  durable (put name data) (λ k, put name (take k data)).

(** [tokio::fs::rename]: atomic. *)
Definition fs_rename (from to : str) : cmd Disk unit :=
  durable (λ d, match contents d from with
                | Some data => with_blobdir (delete from <$> blobdir (put to data d)) d
                | None => d
                end) (λ _, id).

(** ** Format *)

Definition MAGIC : bytes := lit "EEEBLOB1".
Definition NONCE_LEN : nat := 24.
Definition HEADER_LEN : nat := length MAGIC + NONCE_LEN.
Definition KEY_CONFIG : str := lit "eeemail_blob_key".

Definition is_encrypted (data : bytes) : bool :=
  (HEADER_LEN <=? length data)%nat && starts_with MAGIC data.

(** ** Hexadecimal *)

Definition hex_digit (n : N) : N := if (n <? 10)%N then (48 + n)%N else (87 + n)%N.

(** [format!("{b:02x}")] on each byte *)
Definition hex_encode (bs : bytes) : str :=
  bs ≫= λ b, [hex_digit (b / 16); hex_digit (b mod 16)]%N.

Definition to_digit16 (c : N) : option N :=
  (if (48 <=? c) && (c <=? 57) then Some (c - 48)
   else if (97 <=? c) && (c <=? 102) then Some (c - 87)
   else if (65 <=? c) && (c <=? 70) then Some (c - 55)
   else None)%N.

(** [u8::from_str_radix(s, 16)] on the two bytes of a chunk: a plus sign is
    accepted in front of a digit, a byte that is not ASCII never. *)
Definition u8_from_hex (a b : N) : option N :=
  if (a =? 43)%N then to_digit16 b
  else x ← to_digit16 a; y ← to_digit16 b; Some (16 * x + y)%N.

Fixpoint decode_pairs (bs : bytes) : option bytes :=
  match bs with
  | [] => Some []
  | [_] => None
  | a :: b :: bs => v ← u8_from_hex a b; vs ← decode_pairs bs; Some (v :: vs)
  end.

Definition hex_decode (hex : str) : result bytes :=
  if Nat.odd (byte_len hex) then Err "odd-length hex"
  else match decode_pairs (as_bytes hex) with
       | Some bs => Ok bs
       | None => Err "invalid digit found in string"
       end.

Definition is_Err {A} (r : result A) : Prop := match r with Ok _ => False | Err _ => True end.

(** [vault::Protection] *)
Module Protection.
Record t := mk {
  database_encrypted : bool;
  blobs_encrypted : bool;
  cleartext_bytes : Z;
  partial : bool;
}.
End Protection.

Lemma u8_from_hex_encode b :
  (b < 256)%N → u8_from_hex (hex_digit (b / 16)) (hex_digit (b mod 16)) = Some b.
Proof.
  intros Hb. assert (∀ n, (n < 16)%N → to_digit16 (hex_digit n) = Some n ∧ hex_digit n ≠ 43%N) as Hd.
  { intros n Hn. unfold hex_digit, to_digit16. destruct (N.ltb_spec n 10).
    - rewrite (proj2 (N.leb_le 48 _)), (proj2 (N.leb_le _ 57)) by lia. cbn [andb].
      split; [f_equal|]; lia.
    - rewrite (proj2 (N.leb_le 48 _)), (proj2 (N.leb_gt _ 57)) by lia. cbn [andb].
      rewrite (proj2 (N.leb_le 97 _)), (proj2 (N.leb_le _ 102)) by lia. cbn [andb].
      split; [f_equal|]; lia. }
  assert (b / 16 < 16)%N as H1 by (apply N.Div0.div_lt_upper_bound; lia).
  assert (b mod 16 < 16)%N as H2 by (apply N.mod_lt; lia).
  destruct (Hd _ H1) as [E1 Hne], (Hd _ H2) as [E2 _].
  unfold u8_from_hex. rewrite (proj2 (N.eqb_neq _ _) Hne), E1, E2. simpl. f_equal.
  rewrite <-(N.Div0.div_mod b 16) at 1. done.
Qed.

Lemma hex_encode_ascii bs :
  Forall (λ b, (b < 256)%N) bs →
  forallb is_ascii (hex_encode bs) = true ∧ length (hex_encode bs) = 2 * length bs
  ∧ decode_pairs (hex_encode bs) = Some bs.
Proof.
  induction 1 as [|b bs Hb _ (IH1 & IH2 & IH3)]; [done|].
  unfold hex_encode. rewrite bind_cons. fold (hex_encode bs). cbn [app forallb length decode_pairs].
  rewrite IH1, IH2, IH3, u8_from_hex_encode by done.
  assert (∀ n, (n < 16)%N → is_ascii (hex_digit n) = true) as Hd.
  { intros n Hn. unfold is_ascii, hex_digit. apply N.ltb_lt. destruct (N.ltb_spec n 10); lia. }
  rewrite !Hd; [|apply N.mod_lt; lia|apply N.Div0.div_lt_upper_bound; lia].
  split_and!; [done|lia|done].
Qed.

Lemma byte_len_ascii s : forallb is_ascii s = true → byte_len s = length s.
Proof. intros H. by rewrite <-length_as_bytes, as_bytes_ascii. Qed.

(** The key reads back from the database as it was drawn. *)
Lemma hex_roundtrip bs : Forall (λ b, (b < 256)%N) bs → hex_decode (hex_encode bs) = Ok bs.
Proof.
  intros H. destruct (hex_encode_ascii bs H) as (H1 & H2 & H3). unfold hex_decode.
  rewrite byte_len_ascii, H2, as_bytes_ascii, H3 by done.
  destruct (Nat.odd (2 * length bs)) eqn:E; [|done].
  apply Nat.odd_spec in E as [k Hk]. lia.
Qed.

(** ** Operations *)

Section blobcrypt.
Context `{!Aead, !Entropy}.

Definition is_enabled (c : Ctx) : bool := get_config_bool c Config.BlobEncryption.

Definition key_of (c : Ctx) : result (option bytes) :=
  match get_raw_config c KEY_CONFIG with
  | None => Ok None
  | Some hex =>
      match hex_decode hex with
      | Ok bs => if (length bs =? 32)%nat then Ok (Some bs) else Err "blob key has the wrong length"
      | Err _ => Err "blob key is not valid hex"
      end
  end.

Definition ensure_key : cmd Disk bytes :=
  d ← gets id;
  found ← lift (key_of (account d));
  match found with
  | Some key => mret key
  | None =>
      bs ← draw (λ i, fill_bytes i 32);
      on_account (modify (set_raw_config KEY_CONFIG (Some (hex_encode bs)))) ;;
      mret bs
  end.

Definition seal (key plaintext : bytes) : cmd Disk bytes :=
  nonce ← draw (λ i, fill_bytes i NONCE_LEN);
  ciphertext ← lift (aead_encrypt key nonce plaintext);
  mret (MAGIC ++ nonce ++ ciphertext).

Definition open (key data : bytes) : result bytes :=
  if is_encrypted data
  then aead_decrypt key (drop (length MAGIC) (take HEADER_LEN data)) (drop HEADER_LEN data)
  else Err "not an encrypted blob".

Definition read (name : str) : cmd Disk bytes :=
  data ← fs_read name;
  if negb (is_encrypted data) then mret data
  else
    d ← gets id;
    found ← lift (key_of (account d));
    key ← or_bail found "blob is encrypted but no key is available; unlock the database";
    lift (open key data).

Definition temp_beside (name : str) : cmd Disk str :=
  draw (λ i, name ++ lit ".tmp-" ++ show_Z (random_u64 i)).

Definition convert (name : str) (f : bytes → cmd Disk (option bytes)) : cmd Disk unit :=
  data ← fs_read name;
  out ← f data;
  match out with
  | None => mret tt
  | Some out =>
      temp ← temp_beside name;
      fs_write temp out ;;
      fs_rename temp name
  end.

(** [seal(&key, data).map(Some)] *)
Definition seal_some (key data : bytes) : cmd Disk (option bytes) :=
  out ← seal key data; mret (Some out).

Definition open_some (key data : bytes) : cmd Disk (option bytes) :=
  out ← lift (open key data); mret (Some out).

Definition protect (name : str) : cmd Disk unit :=
  d ← gets id;
  if negb (is_enabled (account d)) then mret tt
  else
    key ← ensure_key;
    convert name (λ data, if is_encrypted data then mret None else seal_some key data).

(** What [migrate] does to one file. *)
Definition migrate_data (encrypt : bool) (key data : bytes) : cmd Disk (option bytes) :=
  match encrypt, is_encrypted data with
  | true, false => seal_some key data
  | false, true => open_some key data
  | _, _ => mret None
  end.

Definition is_temp (name : str) : bool := contains_str (lit ".tmp-") name.

Fixpoint migrate_loop (encrypt : bool) (key : bytes) (entries : list (str * Entry))
    (converted : nat) : cmd Disk nat :=
  match entries with
  | [] => mret converted
  | (_, Directory) :: entries => migrate_loop encrypt key entries converted
  | (name, File _) :: entries =>
      if is_temp name then migrate_loop encrypt key entries converted
      else
        result ← attempt (convert name (migrate_data encrypt key));
        migrate_loop encrypt key entries
          (match result with Some _ => S converted | None => converted end)
  end.

Definition entries (d : Disk) : list (str * Entry) := from_option map_to_list [] (blobdir d).

Definition migrate (encrypt : bool) : cmd Disk nat :=
  d ← gets id;
  found ← lift (key_of (account d));
  match found with
  | None => mret 0
  | Some key => migrate_loop encrypt key (entries d) 0
  end.

Definition enable : cmd Disk nat :=
  d ← gets id;
  ensure (default false (db_encrypted d)) "set a database passphrase first" ;;
  ensure_key ;;
  on_account (set_config_bool Config.BlobEncryption true) ;;
  migrate true.

Definition disable : cmd Disk nat :=
  on_account (set_config_bool Config.BlobEncryption false) ;;
  converted ← migrate false;
  on_account (modify (set_raw_config KEY_CONFIG None)) ;;
  mret converted.

Definition u64_max : Z := 18446744073709551615.

(** Only the header of a file is read. *)
Definition cleartext_size (e : Entry) : Z :=
  match e with
  | Directory => 0
  | File data => if is_encrypted (take HEADER_LEN data) then 0 else Z.of_nat (length data)
  end.

Definition cleartext_bytes (d : Disk) : Z :=
  foldl (λ total ne, Z.min u64_max (total + cleartext_size ne.2))%Z 0%Z (entries d).

(** ** The vault's report *)

Definition protection (d : Disk) : Protection.t :=
  let database_encrypted := default false (db_encrypted d) in
  let cleartext := cleartext_bytes d in
  Protection.mk database_encrypted
    (is_enabled (account d) && (cleartext =? 0)%Z) cleartext
    (database_encrypted && (0 <? cleartext)%Z).

(** [rewrite_under_key] has SQLCipher write a copy of the database under the
    new key and renames it over the old one as its last step. *)
Definition set_passphrase (passphrase : str) : cmd Disk unit :=
  d ← gets id;
  match default false (db_encrypted d), negb (is_empty passphrase) with
  | true, true => durable id (λ _, id)
  | false, false => mret tt
  | _, encrypted_after => durable (with_db_encrypted (Some encrypted_after)) (λ _, id)
  end.

(** ** Reading back *)

(** What a caller of [read] gets. *)
Definition reads (d : Disk) (name : str) (data : bytes) : Prop := outcome (read name) d = Ok data.

(** The same, without the monad. *)
Definition decoded (c : Ctx) (data : bytes) : result bytes :=
  if is_encrypted data then
    match key_of c with
    | Ok (Some key) => open key data
    | Ok None => Err "blob is encrypted but no key is available; unlock the database"
    | Err e => Err e
    end
  else Ok data.

Lemma reads_iff d name data :
  reads d name data ↔ ∃ x, contents d name = Some x ∧ decoded (account d) x = Ok data.
Proof.
  unfold reads, outcome, read, fs_read, decoded. rewrite run_bind, run_bind_gets.
  destruct (contents d name) as [x|]; cbn [or_bail]; [|split; [done|by intros (?&?&?)]].
  rewrite run_ret. destruct (is_encrypted x) eqn:Hx; cbn [negb].
  - rewrite run_bind_gets, run_bind. unfold lift, id.
    destruct (key_of (account d)) as [[key|]|e]; cbn [or_bail].
    + rewrite run_bind_ret. cbn [snd]. split; [intros Hd; exists x; by rewrite Hx|]. intros (y & [= <-] & Hd). by rewrite Hx in Hd.
    + split; [done|]. intros (y & [= <-] & Hd). by rewrite Hx in Hd.
    + split; [done|]. intros (y & [= <-] & Hd). by rewrite Hx in Hd.
  - rewrite run_ret. cbn [snd]. split; [intros [= <-]; exists x; by rewrite Hx|].
    intros (y & [= <-] & Hd). by rewrite Hx in Hd.
Qed.

Lemma seal_opens key nonce plaintext ciphertext :
  length nonce = NONCE_LEN → aead_encrypt key nonce plaintext = Ok ciphertext →
  is_encrypted (MAGIC ++ nonce ++ ciphertext) = true
  ∧ open key (MAGIC ++ nonce ++ ciphertext) = Ok plaintext.
Proof.
  intros Hn He. assert (is_encrypted (MAGIC ++ nonce ++ ciphertext) = true) as Hi.
  { unfold is_encrypted. rewrite starts_with_app, andb_true_r. apply Nat.leb_le.
    unfold HEADER_LEN. rewrite !length_app. lia. }
  split; [done|]. unfold open. rewrite Hi.
  assert (take HEADER_LEN (MAGIC ++ nonce ++ ciphertext) = MAGIC ++ nonce) as ->.
  { rewrite app_assoc. apply take_app_length'. unfold HEADER_LEN. rewrite length_app. lia. }
  assert (drop HEADER_LEN (MAGIC ++ nonce ++ ciphertext) = ciphertext) as ->.
  { rewrite app_assoc, drop_app_length'; [done|]. unfold HEADER_LEN. rewrite length_app. lia. }
  rewrite drop_app_length. by apply aead_roundtrip.
Qed.

(** ** What the parts of a conversion do *)

(** Files other than temporaries. *)
Definition stays (d d' : Disk) (name : str) : Prop := contents d' name = contents d name.

(** The writes consumed so far: [faults] is shifted by their number. *)
Definition consumed (n : nat) (d d' : Disk) : Prop := ∀ i, faults d' i = faults d (n + i).

Lemma contents_put d name data x :
  contents (put name data d) x
  = if decide (x = name) then (λ _, data) <$> blobdir d else contents d x.
Proof.
  unfold contents, put. cbn [blobdir with_blobdir]. destruct (blobdir d) as [m|]; simpl.
  - case_decide as Hx; [by rewrite Hx, lookup_insert_eq|by rewrite lookup_insert_ne].
  - by case_decide.
Qed.

Lemma is_temp_beside name n : is_temp (name ++ lit ".tmp-" ++ show_Z n) = true.
Proof. apply contains_str_iff. eauto. Qed.

(** When no write fails, no temporary is left behind. *)
Definition tidy (n : nat) (d d' : Disk) : Prop :=
  (∀ i, i < n → faults d i = None) → ∀ x, is_temp x = true → contents d x = None → contents d' x = None.

Lemma tidy_trans n m d1 d2 d3 : consumed n d1 d2 → tidy n d1 d2 → tidy m d2 d3 → tidy (n + m) d1 d3.
Proof.
  intros Hf H1 H2 Hnf x Hx Hc. apply H2; [|done|].
  - intros i Hi. rewrite Hf. apply Hnf. lia.
  - apply H1; [|done..]. intros i Hi. apply Hnf. lia.
Qed.

(** The part of [convert] that writes: files other than [name] and temporaries
    keep their contents; [name] gets the new one, or keeps the old one, and if it
    keeps it a write has failed. *)
Lemma replace_run (name : str) (out : bytes) (d : Disk) :
  is_temp name = false → is_Some (contents d name) →
  ∃ d' r n,
    (temp ← temp_beside name; fs_write temp out ;; fs_rename temp name) d = (d', r)
    ∧ account d' = account d ∧ db_encrypted d' = db_encrypted d ∧ consumed n d d' ∧ tidy n d d'
    ∧ (∀ x, is_temp x = false → x ≠ name → contents d' x = contents d x)
    ∧ ((r = Ok tt ∧ contents d' name = Some out)
       ∨ (is_Err r ∧ contents d' name = contents d name ∧ ∃ i, i < n ∧ faults d i ≠ None)).
Proof.
  intros Hname [x0 Hx0]. unfold temp_beside, draw. rewrite run_bind. cbn zeta.
  set (temp := name ++ lit ".tmp-" ++ _).
  assert (is_temp temp = true) as Ht by apply is_temp_beside.
  assert (temp ≠ name) as Hne by (intros E; by rewrite E, Hname in Ht).
  set (d1 := MkDisk _ _ _ _ _). rewrite run_bind. unfold fs_write, fs_rename, durable.
  assert (∀ x data e, is_temp x = false → blobdir e = blobdir d →
            contents (put temp data e) x = contents d x) as Hput.
  { intros x data e Hx He. rewrite contents_put, decide_False; [|intros ->; congruence].
    unfold contents. by rewrite He. }
  destruct (faults d1 0) as [k|] eqn:E0.
  { eexists _, _, 1. split_and!; [done|done|done|done| |intros; by apply Hput|].
    { intros Hnf. by rewrite (Hnf 0 ltac:(lia) : faults d1 0 = None) in E0. }
    right. split_and!; [done|by apply Hput|]. exists 0. split; [lia|].
    change (faults d 0) with (faults d1 0). by rewrite E0. }
  set (d2 := put temp out _). destruct (faults d2 0) as [k|] eqn:E1.
  { eexists _, _, 2. split_and!; [done|done|done|done| |intros; by apply Hput|].
    { intros Hnf. by rewrite (Hnf 1 ltac:(lia) : faults d2 0 = None) in E1. }
    right. split_and!; [done|by apply Hput|]. exists 1. split; [lia|].
    change (faults d 1) with (faults d2 0). by rewrite E1. }
  assert (contents d2 temp = Some out) as Hout.
  { unfold d2. rewrite contents_put, decide_True by done. unfold contents in Hx0.
    change (blobdir (with_faults _ d1)) with (blobdir d). by destruct (blobdir d). }
  assert (∀ f, contents (with_faults f d2) temp = Some out) as Hout' by done.
  rewrite Hout'. eexists _, _, 2. split_and!; [done|done|done|done|..].
  - intros _ x Hx Hc. unfold contents, put, d2 in Hc |- *. cbn in Hc |- *.
    destruct (blobdir d) as [m|]; [|done]. cbn in Hc |- *.
    destruct (decide (x = temp)) as [->|Hnt]; [by rewrite lookup_delete_eq|].
    rewrite lookup_delete_ne, lookup_insert_ne, lookup_insert_ne by congruence. exact Hc.
  - intros x Hx Hn. unfold contents at 1. cbn [blobdir with_blobdir].
    transitivity (contents (put name out (with_faults (λ n, faults d2 (S n)) d2)) x).
    + unfold contents. destruct (blobdir (put name out _)) as [m|]; [|done]. simpl.
      rewrite lookup_delete_ne; [done|]. intros E. congruence.
    + rewrite contents_put, decide_False by done. by apply Hput.
  - left. split; [done|]. unfold contents at 1. cbn [blobdir with_blobdir].
    transitivity (contents (put name out (with_faults (λ n, faults d2 (S n)) d2)) name).
    + unfold contents. destruct (blobdir (put name out _)) as [m|]; [|done]. simpl.
      by rewrite lookup_delete_ne.
    + rewrite contents_put, decide_True by done. unfold contents in Hx0.
      unfold d2, put. cbn. by destruct (blobdir d).
Qed.

(** What one file is turned into, and when its conversion is refused. *)
Inductive converts (key : bytes) : bool → bytes → bytes → Prop :=
  | converts_seal y nonce ciphertext :
      length nonce = NONCE_LEN → aead_encrypt key nonce y = Ok ciphertext →
      converts key true y (MAGIC ++ nonce ++ ciphertext)
  | converts_open y z : open key y = Ok z → converts key false y z.

Inductive refused (key : bytes) : bool → bytes → Prop :=
  | refused_seal y nonce : is_Err (aead_encrypt key nonce y) → refused key true y
  | refused_open y : is_Err (open key y) → refused key false y.

(** One conversion, with every way it can end. *)
Record step (b : bool) (key : bytes) (name : str) (n : nat) (d d' : Disk) : Prop := {
  st_account : account d' = account d;
  st_db : db_encrypted d' = db_encrypted d;
  st_faults : consumed n d d';
  st_tidy : tidy n d d';
  st_others x : is_temp x = false → x ≠ name → contents d' x = contents d x;
  st_file :
    (contents d' name = contents d name
     ∧ (contents d name = None
        ∨ (∃ y, contents d name = Some y ∧ (is_encrypted y = b ∨ refused key b y))
        ∨ ∃ i, i < n ∧ faults d i ≠ None))
    ∨ ∃ y z, contents d name = Some y ∧ is_encrypted y = negb b
             ∧ contents d' name = Some z ∧ converts key b y z;
}.

Lemma migrate_data_run b key data d :
  ∃ k r, migrate_data b key data d
         = (MkDisk (account d) (db_encrypted d) (blobdir d) k (faults d), r)
  ∧ match r with
    | Ok None => is_encrypted data = b
    | Ok (Some out) => is_encrypted data = negb b ∧ converts key b data out
    | Err _ => refused key b data
    end.
Proof.
  assert (d = MkDisk (account d) (db_encrypted d) (blobdir d) (draws d) (faults d)) as Hd by by destruct d.
  unfold migrate_data. destruct b, (is_encrypted data) eqn:He.
  - eexists _, _. rewrite <-Hd. done.
  - unfold seal_some, seal, draw, lift. rewrite !run_bind.
    destruct (aead_encrypt key (fill_bytes (draws d) NONCE_LEN) data) as [ct|e] eqn:E.
    + eexists _, _. split; [done|]. split; [done|]. eapply converts_seal; [apply fill_bytes_length|done].
    + eexists _, _. split; [done|]. eapply refused_seal. by rewrite E.
  - unfold open_some, lift. rewrite run_bind. destruct (open key data) as [z|e] eqn:E.
    + eexists _, _. rewrite <-Hd. split; [done|]. split; [done|by constructor].
    + eexists _, _. rewrite <-Hd. split; [done|]. constructor. by rewrite E.
  - eexists _, _. rewrite <-Hd. done.
Qed.

Lemma convert_step b key name d :
  is_temp name = false →
  ∃ d' r n, convert name (migrate_data b key) d = (d', r) ∧ step b key name n d d'.
Proof.
  intros Hname. unfold convert, fs_read. rewrite run_bind, run_bind_gets.
  destruct (contents d name) as [y|] eqn:Hy; cbn [or_bail].
  2: { eexists _, _, 0. split; [done|]. split; [done|done|done|by intros ?|done|]. left. auto. }
  rewrite run_ret, run_bind. destruct (migrate_data_run b key y d) as (k & r & -> & Hr).
  set (d1 := MkDisk _ _ _ _ _). destruct r as [[out|]|e].
  - destruct Hr as [Hb Hc].
    destruct (replace_run name out d1 Hname) as (d' & r & n & Hrun & Ha & Hdb & Hn & Ht & Ho & Hf);
      [by exists y|].
    exists d', r, n. split; [exact Hrun|]. split; [by rewrite Ha|by rewrite Hdb|done|exact Ht|intros; by rewrite Ho|].
    destruct Hf as [[_ Hz]|(_ & Hs & Hi)]; [right; eauto 10|].
    left. split; [by rewrite Hs|]. auto.
  - eexists _, _, 0. split; [done|]. split; [done|done|done|by intros ?|done|]. left. split; [done|]. right. left. eauto.
  - eexists _, _, 0. split; [done|]. split; [done|done|done|by intros ?|done|]. left. split; [done|]. right. left. eauto.
Qed.

(** A file holds [data] for a holder of the key of [c]; data that itself starts
    like an encrypted blob is left out. *)
Definition holds (c : Ctx) (d : Disk) (x : str) (data : bytes) : Prop :=
  is_encrypted data = false ∧ ∃ y, contents d x = Some y ∧ decoded c y = Ok data.

(** The relation between the disk before and after a pass over [names]. *)
Record passed (b : bool) (c : Ctx) (key : bytes) (names : list str) (n : nat) (d d' : Disk) : Prop := {
  pa_account : account d' = account d;
  pa_db : db_encrypted d' = db_encrypted d;
  pa_faults : consumed n d d';
  pa_tidy : tidy n d d';
  pa_frame x : is_temp x = false → x ∉ names → contents d' x = contents d x;
  pa_holds x data : is_temp x = false → holds c d x data → holds c d' x data;
  pa_target x y : is_temp x = false → is_encrypted y = b →
    contents d x = Some y → contents d' x = Some y;
  pa_reached x y : (∀ i, i < n → faults d i = None) → x ∈ names → is_temp x = false →
    contents d x = Some y → ¬ refused key b y → is_encrypted y = negb b →
    ∃ z, contents d' x = Some z ∧ converts key b y z;
}.

Lemma converts_decoded b key c y z data :
  key_of c = Ok (Some key) → is_encrypted y = negb b → converts key b y z →
  is_encrypted data = false → decoded c y = Ok data → decoded c z = Ok data.
Proof.
  intros Hk Hy Hc Hdata. destruct Hc as [y nonce ct Hn He|y z Ho]; simpl in Hy; unfold decoded; rewrite Hy.
  - intros [= <-]. destruct (seal_opens key nonce y ct Hn He) as [Hs Hopen]. by rewrite Hs, Hk.
  - rewrite Hk, Ho. intros [= ->]. by rewrite Hdata.
Qed.

Lemma consumed_trans n m d1 d2 d3 : consumed n d1 d2 → consumed m d2 d3 → consumed (n + m) d1 d3.
Proof. intros H1 H2 i. rewrite H2, H1. f_equal. lia. Qed.

Lemma passed_nil b c key d : passed b c key [] 0 d d.
Proof. split; [done|done|done|by intros ?|done|done|done|]. intros x y _ Hx. by apply not_elem_of_nil in Hx. Qed.

Lemma step_passed b c key name n d d' :
  key_of c = Ok (Some key) → is_temp name = false → step b key name n d d' →
  passed b c key [name] n d d'.
Proof.
  intros Hk Hname [Ha Hdb Hf Hti Ho Hs]. split; [done|done|done|done|..].
  - intros x Hx Hn. apply Ho; [done|]. set_solver.
  - intros x data Hx [Hd (y & Hy & Hdec)]. split; [done|].
    destruct (decide (x = name)) as [->|Hne]; [|rewrite Ho by done; eauto].
    destruct Hs as [[-> _]|(y' & z & Hy' & Hb & Hz & Hc)]; [eauto|].
    rewrite Hy in Hy'. simplify_eq. exists z. split; [done|]. by eapply converts_decoded.
  - intros x y Hx Hb Hy. destruct (decide (x = name)) as [->|Hne]; [|by rewrite Ho].
    destruct Hs as [[-> _]|(y' & z & Hy' & Hb' & _)]; [done|].
    rewrite Hy in Hy'. simplify_eq. by destruct (is_encrypted y').
  - intros x y Hnf Hx Ht Hy Hr Hb. apply list_elem_of_singleton in Hx as ->.
    destruct Hs as [[_ [Hn|[(y' & Hy' & He)|(i & Hi & Hfault)]]]|(y' & z & Hy' & _ & Hz & Hc)].
    + congruence.
    + rewrite Hy in Hy'. simplify_eq. destruct He as [He|He]; [|done]. by destruct (is_encrypted y'), b.
    + by rewrite Hnf in Hfault.
    + rewrite Hy in Hy'. simplify_eq. eauto.
Qed.

Lemma passed_trans b c key l1 l2 n m d1 d2 d3 :
  (∀ x, x ∈ l1 → x ∉ l2) →
  passed b c key l1 n d1 d2 → passed b c key l2 m d2 d3 → passed b c key (l1 ++ l2) (n + m) d1 d3.
Proof.
  intros Hdis [A1 D1 F1 I1 R1 H1 T1 C1] [A2 D2 F2 I2 R2 H2 T2 C2]. split.
  - congruence.
  - congruence.
  - by eapply consumed_trans.
  - by eapply tidy_trans.
  - intros x Hx [Hn1 Hn2]%not_elem_of_app. by rewrite R2, R1.
  - auto.
  - auto.
  - intros x y Hnf Hx Ht Hy Hr Hb. apply elem_of_app in Hx as [Hx|Hx].
    + destruct (C1 x y) as (z & Hz & Hc); [intros; apply Hnf; lia|done..|].
      exists z. rewrite R2 by auto. done.
    + assert (contents d2 x = Some y) by (rewrite R1; [done..|]; intros Hx1; by apply (Hdis x)).
      apply C2; [|done..]. intros i Hi. rewrite F1. apply Hnf. lia.
Qed.

Definition file_names (l : list (str * Entry)) : list str :=
  omap (λ ne, match ne.2 with
              | File _ => if is_temp ne.1 then None else Some ne.1
              | Directory => None
              end) l.

Lemma elem_of_file_names l x :
  x ∈ file_names l ↔ is_temp x = false ∧ ∃ y, (x, File y) ∈ l.
Proof.
  unfold file_names. rewrite list_elem_of_omap. split.
  - intros ([z [y|]] & Hin & Heq); simpl in Heq; [|done].
    destruct (is_temp z) eqn:Hz; simplify_eq. eauto.
  - intros [Hx [y Hy]]. eexists. split; [done|]. simpl. by rewrite Hx.
Qed.

Lemma migrate_loop_passed b c key l k d :
  key_of c = Ok (Some key) → NoDup l.*1 →
  ∃ d' r n, migrate_loop b key l k d = (d', Ok r) ∧ passed b c key (file_names l) n d d'.
Proof.
  intros Hk. revert k d. induction l as [|[name e] l IH]; intros k d Hnd.
  { exists d, k, 0. split; [done|]. apply passed_nil. }
  apply NoDup_cons in Hnd as [Hni Hnd]. cbn [migrate_loop]. unfold file_names. cbn [omap list_omap snd fst].
  fold (file_names l). destruct e as [y|]; [|by apply IH].
  destruct (is_temp name) eqn:Ht; [by apply IH|].
  rewrite run_bind. unfold attempt.
  destruct (convert_step b key name d Ht) as (d1 & r & n & -> & Hst).
  apply (step_passed b c) in Hst; [|done..].
  assert (∀ k', ∃ d' r n', migrate_loop b key l k' d1 = (d', Ok r)
            ∧ passed b c key ([name] ++ file_names l) n' d d') as Hrest.
  { intros k'. destruct (IH k' d1 Hnd) as (d' & r' & m & Hrun & Hp). exists d', r', (n + m).
    split; [done|]. eapply passed_trans; [|done..].
    intros x ->%list_elem_of_singleton [_ [y' Hin]]%elem_of_file_names.
    apply Hni. apply list_elem_of_fmap. by exists (name, File y'). }
  destruct r; apply Hrest.
Qed.

(** ** The calls *)

Lemma key_of_ext c c' : config c' !! KEY_CONFIG = config c !! KEY_CONFIG → key_of c' = key_of c.
Proof. intros E. unfold key_of, get_raw_config. by rewrite E. Qed.

Lemma decoded_ext c c' y : key_of c' = key_of c → decoded c' y = decoded c y.
Proof. intros E. unfold decoded. by rewrite E. Qed.

(** Setting the flag leaves the key alone. *)
Lemma set_flag_run v c :
  ∃ q, set_config_bool Config.BlobEncryption v c
    = (set_multi_device_sync (λ _, q)
         (set_raw_config (Config.as_ref Config.BlobEncryption) (from_bool v) c), Ok tt)
  ∧ key_of (final (set_config_bool Config.BlobEncryption v) c) = key_of c.
Proof.
  unfold set_config_bool, from_bool.
  destruct (set_config_run Config.BlobEncryption (if v then lit "1" else lit "0") c) as [q Hq]; [done|].
  exists q. split; [exact Hq|]. unfold final. rewrite Hq. apply key_of_ext. cbn [fst].
  change (config (set_multi_device_sync _ _))
    with (<[Config.as_ref Config.BlobEncryption := if v then lit "1" else lit "0"]> (config c)).
  by rewrite lookup_insert_ne.
Qed.

(** A write to the database: done, or failed without a trace. *)
Lemma on_account_run {A} (m : cmd Ctx A) d :
  ∃ d', consumed 1 d d' ∧ blobdir d' = blobdir d ∧ db_encrypted d' = db_encrypted d
  ∧ ((faults d 0 = None ∧ account d' = final m (account d)
      ∧ on_account m d = (d', outcome m (account d)))
     ∨ (faults d 0 ≠ None ∧ account d' = account d ∧ on_account m d = (d', Err "i/o error"))).
Proof.
  set (d1 := with_faults (λ n, faults d (S n)) d). destruct (faults d 0) as [k|] eqn:E.
  - exists d1. split_and!; [done..|]. right. split_and!; [done..|].
    unfold on_account. rewrite run_bind. unfold durable. by rewrite E.
  - exists (with_account (final m (account d)) d1). split_and!; [done..|]. left. split_and!; [done..|].
    unfold on_account. rewrite run_bind. unfold durable. rewrite E. unfold zoom, final, outcome.
    change (account (id _)) with (account d). by destruct (m (account d)).
Qed.

Lemma contents_ext d d' x : blobdir d' = blobdir d → contents d' x = contents d x.
Proof. intros E. unfold contents. by rewrite E. Qed.

(** Generating the key changes no file and what no file decodes to. *)
Lemma ensure_key_run d :
  ∃ d' r n, ensure_key d = (d', r) ∧ blobdir d' = blobdir d ∧ db_encrypted d' = db_encrypted d
  ∧ consumed n d d'
  ∧ (∀ y data, decoded (account d) y = Ok data → decoded (account d') y = Ok data)
  ∧ match r with
    | Ok key => key_of (account d') = Ok (Some key) ∧ env (account d') = env (account d)
    | Err _ => (∃ e, key_of (account d) = Err e) ∨ ∃ i, i < n ∧ faults d i ≠ None
    end.
Proof.
  unfold ensure_key. rewrite run_bind_gets, run_bind. unfold lift, id.
  destruct (key_of (account d)) as [[key|]|e] eqn:Hk.
  - exists d, (Ok key), 0. by split_and!.
  - unfold draw. rewrite run_bind. set (d1 := MkDisk _ _ _ _ _).
    set (bs := fill_bytes (draws d) 32). rewrite run_bind.
    destruct (on_account_run (modify (set_raw_config KEY_CONFIG (Some (hex_encode bs)))) d1)
      as (d' & Hf & Hb & Hdb & [(E0 & Ha & ->)|(E0 & Ha & ->)]).
    + eexists d', (Ok bs), 1. split_and!; [done|done|done|done|..].
      * intros y data. unfold decoded. destruct (is_encrypted y); [by rewrite Hk|done].
      * rewrite Ha. unfold key_of, get_raw_config. cbn. rewrite lookup_insert_eq.
        rewrite hex_roundtrip by apply fill_bytes_bounded. unfold bs. by rewrite fill_bytes_length.
      * by rewrite Ha.
    + eexists d', _, 1. split_and!; [done|done|done|done|by rewrite Ha|].
      right. exists 0. split; [lia|done].
  - exists d, (Err e), 0. split_and!; try done. eauto.
Qed.

(** No file a caller could read is lost. *)
Definition kept (d d' : Disk) : Prop :=
  ∀ x data, is_temp x = false → holds (account d) d x data → holds (account d') d' x data.

Lemma kept_refl d : kept d d.
Proof. by intros x data _ Hd. Qed.

Lemma kept_trans d1 d2 d3 : kept d1 d2 → kept d2 d3 → kept d1 d3.
Proof. unfold kept. eauto. Qed.

Lemma kept_same d d' :
  blobdir d' = blobdir d →
  (∀ y data, decoded (account d) y = Ok data → decoded (account d') y = Ok data) → kept d d'.
Proof.
  intros Hb Hd x data _ [He (y & Hy & Hdec)]. split; [done|]. exists y.
  rewrite (contents_ext d d') by done. auto.
Qed.

Lemma passed_kept b key names n d d' : passed b (account d) key names n d d' → kept d d'.
Proof. intros [Ha _ _ _ _ Hh _ _] x data Hx Hd. rewrite Ha. by apply Hh. Qed.

Lemma entries_NoDup d : NoDup (entries d).*1.
Proof. unfold entries. destruct (blobdir d); simpl; [apply NoDup_fst_map_to_list|constructor]. Qed.

Lemma elem_of_entries d x y : (x, File y) ∈ entries d ↔ contents d x = Some y.
Proof.
  unfold entries, contents. destruct (blobdir d) as [m|]; simpl; [|set_solver].
  rewrite elem_of_map_to_list. destruct (m !! x) as [[]|]; simpl; naive_solver.
Qed.

Lemma migrate_run b d :
  (∃ e, key_of (account d) = Err e ∧ migrate b d = (d, Err e))
  ∨ (key_of (account d) = Ok None ∧ migrate b d = (d, Ok 0))
  ∨ ∃ key d' r n, key_of (account d) = Ok (Some key) ∧ migrate b d = (d', Ok r)
      ∧ passed b (account d) key (file_names (entries d)) n d d'.
Proof.
  unfold migrate. rewrite run_bind_gets, run_bind. unfold lift, id.
  destruct (key_of (account d)) as [[key|]|e] eqn:Hk; [|by auto|by eauto].
  right. right. destruct (migrate_loop_passed b (account d) key (entries d) 0 d Hk (entries_NoDup d))
    as (d' & r & n & Hrun & Hp). eauto 10.
Qed.

Lemma convert_ext name f g d : (∀ data, f data = g data) → convert name f d = convert name g d.
Proof.
  intros E. unfold convert. rewrite !run_bind. destruct (fs_read name d) as [d' [x|e]]; [|done].
  by rewrite !run_bind, E.
Qed.

(** A blob with a temporary's name is converted beside all others. *)
Definition set_aside (d d' : Disk) : Prop :=
  account d' = account d ∧ ∀ x, is_temp x = false → contents d' x = contents d x.

Lemma set_aside_put d d' name data : is_temp name = true → set_aside d d' → set_aside d (put name data d').
Proof.
  intros Hn [Ha Hc]. split; [done|]. intros x Hx. rewrite contents_put, decide_False; [by apply Hc|].
  intros ->. congruence.
Qed.

Lemma set_aside_write d name data : is_temp name = true → preserves (set_aside d) (fs_write name data).
Proof.
  intros Hn d' H'. unfold fs_write, durable. destruct (faults d' 0); by apply set_aside_put.
Qed.

Lemma set_aside_rename d from to :
  is_temp from = true → is_temp to = true → preserves (set_aside d) (fs_rename from to).
Proof.
  intros Hf Ht d' H'. unfold fs_rename, durable. destruct (faults d' 0); [exact H'|]. cbn [fst].
  destruct (contents _ from) as [data|]; [|exact H']. pose proof (set_aside_put d d' to data Ht H') as [Ha Hc].
  split; [exact Ha|]. intros x Hx. rewrite <-Hc by done. unfold contents, with_blobdir, put. cbn.
  destruct (blobdir d') as [m|]; [|done]. cbn. rewrite lookup_delete_ne; [done|]. intros ->. congruence.
Qed.

Lemma convert_temp b key name d :
  is_temp name = true → set_aside d (final (convert name (migrate_data b key)) d).
Proof.
  intros Hname. apply (preserves_final (set_aside d)); [|by split]. intros d' H'.
  unfold convert, fs_read. rewrite run_bind, run_bind_gets.
  destruct (contents d' name) as [y|]; cbn [or_bail]; [|exact H']. rewrite run_ret, run_bind.
  destruct (migrate_data_run b key y d') as (k & r & -> & _). destruct r as [[out|]|e]; [|exact H'..].
  unfold temp_beside, draw. rewrite run_bind. set (temp := name ++ _). set (d1 := MkDisk _ _ _ _ _).
  assert (is_temp temp = true) as Ht by apply is_temp_beside. rewrite run_bind.
  pose proof (set_aside_write d temp out Ht d1 H') as H1. destruct (fs_write temp out d1) as [d2 [[]|e]]; [|exact H1].
  exact (set_aside_rename d temp name Ht Hname d2 H1).
Qed.

Lemma protect_kept name d : kept d (final (protect name) d).
Proof.
  unfold final, protect. rewrite run_bind_gets. unfold id.
  destruct (is_enabled (account d)); cbn [negb]; [|exact (kept_refl d)].
  rewrite run_bind. destruct (ensure_key_run d) as (d1 & r & n & -> & Hb & _ & _ & Hdec & Hr).
  pose proof (kept_same d d1 Hb Hdec) as K1. destruct r as [key|e]; [|done].
  destruct Hr as [Hk _].
  rewrite (convert_ext _ _ (migrate_data true key))
    by (intros data; unfold migrate_data; by destruct (is_encrypted data)).
  eapply kept_trans; [exact K1|]. destruct (is_temp name) eqn:Hname.
  - destruct (convert_temp true key name d1 Hname) as [Ha Hc]. intros x data Hx [He (y & Hy & Hdy)].
    split; [done|]. exists y. unfold final in *. by rewrite Hc, Ha.
  - destruct (convert_step true key name d1 Hname) as (d2 & r & m & -> & Hst). eapply passed_kept, step_passed; done.
Qed.

Lemma set_flag_kept v d :
  kept d (final (on_account (set_config_bool Config.BlobEncryption v)) d)
  ∧ blobdir (final (on_account (set_config_bool Config.BlobEncryption v)) d) = blobdir d.
Proof.
  unfold final.
  destruct (on_account_run (set_config_bool Config.BlobEncryption v) d)
    as (d1 & _ & Hb & _ & [(_ & Ha & ->)|(_ & Ha & ->)]); cbn [fst]; (split; [|done]);
    apply kept_same; [done| |done|by rewrite Ha].
  destruct (set_flag_run v (account d)) as (q & _ & Hk). intros y data Hy.
  by rewrite Ha, (decoded_ext _ _ _ Hk).
Qed.

Lemma enable_kept d : kept d (final enable d).
Proof.
  unfold final, enable. rewrite run_bind_gets. unfold ensure, id.
  destruct (db_encrypted d) as [[]|]; cbn [from_option]; [|exact (kept_refl d)..].
  rewrite run_bind_ret, run_bind.
  destruct (ensure_key_run d) as (d1 & r & n & -> & Hb & _ & _ & Hdec & Hr).
  pose proof (kept_same d d1 Hb Hdec) as K1. destruct r as [key|e]; [|done].
  rewrite run_bind. destruct (set_flag_kept true d1) as [K2 _]. unfold final in K2.
  destruct (on_account _ d1) as [d2 [[]|e]]; cbn [fst] in K2; [|by eapply kept_trans].
  assert (kept d2 (migrate true d2).1) as K3; [|eauto using kept_trans].
  destruct (migrate_run true d2) as [(e & _ & ->)|[[_ ->]|(k & d3 & r & m & _ & -> & Hp)]];
    [apply kept_refl..|by eapply passed_kept].
Qed.

(** A crash: from some write on, nothing is written any more. *)
Definition crashing (f : nat → option nat) : Prop := ∀ n m, n ≤ m → f n ≠ None → f m ≠ None.

Lemma crashing_before f n : crashing f → f n = None → ∀ i, i ≤ n → f i = None.
Proof.
  intros Hc Hn i Hi. destruct (f i) as [k|] eqn:E; [|done]. exfalso.
  apply (Hc i n Hi); [by rewrite E|done].
Qed.

(** [disable] drops the key only after a pass no write of which failed. *)
Lemma disable_kept d : crashing (faults d) → kept d (final disable d).
Proof.
  intros Hc. unfold final, disable. rewrite run_bind.
  destruct (set_flag_kept false d) as [K1 _].
  destruct (on_account_run (set_config_bool Config.BlobEncryption false) d)
    as (d1 & Hf1 & _ & _ & [(E0 & _ & Hrun)|(_ & _ & Hrun)]);
    unfold final in K1; rewrite Hrun in K1 |- *; cbn [fst] in K1; [|done].
  destruct (set_flag_run false (account d)) as (q & Hq & _). unfold outcome. rewrite Hq. cbn [snd].
  rewrite run_bind.
  destruct (migrate_run false d1) as [(e & _ & ->)|[[Hk ->]|(key & d2 & r & n & Hk & -> & Hp)]]; [done|..].
  - eapply kept_trans; [exact K1|]. rewrite run_bind.
    destruct (on_account_run (modify (set_raw_config KEY_CONFIG None)) d1)
      as (d2 & _ & Hb & _ & [(_ & Ha & ->)|(_ & Ha & ->)]); cbn [fst]; apply kept_same;
      [done|..|done|by rewrite Ha].
    intros y data. unfold decoded. destruct (is_encrypted y); [by rewrite Hk|done].
  - pose proof (passed_kept _ _ _ _ _ _ Hp) as K2. rewrite run_bind.
    destruct (on_account_run (modify (set_raw_config KEY_CONFIG None)) d2)
      as (d3 & _ & Hb & _ & [(E3 & Ha & ->)|(_ & Ha & ->)]); cbn [fst].
    2: { eapply kept_trans; [exact K1|]. eapply kept_trans; [exact K2|]. apply kept_same; [done|by rewrite Ha]. }
    eapply kept_trans; [exact K1|]. intros x data Hx [He (y & Hy & Hdec)].
    assert (contents d2 x = Some data) as Hcl.
    { destruct (is_encrypted y) eqn:Hey.
      - unfold decoded in Hdec. rewrite Hey, Hk in Hdec.
        destruct (pa_reached _ _ _ _ _ _ _ Hp x y) as (z & Hz & Hcv); [|..|done| |done|].
        + intros i Hi. rewrite Hf1. apply (crashing_before (faults d) (1 + n)); [done| |lia].
          rewrite <-Hf1. pose proof (pa_faults _ _ _ _ _ _ _ Hp 0) as Hn. rewrite Nat.add_0_r in Hn.
          rewrite <-Hn. exact E3.
        + apply elem_of_file_names. split; [done|]. exists y. by apply elem_of_entries.
        + done.
        + intros Hr. inversion Hr as [|y' Ho]; subst. by rewrite Hdec in Ho.
        + inversion Hcv as [|y' z' Ho]; subst. rewrite Hdec in Ho. by simplify_eq.
      - unfold decoded in Hdec. rewrite Hey in Hdec. simplify_eq.
        by eapply pa_target. }
    split; [done|]. exists data. rewrite (contents_ext d2 d3) by done. split; [done|].
    unfold decoded. by rewrite He.
Qed.

Inductive blob_op :=
  | OpProtect (name : str)
  | OpEnable
  | OpDisable
  | OpPassphrase (passphrase : str).

Definition run_blob_op (op : blob_op) : cmd Disk unit :=
  match op with
  | OpProtect name => protect name
  | OpEnable => enable ;; mret tt
  | OpDisable => disable ;; mret tt
  | OpPassphrase p => set_passphrase p
  end.

(** A call is given the fate of its writes: any for all calls but [disable],
    which is cut short by a crash at any point or not at all; a single write of
    it that fails loses files ([disable_drops_key_too_early]). *)
Definition allowed (call : blob_op * (nat → option nat)) : Prop :=
  match call.1 with
  | OpDisable => crashing call.2
  | _ => True
  end.

Definition run_blob_history (calls : list (blob_op * (nat → option nat))) (d : Disk) : Disk :=
  foldl (λ d call, final (run_blob_op call.1) (with_faults call.2 d)) d calls.

Lemma final_seq_ret {A} (m : cmd Disk A) d : final (m ;; mret tt) d = final m d.
Proof. unfold final. rewrite run_bind. by destruct (m d) as [d' [a|e]]. Qed.

Lemma set_passphrase_kept p d : kept d (final (set_passphrase p) d).
Proof.
  unfold final, set_passphrase. rewrite run_bind_gets. unfold id, durable.
  destruct (db_encrypted d) as [[]|], (is_empty p); cbn [from_option negb];
    try destruct (faults d 0); (exact (kept_refl d) || by apply kept_same).
Qed.

Lemma run_blob_op_kept call d :
  allowed call → kept d (final (run_blob_op call.1) (with_faults call.2 d)).
Proof.
  intros Ha. assert (kept d (with_faults call.2 d)) as K by by apply kept_same.
  eapply kept_trans; [exact K|]. destruct call as [[name| | |p] f]; cbn [run_blob_op fst snd] in *.
  - apply protect_kept.
  - rewrite final_seq_ret. apply enable_kept.
  - rewrite final_seq_ret. by apply disable_kept.
  - apply set_passphrase_kept.
Qed.

Lemma holds_reads d x data :
  is_encrypted data = false → holds (account d) d x data ↔ reads d x data.
Proof. intros He. rewrite reads_iff. unfold holds. naive_solver. Qed.

(** C6: a crash loses no file encryption at rest can bring back.  Whatever calls
    turn it on and off, protect single blobs and change the passphrase, in any
    order, and wherever a crash cuts each of them short (for all but turning it
    off, also when single writes fail), a file that could be read reads as the
    same bytes afterwards.  Three cases are outside, and lose or hide files: a
    single write that fails while turning it off, which drops the key all the
    same ([disable_drops_key_too_early]); a blob whose name contains the mark of
    temporaries ([temporary_sealed_for_good]); and contents that look like an
    encrypted blob ([lookalike_attachment]). *)
Theorem blobs_survive_crashes calls d x data :
  Forall allowed calls → is_temp x = false → is_encrypted data = false →
  reads d x data → reads (run_blob_history calls d) x data.
Proof.
  intros Hall Hx He. rewrite <-!holds_reads by done. revert d.
  induction Hall as [|call calls Hc _ IH]; intros d Hh; [done|].
  apply IH. by apply run_blob_op_kept.
Qed.

(** ** The report *)

Lemma starts_with_take p s n : length p ≤ n → starts_with p (take n s) = starts_with p s.
Proof.
  intros Hn. destruct (starts_with p s) eqn:E.
  - apply starts_with_iff in E as [r ->]. rewrite take_app_ge by done. apply starts_with_app.
  - destruct (starts_with p (take n s)) eqn:E2; [|done]. apply starts_with_iff in E2 as [r Hr].
    rewrite <-(take_drop n s), Hr, <-app_assoc, starts_with_app in E. done.
Qed.

Lemma is_encrypted_header data : is_encrypted (take HEADER_LEN data) = is_encrypted data.
Proof.
  unfold is_encrypted. rewrite starts_with_take by (unfold HEADER_LEN; lia). f_equal.
  rewrite length_take. apply eq_true_iff_eq. rewrite !Nat.leb_le. lia.
Qed.

Lemma cleartext_zero d :
  cleartext_bytes d = 0%Z ↔ ∀ x y, contents d x = Some y → y ≠ [] → is_encrypted y = true.
Proof.
  unfold cleartext_bytes. setoid_rewrite <-elem_of_entries.
  assert (∀ (l : list (str * Entry)) t, (0 ≤ t ≤ u64_max)%Z →
    foldl (λ total ne, Z.min u64_max (total + cleartext_size ne.2))%Z t l = 0%Z
    ↔ t = 0%Z ∧ ∀ x y, (x, File y) ∈ l → y ≠ [] → is_encrypted y = true) as H1.
  { induction l as [|[x e] l IH]; intros t Ht; [set_solver|]. cbn [foldl snd].
    assert (0 ≤ cleartext_size e)%Z as Hs by (unfold cleartext_size; repeat case_match; lia).
    rewrite IH by (unfold u64_max in *; lia).
    assert (cleartext_size e = 0%Z ↔ ∀ y, e = File y → y ≠ [] → is_encrypted y = true) as He.
    { unfold cleartext_size. destruct e as [y|]; [|done]. rewrite is_encrypted_header.
      destruct (is_encrypted y) eqn:Ey; [split; [by intros _ z [= <-]|done]|]. split.
      - intros Hl z [= <-] Hz. destruct y; [done|]. simpl in Hl. lia.
      - intros Hy. destruct y as [|b y]; [done|]. by rewrite (Hy _ eq_refl) in Ey. }
    setoid_rewrite elem_of_cons. split.
    - intros [Hmin Hl]. assert (t = 0%Z ∧ cleartext_size e = 0%Z) as [-> He0] by (unfold u64_max in *; lia).
      split; [done|]. intros x' y [[= -> <-]|Hin]; [by apply He|by eapply Hl].
    - intros [-> Hl]. rewrite (proj2 He); [|intros y ->; apply (Hl x); by left].
      split; [by vm_compute|]. intros x' y Hin. apply (Hl x'). by right. }
  rewrite H1 by (unfold u64_max; lia). tauto.
Qed.

Lemma protection_honest d :
  Protection.blobs_encrypted (protection d) = true
  ↔ is_enabled (account d) = true ∧ ∀ x y, contents d x = Some y → y ≠ [] → is_encrypted y = true.
Proof.
  unfold protection. cbn [Protection.blobs_encrypted]. by rewrite andb_true_iff, Z.eqb_eq, cleartext_zero.
Qed.

(** A pass that meets no failure leaves every file encrypted. *)
Lemma migrate_encrypts d key :
  (∀ n, faults d n = None) → key_of (account d) = Ok (Some key) →
  (∀ k n y, ∃ ct, aead_encrypt k n y = Ok ct) → (∀ x y, contents d x = Some y → is_temp x = false) →
  ∃ r, outcome (migrate true) d = Ok r ∧ account (final (migrate true) d) = account d
  ∧ db_encrypted (final (migrate true) d) = db_encrypted d
  ∧ ∀ x y, contents (final (migrate true) d) x = Some y → is_encrypted y = true.
Proof.
  intros Hnf Hk Htot Hnt. unfold outcome, final in *.
  destruct (migrate_run true d) as [(e & E & _)|[[E _]|(key' & d' & r & n & E & Hrun & Hp)]];
    [congruence..|]. rewrite Hrun in *. cbn [fst snd] in *.
  exists r. split; [done|]. split; [by eapply pa_account|]. split; [by eapply pa_db|]. intros x z Hz.
  assert (is_temp x = false) as Hx.
  { destruct (is_temp x) eqn:Hx; [|done].
    rewrite (pa_tidy _ _ _ _ _ _ _ Hp) in Hz; [done|by intros|done|].
    destruct (contents d x) as [y|] eqn:Hy; [|done]. by rewrite (Hnt x y) in Hx. }
  destruct (contents d x) as [y|] eqn:Hy.
  - destruct (is_encrypted y) eqn:He.
    + rewrite (pa_target _ _ _ _ _ _ _ Hp x y) in Hz by done. by simplify_eq.
    + destruct (pa_reached _ _ _ _ _ _ _ Hp x y) as (z' & Hz' & Hc); [by intros| |done|done| |done|].
      * apply elem_of_file_names. split; [done|]. exists y. by apply elem_of_entries.
      * intros Hr. inversion Hr as [y' nonce Herr|]; subst. destruct (Htot key' nonce y) as [ct Hct].
        by rewrite Hct in Herr.
      * rewrite Hz in Hz'. simplify_eq. inversion Hc; subst. by eapply seal_opens.
  - rewrite (pa_frame _ _ _ _ _ _ _ Hp x) in Hz; [congruence|done|].
    intros [_ [y Hin]]%elem_of_file_names. apply elem_of_entries in Hin. congruence.
Qed.

(** Turning encryption on does what the vault then reports.  On an encrypted
    database, when no write fails and the cipher accepts every file, the call
    succeeds, every file is encrypted, and the report says so: no cleartext is
    left.  The environment must not override the setting, and the directory
    holds no temporaries. *)
Theorem enable_protects_everything d :
  (∀ n, faults d n = None) → db_encrypted d = Some true → (∀ e, key_of (account d) ≠ Err e) →
  env (account d) !! env_key (Config.as_ref Config.BlobEncryption) = None →
  (∀ k n y, ∃ ct, aead_encrypt k n y = Ok ct) → (∀ x y, contents d x = Some y → is_temp x = false) →
  let d' := final enable d in
  (∃ r, outcome enable d = Ok r)
  ∧ (∀ x y, contents d' x = Some y → is_encrypted y = true)
  ∧ protection d' = Protection.mk true true 0 false.
Proof.
  intros Hnf Hdb Hkey Henv Htot Hnt d'. unfold d', outcome, final, enable. clear d'.
  rewrite run_bind_gets. unfold ensure, id. rewrite Hdb. cbn [from_option].
  rewrite run_bind_ret, run_bind.
  destruct (ensure_key_run d) as (d1 & r & n & -> & Hb1 & Hdb1 & Hf1 & _ & Hr).
  destruct r as [key|e]; [|destruct Hr as [(e' & He)|(i & _ & Hi)]; [by destruct (Hkey e')|by rewrite Hnf in Hi]].
  destruct Hr as [Hk1 He1]. rewrite run_bind.
  destruct (on_account_run (set_config_bool Config.BlobEncryption true) d1)
    as (d2 & Hf2 & Hb2 & Hdb2 & [(_ & Ha2 & ->)|(Hi & _)]); [|by rewrite Hf1, Hnf in Hi].
  destruct (set_flag_run true (account d1)) as (q & Hq & Hk2). unfold outcome. rewrite Hq. cbn [snd].
  assert (∀ x, contents d2 x = contents d x) as Hc by (intros x; apply contents_ext; congruence).
  destruct (migrate_encrypts d2 key) as (r & Hout & Hacc & Hdb3 & Henc).
  - intros m. by rewrite Hf2, Hf1, Hnf.
  - by rewrite Ha2, Hk2.
  - done.
  - intros x y. rewrite Hc. apply Hnt.
  - rewrite Hdb2, Hdb1, Hdb in Hdb3. assert (is_enabled (account d2) = true) as Hen.
    { rewrite Ha2. unfold final. rewrite Hq. cbn [fst]. unfold is_enabled, get_config_bool, from_bool.
      rewrite get_config_after_set, decide_True, He1, Henv by done. reflexivity. }
    unfold outcome, final in *. split_and!; [by eauto|done|]. unfold protection.
    rewrite Hdb3, (proj2 (cleartext_zero _)) by eauto. by rewrite Hacc, Hen.
Qed.
End blobcrypt.

(** ** Instances *)

(** A cipher that only authenticates, and a generator that counts. *)
#[refine] Definition toy_aead : Aead := {|
  aead_encrypt key _ plaintext := Ok (plaintext ++ key);
  aead_decrypt key _ ciphertext :=
    match strip_suffix_str key ciphertext with Some p => Ok p | None => Err "aead::Error" end;
|}.
Proof.
  intros key _ p c [= <-]. unfold strip_suffix_str.
  by rewrite reverse_app, strip_prefix_str_app, fmap_Some_2 with (x := reverse p), reverse_involutive.
Defined.

#[refine] Definition toy_entropy : Entropy := {|
  fill_bytes i n := replicate n (N.of_nat (i mod 256));
  random_u64 i := Z.of_nat i;
|}.
Proof.
  - intros i n. apply length_replicate.
  - intros i n. apply Forall_replicate. pose proof (Nat.mod_upper_bound i 256). lia.
Defined.

Definition healthy : nat → option nat := λ _, None.
Definition crash_at (n : nat) : nat → option nat := λ i, if (i <? n)%nat then None else Some 3.
Definition fail_once (n : nat) : nat → option nat := λ i, if (i =? n)%nat then Some 0 else None.

Lemma crash_at_crashing n : crashing (crash_at n).
Proof.
  intros i j Hij. unfold crash_at. destruct (Nat.ltb_spec i n); [done|].
  destruct (Nat.ltb_spec j n); [lia|done].
Qed.

(** One account with an encrypted database and two attachments. *)
Definition photo : bytes := lit "a photo".
Definition letter : bytes := lit "a letter".
Definition mailbox : Disk :=
  MkDisk empty_ctx (Some true)
    (Some (<[lit "a.jpg" := File photo]> (<[lit "b.txt" := File letter]> ∅))) 0 healthy.

Definition protected : Disk := final (@enable toy_aead toy_entropy) mailbox.

Lemma blobs_survive_crashes_witness :
  @reads toy_aead (@run_blob_history toy_aead toy_entropy
    [(OpEnable, fail_once 3); (OpProtect (lit "b.txt"), healthy); (OpDisable, crash_at 2);
     (OpDisable, healthy)] mailbox) (lit "a.jpg") photo.
Proof.
  apply (@blobs_survive_crashes toy_aead toy_entropy).
  - constructor; [exact I|]. constructor; [exact I|].
    constructor; [apply crash_at_crashing|]. constructor; [|constructor].
    intros n m _ Hn. by destruct Hn.
  - vm_compute. reflexivity.
  - vm_compute. reflexivity.
  - vm_compute. reflexivity.
Defined.

Lemma enable_protects_everything_witness :
  (∀ x y, contents protected x = Some y → is_encrypted y = true)
  ∧ protection protected = Protection.mk true true 0 false.
Proof.
  destruct (@enable_protects_everything toy_aead toy_entropy mailbox) as (_ & H1 & H2).
  - reflexivity.
  - reflexivity.
  - intros e. vm_compute. discriminate.
  - reflexivity.
  - intros k n y. eexists. reflexivity.
  - intros x y Hy. unfold contents in Hy. cbn [blobdir mailbox mbind option_bind] in Hy.
    destruct (decide (x = lit "a.jpg")) as [->|Ha]; [vm_compute; reflexivity|].
    destruct (decide (x = lit "b.txt")) as [->|Hb]; [vm_compute; reflexivity|].
    rewrite lookup_insert_ne, lookup_insert_ne in Hy by done. by rewrite lookup_empty in Hy.
  - split; [exact H1|exact H2].
Defined.

(** Turning encryption off can lose a file.  When one write fails during the
    pass, the failure is logged, the key is dropped all the same, and the file,
    still encrypted, can never be read again. *)
Example disable_drops_key_too_early :
  let d := final (@disable toy_aead toy_entropy) (with_faults (fail_once 1) protected) in
  @reads toy_aead protected (lit "a.jpg") photo
  ∧ @reads toy_aead protected (lit "b.txt") letter
  ∧ outcome (@disable toy_aead toy_entropy) (with_faults (fail_once 1) protected) = Ok 1
  ∧ get_raw_config (account d) KEY_CONFIG = None
  ∧ (is_Err (outcome (@read toy_aead (lit "a.jpg")) d) ∨ is_Err (outcome (@read toy_aead (lit "b.txt")) d)).
Proof. vm_compute. split_and!; auto. Qed.

(** A received attachment that starts with the magic is never encrypted, and
    cannot be read when there is a key. *)
Example lookalike_attachment :
  let fake := lit "EEEBLOB1 and then some text of the sender" in
  let d := final (@protect toy_aead toy_entropy (lit "c.txt")) (put (lit "c.txt") fake protected) in
  contents d (lit "c.txt") = Some fake
  ∧ is_Err (outcome (@read toy_aead (lit "c.txt")) d)
  ∧ Protection.blobs_encrypted (protection d) = true.
Proof. vm_compute. auto. Qed.

(** The count that is reported includes files that were not changed. *)
Example enable_twice :
  outcome (@enable toy_aead toy_entropy) protected = Ok 2
  ∧ blobdir (final (@enable toy_aead toy_entropy) protected) = blobdir protected.
Proof. vm_compute. auto. Qed.

(** Removing the passphrase leaves the blob key in a cleartext database, and the
    report still calls the blobs encrypted. *)
Example key_in_cleartext_database :
  let d := final (set_passphrase []) protected in
  is_Some (get_raw_config (account d) KEY_CONFIG)
  ∧ Protection.database_encrypted (protection d) = false
  ∧ Protection.blobs_encrypted (protection d) = true.
Proof. vm_compute. split_and!; eauto. Qed.

(** A blob keeps the extension of the attachment; one that starts with [tmp-] is
    taken for a temporary and stays in cleartext. *)
Example temporary_extension :
  let d := put (lit "0123.tmp-x") photo mailbox in
  contents (final (@enable toy_aead toy_entropy) d) (lit "0123.tmp-x") = Some photo.
Proof. vm_compute. reflexivity. Qed.

(** A blob with such a name that arrives while encryption is on is sealed all the
    same; turning encryption off passes over it and drops the key, so that it can
    never be read again, without any failure. *)
Example temporary_sealed_for_good :
  let arrived := final (@protect toy_aead toy_entropy (lit "0123.tmp-x")) (put (lit "0123.tmp-x") photo protected) in
  let d := final (@disable toy_aead toy_entropy) arrived in
  @reads toy_aead arrived (lit "0123.tmp-x") photo
  ∧ outcome (@disable toy_aead toy_entropy) arrived = Ok 2
  ∧ get_raw_config (account d) KEY_CONFIG = None
  ∧ is_Err (outcome (@read toy_aead (lit "0123.tmp-x")) d).
Proof. vm_compute. split_and!; auto. Qed.
