(* ===== verification/Ratelimit.v ===== *)
(** * Ratelimit: the token bucket ([deltachat-ratelimit/src/lib.rs]).

    The limiter of automatic messages and of connection attempts.  Times and
    values are rational numbers: what the code computes in [f64], without its
    rounding. *)

From Stdlib Require Import QArith Qminmax Qround Lqa.
From S2P Require Import Prelude.

Open Scope Q_scope.

Module Ratelimit.
Record t := mk {
  last_update : Q; (** seconds *)
  current_value : Q;
  window : Q; (** seconds *)
  quota : Q;
}.

Definition new_at (window quota now : Q) : t := mk now 0 window quota.

Definition rate (r : t) : Q := quota r / window r.

(** [now.duration_since(last_update).unwrap_or(Duration::ZERO)] *)
Definition elapsed (r : t) (now : Q) : Q := Qmax 0 (now - last_update r).

Definition current_value_at (r : t) (now : Q) : Q :=
  Qmax 0 (current_value r - rate r * elapsed r now).

Definition can_send_at (r : t) (now : Q) : bool := Qle_bool (current_value_at r now + 1) (quota r).

Definition send_at (now : Q) (r : t) : t :=
  mk now (Qmin (quota r) (current_value_at r now + 1)) (window r) (quota r).

Definition until_can_send_at (r : t) (now : Q) : Q :=
  let current_value := current_value_at r now in
  if Qle_bool (current_value + 1) (quota r) then 0
  else
    let requirement := current_value + 1 - quota r in
    let rate := quota r / window r in
    requirement / rate.

(** Milliseconds; the cast to an integer truncates. *)
Definition update_interval (r : t) : Z :=
  Z.max 0 (Qfloor (inject_Z (Qfloor (window r * 1000)) / quota r)).

(** ** The bucket *)

(** A window that is not empty, and a value between nothing and the quota. *)
Record ok (r : t) : Prop := {
  window_pos : 0 < window r;
  value_pos : 0 <= current_value r;
  value_quota : current_value r <= quota r;
}.

Lemma rate_nonneg r : ok r → 0 <= rate r.
Proof.
  intros [Hw Hp Hq]. unfold rate. apply Qle_shift_div_l; [done|]. lra.
Qed.

Lemma current_value_at_bounds r now : ok r → 0 <= current_value_at r now <= current_value r.
Proof.
  intros Hok. unfold current_value_at. split; [apply Q.le_max_l|]. apply Q.max_lub; [apply Hok|].
  assert (0 <= elapsed r now) by apply Q.le_max_l. pose proof (rate_nonneg r Hok). nra.
Qed.

Lemma new_at_ok window quota now : 0 < window → 0 <= quota → ok (new_at window quota now).
Proof. intros ??. split; cbn; lra. Qed.

Lemma send_at_ok now r : ok r → ok (send_at now r).
Proof.
  intros Hok. destruct (current_value_at_bounds r now Hok) as [H0 H1]. destruct Hok as [Hw Hp Hq].
  split; cbn; [done| |apply Q.le_min_l]. apply Q.min_glb; lra.
Qed.

Lemma can_send_at_iff r now : can_send_at r now = true ↔ current_value_at r now + 1 <= quota r.
Proof. apply Qle_bool_iff. Qed.

(** A permitted message counts in full. *)
Lemma send_permitted now r :
  can_send_at r now = true → current_value (send_at now r) == current_value_at r now + 1.
Proof. intros H%can_send_at_iff. cbn. by apply Q.min_r. Qed.

(** What was counted drains at the rate, no faster. *)
Lemma current_value_at_drain r now :
  last_update r <= now → current_value r - rate r * (now - last_update r) <= current_value_at r now.
Proof.
  intros Hle. unfold current_value_at. assert (elapsed r now == now - last_update r) as ->.
  { unfold elapsed. apply Q.max_r. lra. }
  apply Q.le_max_r.
Qed.

(** Sending at each of the times, with leave every time. *)
Fixpoint permitted (r : t) (times : list Q) : Prop :=
  match times with
  | [] => True
  | now :: times => last_update r <= now ∧ can_send_at r now = true ∧ permitted (send_at now r) times
  end.

Lemma permitted_count times r :
  ok r → permitted r times →
  inject_Z (Z.of_nat (length times)) + current_value r
  <= quota r + rate r * (List.last times (last_update r) - last_update r).
Proof.
  revert r. induction times as [|now times IH]; intros r Hok Hp.
  - destruct Hok as [Hw H0 Hq]. cbn [length List.last]. change (inject_Z (Z.of_nat 0)) with 0.
    assert (rate r * (last_update r - last_update r) == 0) as -> by ring. lra.
  - destruct Hp as (Hle & Hcan & Hp). specialize (IH _ (send_at_ok now r Hok) Hp).
    rewrite (send_permitted now r Hcan) in IH. pose proof (current_value_at_drain r now Hle) as Hd.
    assert (List.last (now :: times) (last_update r) = List.last times now) as ->.
    { clear. revert now. induction times as [|a times IH]; intros now; [done|]. cbn [List.last].
      destruct times; [done|]. apply (IH now). }
    cbn [length]. rewrite Nat2Z.inj_succ, <-Z.add_1_l, inject_Z_plus. change (inject_Z 1) with 1.
    change (rate (send_at now r)) with (rate r) in IH. change (quota (send_at now r)) with (quota r) in IH.
    change (last_update (send_at now r)) with now in IH. lra.
Qed.


(** The state once the value has drained for a while. *)
Lemma can_send_after r now :
  ok r → 1 <= quota r → last_update r <= now →
  current_value r + 1 - quota r <= rate r * (now - last_update r) → can_send_at r now = true.
Proof.
  intros Hok Hquota Hle Hdrained. apply can_send_at_iff. unfold current_value_at.
  assert (elapsed r now == now - last_update r) as -> by (apply Q.max_r; lra).
  assert (Qmax 0 (current_value r - rate r * (now - last_update r)) <= quota r - 1); [|lra].
  apply Q.max_lub; lra.
Qed.

(** C39: messages sent only when the limiter allows it, one after the other,
    never exceed the quota plus what the window refills between the first and
    the last of them. *)
Theorem permitted_bound (r : t) (first : Q) (rest : list Q) :
  ok r → permitted r (first :: rest) →
  inject_Z (Z.of_nat (length (first :: rest))) <= quota r + quota r / window r * (List.last (first :: rest) first - first).
Proof.
  intros Hok (Hle & Hcan & Hp). pose proof (permitted_count rest _ (send_at_ok first r Hok) Hp) as Hc.
  rewrite (send_permitted first r Hcan) in Hc. destruct (current_value_at_bounds r first Hok) as [Hpos _].
  change (rate (send_at first r)) with (quota r / window r) in Hc. change (quota (send_at first r)) with (quota r) in Hc.
  change (last_update (send_at first r)) with first in Hc.
  assert (List.last (first :: rest) first = List.last rest first) as ->.
  { destruct rest; [done|]. cbn [List.last]. done. }
  cbn [length]. rewrite Nat2Z.inj_succ, <-Z.add_1_l, inject_Z_plus. change (inject_Z 1) with 1. lra.
Qed.

(** Waiting as long as the limiter says is enough: after the time
    [until_can_send_at] returns, a message may be sent. *)
Theorem until_can_send_enough (r : t) (now : Q) :
  ok r → 1 <= quota r → last_update r <= now →
  can_send_at r (now + until_can_send_at r now) = true.
Proof.
  intros Hok Hquota Hle. unfold until_can_send_at. cbv zeta.
  destruct (Qle_bool _ _) eqn:Hcan.
  - apply Qle_bool_iff in Hcan. apply can_send_at_iff. unfold current_value_at in *.
    assert (elapsed r (now + 0) == elapsed r now) as ->; [|done]. unfold elapsed.
    assert (now + 0 - last_update r == now - last_update r) as -> by ring. reflexivity.
  - assert (quota r < current_value_at r now + 1) as Hover.
    { apply Qnot_le_lt. intros Hle'%Qle_bool_iff. by rewrite Hle' in Hcan. }
    assert (0 < quota r / window r) as Hrate by (apply Qlt_shift_div_l; [apply Hok|lra]).
    set (wait := (current_value_at r now + 1 - quota r) / (quota r / window r)).
    assert (quota r / window r * wait == current_value_at r now + 1 - quota r) as Hwait.
    { unfold wait. pose proof (window_pos r Hok) as Hw. field. split; intros E; lra. }
    assert (0 <= wait) as Hw0 by (apply Qle_shift_div_l; [done|lra]).
    apply can_send_after; [done|done|lra|]. unfold rate.
    assert (current_value_at r now == current_value r - rate r * (now - last_update r)) as Hnow.
    { unfold current_value_at in *. assert (elapsed r now == now - last_update r) as E by (apply Q.max_r; lra).
      rewrite E in *. destruct (Q.max_spec 0 (current_value r - rate r * (now - last_update r))) as [[_ ->]|[Hneg Hm]]; [done|].
      rewrite Hm in Hover. lra. }
    rewrite Hnow in Hwait. unfold rate in Hwait. lra.
Qed.
End Ratelimit.

(** ** The limiter of the test of the source: three messages a minute *)

Definition three_a_minute : Ratelimit.t := Ratelimit.new_at 60 3 0.

Definition busy_minute : list Q := [0; 0; 0; 20; 40].

Lemma three_a_minute_ok : Ratelimit.ok three_a_minute.
Proof. apply Ratelimit.new_at_ok; reflexivity || discriminate. Qed.

Lemma busy_minute_permitted : Ratelimit.permitted three_a_minute busy_minute.
Proof. vm_compute. repeat split; discriminate. Qed.

(** A burst and the refill after it: five messages within the minute whose quota
    is three. *)
Lemma permitted_bound_witness :
  Ratelimit.permitted three_a_minute busy_minute
  ∧ (length busy_minute = 5)%nat ∧ List.last busy_minute 0 - 0 < Ratelimit.window three_a_minute
  ∧ inject_Z (Z.of_nat (length busy_minute)) <= 3 + 3 / 60 * (List.last busy_minute 0 - 0).
Proof.
  split; [exact busy_minute_permitted|]. split; [reflexivity|]. split; [vm_compute; reflexivity|].
  exact (Ratelimit.permitted_bound three_a_minute 0 [0; 0; 20; 40] three_a_minute_ok busy_minute_permitted).
Defined.

Definition used_up : Ratelimit.t := Ratelimit.send_at 0 (Ratelimit.send_at 0 (Ratelimit.send_at 0 three_a_minute)).

Lemma until_can_send_enough_witness :
  Ratelimit.can_send_at used_up 0 = false
  ∧ Ratelimit.until_can_send_at used_up 0 == 20
  ∧ Ratelimit.can_send_at used_up (0 + Ratelimit.until_can_send_at used_up 0) = true.
Proof.
  split; [vm_compute; reflexivity|]. split; [vm_compute; reflexivity|].
  apply Ratelimit.until_can_send_enough.
  - unfold used_up. repeat apply Ratelimit.send_at_ok. exact three_a_minute_ok.
  - vm_compute. discriminate.
  - vm_compute. discriminate.
Defined.

(** Sending anyway when the limiter refuses does not put off the time when the
    next message is allowed: the value never exceeds the quota. *)
Example over_quota_is_free :
  Ratelimit.until_can_send_at (Ratelimit.send_at 0 used_up) 0 == Ratelimit.until_can_send_at used_up 0.
Proof. vm_compute. reflexivity. Qed.

Example update_interval_of_test : Ratelimit.update_interval three_a_minute = 20000%Z.
Proof. vm_compute. reflexivity. Qed.
