(* ===== verification/Aheader.v ===== *)
(** * Aheader: the Autocrypt header ([aheader.rs]).

    Writing and reading of the header that carries a sender's public key.  Keys
    and their base64 form are an interface. *)

From S2P Require Import Prelude Text Substr Flowed.

Module EncryptPreference.
Inductive t := NoPreference | Mutual.

#[global] Instance eq_dec : EqDecision t.
Proof. solve_decision. Defined.

Definition new (s : str) : result t :=
  if decide (s = lit "mutual") then Ok Mutual
  else if decide (s = lit "nopreference") then Ok NoPreference
  else Err "Cannot parse encryption preference".
End EncryptPreference.

(** A public key: its base64 text, the key of a text without blanks, and
    [verify_bindings]. *)
Class PublicKey (K : Type) := {
  to_base64 : K → str;
  decode_base64 : str → result K;
  verify_bindings : K → bool;
  decode_encode k : decode_base64 (to_base64 k) = Ok k;
  (** of letters, digits, plus, slash and the padding sign *)
  base64_plain k : Forall (λ c, is_whitespace c = false ∧ c ≠ 59%N) (to_base64 k);
}.

Module Aheader.
Record t (K : Type) := mk {
  addr : str;
  public_key : K;
  prefer_encrypt : EncryptPreference.t;
  verified : bool;
}.
Arguments mk {K}.
Arguments addr {K}.
Arguments public_key {K}.
Arguments prefer_encrypt {K}.
Arguments verified {K}.
End Aheader.

Definition SEMI : N := 59.
Definition EQUALS : N := 61.

Section aheader.
Context `{!UnicodeCase, PublicKey K}.

(** The fold over the characters: a blank before every character at position 70
    of a line of 78. *)
Fixpoint wrap_keydata (i : nat) (s : str) : str :=
  match s with
  | [] => []
  | c :: s => (if decide (i mod 78 = 78 - 8) then [32%N; c] else [c]) ++ wrap_keydata (S i) s
  end.

(** [Display] *)
Definition to_string (h : Aheader.t K) : str :=
  lit "addr=" ++ to_lowercase (Aheader.addr h) ++ [SEMI]
  ++ (if decide (Aheader.prefer_encrypt h = EncryptPreference.Mutual) then lit " prefer-encrypt=mutual;" else [])
  ++ lit " keydata=" ++ wrap_keydata 0 (to_base64 (Aheader.public_key h)).

(** [DcKey::from_base64] *)
Definition from_base64 (data : str) : result K := decode_base64 (concat (split_whitespace data)).

Definition attribute_of (a : str) : option (str * str) :=
  '(key, value) ← split_once EQUALS (trim a);
  Some (trim key, trim value).

(** [collect] into a map: the last of two equal keys stays. *)
Definition attributes_of (s : str) : gmap str str :=
  foldl (λ m kv, <[kv.1 := kv.2]> m) ∅ (omap attribute_of (split SEMI s)).

Definition from_str (s : str) : result (Aheader.t K) :=
  let attributes := attributes_of s in
  match attributes !! lit "addr" with
  | None => Err "Autocrypt header has no addr"
  | Some addr =>
      let attributes := delete (lit "addr") attributes in
      match attributes !! lit "keydata" with
      | None => Err "keydata attribute is not found"
      | Some raw =>
          match from_base64 raw with
          | Err _ => Err "Autocrypt key cannot be decoded"
          | Ok public_key =>
              let attributes := delete (lit "keydata") attributes in
              if negb (verify_bindings public_key) then Err "Autocrypt key cannot be verified"
              else
                let prefer_encrypt :=
                  match attributes !! lit "prefer-encrypt" with
                  | Some raw => match EncryptPreference.new raw with
                                | Ok p => p | Err _ => EncryptPreference.NoPreference end
                  | None => EncryptPreference.NoPreference
                  end in
                let attributes := delete (lit "prefer-encrypt") attributes in
                let verified := bool_decide (is_Some (attributes !! lit "_verified")) in
                let attributes := delete (lit "_verified") attributes in
                if existsb (λ kv, negb (starts_with (lit "_") kv.1)) (map_to_list attributes)
                then Err "Unknown Autocrypt attribute found"
                else Ok (Aheader.mk addr public_key prefer_encrypt verified)
          end
      end
  end.
End aheader.

(** ** Reading back what was written *)

(** A text that [trim] leaves alone. *)
Definition solid (s : str) : Prop :=
  (∀ c, head s = Some c → is_whitespace c = false) ∧ (∀ c, last s = Some c → is_whitespace c = false).

Lemma trim_solid s : solid s → trim s = s.
Proof.
  intros [Hh Hl]. unfold trim, trim_start, trim_end, drop_while_end.
  assert (drop_while is_whitespace s = s) as ->.
  { destruct s as [|c s]; [done|]. apply drop_while_stop. by apply Hh. }
  destruct (reverse s) as [|c r] eqn:E; [by apply (f_equal reverse) in E; rewrite reverse_involutive in E|].
  rewrite drop_while_stop; [by rewrite <-E, reverse_involutive|].
  apply Hl. rewrite <-head_reverse, E. done.
Qed.

Lemma concat_split_by p s : concat (split_by p s) = filter (λ c, p c = false) s.
Proof.
  induction s as [|c s IH]; [done|]. cbn [split_by]. rewrite filter_cons. destruct (p c) eqn:Hc.
  - by rewrite decide_False.
  - rewrite decide_True by done. rewrite <-IH. by destruct (split_by p s).
Qed.

Lemma concat_split_whitespace s : concat (split_whitespace s) = filter (λ c, is_whitespace c = false) s.
Proof.
  unfold split_whitespace. rewrite <-concat_split_by. induction (split_by is_whitespace s) as [|w ws IH]; [done|].
  rewrite filter_cons. case_decide as Hw; cbn; [by rewrite IH|by subst w].
Qed.

Lemma wrap_keydata_unwrap i s :
  Forall (λ c, is_whitespace c = false) s → filter (λ c, is_whitespace c = false) (wrap_keydata i s) = s.
Proof.
  intros Hs. revert i. induction Hs as [|c s Hc _ IH]; intros i; [done|]. cbn [wrap_keydata].
  rewrite filter_app, IH. case_decide; by rewrite !filter_cons, ?(decide_True _ _ Hc), ?filter_nil.
Qed.

Lemma wrap_keydata_chars i s c : c ∈ wrap_keydata i s → c = 32%N ∨ c ∈ s.
Proof.
  revert i. induction s as [|x s IH]; intros i Hc; [by apply elem_of_nil in Hc|]. cbn [wrap_keydata] in Hc.
  apply elem_of_app in Hc as [Hc|Hc]; [|apply IH in Hc; set_solver]. case_decide; set_solver.
Qed.

Lemma wrap_keydata_solid s : Forall (λ c, is_whitespace c = false) s → solid (wrap_keydata 0 s).
Proof.
  intros Hs. split.
  - destruct Hs as [|c s Hc _]; [done|]. intros c'. cbn [wrap_keydata]. rewrite decide_False by done. by intros [= <-].
  - generalize 0. induction Hs as [|c s Hc _ IH]; intros i; [done|]. cbn [wrap_keydata]. rewrite last_app.
    specialize (IH (S i)). destruct (last (wrap_keydata (S i) s)) as [c'|]; [done|].
    intros c'. case_decide; by intros [= <-].
Qed.

Section roundtrip.
Context `{!UnicodeCase, PublicKey K}.

Lemma attribute_solid key value :
  solid key → key ≠ [] → EQUALS ∉ key → solid value →
  ∀ a, (a = key ++ EQUALS :: value ∨ a = 32%N :: key ++ EQUALS :: value) → attribute_of a = Some (key, value).
Proof.
  intros Hk Hne Heq Hv a Ha. unfold attribute_of.
  assert (trim a = key ++ EQUALS :: value) as ->.
  { assert (solid (key ++ EQUALS :: value)) as Hsolid.
    { split; intros c Hc.
      - destruct key as [|x key]; [done|]. by apply (proj1 Hk).
      - rewrite last_app_cons in Hc. destruct value as [|y value]; [cbn in Hc; by injection Hc as <-|].
        rewrite last_cons_cons in Hc. by apply (proj2 Hv). }
    destruct Ha as [-> | ->]; [by apply trim_solid|]. rewrite <-(trim_solid _ Hsolid) at 2. done. }
  rewrite split_once_app by done. cbn. by rewrite !trim_solid.
Qed.

(** The pieces of a header between its semicolons. *)
Definition pieces_of (h : Aheader.t K) : list str :=
  [lit "addr=" ++ to_lowercase (Aheader.addr h)]
  ++ (if decide (Aheader.prefer_encrypt h = EncryptPreference.Mutual) then [lit " prefer-encrypt=mutual"] else [])
  ++ [lit " keydata=" ++ wrap_keydata 0 (to_base64 (Aheader.public_key h))].

Lemma to_string_pieces h : to_string h = join [SEMI] (pieces_of h).
Proof.
  unfold to_string, pieces_of. destruct (decide _); cbn [app join].
  - by rewrite <-!app_assoc.
  - by rewrite <-!app_assoc.
Qed.

Lemma key_plain (k : K) : Forall (λ c, is_whitespace c = false) (to_base64 k) ∧ SEMI ∉ wrap_keydata 0 (to_base64 k).
Proof.
  pose proof (base64_plain k) as Hp. split; [eapply Forall_impl; [exact Hp|]; naive_solver|].
  intros [E|Hin]%wrap_keydata_chars; [done|]. rewrite Forall_forall in Hp. by apply Hp in Hin as [_ ?].
Qed.

Lemma attributes_of_header h :
  SEMI ∉ to_lowercase (Aheader.addr h) → solid (to_lowercase (Aheader.addr h)) →
  attributes_of (to_string h)
  = <[lit "keydata" := wrap_keydata 0 (to_base64 (Aheader.public_key h))]>
      ((if decide (Aheader.prefer_encrypt h = EncryptPreference.Mutual)
        then <[lit "prefer-encrypt" := lit "mutual"]> else id)
       {[ lit "addr" := to_lowercase (Aheader.addr h) ]}).
Proof.
  intros Haddr Hsolid. destruct (key_plain (Aheader.public_key h)) as [Hplain Hsemi].
  unfold attributes_of. rewrite to_string_pieces, split_join; [| |].
  - unfold pieces_of. rewrite !omap_app.
    assert (∀ a v, attribute_of a = Some v → omap attribute_of [a] = [v]) as Hone by (intros a v E; cbn; by rewrite E).
    rewrite (Hone _ (lit "addr", to_lowercase (Aheader.addr h))).
    2:{ apply (attribute_solid (lit "addr")); [split; cbn; intros c [= <-]; done|done|set_solver|done|by left]. }
    rewrite (Hone _ (lit "keydata", wrap_keydata 0 (to_base64 (Aheader.public_key h)))).
    2:{ apply (attribute_solid (lit "keydata"));
          [split; cbn; intros c [= <-]; done|done|set_solver|by apply wrap_keydata_solid|by right]. }
    destruct (decide _); [|done]. cbn [app].
    rewrite (Hone _ (lit "prefer-encrypt", lit "mutual")) by done. done.
  - by unfold pieces_of.
  - intros l. unfold pieces_of. rewrite !elem_of_app. intros [Hl|[Hl|Hl]].
    + apply list_elem_of_singleton in Hl as ->. rewrite elem_of_app. intros [?|?]; [set_solver|done].
    + destruct (decide _); [|by apply elem_of_nil in Hl]. apply list_elem_of_singleton in Hl as ->. set_solver.
    + apply list_elem_of_singleton in Hl as ->. rewrite elem_of_app. intros [?|?]; [set_solver|done].
Qed.

(** C27: a written Autocrypt header reads back as the same key and preference,
    for every key whose bindings hold, with the address in lower case and the
    mark of a verified key, which is not sent, dropped; the blanks that let the
    key be folded over lines do not matter. *)
Theorem aheader_roundtrip (h : Aheader.t K) :
  SEMI ∉ to_lowercase (Aheader.addr h) → solid (to_lowercase (Aheader.addr h)) →
  verify_bindings (Aheader.public_key h) = true →
  from_str (to_string h)
  = Ok (Aheader.mk (to_lowercase (Aheader.addr h)) (Aheader.public_key h) (Aheader.prefer_encrypt h) false).
Proof.
  intros Haddr Hsolid Hverify. unfold from_str. cbv zeta. rewrite (attributes_of_header h Haddr Hsolid).
  destruct (key_plain (Aheader.public_key h)) as [Hplain _].
  set (wrapped := wrap_keydata 0 _). set (a := to_lowercase _).
  assert (from_base64 wrapped = Ok (Aheader.public_key h)) as Hkey.
  { unfold from_base64, wrapped. by rewrite concat_split_whitespace, wrap_keydata_unwrap, decode_encode. }
  set (m := (if decide _ then _ else _) _).
  assert (<[lit "keydata" := wrapped]> m !! lit "addr" = Some a) as Ha.
  { rewrite lookup_insert_ne by done. unfold m. case_decide; [by rewrite lookup_insert_ne by done|].
    apply lookup_singleton_eq. }
  rewrite Ha, lookup_delete_ne, lookup_insert_eq, Hkey, Hverify by done. cbn [negb].
  assert (delete (lit "_verified") (delete (lit "prefer-encrypt") (delete (lit "keydata") (delete (lit "addr")
    (<[lit "keydata" := wrapped]> m)))) = ∅) as ->.
  { apply map_empty. intros i.
    destruct (decide (lit "_verified" = i)) as [<-|N1]; [apply lookup_delete_eq|rewrite lookup_delete_ne by done].
    destruct (decide (lit "prefer-encrypt" = i)) as [<-|N2]; [apply lookup_delete_eq|rewrite lookup_delete_ne by done].
    destruct (decide (lit "keydata" = i)) as [<-|N3]; [apply lookup_delete_eq|rewrite lookup_delete_ne by done].
    destruct (decide (lit "addr" = i)) as [<-|N4]; [apply lookup_delete_eq|rewrite lookup_delete_ne by done].
    rewrite lookup_insert_ne by done. unfold m. case_decide; [rewrite lookup_insert_ne by done|]; by apply lookup_singleton_ne. }
  rewrite map_to_list_empty. cbn [existsb].
  rewrite !lookup_delete_ne, !lookup_insert_ne by done. unfold m.
  destruct (decide (Aheader.prefer_encrypt h = EncryptPreference.Mutual)) as [Hm|Hm].
  - rewrite lookup_insert_eq, lookup_insert_ne, lookup_singleton_ne by done. cbn. by rewrite Hm.
  - cbn [id]. rewrite !lookup_singleton_ne by done. cbn. by destruct (Aheader.prefer_encrypt h).
Qed.
End roundtrip.

(** ** Two keys *)

Definition long_key : str := repeat 65%N 100.

#[global] Instance two_keys : PublicKey bool.
Proof.
  refine {|
    to_base64 := λ b : bool, if b then long_key else lit "Qg==";
    decode_base64 := λ s, if decide (s = long_key) then Ok true
                          else if decide (s = lit "Qg==") then Ok false else Err "Invalid byte";
    verify_bindings := λ b, b;
  |}.
  - intros []; reflexivity.
  - intros []; vm_compute; repeat constructor; discriminate.
Defined.

Definition ada_header : Aheader.t bool := Aheader.mk (lit "Ada@Site.org") true EncryptPreference.Mutual true.

Lemma aheader_roundtrip_witness :
  @from_str bool _ (@to_string ascii_case bool _ ada_header)
  = Ok (Aheader.mk (lit "ada@site.org") true EncryptPreference.Mutual false).
Proof.
  apply (@aheader_roundtrip ascii_case bool _ ada_header).
  - vm_compute. intros Hin. repeat (apply elem_of_cons in Hin as [Hin|Hin]; [discriminate Hin|]). by apply elem_of_nil in Hin.
  - split; vm_compute; intros c [= <-]; reflexivity.
  - reflexivity.
Defined.

(** Attributes that are not known make a header invalid unless they start with an
    underscore; the last of two attributes counts; an unknown preference is none. *)
Example header_cases :
  let read s := @from_str bool _ (lit s) in
  let key := String.append "keydata=" (String.concat "" (List.repeat "A" 100)) in
  read (String.append "addr=a@b; type=1; " key) = Err "Unknown Autocrypt attribute found"
  ∧ read (String.append "addr=x@y; addr=a@b; _note=1; prefer-encrypt=maybe; _verified=1;" key)
    = Ok (Aheader.mk (lit "a@b") true EncryptPreference.NoPreference true)
  ∧ read key = Err "Autocrypt header has no addr"
  ∧ read "addr=a@b; keydata=Qg= =" = Err "Autocrypt key cannot be verified"
  ∧ read "addr=a@b; keydata=??" = Err "Autocrypt key cannot be decoded".
Proof. vm_compute. split_and!; reflexivity. Qed.
