(* ===== verification/UidSets.v ===== *)
(** * UidSets: sets of message numbers in IMAP commands ([imap.rs]).

    [build_sequence_sets] and the iterator [UidGrouper] write lists of UIDs as
    the sequence sets of RFC 3501, in pieces short enough for a command line.
    [uid_set_of] reads such a set, and the theorems say that the pieces name
    exactly the UIDs they were made from.  UIDs are [u32]; the additions wrap,
    as in a release build. *)

From S2P Require Import Prelude Text Substr Store.

Definition COMMA : N := 44.
Definition COLON : N := 58.

(** [u32] addition without overflow checks *)
Definition u32_add (a b : Z) : Z := ((a + b) mod 4294967296)%Z.

Module UidRange.
Record t := mk { start : Z; end_ : Z }.

Definition to_string (r : t) : str :=
  if (start r =? end_ r)%Z then show_Z (start r)
  else show_Z (start r) ++ [COLON] ++ show_Z (end_ r).

(** [start..=end] *)
Definition uids (r : t) : list Z := seqZ (start r) (end_ r - start r + 1).
End UidRange.

(** ** [build_sequence_sets] *)

(** The first loop: extend the last range or begin a new one. *)
Definition push_uid (ranges : list UidRange.t) (current : Z) : list UidRange.t :=
  match last ranges with
  | Some l =>
      if (u32_add (UidRange.end_ l) 1 =? current)%Z
      then removelast ranges ++ [UidRange.mk (UidRange.start l) current]
      else ranges ++ [UidRange.mk current current]
  | None => [UidRange.mk current current]
  end.

(** [if !s.is_empty() { s.push(',') }; s.push_str(range)] *)
Definition push_range (s : str) (r : UidRange.t) : str :=
  s ++ (if is_empty s then [] else [COMMA]) ++ UidRange.to_string r.

Definition sets_state : Type := list (list Z * str) * list Z * str.

(** The second loop: collect ranges until the set is long. *)
Definition add_range (st : sets_state) (range : UidRange.t) : sets_state :=
  let '(result, last_uids, last_str) := st in
  let last_uids := last_uids ++ UidRange.uids range in
  let last_str := push_range last_str range in
  if 990 <? length last_str then (result ++ [(last_uids, last_str)], [], [])
  else (result, last_uids, last_str).

Definition build_sequence_sets (uids : list Z) : list (list Z * str) :=
  let ranges := foldl push_uid [] uids in
  let '(result, last_uids, last_str) := foldl add_range ([], [], []) ranges in
  filter (λ p, p.2 ≠ []) (result ++ [(last_uids, last_str)]).

(** ** [UidGrouper] *)

(** A row: its id, the UID and the folder it is grouped by. *)
Definition row : Type := Z * Z * str.

(** The inner loop of [next]: rows of the same folder that continue the range. *)
Fixpoint extend_range (folder : str) (end_uid : Z) (rows : list row) : Z * list Z * list row :=
  match rows with
  | (next_rowid, next_uid, next_folder) :: rest =>
      if bool_decide (next_folder = folder)
         && ((next_uid =? u32_add end_uid 1)%Z || (next_uid =? end_uid)%Z)
      then let '(end_uid, rowids, rest) := extend_range folder next_uid rest in
           (end_uid, next_rowid :: rowids, rest)
      else (end_uid, [], rows)
  | [] => (end_uid, [], [])
  end.

(** The outer loop; every round but the last takes a row. *)
Fixpoint fill_set (fuel : nat) (folder : str) (uid_set : str) (rowid_set : list Z) (rows : list row)
    : list Z * str * list row :=
  match fuel with
  | 0 => (rowid_set, uid_set, rows)
  | S fuel =>
      if length uid_set <? 1000 then
        match rows with
        | (start_rowid, start_uid, start_folder) :: rest =>
            if bool_decide (start_folder = folder) then
              let '(end_uid, rowids, rest) := extend_range folder start_uid rest in
              fill_set fuel folder (push_range uid_set (UidRange.mk start_uid end_uid))
                (rowid_set ++ start_rowid :: rowids) rest
            else (rowid_set, uid_set, rows)
        | [] => (rowid_set, uid_set, rows)
        end
      else (rowid_set, uid_set, rows)
  end.

(** [Iterator::next]: the folder, the row ids and the set, and what is left. *)
Definition next (rows : list row) : option (str * list Z * str * list row) :=
  match rows with
  | [] => None
  | (_, _, folder) :: _ =>
      let '(rowid_set, uid_set, rest) := fill_set (length rows) folder [] [] rows in
      Some (folder, rowid_set, uid_set, rest)
  end.

(** All groups, as a [for] loop visits them. *)
Fixpoint groups_loop (fuel : nat) (rows : list row) : list (str * list Z * str) :=
  match fuel, next rows with
  | S fuel, Some (folder, rowid_set, uid_set, rest) =>
      (folder, rowid_set, uid_set) :: groups_loop fuel rest
  | _, _ => []
  end.

Definition groups (rows : list row) : list (str * list Z * str) := groups_loop (length rows) rows.

(** ** Reading a sequence set *)

(** A number, or two numbers and a colon. *)
Definition read_range (s : str) : option (list Z) :=
  match split_once COLON s with
  | Some (a, b) => a ← parse_digits a; b ← parse_digits b; Some (seqZ a (b - a + 1))
  | None => a ← parse_digits s; Some [a]
  end.

Definition uid_set_of (s : str) : option (list Z) :=
  mjoin <$> mapM read_range (split COMMA s).

(** A UID of a message on a server. *)
Definition valid_uid (u : Z) : Prop := (1 ≤ u ≤ u32_max)%Z.

(** ** Numbers as text *)

Definition digit (c : N) : Prop := (48 ≤ c ≤ 57)%N.

Lemma show_uint_digits u : Forall digit (show_uint u).
Proof. induction u; simpl; constructor; try done; unfold digit; lia. Qed.

Lemma show_Z_digits z : (0 ≤ z)%Z → Forall digit (show_Z z).
Proof.
  intros Hz. destruct z; [|apply show_uint_digits|lia].
  constructor; [unfold digit; lia|constructor].
Qed.

Lemma show_Z_no (z : Z) (k : N) : (0 ≤ z)%Z → ¬ digit k → k ∉ show_Z z.
Proof. intros Hz Hk Hin. apply Hk. by eapply (proj1 (Forall_forall _ _) (show_Z_digits z Hz)). Qed.

Lemma parse_digits_show_Z z : (0 ≤ z)%Z → parse_digits (show_Z z) = Some z.
Proof. intros Hz. destruct z; [done|apply parse_digits_show|lia]. Qed.

Lemma show_Z_nonempty z : show_Z z ≠ [].
Proof.
  destruct z; [done| |done]. intros H. pose proof (parse_digits_show p) as Hp.
  unfold show_Z in H. by rewrite H in Hp.
Qed.

(** A decimal number is at least ten to the number of its digits but one. *)
Lemma of_uint_acc_ge u acc :
  (Zpos acc * 10 ^ Z.of_nat (Decimal.nb_digits u) ≤ Zpos (Pos.of_uint_acc u acc))%Z.
Proof.
  revert acc. induction u; intros acc; cbn [Decimal.nb_digits Pos.of_uint_acc]; [simpl; lia|..];
    (etrans; [|apply IHu]); rewrite Nat2Z.inj_succ, Z.pow_succ_r by lia;
    rewrite Z.mul_assoc; apply Z.mul_le_mono_nonneg_r; lia.
Qed.

Lemma length_show_uint u : length (show_uint u) = Decimal.nb_digits u.
Proof. induction u; simpl; congruence. Qed.

Lemma to_uint_lead p u : Pos.to_uint p ≠ Decimal.D0 u.
Proof.
  intros E. pose proof (DecimalPos.Unsigned.of_to p) as Hof.
  pose proof (DecimalPos.Unsigned.to_of (Pos.to_uint p)) as Hto. rewrite Hof in Hto.
  cbn [N.to_uint] in Hto. rewrite E in Hto, Hof. unfold Decimal.unorm in Hto. cbn [Decimal.nzhead] in Hto.
  destruct (Decimal.nzhead u) eqn:Hn; try discriminate Hto.
  - injection Hto as ->. discriminate Hof.
  - by destruct (DecimalFacts.nzhead_nonzero u u0).
Qed.

Lemma show_Z_short z : (0 ≤ z ≤ u32_max)%Z → length (show_Z z) ≤ 10.
Proof.
  intros [H0 Hz]. destruct z as [|p|p]; [simpl; lia| |lia].
  cbn [show_Z N.to_uint]. rewrite length_show_uint.
  pose proof (DecimalPos.Unsigned.of_to p) as Hof. pose proof (to_uint_lead p) as Hl.
  destruct (le_gt_dec (Decimal.nb_digits (Pos.to_uint p)) 10) as [|Hgt]; [done|exfalso].
  destruct (Pos.to_uint p) as [|u|u|u|u|u|u|u|u|u|u] eqn:E; [simpl in Hgt; lia|by destruct (Hl u)|..];
    cbn [Decimal.nb_digits] in Hgt; cbn [Pos.of_uint] in Hof; injection Hof as Hof;
    match type of Hof with Pos.of_uint_acc _ ?a = _ => pose proof (of_uint_acc_ge u a) as Hge end;
    rewrite Hof in Hge;
    assert (10 ^ 10 ≤ 10 ^ Z.of_nat (Decimal.nb_digits u))%Z as Hp by (apply Z.pow_le_mono_r; lia);
    unfold u32_max in Hz; lia.
Qed.

(** ** What a set says *)

Definition sound_range (r : UidRange.t) : Prop :=
  (0 ≤ UidRange.start r ≤ UidRange.end_ r ∧ UidRange.end_ r ≤ u32_max)%Z.

Lemma to_string_no_comma r : sound_range r → COMMA ∉ UidRange.to_string r.
Proof.
  intros [Hs He]. unfold UidRange.to_string, COLON. case_match; [apply show_Z_no; [lia|unfold digit, COMMA; lia]|].
  rewrite !not_elem_of_app, list_elem_of_singleton.
  split_and!; [apply show_Z_no; [lia|]|done|apply show_Z_no; [lia|]]; unfold digit, COMMA; lia.
Qed.

Lemma read_to_string r : sound_range r → read_range (UidRange.to_string r) = Some (UidRange.uids r).
Proof.
  intros [Hs He]. unfold UidRange.to_string, UidRange.uids, read_range.
  assert (∀ z, (0 ≤ z)%Z → COLON ∉ show_Z z) as Hno
    by (intros z Hz; apply show_Z_no; [done|unfold digit, COLON; lia]).
  destruct (Z.eqb_spec (UidRange.start r) (UidRange.end_ r)) as [<-|Hne].
  - rewrite (proj2 (split_once_None _ _)) by (apply Hno; lia).
    rewrite parse_digits_show_Z by lia. cbn. by rewrite Z.sub_diag.
  - cbn [app]. rewrite split_once_app by (apply Hno; lia).
    rewrite !parse_digits_show_Z by lia. done.
Qed.

Lemma to_string_nonempty r : UidRange.to_string r ≠ [].
Proof.
  unfold UidRange.to_string. pose proof (show_Z_nonempty (UidRange.start r)).
  case_match; [done|]. by destruct (show_Z (UidRange.start r)).
Qed.

Lemma to_string_short r : sound_range r → length (UidRange.to_string r) ≤ 21.
Proof.
  intros [Hs He]. unfold UidRange.to_string.
  pose proof (show_Z_short (UidRange.start r)). pose proof (show_Z_short (UidRange.end_ r)).
  case_match; [|rewrite !length_app; cbn [length]]; lia.
Qed.

(** [s] is the text of a set under construction that names [us]. *)
Definition says (s : str) (us : list Z) : Prop :=
  if is_empty s then us = [] else uid_set_of s = Some us.

Lemma push_range_nonempty s r : push_range s r ≠ [].
Proof.
  unfold push_range. intros [_ [_ H]%app_nil]%app_nil. by apply to_string_nonempty in H.
Qed.

Lemma mapM_snoc {A B} (f : A → option B) l ys x y :
  mapM f l = Some ys → f x = Some y → mapM f (l ++ [x]) = Some (ys ++ [y]).
Proof.
  rewrite !mapM_Some. intros Hl Hx. apply Forall2_app; [done|]. by constructor.
Qed.

Lemma push_range_says s us r : sound_range r → says s us → says (push_range s r) (us ++ UidRange.uids r).
Proof.
  intros Hr. unfold says. destruct (is_empty (push_range s r)) eqn:Ep.
  { pose proof (push_range_nonempty s r). by destruct (push_range s r). }
  clear Ep. unfold push_range. destruct (is_empty s) eqn:Es.
  - destruct s; [|done]. intros ->. cbn [app]. unfold uid_set_of.
    rewrite split_none by by apply to_string_no_comma. cbn. rewrite read_to_string by done. cbn.
    by rewrite app_nil_r.
  - cbn [app]. unfold uid_set_of. rewrite split_app.
    rewrite (split_none COMMA (UidRange.to_string r)) by by apply to_string_no_comma.
    intros H. apply fmap_Some in H as (uss & Hm & ->).
    rewrite (mapM_snoc _ _ _ _ _ Hm (read_to_string r Hr)). cbn.
    rewrite join_app. cbn. by rewrite app_nil_r.
Qed.

Lemma push_range_short s r n : sound_range r → length s ≤ n → length (push_range s r) ≤ n + 22.
Proof.
  intros Hr Hs. unfold push_range. rewrite !length_app. pose proof (to_string_short r Hr).
  case_match; cbn [length]; lia.
Qed.

(** ** The sets name the UIDs they were built from *)

Lemma u32_succ a : (0 ≤ a ≤ u32_max)%Z → ∀ u, valid_uid u → u32_add a 1 = u → u = (a + 1)%Z.
Proof.
  unfold valid_uid, u32_add, u32_max. intros Ha u Hu E.
  destruct (Z.eq_dec a 4294967295) as [->|]; [vm_compute in E; lia|].
  rewrite Z.mod_small in E; lia.
Qed.

Lemma range_single u : valid_uid u → sound_range (UidRange.mk u u) ∧ UidRange.uids (UidRange.mk u u) = [u].
Proof.
  unfold valid_uid, sound_range, UidRange.uids. cbn. intros Hu. split; [lia|]. by rewrite Z.sub_diag.
Qed.

Lemma range_succ s e :
  sound_range (UidRange.mk s e) → valid_uid (e + 1) →
  sound_range (UidRange.mk s (e + 1))
  ∧ UidRange.uids (UidRange.mk s (e + 1)) = UidRange.uids (UidRange.mk s e) ++ [(e + 1)%Z].
Proof.
  unfold valid_uid, sound_range, UidRange.uids. cbn. intros Hr Hv. split; [lia|].
  replace (e + 1 - s + 1)%Z with (e - s + 1 + 1)%Z by lia. rewrite seqZ_app by lia.
  replace (s + (e - s + 1))%Z with (e + 1)%Z by lia. done.
Qed.

Definition uids_of (ranges : list UidRange.t) : list Z := mjoin (UidRange.uids <$> ranges).

Lemma uids_of_snoc ranges r : uids_of (ranges ++ [r]) = uids_of ranges ++ UidRange.uids r.
Proof. unfold uids_of. rewrite fmap_app, join_app. cbn. by rewrite app_nil_r. Qed.

Lemma push_uid_ok ranges u :
  Forall sound_range ranges → valid_uid u →
  Forall sound_range (push_uid ranges u) ∧ uids_of (push_uid ranges u) = uids_of ranges ++ [u].
Proof.
  intros Hr Hu. destruct (range_single u Hu) as [Hs1 Hs2].
  assert (Forall sound_range (ranges ++ [UidRange.mk u u])
          ∧ uids_of (ranges ++ [UidRange.mk u u]) = uids_of ranges ++ [u]) as Hnew.
  { split; [apply Forall_app; auto|]. by rewrite uids_of_snoc, Hs2. }
  unfold push_uid. destruct (last ranges) as [[s e]|] eqn:Hl.
  2: { apply last_None in Hl as ->. exact Hnew. }
  cbn [UidRange.end_ UidRange.start]. destruct (Z.eqb_spec (u32_add e 1) u) as [E|]; [|exact Hnew]. clear Hnew.
  apply last_Some in Hl as [init ->]. apply Forall_app in Hr as [Hi Hl]. apply (proj1 (Forall_singleton sound_range _)) in Hl.
  assert (0 ≤ e ≤ u32_max)%Z as He by (unfold sound_range in Hl; cbn [UidRange.start UidRange.end_] in Hl; lia).
  pose proof (u32_succ e He u Hu E) as ->.
  destruct (range_succ s e Hl Hu) as [Hs Hus].
  rewrite removelast_last. split; [apply Forall_app; auto|].
  by rewrite !uids_of_snoc, Hus, (assoc_L (++)).
Qed.

Lemma ranges_ok uids ranges :
  Forall valid_uid uids → Forall sound_range ranges →
  Forall sound_range (foldl push_uid ranges uids)
  ∧ uids_of (foldl push_uid ranges uids) = uids_of ranges ++ uids.
Proof.
  intros Hu. revert ranges. induction Hu as [|u uids Hu _ IH]; intros ranges Hr; cbn [foldl].
  { split; [done|]. by rewrite app_nil_r. }
  destruct (push_uid_ok ranges u Hr Hu) as [H1 H2]. destruct (IH _ H1) as [H3 H4].
  split; [done|]. rewrite H4, H2. by rewrite <-(assoc_L (++)).
Qed.

(** A finished set. *)
Definition good_set (p : list Z * str) : Prop :=
  p.2 ≠ [] ∧ uid_set_of p.2 = Some p.1 ∧ length p.2 ≤ 1012.

Definition sets_inv (done : list Z) (st : sets_state) : Prop :=
  let '(result, last_uids, last_str) := st in
  Forall good_set result ∧ says last_str last_uids ∧ length last_str ≤ 990
  ∧ mjoin result.*1 ++ last_uids = done.

Lemma says_nonempty s us : s ≠ [] → says s us → uid_set_of s = Some us.
Proof. by destruct s. Qed.

Lemma add_range_ok r seen st :
  sound_range r → sets_inv seen st → sets_inv (seen ++ UidRange.uids r) (add_range st r).
Proof.
  intros Hr. destruct st as [[result lu] ls]. intros (Hg & Hs & Hl & <-). unfold add_range.
  pose proof (push_range_says ls lu r Hr Hs) as Hs'. pose proof (push_range_short ls r 990 Hr Hl) as Hl'.
  destruct (Nat.ltb_spec 990 (length (push_range ls r))); (split_and!; [..|]).
  - apply Forall_app. split; [done|]. constructor; [|done]. split_and!; [apply push_range_nonempty| |done].
    apply says_nonempty; [apply push_range_nonempty|done].
  - done.
  - simpl; lia.
  - rewrite fmap_app, join_app. cbn. by rewrite !app_nil_r, (assoc_L (++)).
  - done.
  - done.
  - lia.
  - by rewrite (assoc_L (++)).
Qed.

Lemma sets_ok ranges seen st :
  Forall sound_range ranges → sets_inv seen st → sets_inv (seen ++ uids_of ranges) (foldl add_range st ranges).
Proof.
  intros Hr. revert seen st. induction Hr as [|r ranges Hr _ IH]; intros seen st Hi; cbn [foldl].
  { by rewrite app_nil_r. }
  unfold uids_of. cbn. rewrite (assoc_L (++)). by apply IH, add_range_ok.
Qed.

Lemma build_sequence_sets_ok (uids : list Z) :
  Forall valid_uid uids →
  mjoin (build_sequence_sets uids).*1 = uids
  ∧ Forall (λ p, uid_set_of p.2 = Some p.1 ∧ p.2 ≠ [] ∧ length p.2 ≤ 1012) (build_sequence_sets uids).
Proof.
  intros Hu. destruct (ranges_ok uids [] Hu) as [Hr Hus]; [done|].
  pose proof (sets_ok _ [] ([], [], []) Hr) as Hi. unfold build_sequence_sets.
  destruct (foldl add_range ([], [], []) (foldl push_uid [] uids)) as [[result lu] ls].
  destruct Hi as (Hg & Hs & Hl & Hall).
  { split_and!; [done|done|simpl; lia|done]. }
  cbn [app] in Hall. rewrite Hus in Hall. cbn [uids_of mjoin app fmap list_fmap list_join] in Hall.
  rewrite filter_app, (filter_all _ result).
  2: { intros p Hp. by destruct (proj1 (Forall_forall _ _) Hg p Hp). }
  assert (Forall good_set (filter (λ p : list Z * str, p.2 ≠ []) [(lu, ls)])
          ∧ mjoin (filter (λ p : list Z * str, p.2 ≠ []) [(lu, ls)]).*1 = lu) as [Hg' Hlu].
  { destruct (decide (ls = [])) as [->|Hne].
    - cbn in Hs. subst lu. by rewrite filter_cons_False by (cbn; tauto).
    - rewrite filter_cons_True by done. cbn. rewrite app_nil_r. split; [|done].
      constructor; [|done]. split_and!; [done|by apply says_nonempty|cbn; lia]. }
  split; [by rewrite fmap_app, join_app, Hlu|].
  apply Forall_app. split; (eapply Forall_impl; [eassumption|]); intros ? (? & ? & ?); auto.
Qed.

(** C28: the sets [build_sequence_sets] makes of a list of UIDs, read one after
    the other, name exactly these UIDs in their order; each is a well-formed
    sequence set, none is empty, and none is longer than 1012 characters, the
    limit of 990 plus one range. *)
Theorem build_sequence_sets_exact (uids : list Z) :
  Forall valid_uid uids →
  mjoin (build_sequence_sets uids).*1 = uids
  ∧ Forall (λ p, uid_set_of p.2 = Some p.1 ∧ p.2 ≠ [] ∧ length p.2 ≤ 1012) (build_sequence_sets uids).
Proof. apply build_sequence_sets_ok. Qed.

(** ** The groups partition the rows *)

Definition row_id (r : row) : Z := r.1.1.
Definition row_uid (r : row) : Z := r.1.2.
Definition row_folder (r : row) : str := r.2.

(** [us] and the UIDs of [rs] are the same set. *)
Definition covers (us : list Z) (rs : list row) : Prop := ∀ u, u ∈ us ↔ u ∈ row_uid <$> rs.

Lemma extend_range_ok folder s e rs rows e' ids rest :
  Forall valid_uid (row_uid <$> rows) → sound_range (UidRange.mk s e) →
  covers (UidRange.uids (UidRange.mk s e)) rs →
  extend_range folder e rows = (e', ids, rest) →
  ∃ taken, rows = taken ++ rest ∧ ids = row_id <$> taken
    ∧ Forall (λ r, row_folder r = folder) taken
    ∧ sound_range (UidRange.mk s e') ∧ covers (UidRange.uids (UidRange.mk s e')) (rs ++ taken).
Proof.
  revert e rs e' ids rest. induction rows as [|[[i u] f] rows IH]; intros e rs e' ids rest Hv Hs Hc;
    cbn [extend_range].
  { intros [= <- <- <-]. exists []. rewrite (app_nil_r rs). by split_and!. }
  rewrite fmap_cons in Hv. apply Forall_cons in Hv as [Hu Hv]. change (row_uid (i, u, f)) with u in Hu.
  destruct (bool_decide (f = folder) && _) eqn:Et.
  2: { intros [= <- <- <-]. exists []. rewrite (app_nil_r rs). by split_and!. }
  apply andb_prop in Et as [Hf%bool_decide_eq_true Et].
  destruct (extend_range folder u rows) as [[e1 ids1] rest1] eqn:E1. intros [= <- <- <-].
  assert (sound_range (UidRange.mk s u)
          ∧ covers (UidRange.uids (UidRange.mk s u)) (rs ++ [(i, u, f)])) as [Hs1 Hc1].
  { apply orb_prop in Et as [Et|Et]; apply Z.eqb_eq in Et.
    - assert (0 ≤ e ≤ u32_max)%Z as He by (unfold sound_range in Hs; cbn [UidRange.start UidRange.end_] in Hs; lia).
      pose proof (u32_succ e He u Hu (eq_sym Et)) as ->. destruct (range_succ s e Hs Hu) as [H1 H2].
      split; [done|]. intros v. rewrite H2, fmap_app, !elem_of_app, (Hc v). done.
    - subst u. split; [done|]. intros v. rewrite fmap_app, elem_of_app, <-(Hc v).
      assert (e ∈ UidRange.uids (UidRange.mk s e)) as Hin.
      { unfold UidRange.uids. apply elem_of_seqZ. unfold sound_range in Hs. cbn [UidRange.start UidRange.end_] in *. lia. }
      split; [by left|]. intros [H|H]; [done|]. apply list_elem_of_singleton in H as ->. done. }
  destruct (IH u (rs ++ [(i, u, f)]) _ _ _ Hv Hs1 Hc1 E1) as (taken & -> & -> & Hfo & Hs2 & Hc2).
  exists ((i, u, f) :: taken). split_and!; [done|done|by constructor|done|].
  by rewrite (cons_middle (i, u, f)), (assoc_L (++)).
Qed.

(** What a round trip through [fill_set] adds. *)
Record filled (folder : str) (rs : list row) (rows : list row) (s' : str) (ids' : list Z) (rest : list row)
    (taken : list row) : Prop := {
  filled_rows : rows = taken ++ rest;
  filled_ids : ids' = row_id <$> (rs ++ taken);
  filled_folder : Forall (λ r, row_folder r = folder) taken;
  filled_says : ∃ us, says s' us ∧ covers us (rs ++ taken);
  filled_short : length s' ≤ 1021;
  filled_greedy : 1000 ≤ length s' ∨ (∀ r, head rest = Some r → row_folder r ≠ folder);
}.

Lemma fill_set_ok fuel folder s us rs rows ids' s' rest :
  length rows ≤ fuel → Forall valid_uid (row_uid <$> rows) →
  says s us → covers us rs → length s ≤ 1021 →
  fill_set fuel folder s (row_id <$> rs) rows = (ids', s', rest) →
  ∃ taken, filled folder rs rows s' ids' rest taken.
Proof.
  revert s us rs rows ids' s' rest. induction fuel as [|fuel IH]; intros s us rs rows ids' s' rest Hf Hv Hs Hc Hl;
    cbn [fill_set].
  { destruct rows; [|simpl in Hf; lia]. intros [= <- <- <-]. exists []. rewrite <-(app_nil_r rs) in Hc.
    split; rewrite ?app_nil_r in *; eauto. }
  assert (∀ rows, (row_id <$> rs, s, rows) = (ids', s', rest) →
          (1000 ≤ length s ∨ (∀ r, head rows = Some r → row_folder r ≠ folder)) →
          ∃ taken, filled folder rs rows s' ids' rest taken) as Hstop.
  { intros rows' [= <- <- <-] Hg. exists []. split; rewrite ?app_nil_r; eauto. }
  destruct (Nat.ltb_spec (length s) 1000) as [Hlt|Hge]; [|by intros; apply Hstop; [|left]].
  destruct rows as [|[[i u] f] rows]; [by intros; apply Hstop; [|right]|].
  case_bool_decide as Hfo.
  2: { intros E. apply Hstop; [done|]. right. intros r [= <-]. done. }
  destruct (extend_range folder u rows) as [[e ids1] rest1] eqn:E1.
  rewrite fmap_cons in Hv. apply Forall_cons in Hv as [Hu Hv]. change (row_uid (i, u, f)) with u in Hu.
  destruct (range_single u Hu) as [Hs1 Hs2].
  destruct (extend_range_ok folder u u [(i, u, f)] rows e ids1 rest1 Hv Hs1) as (tk & -> & -> & Htf & Hsr & Hcr);
    [|done|].
  { intros v. by rewrite Hs2. }
  assert ((row_id <$> rs) ++ i :: (row_id <$> tk) = row_id <$> (rs ++ (i, u, f) :: tk)) as ->
    by by rewrite fmap_app.
  intros E. apply IH with (us := us ++ UidRange.uids (UidRange.mk u e)) in E as (tk' & [-> -> Htf' Hs' Hl' Hg']).
  - exists ((i, u, f) :: tk ++ tk'). split.
    + cbn. by rewrite (assoc_L (++)).
    + f_equal. by rewrite <-(assoc_L (++)).
    + constructor; [done|]. by apply Forall_app.
    + destruct Hs' as (us' & H1 & H2). exists us'. split; [done|].
      by rewrite <-(assoc_L (++)) in H2.
    + done.
    + done.
  - simpl in Hf. rewrite length_app in Hf. lia.
  - rewrite fmap_app in Hv. by apply Forall_app in Hv as [_ ?].
  - by apply push_range_says.
  - intros v. rewrite fmap_app, !elem_of_app, (Hc v). by rewrite <-(Hcr v).
  - pose proof (push_range_short s _ 999 Hsr). lia.
Qed.

(** What a group says of the rows it stands for. *)
Definition group_of (rs : list row) (g : str * list Z * str) : Prop :=
  let '(folder, rowid_set, uid_set) := g in
  rs ≠ [] ∧ Forall (λ r, row_folder r = folder) rs ∧ rowid_set = row_id <$> rs
  ∧ (∃ us, uid_set_of uid_set = Some us ∧ covers us rs) ∧ length uid_set ≤ 1021.

Lemma fill_set_grows fuel folder s acc rows :
  acc `prefix_of` (fill_set fuel folder s acc rows).1.1.
Proof.
  revert s acc rows. induction fuel as [|fuel IH]; intros s acc rows; cbn [fill_set]; [done|].
  repeat case_match; try done. etrans; [|apply IH]. by apply prefix_app_r.
Qed.

Lemma next_ok rows folder rowid_set uid_set rest :
  Forall valid_uid (row_uid <$> rows) → next rows = Some (folder, rowid_set, uid_set, rest) →
  ∃ taken, rows = taken ++ rest ∧ group_of taken (folder, rowid_set, uid_set)
    ∧ (1000 ≤ length uid_set ∨ (∀ r, head rest = Some r → row_folder r ≠ folder)).
Proof.
  intros Hv. unfold next. destruct rows as [|[[i u] f] rows]; [done|].
  destruct (fill_set _ f [] [] _) as [[ids s] rest'] eqn:E. intros [= <- <- <- <-].
  assert (covers [] []) as Hc0 by (intros v; done).
  destruct (fill_set_ok _ f [] [] [] _ ids s rest' (le_n _) Hv eq_refl Hc0)
    as (taken & [Hr Hi Hf (us & Hs & Hc) Hl Hg]); [simpl; lia|exact E|].
  exists taken. split; [done|]. split; [|done].
  assert (taken ≠ []) as Hne.
  { intros ->. cbn [length fill_set] in E. rewrite bool_decide_eq_true_2 in E by done. cbn in Hi. subst ids.
    destruct (extend_range f u rows) as [[e tids] rest1]. cbn [length Nat.ltb Nat.leb app] in E.
    pose proof (fill_set_grows (length rows) f (push_range [] (UidRange.mk u e)) (i :: tids) rest1) as Hg'.
    rewrite E in Hg'. cbn in Hg'. by apply prefix_nil_not in Hg'. }
  split_and!; [done|done|done| |done]. exists us. split; [|done].
  apply says_nonempty; [|done]. intros ->. cbn in Hs. subst us.
  destruct taken as [|r taken]; [done|]. destruct (Hc (row_uid r)) as [_ H].
  specialize (H ltac:(left)). by apply elem_of_nil in H.
Qed.

Lemma next_some rows : rows ≠ [] → is_Some (next rows).
Proof.
  destruct rows as [|[[i u] f] rows]; [done|]. intros _. unfold next.
  destruct (fill_set _ _ _ _ _) as [[? ?] ?]. eauto.
Qed.

Lemma groups_ok (rows : list row) :
  Forall valid_uid (row_uid <$> rows) →
  ∃ parts, mjoin parts = rows ∧ Forall2 group_of parts (groups rows).
Proof.
  unfold groups. remember (length rows) as n eqn:Hn. assert (length rows ≤ n) as Hle by lia. clear Hn.
  revert rows Hle. induction n as [|n IH]; intros rows Hle Hv; cbn [groups_loop].
  { destruct rows; [|simpl in Hle; lia]. by exists []. }
  destruct (next rows) as [[[[folder ids] s] rest]|] eqn:E.
  - destruct (next_ok _ _ _ _ _ Hv E) as (taken & -> & Hg & _).
    rewrite fmap_app in Hv. apply Forall_app in Hv as [_ Hv].
    destruct (IH rest) as (parts & <- & Hp); [|done|].
    { rewrite length_app in Hle. destruct Hg as [Hne _]. destruct taken; [done|]. simpl in Hle. lia. }
    exists (taken :: parts). split; [done|]. by constructor.
  - destruct rows; [by exists []|]. destruct (next_some (r :: rows)); [done|congruence].
Qed.

(** [UidGrouper] visits every row once, in order.  Each group is a run of
    consecutive rows with one folder; it carries the ids of just these rows,
    and its set is well formed and names just their UIDs, whatever their order
    and however often one occurs.  No set is longer than 1021 characters. *)
Theorem uid_grouper_partitions (rows : list row) :
  Forall valid_uid (row_uid <$> rows) →
  ∃ parts, mjoin parts = rows ∧ Forall2 group_of parts (groups rows).
Proof. apply groups_ok. Qed.

(** ** Instances *)

Example sequence_sets_small :
  build_sequence_sets [1; 2; 3; 7; 9; 10]%Z = [([1; 2; 3; 7; 9; 10]%Z, lit "1:3,7,9:10")]
  ∧ build_sequence_sets [] = []
  ∧ build_sequence_sets [3; 2]%Z = [([3; 2]%Z, lit "3,2")].
Proof. by vm_compute. Qed.

(** Every other UID: the sets are cut at 990 characters. *)
Example sequence_sets_cut :
  (λ p, length p.2) <$> build_sequence_sets ((λ i, 2 * i + 100000)%Z <$> seqZ 0 300) = [993; 993; 111].
Proof. by vm_compute. Qed.

Lemma build_sequence_sets_exact_witness :
  mjoin (build_sequence_sets [5; 6; 4294967295; 1]%Z).*1 = [5; 6; 4294967295; 1]%Z.
Proof.
  apply (build_sequence_sets_exact [5; 6; 4294967295; 1]%Z).
  repeat constructor; vm_compute; discriminate.
Defined.

Definition two_folders : list row :=
  [(1, 10, lit ""); (2, 11, lit ""); (3, 11, lit ""); (4, 20, lit ""); (5, 3, lit "Spam")]%Z.

Example two_folders_groups :
  groups two_folders = [(lit "", [1; 2; 3; 4]%Z, lit "10:11,20"); (lit "Spam", [5]%Z, lit "3")].
Proof. by vm_compute. Qed.

Lemma uid_grouper_partitions_witness :
  ∃ parts, mjoin parts = two_folders ∧ Forall2 group_of parts (groups two_folders).
Proof.
  apply (uid_grouper_partitions two_folders). repeat constructor; vm_compute; discriminate.
Defined.

(** Where a UID that does not exist would follow the largest one, the range
    wraps around and the row's UID is not in the set. *)
Example largest_uid_wraps :
  groups [(1, 4294967295, lit ""); (2, 0, lit "")]%Z = [(lit "", [1; 2]%Z, lit "4294967295:0")].
Proof. by vm_compute. Qed.
