(* ===== verification/Imap.v ===== *)
(** * Imap: folders on the server and what is planned for them
    ([imap.rs], [imap/select_folder.rs]).

    Selecting a folder, with the record of how far it was read; deleting and
    moving the messages the table [imap] has a target for; storing the flags of
    read messages; reading the UIDs of a folder anew.  The server is an
    interface whose commands may fail. *)

From S2P Require Import Prelude Text Store Policy UidSets.

(** [async_imap::types::Mailbox] *)
Module SelectedMailbox.
Record t := mk { uid_validity : option Z; uid_next : option Z }.
End SelectedMailbox.

(** The answer to SELECT: a mailbox, NO, or another failure. *)
Module SelectAnswer.
Inductive t := Selected (mailbox : SelectedMailbox.t) | No | Failed (e : string).
End SelectAnswer.

Module Flag.
Inductive t := Seen | Deleted | Draft | Other.

#[global] Instance eq_dec : EqDecision t.
Proof. solve_decision. Defined.
End Flag.

(** [async_imap::types::Fetch]: what a FETCH response holds of a message. *)
Module FetchResponse.
Record t := mk { uid : option Z; header : option str; size : option Z; flags : list Flag.t; body : option str }.
End FetchResponse.

(** The commands of a session.  A FETCH is a stream of responses that ends, or
    ends in an error. *)
Class ImapServer (W : Type) := {
  select : W → str → W * SelectAnswer.t;
  close : W → W * result unit;
  status_uid_next : W → str → W * result (option Z);
  uid_store : W → str → str → W * result unit; (** set, flags *)
  uid_mv : W → str → str → W * result unit; (** set, folder *)
  uid_copy : W → str → str → W * result unit;
  uid_fetch : W → str → str → W * result (list FetchResponse.t * option string); (** set, items *)
}.

Module Session.
Record t := mk {
  transport_id : Z;
  can_move : bool; (** of the server's capabilities *)
  is_chatmail : bool;
  selected_folder : option str;
  selected_mailbox : option SelectedMailbox.t;
  selected_folder_needs_expunge : bool;
  new_mail : bool;
  resync_requested : bool; (** the channel of capacity one is full *)
}.

Definition set_selected_folder (f : option str) (s : t) : t :=
  mk (transport_id s) (can_move s) (is_chatmail s) f (selected_mailbox s) (selected_folder_needs_expunge s)
    (new_mail s) (resync_requested s).
Definition set_selected_mailbox (m : option SelectedMailbox.t) (s : t) : t :=
  mk (transport_id s) (can_move s) (is_chatmail s) (selected_folder s) m (selected_folder_needs_expunge s)
    (new_mail s) (resync_requested s).
Definition set_needs_expunge (b : bool) (s : t) : t :=
  mk (transport_id s) (can_move s) (is_chatmail s) (selected_folder s) (selected_mailbox s) b
    (new_mail s) (resync_requested s).
Definition set_new_mail (b : bool) (s : t) : t :=
  mk (transport_id s) (can_move s) (is_chatmail s) (selected_folder s) (selected_mailbox s)
    (selected_folder_needs_expunge s) b (resync_requested s).
(** [resync_request_sender.try_send(()).ok()] *)
Definition request_resync (s : t) : t :=
  mk (transport_id s) (can_move s) (is_chatmail s) (selected_folder s) (selected_mailbox s)
    (selected_folder_needs_expunge s) (new_mail s) true.
End Session.

(** The database, the session and the server. *)
Record St (W : Type) := MkSt { ctx : Ctx; session : Session.t; server : W }.
Arguments MkSt {W}.
Arguments ctx {W}.
Arguments session {W}.
Arguments server {W}.

(** ** Tables *)

(** [DELETE FROM imap ..]; the rows of [imap_markseen] go with it (ON DELETE
    CASCADE). *)
Definition delete_imap (gone : Z → ImapRow.t → bool) (c : Ctx) : Ctx :=
  set_imap_markseen
    (filter (λ i, match imap_tbl c !! i with Some r => gone i r | None => false end = false))
    (set_imap (filter (λ kr, gone kr.1 kr.2 = false)) c).

(** [DELETE FROM imap WHERE id = ?] for each id *)
Definition delete_rows (row_ids : list Z) : Ctx → Ctx := delete_imap (λ i _, bool_decide (i ∈ row_ids)).

(** [UPDATE imap SET target='' WHERE id = ?] for each id *)
Definition clear_targets (row_ids : list Z) : Ctx → Ctx :=
  set_imap (map_imap (λ i r, Some (if decide (i ∈ row_ids) then no_target r else r))).

(** [INSERT INTO imap .. ON CONFLICT(transport_id, folder, uid, uidvalidity)
    DO UPDATE SET rfc724_mid, target] *)
Definition same_place (a b : ImapRow.t) : bool :=
  (ImapRow.transport_id a =? ImapRow.transport_id b)%Z && bool_decide (ImapRow.folder a = ImapRow.folder b)
  && (ImapRow.uid a =? ImapRow.uid b)%Z && (ImapRow.uidvalidity a =? ImapRow.uidvalidity b)%Z.

Definition upsert_imap (r : ImapRow.t) (c : Ctx) : Ctx :=
  match filter (λ kr, same_place kr.2 r = true) (map_to_list (imap_tbl c)) with
  | (i, _) :: _ => set_imap <[i := r]> c
  | [] => set_imap_seq (λ n, n + 1)%Z (set_imap <[(imap_seq c + 1)%Z := r]> c)
  end.

Definition get_uid_next (c : Ctx) (transport_id : Z) (folder : str) : Z :=
  default 0%Z (ImapSyncRow.uid_next <$> imap_sync c !! (transport_id, folder)).

Definition get_uidvalidity (c : Ctx) (transport_id : Z) (folder : str) : Z :=
  default 0%Z (ImapSyncRow.uidvalidity <$> imap_sync c !! (transport_id, folder)).

Definition set_uid_next (transport_id : Z) (folder : str) (uid_next : Z) (c : Ctx) : Ctx :=
  set_imap_sync <[(transport_id, folder) :=
    ImapSyncRow.mk (get_uidvalidity c transport_id folder) uid_next]> c.

Definition set_uidvalidity (transport_id : Z) (folder : str) (uidvalidity : Z) (c : Ctx) : Ctx :=
  set_imap_sync <[(transport_id, folder) :=
    ImapSyncRow.mk uidvalidity (get_uid_next c transport_id folder)]> c.

(** The order of a query [ORDER BY folder, uid]. *)
Definition row_leb (a b : row) : bool :=
  if decide (a.2 = b.2) then (a.1.2 <=? b.1.2)%Z else str_leb a.2 b.2.

(** ** The session *)

Section imap.
Context `{!ImapServer W}.

Notation M := (cmd (St W)).

Definition db {A} (m : cmd Ctx A) : M A := λ s,
  let '(c, r) := m (ctx s) in (MkSt c (session s) (server s), r).
Definition net {A} (f : W → W * A) : M A := λ s,
  let '(w, a) := f (server s) in (MkSt (ctx s) (session s) w, Ok a).
Definition on_session (f : Session.t → Session.t) : M unit :=
  modify (λ s, MkSt (ctx s) (f (session s)) (server s)).
Definition asks {A} (f : Session.t → A) : M A := gets (λ s, f (session s)).

(** A command whose failure is the caller's. *)
Definition command {A} (f : W → W * result A) : M A := r ← net f; lift r.

Definition maybe_close_folder : M unit :=
  selected_folder ← asks Session.selected_folder;
  needs_expunge ← asks Session.selected_folder_needs_expunge;
  match selected_folder with
  | Some _ =>
      if needs_expunge : bool then
        command close ;;
        on_session (Session.set_selected_folder None) ;;
        on_session (Session.set_needs_expunge false) ;;
        on_session (Session.set_new_mail false)
      else mret tt
  | None => mret tt
  end.

(** [Some newly_selected], or [None] for [Error::NoFolder]. *)
Definition select_folder (folder : str) : M (option bool) :=
  selected_folder ← asks Session.selected_folder;
  if bool_decide (selected_folder = Some folder) then mret (Some false)
  else
    maybe_close_folder ;;
    res ← net (λ w, select w folder);
    match res with
    | SelectAnswer.Selected mailbox =>
        on_session (Session.set_selected_folder (Some folder)) ;;
        on_session (Session.set_selected_mailbox (Some mailbox)) ;;
        mret (Some true)
    | SelectAnswer.No => mret None
    | SelectAnswer.Failed e => bail e
    end.

(** [true] iff the folder exists. *)
Definition select_with_uidvalidity (folder : str) : M bool :=
  newly_selected ← select_folder folder;
  match newly_selected with
  | None => mret false
  | Some newly_selected =>
      transport_id ← asks Session.transport_id;
      ensure (0 <? transport_id)%Z "Cannot select folder when transport ID is unknown" ;;
      mailbox ← asks Session.selected_mailbox;
      mailbox ← or_bail mailbox "No mailbox selected";
      old_uid_validity ← db (gets (λ c, get_uidvalidity c transport_id folder));
      old_uid_next ← db (gets (λ c, get_uid_next c transport_id folder));
      new_uid_validity ← or_bail (SelectedMailbox.uid_validity mailbox) "No UIDVALIDITY for folder";
      new_uid_next ← match SelectedMailbox.uid_next mailbox with
                     | Some uid_next => mret (Some uid_next)
                     | None => command (λ w, status_uid_next w folder)
                     end;
      on_session (Session.set_selected_mailbox (Some (SelectedMailbox.mk (Some new_uid_validity) new_uid_next))) ;;
      if (new_uid_validity =? old_uid_validity)%Z then
        (if newly_selected : bool then
           match new_uid_next with
           | Some new_uid_next =>
               (if (new_uid_next <? old_uid_next)%Z then
                  db (modify (set_uid_next transport_id folder new_uid_next)) ;;
                  on_session Session.request_resync
                else mret tt) ;;
               on_session (λ s, Session.set_new_mail
                 (Session.new_mail s || negb (new_uid_next =? old_uid_next)%Z) s)
           | None => on_session (Session.set_new_mail true)
           end
         else mret tt) ;;
        mret true
      else
        let new_uid_next := default 0%Z new_uid_next in
        db (modify (set_uid_next transport_id folder new_uid_next)) ;;
        db (modify (set_uidvalidity transport_id folder new_uid_validity)) ;;
        on_session (Session.set_new_mail true) ;;
        db (modify (delete_imap (λ _ r,
          (ImapRow.transport_id r =? transport_id)%Z && bool_decide (ImapRow.folder r = folder)
          && negb (ImapRow.uidvalidity r =? new_uid_validity)%Z))) ;;
        (if negb (old_uid_validity =? 0)%Z || negb (old_uid_next =? 0)%Z
         then on_session Session.request_resync else mret tt) ;;
        mret true
  end.

(** ** Deleting and moving *)

Definition DELETED_FLAG : str := lit "\Deleted".
Definition SEEN_FLAG : str := lit "\Seen".

Definition add_flag_finalized_with_set (uid_set flag : str) : M unit :=
  (if bool_decide (flag = DELETED_FLAG) then on_session (Session.set_needs_expunge true) else mret tt) ;;
  let query := lit "+FLAGS (" ++ flag ++ lit ")" in
  command (λ w, uid_store w uid_set query).

Definition delete_message_batch (uid_set : str) (row_ids : list Z) : M unit :=
  add_flag_finalized_with_set uid_set DELETED_FLAG ;;
  db (modify (delete_rows row_ids)).

Definition move_message_batch (set : str) (row_ids : list Z) (target : str) : M unit :=
  can_move ← asks Session.can_move;
  moved ← (if can_move : bool then
             r ← net (λ w, uid_mv w set target);
             mret (match r with Ok _ => true | Err _ => false end)
           else mret false);
  if moved : bool then db (modify (delete_rows row_ids))
  else
    command (λ w, uid_copy w set target) ;;
    db (modify (clear_targets row_ids)).

(** [SELECT id, uid, target FROM imap WHERE folder=? AND transport_id=?
    AND target!=folder ORDER BY target, uid] *)
Definition planned (transport_id : Z) (folder : str) (r : ImapRow.t) : bool :=
  bool_decide (ImapRow.folder r = folder) && (ImapRow.transport_id r =? transport_id)%Z
  && bool_decide (ImapRow.target r ≠ ImapRow.folder r).

Definition pending_rows (transport_id : Z) (folder : str) (c : Ctx) : list row :=
  sort_by row_leb
    ((λ kr, (kr.1, ImapRow.uid kr.2, ImapRow.target kr.2))
       <$> filter (λ kr, planned transport_id folder kr.2 = true) (map_to_list (imap_tbl c))).

Definition move_delete_group (folder : str) (g : str * list Z * str) : M unit :=
  let '(target, rowid_set, uid_set) := g in
  folder_exists ← select_with_uidvalidity folder;
  ensure folder_exists "No folder" ;;
  if is_empty target then delete_message_batch uid_set rowid_set
  else move_message_batch uid_set rowid_set target.

Definition move_delete_messages (folder : str) : M unit :=
  transport_id ← asks Session.transport_id;
  rows ← db (gets (pending_rows transport_id folder));
  for_each (groups rows) (move_delete_group folder) ;;
  attempt maybe_close_folder ;;
  mret tt.

(** ** Flags of read messages *)

(** [SELECT imap.id, uid, folder FROM imap, imap_markseen WHERE ..], sorted *)
Definition seen_rows (transport_id : Z) (c : Ctx) : list row :=
  sort_by row_leb
    ((λ kr, (kr.1, ImapRow.uid kr.2, ImapRow.folder kr.2))
       <$> filter (λ kr, kr.1 ∈ imap_markseen c ∧ ImapRow.transport_id kr.2 = transport_id
                         ∧ ImapRow.target kr.2 = ImapRow.folder kr.2)
             (map_to_list (imap_tbl c))).

Definition store_seen_group (g : str * list Z * str) : M unit :=
  let '(folder, rowid_set, uid_set) := g in
  folder_exists ← attempt (select_with_uidvalidity folder);
  let finish := db (modify (set_imap_markseen (filter (.∉ rowid_set)))) in
  match folder_exists with
  | None => mret tt
  | Some false => finish
  | Some true =>
      stored ← attempt (add_flag_finalized_with_set uid_set SEEN_FLAG);
      match stored with
      | None => mret tt
      | Some _ => finish
      end
  end.

Definition store_seen_flags_on_imap : M unit :=
  team_profile ← db (gets (λ c, get_config_bool c Config.TeamProfile));
  if team_profile : bool then mret tt
  else
    db (modify (λ c, set_imap_markseen (filter (λ i, is_Some (imap_tbl c !! i))) c)) ;;
    transport_id ← asks Session.transport_id;
    rows ← db (gets (seen_rows transport_id));
    for_each (groups rows) store_seen_group.
End imap.

(** ** What the server is told *)

(** The commands that change messages. *)
Module Command.
Inductive t := Store (set query : str) | Move (set target : str) | Copy (set target : str).
End Command.

(** What a server does, as far as the program relies on it: which folder is
    selected, the commands it acknowledged, each with the folder it applied to,
    and the folders it said it does not have.  A failed SELECT leaves no folder
    selected, and flags are stored only with a folder selected (RFC 3501, 6.3.1
    and 3.2). *)
Class ImapLog (W : Type) `{ImapServer W} := {
  selected : W → option str;
  accepted : W → list (option str * Command.t);
  denied : W → list str;
  select_denied w f :
    denied (select w f).1 = denied w ++ match (select w f).2 with SelectAnswer.No => [f] | _ => [] end;
  close_denied w : denied (close w).1 = denied w;
  status_denied w f : denied (status_uid_next w f).1 = denied w;
  store_denied w a b : denied (uid_store w a b).1 = denied w;
  store_selected w a b : (uid_store w a b).2 = Ok tt → is_Some (selected w);
  select_log w f : accepted (select w f).1 = accepted w;
  select_selected w f :
    selected (select w f).1 = match (select w f).2 with SelectAnswer.Selected _ => Some f | _ => None end;
  close_log w : accepted (close w).1 = accepted w;
  close_selected w : selected (close w).1 = match (close w).2 with Ok _ => None | Err _ => selected w end;
  status_log w f : accepted (status_uid_next w f).1 = accepted w ∧ selected (status_uid_next w f).1 = selected w;
  fetch_log w a b : accepted (uid_fetch w a b).1 = accepted w ∧ selected (uid_fetch w a b).1 = selected w;
  store_log w a b :
    accepted (uid_store w a b).1
      = accepted w ++ match (uid_store w a b).2 with Ok _ => [(selected w, Command.Store a b)] | Err _ => [] end
    ∧ selected (uid_store w a b).1 = selected w;
  mv_log w a b :
    accepted (uid_mv w a b).1
      = accepted w ++ match (uid_mv w a b).2 with Ok _ => [(selected w, Command.Move a b)] | Err _ => [] end
    ∧ selected (uid_mv w a b).1 = selected w;
  copy_log w a b :
    accepted (uid_copy w a b).1
      = accepted w ++ match (uid_copy w a b).2 with Ok _ => [(selected w, Command.Copy a b)] | Err _ => [] end
    ∧ selected (uid_copy w a b).1 = selected w;
}.

Section told.
Context `{ImapLog W}.

Lemma run_bind_server {A B} (f : W → W * A) (k : A → cmd (St W) B) s :
  (net f ≫= k) s = k (f (server s)).2 (MkSt (ctx s) (session s) (f (server s)).1).
Proof. rewrite run_bind. unfold net. by destruct (f (server s)). Qed.

Lemma run_bind_table {A B} (m : cmd Ctx A) (k : A → cmd (St W) B) s :
  (db m ≫= k) s = match m (ctx s) with
                  | (c, Ok a) => k a (MkSt c (session s) (server s))
                  | (c, Err e) => (MkSt c (session s) (server s), Err e)
                  end.
Proof. rewrite run_bind. unfold db. by destruct (m (ctx s)) as [c [a|e]]. Qed.

Lemma run_bind_command {A B} (f : W → W * result A) (k : A → cmd (St W) B) s :
  (command f ≫= k) s
  = match (f (server s)).2 with
    | Ok a => k a (MkSt (ctx s) (session s) (f (server s)).1)
    | Err e => (MkSt (ctx s) (session s) (f (server s)).1, Err e)
    end.
Proof.
  unfold command. rewrite run_bind, run_bind_server. by destruct ((f (server s)).2).
Qed.

Lemma run_command {A} (f : W → W * result A) s :
  command f s = (MkSt (ctx s) (session s) (f (server s)).1, (f (server s)).2).
Proof. unfold command. by rewrite run_bind_server. Qed.

Lemma run_bind_on_session {B} f (k : unit → cmd (St W) B) s :
  (on_session f ≫= k) s = k tt (MkSt (ctx s) (f (session s)) (server s)).
Proof. done. Qed.

Lemma run_bind_asks {A B} (f : Session.t → A) (k : A → cmd (St W) B) s :
  (asks f ≫= k) s = k (f (session s)) s.
Proof. done. Qed.

(** The folder is selected, here and on the server, with the UIDVALIDITY of the
    database; so [select_with_uidvalidity] leaves it after it succeeds. *)
Record ready (folder : str) (s : St W) : Prop := {
  ready_transport : (0 < Session.transport_id (session s))%Z;
  ready_folder : Session.selected_folder (session s) = Some folder;
  ready_mailbox : ∃ n, Session.selected_mailbox (session s)
    = Some (SelectedMailbox.mk (Some (get_uidvalidity (ctx s) (Session.transport_id (session s)) folder)) (Some n));
  ready_server : selected (server s) = Some folder;
}.

Lemma select_ready folder s : ready folder s → select_with_uidvalidity folder s = (s, Ok true).
Proof.
  intros [Ht Hf [n Hm] _]. unfold select_with_uidvalidity, select_folder.
  rewrite run_bind, run_bind_asks, Hf, bool_decide_eq_true_2 by done. rewrite run_ret.
  rewrite run_bind_asks. apply Z.ltb_lt in Ht. rewrite Ht. cbn [ensure]. rewrite run_bind, run_ret.
  rewrite run_bind_asks, Hm. cbn [or_bail]. rewrite run_bind, run_ret, run_bind_table, run_gets.
  rewrite run_bind_table, run_gets. cbn [or_bail SelectedMailbox.uid_validity SelectedMailbox.uid_next ctx session server].
  rewrite run_bind, run_ret, run_bind, run_ret, run_bind_on_session. cbn [ctx session server].
  rewrite Z.eqb_refl, run_bind, run_ret, run_ret. f_equal.
  destruct s as [c [? ? ? ? ? ? ? ?] w]. unfold Session.set_selected_mailbox. cbn in *. by subst.
Qed.

(** ** One batch *)

Definition DELETE_QUERY : str := lit "+FLAGS (" ++ DELETED_FLAG ++ lit ")".

(** The command that takes a set of messages out of the folder for good. *)
Definition removal (target set : str) : Command.t :=
  if is_empty target then Command.Store set DELETE_QUERY else Command.Move set target.

(** What a batch did: removed its rows, or copied the messages and marked the
    rows for deletion, or failed without a trace in the table. *)
Inductive batch (folder : str) (g : str * list Z * str) (s s' : St W) : result unit → Prop :=
  | batch_removed :
      ctx s' = delete_rows g.1.2 (ctx s) →
      accepted (server s') = accepted (server s) ++ [(Some folder, removal g.1.1 g.2)] →
      batch folder g s s' (Ok tt)
  | batch_copied :
      g.1.1 ≠ [] → ctx s' = clear_targets g.1.2 (ctx s) →
      accepted (server s') = accepted (server s) ++ [(Some folder, Command.Copy g.2 g.1.1)] →
      batch folder g s s' (Ok tt)
  | batch_failed e :
      ctx s' = ctx s → accepted (server s') = accepted (server s) → batch folder g s s' (Err e).

(** The parts of the state a batch leaves alone. *)
Definition same_selection (s s' : St W) : Prop :=
  Session.transport_id (session s') = Session.transport_id (session s)
  ∧ Session.selected_folder (session s') = Session.selected_folder (session s)
  ∧ Session.selected_mailbox (session s') = Session.selected_mailbox (session s)
  ∧ selected (server s') = selected (server s) ∧ imap_sync (ctx s') = imap_sync (ctx s).

Lemma ready_same folder s s' : same_selection s s' → ready folder s → ready folder s'.
Proof.
  intros (Ht & Hf & Hm & Hs & Hi) [H1 H2 [n H3] H4]. split; try congruence.
  exists n. unfold get_uidvalidity in *. by rewrite Hm, Hi, Ht.
Qed.

Lemma flag_run set s :
  add_flag_finalized_with_set set DELETED_FLAG s
  = (MkSt (ctx s) (Session.set_needs_expunge true (session s)) (uid_store (server s) set DELETE_QUERY).1,
     (uid_store (server s) set DELETE_QUERY).2).
Proof.
  unfold add_flag_finalized_with_set. rewrite bool_decide_eq_true_2 by done.
  rewrite run_bind_on_session, run_command. done.
Qed.

Lemma delete_batch_run folder target ids set s s' r :
  target = [] → selected (server s) = Some folder →
  delete_message_batch set ids s = (s', r) →
  same_selection s s' ∧ batch folder (target, ids, set) s s' r.
Proof.
  intros -> Hsel. unfold delete_message_batch. rewrite run_bind, flag_run.
  destruct (store_log (server s) set DELETE_QUERY) as [Hl Hs]. rewrite Hsel in Hl.
  destruct ((uid_store (server s) set DELETE_QUERY).2) as [[]|e]; cbn; intros [= <- <-].
  - split; [by split_and!; cbn; rewrite ?Hs|]. by apply batch_removed.
  - split; [by split_and!; cbn; rewrite ?Hs|]. rewrite app_nil_r in Hl. by apply batch_failed.
Qed.

Lemma copy_batch_run folder target ids set s s' r :
  target ≠ [] → selected (server s) = Some folder →
  (command (λ w, uid_copy w set target) ;; db (modify (clear_targets ids))) s = (s', r) →
  same_selection s s' ∧ batch folder (target, ids, set) s s' r.
Proof.
  intros Ht Hsel. rewrite run_bind_command. destruct (copy_log (server s) set target) as [Hl Hs].
  rewrite Hsel in Hl. destruct ((uid_copy (server s) set target).2) as [[]|e]; cbn; intros [= <- <-].
  - split; [by split_and!; cbn; rewrite ?Hs|]. by apply batch_copied.
  - split; [by split_and!; cbn; rewrite ?Hs|]. rewrite app_nil_r in Hl. by apply batch_failed.
Qed.

Lemma move_batch_run folder target ids set s s' r :
  target ≠ [] → selected (server s) = Some folder →
  move_message_batch set ids target s = (s', r) →
  same_selection s s' ∧ batch folder (target, ids, set) s s' r.
Proof.
  intros Ht Hsel. unfold move_message_batch. rewrite run_bind_asks.
  destruct (Session.can_move (session s)).
  2: { rewrite run_bind, run_ret. by apply copy_batch_run. }
  rewrite run_bind, run_bind_server. cbn beta. destruct (mv_log (server s) set target) as [Hl Hs].
  rewrite Hsel in Hl. destruct ((uid_mv (server s) set target).2) as [[]|e]; rewrite run_ret.
  - cbn. intros [= <- <-]. split; [by split_and!; cbn; rewrite ?Hs|].
    apply batch_removed; [done|]. cbn. unfold removal. by destruct target.
  - rewrite app_nil_r in Hl. intros Hrun.
    apply (copy_batch_run folder) in Hrun as [(H1 & H2 & H3 & H4 & H5) Hb]; [|done|by cbn; rewrite Hs].
    cbn in *. split; [split_and!; congruence|]. inversion Hb as [Ha Hb1|Hn Ha Hb1|e' Ha Hb1]; subst; cbn in *.
    + apply batch_removed; [done|]. by rewrite <-Hl.
    + apply batch_copied; [done|done|]. by rewrite <-Hl.
    + apply batch_failed; [done|]. by rewrite <-Hl.
Qed.

Lemma group_run folder g s s' r :
  ready folder s → move_delete_group folder g s = (s', r) → same_selection s s' ∧ batch folder g s s' r.
Proof.
  intros Hr. destruct g as [[target ids] set]. unfold move_delete_group.
  rewrite run_bind, (select_ready folder s Hr). cbn [ensure]. rewrite run_bind, run_ret.
  pose proof (ready_server _ _ Hr) as Hsel.
  destruct (is_empty target) eqn:E; [apply delete_batch_run|apply move_batch_run]; try done; by destruct target.
Qed.

(** ** All batches *)

Lemma delete_rows_lookup ids c i :
  imap_tbl (delete_rows ids c) !! i = if decide (i ∈ ids) then None else imap_tbl c !! i.
Proof.
  change (imap_tbl (delete_rows ids c))
    with (filter (λ kr : Z * ImapRow.t, bool_decide (kr.1 ∈ ids) = false) (imap_tbl c)).
  rewrite map_lookup_filter. destruct (imap_tbl c !! i) as [r|]; cbn; [|by case_decide].
  case_decide as Hi; [rewrite option_guard_False|rewrite option_guard_True]; try done;
    by rewrite bool_decide_eq_false; auto.
Qed.

Lemma clear_targets_lookup ids c i :
  imap_tbl (clear_targets ids c) !! i = if decide (i ∈ ids) then no_target <$> imap_tbl c !! i else imap_tbl c !! i.
Proof.
  change (imap_tbl (clear_targets ids c))
    with (map_imap (λ i r, Some (if decide (i ∈ ids) then no_target r else r)) (imap_tbl c)).
  rewrite map_lookup_imap. destruct (imap_tbl c !! i); cbn; by case_decide.
Qed.

(** The row of [i] was dealt with by the batch of [g]. *)
Definition settled (folder : str) (g : str * list Z * str) (cmds : list (option str * Command.t))
    (c c' : Ctx) (i : Z) : Prop :=
  (imap_tbl c' !! i = None ∧ (Some folder, removal g.1.1 g.2) ∈ cmds)
  ∨ (g.1.1 ≠ [] ∧ imap_tbl c' !! i = no_target <$> imap_tbl c !! i
     ∧ (Some folder, Command.Copy g.2 g.1.1) ∈ cmds).

(** The commands of the batch of [g]. *)
Definition of_group (folder : str) (g : str * list Z * str) (x : option str * Command.t) : Prop :=
  x = (Some folder, removal g.1.1 g.2) ∨ (g.1.1 ≠ [] ∧ x = (Some folder, Command.Copy g.2 g.1.1)).

Record batches (folder : str) (gs : list (str * list Z * str)) (s s' : St W) (r : result unit)
    (cmds : list (option str * Command.t)) : Prop := {
  batches_log : accepted (server s') = accepted (server s) ++ cmds;
  batches_own : Forall (λ x, ∃ g, g ∈ gs ∧ of_group folder g x) cmds;
  batches_rows i :
    (imap_tbl (ctx s') !! i = imap_tbl (ctx s) !! i ∧ (r = Ok tt → ∀ g, g ∈ gs → i ∉ g.1.2))
    ∨ ∃ g, g ∈ gs ∧ i ∈ g.1.2 ∧ settled folder g cmds (ctx s) (ctx s') i;
}.

Lemma settled_first folder g gs (s s1 s' : St W) r cmds x i :
  i ∈ g.1.2 → (∀ g', g' ∈ gs → i ∉ g'.1.2) → batches folder gs s1 s' r cmds →
  settled folder g [x] (ctx s) (ctx s1) i → settled folder g (x :: cmds) (ctx s) (ctx s') i.
Proof.
  intros Hi Hno [_ _ Hrows] Hset.
  assert (imap_tbl (ctx s') !! i = imap_tbl (ctx s1) !! i) as Heq.
  { destruct (Hrows i) as [[? _]|(g' & Hg' & Hin & _)]; [done|]. by destruct (Hno g' Hg'). }
  destruct Hset as [[H1 H2]|(H1 & H2 & H3)]; [left|right]; rewrite Heq; split_and!; try done; set_solver.
Qed.

Lemma settled_later folder g cmds x c c1 c' i :
  imap_tbl c1 !! i = imap_tbl c !! i → settled folder g cmds c1 c' i → settled folder g (x :: cmds) c c' i.
Proof.
  intros Heq [[H1 H2]|(H1 & H2 & H3)]; [left|right]; rewrite ?Heq in *; split_and!; try done; set_solver.
Qed.

(** What a successful batch does to a row. *)
Lemma batch_ok_inv folder g s s' :
  batch folder g s s' (Ok tt) →
  ∃ x, of_group folder g x ∧ accepted (server s') = accepted (server s) ++ [x]
  ∧ ∀ i, (i ∉ g.1.2 → imap_tbl (ctx s') !! i = imap_tbl (ctx s) !! i)
         ∧ (i ∈ g.1.2 → settled folder g [x] (ctx s) (ctx s') i).
Proof.
  inversion 1 as [Hc Hl|Hn Hc Hl|]; subst.
  - eexists. split; [by left|]. split; [done|]. intros i. rewrite Hc, delete_rows_lookup.
    split; intros Hi; [by rewrite decide_False|]. left. rewrite delete_rows_lookup, decide_True by done.
    split; [done|]. by apply list_elem_of_singleton.
  - eexists. split; [by right|]. split; [done|]. intros i. rewrite Hc, clear_targets_lookup.
    split; intros Hi; [by rewrite decide_False|]. right. rewrite clear_targets_lookup, decide_True by done.
    split_and!; [done|done|]. by apply list_elem_of_singleton.
Qed.

Lemma batches_run folder gs s s' r :
  NoDup (gs ≫= λ g, g.1.2) → ready folder s →
  for_each gs (move_delete_group folder) s = (s', r) →
  ready folder s' ∧ ∃ cmds, batches folder gs s s' r cmds.
Proof.
  revert s. induction gs as [|g gs IH]; intros s Hnd Hr; cbn [for_each].
  { intros [= <- <-]. split; [done|]. exists []. split; [by rewrite app_nil_r|done|].
    intros i. left. split; [done|]. set_solver. }
  rewrite run_bind. destruct (move_delete_group folder g s) as [s1 r1] eqn:E1.
  destruct (group_run _ _ _ _ _ Hr E1) as [Hsame Hb]. pose proof (ready_same _ _ _ Hsame Hr) as Hr1.
  rewrite bind_cons in Hnd. apply NoDup_app in Hnd as (_ & Hdis & Hnd).
  destruct r1 as [[]|e].
  2: { intros [= <- <-]. inversion Hb as [| |e' Hc Hl]; subst. split; [done|]. exists [].
       split; [by rewrite app_nil_r|done|]. intros i. left. by rewrite Hc. }
  intros Hrun. destruct (IH s1 Hnd Hr1 Hrun) as (Hr' & cmds & Hbs). split; [done|].
  destruct (batch_ok_inv _ _ _ _ Hb) as (x & Hx & Hl & Hi). exists (x :: cmds).
  destruct Hbs as [Hlog Hown Hrows] eqn:Ebs. split.
  - rewrite Hlog, Hl. by rewrite <-(assoc_L (++)).
  - constructor; [exists g; split; [left|done]|]. eapply Forall_impl; [exact Hown|].
    intros y (g' & Hg' & Hy). exists g'. split; [by right|done].
  - intros i. destruct (decide (i ∈ g.1.2)) as [Hin|Hin].
    + right. exists g. split; [left|]. split; [done|]. eapply settled_first; [done| |exact Hbs|by apply Hi].
      intros g' Hg' Hin'. apply (Hdis i Hin). apply list_elem_of_bind. eauto.
    + destruct (Hrows i) as [[Heq Hok]|(g' & Hg' & Hin' & Hset)].
      * left. rewrite Heq. split; [by apply Hi|]. intros HOk g' [->|Hg']%elem_of_cons; [done|by apply Hok].
      * right. exists g'. split; [by right|]. split; [done|]. eapply settled_later; [by apply Hi|done].
Qed.

(** ** The plan of a folder *)

Lemma elem_of_pending transport_id folder c i u t :
  (i, u, t) ∈ pending_rows transport_id folder c
  ↔ ∃ r, imap_tbl c !! i = Some r ∧ planned transport_id folder r = true
         ∧ ImapRow.uid r = u ∧ ImapRow.target r = t.
Proof.
  unfold pending_rows. rewrite elem_of_sort_by, list_elem_of_fmap. split.
  - intros ([j r] & [= -> -> ->] & [Hp Hin]%list_elem_of_filter). apply elem_of_map_to_list in Hin. eauto.
  - intros (r & Hr & Hp & <- & <-). exists (i, r). split; [done|]. apply list_elem_of_filter.
    split; [done|]. by apply elem_of_map_to_list.
Qed.

Lemma pending_nodup transport_id folder c : NoDup (row_id <$> pending_rows transport_id folder c).
Proof.
  unfold pending_rows, sort_by. rewrite merge_sort_Permutation, <-list_fmap_compose.
  change (row_id ∘ _) with (fst : Z * ImapRow.t → Z).
  apply NoDup_fmap_fst; [|apply NoDup_filter, NoDup_map_to_list].
  intros i x y [_ Hx]%list_elem_of_filter [_ Hy]%list_elem_of_filter.
  apply elem_of_map_to_list in Hx, Hy. congruence.
Qed.

Lemma groups_ids parts gs : Forall2 group_of parts gs → (gs ≫= λ g, g.1.2) = row_id <$> mjoin parts.
Proof.
  induction 1 as [|p [[f ids] set] parts gs (_ & _ & Hi & _) _ IH]; [done|].
  rewrite bind_cons. cbn [mjoin list_join fst snd]. by rewrite fmap_app, IH, Hi.
Qed.

(** A group of the plan: its rows all have its target and their UIDs make up
    its set. *)
Definition plan_group (transport_id : Z) (folder : str) (c : Ctx) (g : str * list Z * str) : Prop :=
  ∃ us, uid_set_of g.2 = Some us
  ∧ (∀ i, i ∈ g.1.2 → ∃ r, imap_tbl c !! i = Some r ∧ planned transport_id folder r = true
          ∧ ImapRow.target r = g.1.1 ∧ ImapRow.uid r ∈ us)
  ∧ (∀ u, u ∈ us → ∃ i r, imap_tbl c !! i = Some r ∧ planned transport_id folder r = true
          ∧ ImapRow.target r = g.1.1 ∧ ImapRow.uid r = u).

Lemma plan_group_of transport_id folder c part g :
  (∀ x, x ∈ part → x ∈ pending_rows transport_id folder c) → group_of part g →
  plan_group transport_id folder c g.
Proof.
  destruct g as [[target ids] set]. intros Hsub (_ & Hf & -> & (us & Hus & Hc) & _).
  assert (∀ x, x ∈ part → ∃ r, imap_tbl c !! row_id x = Some r ∧ planned transport_id folder r = true
               ∧ ImapRow.target r = target ∧ ImapRow.uid r = row_uid x) as Hrow.
  { intros [[i u] t] Hx. pose proof (proj1 (Forall_forall _ _) Hf _ Hx) as Ht. cbn in Ht. subst t.
    apply Hsub, elem_of_pending in Hx as (r & ? & ? & ? & ?). eauto. }
  exists us. cbn [fst snd]. split_and!; [done| |].
  - intros i (x & -> & Hx)%list_elem_of_fmap. destruct (Hrow x Hx) as (r & ? & ? & ? & Hu).
    exists r. split_and!; try done. rewrite Hu, (Hc _). apply list_elem_of_fmap. eauto.
  - intros u Hu. apply Hc, list_elem_of_fmap in Hu as (x & -> & Hx).
    destruct (Hrow x Hx) as (r & ? & ? & ? & Hu). eauto.
Qed.

Lemma plan_groups transport_id folder c :
  (∀ i r, imap_tbl c !! i = Some r → valid_uid (ImapRow.uid r)) →
  NoDup (groups (pending_rows transport_id folder c) ≫= λ g, g.1.2)
  ∧ (∀ g, g ∈ groups (pending_rows transport_id folder c) → plan_group transport_id folder c g)
  ∧ (∀ i r, imap_tbl c !! i = Some r → planned transport_id folder r = true →
       ∃ g, g ∈ groups (pending_rows transport_id folder c) ∧ i ∈ g.1.2).
Proof.
  intros Hv. set (rows := pending_rows transport_id folder c).
  destruct (groups_ok rows) as (parts & Hj & Hp).
  { apply Forall_fmap, Forall_forall. intros [[i u] t] Hx.
    apply elem_of_pending in Hx as (r & Hr & _ & <- & _). by apply (Hv i). }
  pose proof (groups_ids _ _ Hp) as Hids. rewrite Hj in Hids. split_and!.
  - rewrite Hids. apply pending_nodup.
  - intros g Hg. apply list_elem_of_lookup in Hg as [k Hk].
    destruct (Forall2_lookup_r _ _ _ _ _ Hp Hk) as (part & Hpk & Hgo).
    apply (plan_group_of _ _ _ part); [|done]. intros x Hx. fold rows. rewrite <-Hj.
    apply list_elem_of_join. exists part. split; [done|]. by eapply list_elem_of_lookup_2.
  - intros i r Hr Hpl. assert (i ∈ groups rows ≫= λ g, g.1.2) as Hi.
    { rewrite Hids. apply list_elem_of_fmap. exists (i, ImapRow.uid r, ImapRow.target r). split; [done|].
      apply elem_of_pending. eauto. }
    apply list_elem_of_bind in Hi as (g & Hi & Hg). eauto.
Qed.

Lemma close_quiet s : accepted (server (attempt maybe_close_folder s).1) = accepted (server s)
  ∧ ctx (attempt maybe_close_folder s).1 = ctx s ∧ ∃ o, (attempt maybe_close_folder s).2 = Ok o.
Proof.
  unfold attempt, maybe_close_folder. rewrite !run_bind_asks.
  destruct (Session.selected_folder (session s)); [|by eauto].
  destruct (Session.selected_folder_needs_expunge (session s)); [|by eauto].
  rewrite run_bind_command. pose proof (close_log (server s)) as Hl.
  destruct ((close (server s)).2) as [[]|e]; cbn; eauto.
Qed.

Lemma move_delete_run folder s s' r :
  ready folder s →
  (∀ i row, imap_tbl (ctx s) !! i = Some row → valid_uid (ImapRow.uid row)) →
  move_delete_messages folder s = (s', r) →
  ∃ cmds, batches folder (groups (pending_rows (Session.transport_id (session s)) folder (ctx s))) s s' r cmds.
Proof.
  intros Hr Hv. unfold move_delete_messages. rewrite run_bind_asks, run_bind_table, run_gets.
  destruct (plan_groups (Session.transport_id (session s)) folder (ctx s) Hv) as (Hnd & _ & _).
  assert (MkSt (ctx s) (session s) (server s) = s) as -> by by destruct s.
  rewrite run_bind. destruct (for_each _ _ s) as [s1 r1] eqn:E.
  destruct (batches_run _ _ _ _ _ Hnd Hr E) as (_ & cmds & [Hlog Hown Hrows]).
  destruct r1 as [[]|e]; [|intros [= <- <-]; by exists cmds].
  destruct (close_quiet s1) as (Ha & Hc & o & Ho). rewrite run_bind.
  destruct (attempt maybe_close_folder s1) as [s2 r2]. cbn in *. subst r2. intros [= <- <-].
  exists cmds. split; [congruence|done|]. intros i. rewrite Hc. apply Hrows.
Qed.

(** The row of a message of this account in the folder that is to leave it. *)
Definition to_leave (transport_id : Z) (folder : str) (r : ImapRow.t) : Prop :=
  ImapRow.transport_id r = transport_id ∧ ImapRow.folder r = folder ∧ ImapRow.target r ≠ folder.

Lemma planned_spec transport_id folder r : planned transport_id folder r = true ↔ to_leave transport_id folder r.
Proof.
  unfold planned, to_leave. rewrite !andb_true_iff, !bool_decide_eq_true, Z.eqb_eq. naive_solver congruence.
Qed.

(** The server carried out a command on a set that names [u]. *)
Definition told (folder : str) (cmds : list (option str * Command.t)) (cmd : str → Command.t) (u : Z) : Prop :=
  ∃ set us, (Some folder, cmd set) ∈ cmds ∧ uid_set_of set = Some us ∧ u ∈ us.

(** What becomes of the rows in a round. *)
Lemma round_settles (folder : str) (s s' : St W) (r : result unit) :
  ready folder s →
  (∀ i row, imap_tbl (ctx s) !! i = Some row → valid_uid (ImapRow.uid row)) →
  move_delete_messages folder s = (s', r) →
  ∃ cmds, accepted (server s') = accepted (server s) ++ cmds
  ∧ ∀ i row, imap_tbl (ctx s) !! i = Some row →
      (to_leave (Session.transport_id (session s)) folder row →
        (r ≠ Ok tt ∧ imap_tbl (ctx s') !! i = Some row)
        ∨ (imap_tbl (ctx s') !! i = None
           ∧ told folder cmds (removal (ImapRow.target row)) (ImapRow.uid row))
        ∨ (ImapRow.target row ≠ [] ∧ imap_tbl (ctx s') !! i = Some (no_target row)
           ∧ told folder cmds (λ set, Command.Copy set (ImapRow.target row)) (ImapRow.uid row)))
      ∧ (¬ to_leave (Session.transport_id (session s)) folder row → imap_tbl (ctx s') !! i = Some row).
Proof.
  intros Hr Hv Hrun. destruct (move_delete_run _ _ _ _ Hr Hv Hrun) as (cmds & [Hlog _ Hrows]).
  destruct (plan_groups (Session.transport_id (session s)) folder (ctx s) Hv) as (_ & Hgs & Hcov).
  exists cmds. split; [done|]. intros i row Hi. rewrite <-planned_spec.
  destruct (Hrows i) as [[Heq Hok]|(g & Hg & Hin & Hset)].
  - rewrite Heq. split; [intros Hp|done]. left. split; [|done].
    intros HOk. destruct (Hcov i row Hi Hp) as (g & Hg & Hin). by apply (Hok HOk g Hg).
  - destruct (Hgs g Hg) as (us & Hus & Hids & _). destruct (Hids i Hin) as (row' & Hi' & Hp & Ht & Hu).
    rewrite Hi in Hi'. injection Hi' as <-. split; [intros _|done]. rewrite Ht. right.
    destruct Hset as [[H1 H2]|(H1 & H2 & H3)]; [left|right].
    + split; [done|]. exists g.2, us. auto.
    + split_and!; [done|by rewrite H2, Hi|]. exists g.2, us. auto.
Qed.

Definition set_of (cmd : Command.t) : str :=
  match cmd with Command.Store set _ | Command.Move set _ | Command.Copy set _ => set end.

(** What the server is told in a round. *)
Lemma round_only_planned (folder : str) (s s' : St W) (r : result unit) :
  ready folder s →
  (∀ i row, imap_tbl (ctx s) !! i = Some row → valid_uid (ImapRow.uid row)) →
  move_delete_messages folder s = (s', r) →
  ∃ cmds, accepted (server s') = accepted (server s) ++ cmds
  ∧ ∀ f cmd, (f, cmd) ∈ cmds →
      f = Some folder ∧ ∃ us, uid_set_of (set_of cmd) = Some us
      ∧ ∀ u, u ∈ us → ∃ i row, imap_tbl (ctx s) !! i = Some row
          ∧ to_leave (Session.transport_id (session s)) folder row ∧ ImapRow.uid row = u
          ∧ (cmd = removal (ImapRow.target row) (set_of cmd)
             ∨ (ImapRow.target row ≠ [] ∧ cmd = Command.Copy (set_of cmd) (ImapRow.target row))).
Proof.
  intros Hr Hv Hrun. destruct (move_delete_run _ _ _ _ Hr Hv Hrun) as (cmds & [Hlog Hown _]).
  destruct (plan_groups (Session.transport_id (session s)) folder (ctx s) Hv) as (_ & Hgs & _).
  exists cmds. split; [done|]. intros f cmd Hin.
  destruct (proj1 (Forall_forall _ _) Hown _ Hin) as (g & Hg & Hof).
  destruct (Hgs g Hg) as (us & Hus & _ & Hback).
  assert (f = Some folder ∧ set_of cmd = g.2
          ∧ (cmd = removal g.1.1 g.2 ∨ (g.1.1 ≠ [] ∧ cmd = Command.Copy g.2 g.1.1))) as (-> & Hset & Hcmd).
  { destruct Hof as [[= -> ->]|[Hn [= -> ->]]]; split_and!; auto. unfold removal. by destruct (is_empty g.1.1). }
  split; [done|]. exists us. rewrite Hset. split; [done|]. intros u Hu.
  destruct (Hback u Hu) as (i & row & Hi & Hp & Ht & Hu'). exists i, row.
  rewrite Ht. apply planned_spec in Hp. auto.
Qed.

(** C3: a round over a selected folder deals with the whole plan: a row with a
    target is removed only after the server flagged its message as deleted or
    moved it to that target, or becomes a row to be deleted after the server
    copied its message there; when the round succeeds no row of the plan is left
    as it was.  All other rows are untouched, however the round ends. *)
Theorem move_delete_settles (folder : str) (s s' : St W) (r : result unit) :
  ready folder s →
  (∀ i row, imap_tbl (ctx s) !! i = Some row → valid_uid (ImapRow.uid row)) →
  move_delete_messages folder s = (s', r) →
  ∃ cmds, accepted (server s') = accepted (server s) ++ cmds
  ∧ ∀ i row, imap_tbl (ctx s) !! i = Some row →
      (to_leave (Session.transport_id (session s)) folder row →
        (r ≠ Ok tt ∧ imap_tbl (ctx s') !! i = Some row)
        ∨ (imap_tbl (ctx s') !! i = None
           ∧ told folder cmds (removal (ImapRow.target row)) (ImapRow.uid row))
        ∨ (ImapRow.target row ≠ [] ∧ imap_tbl (ctx s') !! i = Some (no_target row)
           ∧ told folder cmds (λ set, Command.Copy set (ImapRow.target row)) (ImapRow.uid row)))
      ∧ (¬ to_leave (Session.transport_id (session s)) folder row → imap_tbl (ctx s') !! i = Some row).
Proof. apply round_settles. Qed.

(** A round over a selected folder asks the server for nothing that was not
    planned: every command it carries out applies to that folder, its set is
    well formed, and every UID in it is the UID of a row of the plan whose
    target calls for just this command. *)
Theorem move_delete_only_planned (folder : str) (s s' : St W) (r : result unit) :
  ready folder s →
  (∀ i row, imap_tbl (ctx s) !! i = Some row → valid_uid (ImapRow.uid row)) →
  move_delete_messages folder s = (s', r) →
  ∃ cmds, accepted (server s') = accepted (server s) ++ cmds
  ∧ ∀ f cmd, (f, cmd) ∈ cmds →
      f = Some folder ∧ ∃ us, uid_set_of (set_of cmd) = Some us
      ∧ ∀ u, u ∈ us → ∃ i row, imap_tbl (ctx s) !! i = Some row
          ∧ to_leave (Session.transport_id (session s)) folder row ∧ ImapRow.uid row = u
          ∧ (cmd = removal (ImapRow.target row) (set_of cmd)
             ∨ (ImapRow.target row ≠ [] ∧ cmd = Command.Copy (set_of cmd) (ImapRow.target row))).
Proof. apply round_only_planned. Qed.

(** ** The record of a folder *)

(** Every row is of the UIDVALIDITY recorded for its folder: no UID of an older
    numbering is left. *)
Definition rows_current (c : Ctx) : Prop :=
  ∀ i r, imap_tbl c !! i = Some r →
    ImapRow.uidvalidity r = get_uidvalidity c (ImapRow.transport_id r) (ImapRow.folder r).

Lemma delete_imap_lookup gone c i r :
  imap_tbl (delete_imap gone c) !! i = Some r ↔ imap_tbl c !! i = Some r ∧ gone i r = false.
Proof.
  change (imap_tbl (delete_imap gone c))
    with (filter (λ kr : Z * ImapRow.t, gone kr.1 kr.2 = false) (imap_tbl c)).
  by rewrite map_lookup_filter_Some.
Qed.

Lemma rows_current_delete gone c : rows_current c → rows_current (delete_imap gone c).
Proof. intros Hc i r [Hr _]%delete_imap_lookup. by apply (Hc i). Qed.

Lemma rows_current_clear ids c : rows_current c → rows_current (clear_targets ids c).
Proof.
  intros Hc i r. rewrite clear_targets_lookup. destruct (decide (i ∈ ids)); [|apply Hc].
  intros (r0 & Hr & ->)%fmap_Some. exact (Hc i r0 Hr).
Qed.

Lemma uidvalidity_set_uid_next c t f n t' f' :
  get_uidvalidity (set_uid_next t f n c) t' f' = get_uidvalidity c t' f'.
Proof.
  unfold get_uidvalidity at 1. cbn [set_uid_next set_imap_sync imap_sync].
  destruct (decide ((t, f) = (t', f'))) as [[= <- <-]|Hne];
    [by rewrite lookup_insert_eq|by rewrite lookup_insert_ne].
Qed.

Lemma uidvalidity_set_uidvalidity c t f v t' f' :
  get_uidvalidity (set_uidvalidity t f v c) t' f'
  = if decide ((t, f) = (t', f')) then v else get_uidvalidity c t' f'.
Proof.
  unfold get_uidvalidity at 1. cbn [set_uidvalidity set_imap_sync imap_sync].
  case_decide as Hd; [rewrite Hd; by rewrite lookup_insert_eq|by rewrite lookup_insert_ne].
Qed.

Lemma rows_current_uid_next t f n c : rows_current c → rows_current (set_uid_next t f n c).
Proof. intros Hc i r Hr. rewrite uidvalidity_set_uid_next. by apply (Hc i). Qed.

(** A new UIDVALIDITY, with the rows of the old one gone. *)
Lemma rows_current_renumber t f v c :
  rows_current c →
  rows_current (delete_imap (λ _ r, (ImapRow.transport_id r =? t)%Z && bool_decide (ImapRow.folder r = f)
                                    && negb (ImapRow.uidvalidity r =? v)%Z) (set_uidvalidity t f v c)).
Proof.
  intros Hc i r [Hr Hg]%delete_imap_lookup.
  change (get_uidvalidity (delete_imap _ ?c) ?a ?b) with (get_uidvalidity c a b).
  rewrite uidvalidity_set_uidvalidity.
  destruct (decide ((t, f) = (ImapRow.transport_id r, ImapRow.folder r))) as [Hd|]; [|by apply (Hc i)].
  injection Hd as -> ->. rewrite Z.eqb_refl, bool_decide_eq_true_2 in Hg by done. cbn in Hg.
  apply negb_false_iff, Z.eqb_eq in Hg. done.
Qed.

(** What is known of the database survives what does not write it. *)
Lemma preserves_db {A} (P : Ctx → Prop) (m : cmd Ctx A) : preserves P m → preserves (λ s : St W, P (ctx s)) (db m).
Proof. intros Hm s Hs. specialize (Hm (ctx s) Hs). unfold db. by destruct (m (ctx s)) as [c [a|e]]. Qed.

Lemma preserves_net {A} (P : Ctx → Prop) (f : W → W * A) : preserves (λ s : St W, P (ctx s)) (net f).
Proof. intros s Hs. unfold net. by destruct (f (server s)). Qed.

Lemma preserves_command {A} (P : Ctx → Prop) (f : W → W * result A) : preserves (λ s : St W, P (ctx s)) (command f).
Proof. intros s Hs. rewrite run_command. by destruct ((f (server s)).2). Qed.

Lemma preserves_session (P : Ctx → Prop) f : preserves (λ s : St W, P (ctx s)) (on_session f).
Proof. by intros s Hs. Qed.

Lemma preserves_asks {A} (P : Ctx → Prop) (f : Session.t → A) : preserves (λ s : St W, P (ctx s)) (asks f).
Proof. by intros s Hs. Qed.

#[local] Hint Resolve preserves_net preserves_command preserves_session preserves_asks : cmd.

Lemma preserves_db_modify (P : Ctx → Prop) f : (∀ c, P c → P (f c)) → preserves (λ s : St W, P (ctx s)) (db (modify f)).
Proof. intros Hf. apply preserves_db, preserves_modify, Hf. Qed.

Lemma preserves_db_gets {A} (P : Ctx → Prop) (f : Ctx → A) : preserves (λ s : St W, P (ctx s)) (db (gets f)).
Proof. apply preserves_db, preserves_gets. Qed.

#[local] Hint Resolve preserves_db_gets : cmd.

(** What selecting a folder can do to the state, whatever the session holds. *)
Definition renumber (t : Z) (folder : str) (v : Z) (c : Ctx) : Ctx :=
  delete_imap (λ _ r, (ImapRow.transport_id r =? t)%Z && bool_decide (ImapRow.folder r = folder)
                      && negb (ImapRow.uidvalidity r =? v)%Z) (set_uidvalidity t folder v c).

Record kept_by_selecting (P : St W → Prop) : Prop := {
  kept_session s f : P s → P (MkSt (ctx s) f (server s));
  kept_select s f : P s → P (MkSt (ctx s) (session s) (select (server s) f).1);
  kept_close s : P s → P (MkSt (ctx s) (session s) (close (server s)).1);
  kept_status s f : P s → P (MkSt (ctx s) (session s) (status_uid_next (server s) f).1);
  kept_uid_next s t f n : P s → P (MkSt (set_uid_next t f n (ctx s)) (session s) (server s));
  kept_renumber s t f v : P s → P (MkSt (renumber t f v (ctx s)) (session s) (server s));
}.

Lemma close_keeps P : kept_by_selecting P → preserves P maybe_close_folder.
Proof.
  intros HP. unfold maybe_close_folder. preserve; try (by intros s Hs); try (intros s Hs; exact (kept_session P HP s _ Hs)).
  intros s Hs. rewrite run_command. apply (kept_close P HP s) in Hs. by destruct ((close (server s)).2).
Qed.

Lemma select_folder_keeps P folder : kept_by_selecting P → preserves P (select_folder folder).
Proof.
  intros HP. unfold select_folder. preserve; try (by intros s Hs); try (intros s Hs; exact (kept_session P HP s _ Hs));
    try by apply close_keeps.
  intros s Hs. unfold net. apply (kept_select P HP s folder) in Hs. by destruct (select (server s) folder).
Qed.

Lemma select_keeps P folder : kept_by_selecting P → preserves P (select_with_uidvalidity folder).
Proof.
  intros HP. unfold select_with_uidvalidity.
  apply preserves_bind; [by apply select_folder_keeps|intros [newly|]]; [|auto with cmd].
  do 7 (apply preserves_bind; [preserve; intros s Hs; first [exact Hs|exact (kept_session P HP s _ Hs)]|intros ?]).
  apply preserves_bind; [preserve|intros ?].
  { intros s Hs. rewrite run_command. apply (kept_status P HP s folder) in Hs.
    by destruct ((status_uid_next (server s) folder).2). }
  apply preserves_bind; [intros s Hs; exact (kept_session P HP s _ Hs)|intros ?]. case_match.
  - preserve; try (intros s Hs; exact (kept_session P HP s _ Hs)). intros s Hs. exact (kept_uid_next P HP s _ _ _ Hs).
  - cbv zeta. apply preserves_bind; [intros s Hs; exact (kept_uid_next P HP s _ _ _ Hs)|intros _].
    intros s Hs. rewrite run_bind_table, run_modify, run_bind_on_session, run_bind_table, run_modify. cbn [ctx session server].
    apply (kept_renumber P HP s a folder a5) in Hs.
    apply (kept_session P HP _ (Session.set_new_mail true (session s))) in Hs. cbn [ctx session server] in Hs.
    match goal with |- match ?m _ with _ => _ end => assert (preserves P m) as Hm end; [|exact (Hm _ Hs)].
    preserve. intros s2 Hs2. exact (kept_session P HP s2 _ Hs2).
Qed.

Lemma kept_ctx (P : Ctx → Prop) :
  (∀ t f n c, P c → P (set_uid_next t f n c)) → (∀ t f v c, P c → P (renumber t f v c)) →
  kept_by_selecting (λ s, P (ctx s)).
Proof. intros Hn Hv. split; cbn; auto. Qed.

Lemma rows_current_select folder : preserves (λ s : St W, rows_current (ctx s)) (select_with_uidvalidity folder).
Proof.
  apply select_keeps, (kept_ctx rows_current); intros t f n c; [apply rows_current_uid_next|apply rows_current_renumber].
Qed.

Lemma rows_current_close : preserves (λ s : St W, rows_current (ctx s)) maybe_close_folder.
Proof.
  apply close_keeps, (kept_ctx rows_current); intros t f n c; [apply rows_current_uid_next|apply rows_current_renumber].
Qed.

#[local] Hint Resolve rows_current_select rows_current_close : cmd.

Lemma rows_current_move_delete folder : preserves (λ s : St W, rows_current (ctx s)) (move_delete_messages folder).
Proof.
  unfold move_delete_messages, move_delete_group, delete_message_batch, move_message_batch, add_flag_finalized_with_set.
  preserve; destruct x as [[target ids] set]; preserve; apply preserves_db_modify; intros c;
    [apply rows_current_delete|apply rows_current_delete|apply rows_current_clear].
Qed.

Lemma rows_current_store_seen : preserves (λ s : St W, rows_current (ctx s)) store_seen_flags_on_imap.
Proof.
  unfold store_seen_flags_on_imap, add_flag_finalized_with_set.
  preserve; [by apply preserves_db_modify|]. destruct x as [[folder ids] set].
  unfold store_seen_group, add_flag_finalized_with_set. preserve; by apply preserves_db_modify.
Qed.

(** ** Selecting *)

(** The session never takes a folder for selected while the server has another
    one: the server has it selected, or none, after a SELECT that failed. *)
Definition follows (s : St W) : Prop :=
  ∀ f, Session.selected_folder (session s) = Some f → selected (server s) = Some f ∨ selected (server s) = None.

Lemma preserves_follows_db {A} (m : cmd Ctx A) : preserves follows (db m : cmd (St W) A).
Proof. intros s Hs. unfold db. by destruct (m (ctx s)) as [c [a|e]]. Qed.

Lemma preserves_follows_session f :
  (∀ x, Session.selected_folder (f x) = Session.selected_folder x ∨ Session.selected_folder (f x) = None) →
  preserves follows (on_session f : cmd (St W) unit).
Proof. intros Hf s Hs g. cbn. destruct (Hf (session s)) as [->| ->]; [apply Hs|done]. Qed.

Lemma preserves_follows_asks {A} (f : Session.t → A) : preserves follows (asks f : cmd (St W) A).
Proof. by intros s Hs. Qed.

Lemma preserves_follows_quiet {A} (f : W → W * result A) :
  (∀ w, selected (f w).1 = selected w) → preserves follows (command f : cmd (St W) A).
Proof.
  intros Hf s Hs. rewrite run_command.
  assert (follows (MkSt (ctx s) (session s) (f (server s)).1)) as H' by (intros g Hg; cbn in *; rewrite Hf; by apply Hs).
  by destruct ((f (server s)).2).
Qed.

Lemma preserves_follows_close : preserves follows (maybe_close_folder : cmd (St W) unit).
Proof.
  intros s Hs. unfold maybe_close_folder. rewrite !run_bind_asks.
  destruct (Session.selected_folder (session s)) as [g|] eqn:Hg; [|exact Hs].
  destruct (Session.selected_folder_needs_expunge (session s)); [|exact Hs]. rewrite run_bind_command.
  pose proof (close_selected (server s)) as Hc. destruct ((close (server s)).2) as [[]|e].
  - rewrite !run_bind_on_session. done.
  - intros h Hh. cbn in *. rewrite Hc. by apply Hs.
Qed.

Lemma preserves_follows_select folder : preserves follows (select_folder folder : cmd (St W) (option bool)).
Proof.
  unfold select_folder. apply preserves_bind; [apply preserves_follows_asks|intros o]. case_bool_decide; [auto with cmd|].
  apply preserves_bind; [apply preserves_follows_close|intros _]. intros s Hs. rewrite run_bind_server.
  pose proof (select_selected (server s) folder) as Hsel. destruct ((select (server s) folder).2) as [m| |e].
  - rewrite !run_bind_on_session, run_ret. intros f Hf. cbn in *. left. by rewrite Hsel.
  - intros f _. right. exact Hsel.
  - intros f _. right. exact Hsel.
Qed.

#[local] Hint Resolve preserves_follows_db preserves_follows_asks preserves_follows_close preserves_follows_select : cmd.
#[local] Hint Extern 1 (preserves follows (on_session _)) => apply preserves_follows_session; intros; by left : cmd.
#[local] Hint Extern 1 (preserves follows (command _)) => apply preserves_follows_quiet; intros; apply status_log : cmd.

Lemma preserves_follows_uidvalidity folder : preserves follows (select_with_uidvalidity folder : cmd (St W) bool).
Proof. unfold select_with_uidvalidity. cbv zeta. preserve. Qed.

(** The folder is selected in the session, and the server's choice is this one. *)
Definition on_folder (folder : str) (choice : option str) (s : St W) : Prop :=
  Session.selected_folder (session s) = Some folder ∧ selected (server s) = choice.

(** What the server has selected after the folder was: the folder if it was
    asked, the same as before if the session had it already. *)
Definition chosen (folder : str) (s : St W) : option str :=
  if decide (Session.selected_folder (session s) = Some folder) then selected (server s) else Some folder.

Lemma select_folder_ok folder s s' b :
  select_folder folder s = (s', Ok (Some b)) → on_folder folder (chosen folder s) s'.
Proof.
  unfold select_folder, chosen. rewrite run_bind_asks. case_bool_decide as Hf.
  { rewrite run_ret, decide_True by done. by intros [= <- <-]. }
  rewrite decide_False by done. intros Hrun. bind_inv Hrun as [] s1 _. rewrite run_bind_server in Hrun.
  pose proof (select_selected (server s1) folder) as Hs.
  destruct ((select (server s1) folder).2) as [m| |e]; [|done|done].
  rewrite !run_bind_on_session, run_ret in Hrun. injection Hrun as <- <-. by split.
Qed.

Lemma preserves_on_folder_db {A} folder o (m : cmd Ctx A) : preserves (on_folder folder o) (db m : cmd (St W) A).
Proof. intros s Hs. unfold db. by destruct (m (ctx s)) as [c [a|e]]. Qed.

Lemma preserves_on_folder_session folder o f :
  (∀ x, Session.selected_folder (f x) = Session.selected_folder x) →
  preserves (on_folder folder o) (on_session f : cmd (St W) unit).
Proof. intros Hf s [H1 H2]. split; [by cbn; rewrite Hf|done]. Qed.

Lemma preserves_on_folder_asks {A} folder o (f : Session.t → A) : preserves (on_folder folder o) (asks f : cmd (St W) A).
Proof. by intros s Hs. Qed.

Lemma preserves_on_folder_status folder o f :
  preserves (on_folder folder o) (command (λ w, status_uid_next w f) : cmd (St W) (option Z)).
Proof.
  intros s [H1 H2]. rewrite run_command. destruct (status_log (server s) f) as [_ Hs].
  destruct ((status_uid_next (server s) f).2); (split; [done|by cbn; rewrite Hs]).
Qed.

#[local] Hint Resolve preserves_on_folder_db preserves_on_folder_asks preserves_on_folder_status : cmd.
#[local] Hint Extern 1 (preserves (on_folder _ _) (on_session _)) => by apply preserves_on_folder_session : cmd.

(** The end of [select_with_uidvalidity]: the mailbox and the record agree. *)
Definition agreed (folder : str) (o : option str) (s : St W) : Prop :=
  on_folder folder o s ∧ ∃ v n, Session.selected_mailbox (session s) = Some (SelectedMailbox.mk (Some v) n)
  ∧ get_uidvalidity (ctx s) (Session.transport_id (session s)) folder = v.

Lemma preserves_agreed_session folder o f :
  (∀ x, Session.selected_folder (f x) = Session.selected_folder x
        ∧ Session.selected_mailbox (f x) = Session.selected_mailbox x
        ∧ Session.transport_id (f x) = Session.transport_id x) →
  preserves (agreed folder o) (on_session f : cmd (St W) unit).
Proof.
  intros Hf s [[H1 H2] (v & n & H3 & H4)]. destruct (Hf (session s)) as (E1 & E2 & E3).
  split; [split; cbn; congruence|]. exists v, n. cbn. by rewrite E2, E3.
Qed.

Lemma preserves_agreed_uid_next folder o t f n :
  preserves (agreed folder o) (db (modify (set_uid_next t f n)) : cmd (St W) unit).
Proof.
  intros s [Hon (v & m & H1 & H2)]. split; [done|]. exists v, m. split; [done|].
  cbn [ctx session]. by rewrite uidvalidity_set_uid_next.
Qed.

#[local] Hint Resolve preserves_agreed_uid_next : cmd.
#[local] Hint Extern 1 (preserves (agreed _ _) (on_session _)) => by apply preserves_agreed_session : cmd.

Lemma select_agreed folder s s' :
  select_with_uidvalidity folder s = (s', Ok true) → agreed folder (chosen folder s) s'.
Proof.
  intros Hrun. unfold select_with_uidvalidity in Hrun. bind_inv Hrun as newly s1 Hsel.
  destruct newly as [newly|]; [|done]. apply select_folder_ok in Hsel as Hon. clear Hsel.
  rewrite run_bind_asks in Hrun. bind_inv Hrun as [] s2 [-> _]%ensure_ok_inv. rewrite run_bind_asks in Hrun.
  bind_inv Hrun as mb s2 [-> Hmb]%or_bail_ok_inv. rewrite run_bind_table, run_gets, run_bind_table, run_gets in Hrun.
  cbn [ctx session server] in Hrun. bind_inv Hrun as v s2 [-> Hv]%or_bail_ok_inv. bind_inv Hrun as n s2 Hn.
  set (t := Session.transport_id (session s1)) in *. set (o := chosen folder s) in *.
  assert (on_folder folder o s2 ∧ Session.transport_id (session s2) = t
          ∧ get_uidvalidity (ctx s2) t folder = get_uidvalidity (ctx s1) t folder) as (Hon2 & Ht & Hv2).
  { destruct (SelectedMailbox.uid_next mb); [by injection Hn as <- <-|].
    pose proof (preserves_run _ _ _ _ _ (preserves_on_folder_status folder o folder) Hn Hon) as Hon2.
    rewrite run_command in Hn. by injection Hn as <- _. }
  clear Hn Hon. rewrite run_bind_on_session in Hrun. set (s3 := MkSt _ _ _) in Hrun.
  assert (on_folder folder o s3) as Hon3 by exact Hon2.
  destruct (Z.eqb_spec v (get_uidvalidity (ctx s1) t folder)) as [->|Hne].
  - assert (agreed folder o s3) as Hag.
    { split; [done|]. eexists _, n. split; [reflexivity|]. cbn. by rewrite Ht. }
    refine (preserves_run _ _ _ _ _ _ Hrun Hag). preserve.
  - cbv zeta in Hrun. rewrite run_bind_table, run_modify, run_bind_table, run_modify, run_bind_on_session, run_bind_table, run_modify in Hrun.
    refine (preserves_run _ _ _ _ _ _ Hrun _); [preserve|]. split; [done|]. exists v, n. split; [reflexivity|].
    cbn [ctx session server]. change (get_uidvalidity (delete_imap _ ?c) ?a ?b) with (get_uidvalidity c a b).
    rewrite uidvalidity_set_uidvalidity. by rewrite decide_True by by cbn; rewrite Ht.
Qed.

(** Selecting adds to the folders the server said it does not have at most the
    one asked for, and does when the answer is that it does not exist. *)
Lemma close_keeps_denied s : denied (server (maybe_close_folder s).1) = denied (server s).
Proof.
  unfold maybe_close_folder. rewrite !run_bind_asks.
  destruct (Session.selected_folder (session s)); [|done].
  destruct (Session.selected_folder_needs_expunge (session s)); [|done].
  rewrite run_bind_command. pose proof (close_denied (server s)) as Hl. by destruct ((close (server s)).2) as [[]|e].
Qed.

Lemma select_missing folder s s' :
  select_with_uidvalidity folder s = (s', Ok false) → denied (server s') = denied (server s) ++ [folder].
Proof.
  unfold select_with_uidvalidity. intros Hrun. bind_inv Hrun as newly s1 Hsel. destruct newly as [newly|].
  - exfalso. rewrite run_bind_asks in Hrun. bind_inv Hrun as [] s2 _. rewrite run_bind_asks in Hrun.
    bind_inv Hrun as mb s3 _. bind_inv Hrun as v s4 _. bind_inv Hrun as n s5 _. bind_inv Hrun as v' s6 _.
    bind_inv Hrun as n' s7 _. rewrite run_bind_on_session in Hrun. destruct (v' =? v)%Z; cbv zeta in Hrun.
    + bind_inv Hrun as [] s8 _. done.
    + do 4 bind_inv Hrun as [] ? _. bind_inv Hrun as [] s8 _. done.
  - injection Hrun as <-. unfold select_folder in Hsel. rewrite run_bind_asks in Hsel. case_bool_decide; [done|].
    pose proof (close_keeps_denied s) as Hd. bind_inv Hsel as [] s2 Hc. rewrite Hc in Hd. cbn [fst] in Hd.
    rewrite run_bind_server in Hsel. pose proof (select_denied (server s2) folder) as Hs.
    destruct ((select (server s2) folder).2); [|injection Hsel as <-; cbn; congruence|done].
    by rewrite !run_bind_on_session, run_ret in Hsel.
Qed.

(** C15: when [select_with_uidvalidity] says that a folder exists, the session has
    it selected and the recorded UIDVALIDITY is that of its mailbox, and on the
    server it is selected if the session had another one or none; if the session
    took it for selected already, the server is not asked and keeps what it has.
    When it says that the folder does not exist, the server has said so.  In all
    cases the server never has another folder selected than the session thinks,
    if it had not before (but it may have none, see [failed_select_forgotten]),
    and no row of the table is of another numbering than the recorded one, if
    none was before: UIDs of a folder that was renumbered are forgotten. *)
Theorem select_sound (folder : str) (s s' : St W) (r : result bool) :
  select_with_uidvalidity folder s = (s', r) →
  (r = Ok true → agreed folder (chosen folder s) s')
  ∧ (r = Ok false → denied (server s') = denied (server s) ++ [folder])
  ∧ (follows s → follows s')
  ∧ (rows_current (ctx s) → rows_current (ctx s')).
Proof.
  intros Hrun. split_and!.
  - intros ->. by apply select_agreed.
  - intros ->. by apply select_missing.
  - apply (preserves_run _ _ _ _ _ (preserves_follows_uidvalidity folder) Hrun).
  - apply (preserves_run _ _ _ _ _ (rows_current_select folder) Hrun).
Qed.

(** ** Flags of read messages *)

Definition SEEN_QUERY : str := lit "+FLAGS (" ++ SEEN_FLAG ++ lit ")".

(** The server flagged a set with [u] in it as seen, in the folder. *)
Definition flagged (cmds : list (option str * Command.t)) (folder : str) (u : Z) : Prop :=
  ∃ set us, (Some folder, Command.Store set SEEN_QUERY) ∈ cmds ∧ uid_set_of set = Some us ∧ u ∈ us.

(** Why a flag need not be stored any more: it was, in the folder of the row, or
    the server said that there is no such folder. *)
Definition flag_settled (cmds : list (option str * Command.t)) (gone : list str) (row : ImapRow.t) : Prop :=
  flagged cmds (ImapRow.folder row) (ImapRow.uid row) ∨ ImapRow.folder row ∈ gone.

Lemma flag_settled_app cmds gone row x y : flag_settled cmds gone row → flag_settled (cmds ++ x) (gone ++ y) row.
Proof.
  intros [(set & us & Hin & Hus)|Hg]; [left; exists set, us|right]; [split; [|done]|]; apply elem_of_app; by left.
Qed.

(** What became, since the server [w], of the flags to be stored that were known
    at [c]. *)
Definition seen_inv (c : Ctx) (w : W) (s : St W) : Prop :=
  ∃ cmds gone, accepted (server s) = accepted w ++ cmds ∧ denied (server s) = denied w ++ gone
  ∧ ∀ i row, i ∈ imap_markseen c → imap_tbl c !! i = Some row → i ∉ imap_markseen (ctx s) →
      imap_tbl (ctx s) !! i = None ∨ flag_settled cmds gone row.

Lemma seen_inv_log c w s w' x y :
  accepted w' = accepted (server s) ++ x → denied w' = denied (server s) ++ y →
  seen_inv c w s → seen_inv c w (MkSt (ctx s) (session s) w').
Proof.
  intros Hx Hy (cmds & gone & Hl & Hd & Hs). exists (cmds ++ x), (gone ++ y). cbn [server].
  rewrite Hx, Hl, Hy, Hd, !(assoc_L (++)). split_and!; [done..|]. intros i row Hi Hr Hn.
  destruct (Hs i row Hi Hr Hn); [by left|right]. by apply flag_settled_app.
Qed.

Lemma seen_inv_quiet c w s w' :
  accepted w' = accepted (server s) → denied w' = denied (server s) →
  seen_inv c w s → seen_inv c w (MkSt (ctx s) (session s) w').
Proof. intros H1 H2. apply (seen_inv_log c w s w' [] []); by rewrite app_nil_r. Qed.

Lemma seen_inv_delete c w s gone :
  seen_inv c w s → seen_inv c w (MkSt (delete_imap gone (ctx s)) (session s) (server s)).
Proof.
  intros (cmds & ds & Hl & Hd & Hs). exists cmds, ds. split_and!; [done..|]. intros i row Hi Hr Hn. cbn [ctx] in *.
  destruct (imap_tbl (delete_imap gone (ctx s)) !! i) as [r|] eqn:E; [|by left].
  apply delete_imap_lookup in E as [E Hg].
  assert (i ∉ imap_markseen (ctx s)) as Hn'.
  { intros Hin. apply Hn. cbn [delete_imap set_imap_markseen imap_markseen]. apply elem_of_filter.
    split; [by rewrite E|done]. }
  destruct (Hs i row Hi Hr Hn') as [H1|H1]; [congruence|by right].
Qed.

Lemma seen_inv_kept c w : kept_by_selecting (seen_inv c w).
Proof.
  split.
  - by intros s f Hs.
  - intros s f. eapply seen_inv_log; [|apply select_denied]. by rewrite select_log, app_nil_r.
  - intros s. apply seen_inv_quiet; [apply close_log|apply close_denied].
  - intros s f. apply seen_inv_quiet; [apply status_log|apply status_denied].
  - by intros s t f n Hs.
  - intros s t f v Hs.
    exact (seen_inv_delete c w (MkSt (set_uidvalidity t f v (ctx s)) (session s) (server s)) _ Hs).
Qed.

(** A group of the flags to be stored. *)
Definition seen_group (c : Ctx) (g : str * list Z * str) : Prop :=
  ∃ us, uid_set_of g.2 = Some us
  ∧ ∀ i, i ∈ g.1.2 → ∃ row, imap_tbl c !! i = Some row ∧ ImapRow.folder row = g.1.1 ∧ ImapRow.uid row ∈ us.

Lemma seen_finish c w (g : str * list Z * str) s cmds gone :
  accepted (server s) = accepted w ++ cmds → denied (server s) = denied w ++ gone →
  (∀ i row, i ∈ g.1.2 → imap_tbl c !! i = Some row → flag_settled cmds gone row) →
  seen_inv c w s →
  seen_inv c w (MkSt (set_imap_markseen (filter (.∉ g.1.2)) (ctx s)) (session s) (server s)).
Proof.
  intros Hl Hd Hg (cmds' & gone' & Hl' & Hd' & Hs). rewrite Hl in Hl'. rewrite Hd in Hd'.
  apply (inj _) in Hl' as <-. apply (inj _) in Hd' as <-. exists cmds, gone. split_and!; [done..|]. intros i row Hi Hr Hn.
  cbn [ctx set_imap_markseen imap_markseen imap_tbl] in *.
  destruct (decide (i ∈ imap_markseen (ctx s))) as [Hin|Hout]; [|by apply Hs].
  destruct (decide (i ∈ g.1.2)) as [Hig|Hig]; [right; by apply (Hg i)|].
  exfalso. apply Hn, elem_of_filter. done.
Qed.

Lemma store_seen_group_run c w g s :
  seen_group c g → follows s → seen_inv c w s →
  ∃ s', store_seen_group g s = (s', Ok tt) ∧ follows s' ∧ seen_inv c w s'.
Proof.
  destruct g as [[folder ids] set]. intros (us & Hus & Hg) Hfo Hs. cbn [fst snd] in *. unfold store_seen_group.
  rewrite run_bind. unfold attempt at 1. destruct (select_with_uidvalidity folder s) as [s1 r] eqn:E.
  pose proof (preserves_run _ _ _ _ _ (preserves_follows_uidvalidity folder) E Hfo) as Hfo1.
  pose proof (preserves_run _ _ _ _ _ (select_keeps _ folder (seen_inv_kept c w)) E Hs) as Hs1.
  pose proof Hs1 as (cmds & gone & Hl1 & Hd1 & _).
  destruct r as [[|]|e]; [| |by exists s1].
  - assert (add_flag_finalized_with_set set SEEN_FLAG s1
            = (MkSt (ctx s1) (session s1) (uid_store (server s1) set SEEN_QUERY).1,
               (uid_store (server s1) set SEEN_QUERY).2)) as Hflag.
    { unfold add_flag_finalized_with_set. rewrite bool_decide_eq_false_2 by done. by rewrite run_bind, run_ret, run_command. }
    cbv zeta. rewrite run_bind. unfold attempt. rewrite Hflag.
    destruct (store_log (server s1) set SEEN_QUERY) as [Hl Hsel].
    pose proof (store_denied (server s1) set SEEN_QUERY) as Hd.
    pose proof (store_selected (server s1) set SEEN_QUERY) as Hsome.
    set (s2 := MkSt (ctx s1) (session s1) (uid_store (server s1) set SEEN_QUERY).1).
    assert (follows s2) as Hfo2 by (intros f Hf; cbn in *; rewrite Hsel; by apply Hfo1).
    destruct ((uid_store (server s1) set SEEN_QUERY).2) as [[]|e].
    + assert (selected (server s1) = Some folder) as Hcur.
      { destruct (select_agreed _ _ _ E) as [[Hf _] _]. destruct (Hfo1 folder Hf) as [?|Hnone]; [done|].
        destruct (Hsome eq_refl) as [? Hx]. congruence. }
      eexists. split; [reflexivity|]. split; [exact Hfo2|].
      apply (seen_finish c w (folder, ids, set) s2 (cmds ++ [(Some folder, Command.Store set SEEN_QUERY)]) gone).
      * cbn [server s2]. by rewrite Hl, Hl1, Hcur, (assoc_L (++)).
      * cbn [server s2]. congruence.
      * intros i row Hi Hr. left. destruct (Hg i Hi) as (row' & Hr' & Hf & Hu). rewrite Hr in Hr'. injection Hr' as <-.
        rewrite Hf. exists set, us. split_and!; [|done|done]. apply elem_of_app. right. by apply list_elem_of_singleton.
      * eapply seen_inv_log; [exact Hl| |exact Hs1]. by rewrite Hd, app_nil_r.
    + eexists. split; [reflexivity|]. split; [exact Hfo2|]. rewrite app_nil_r in Hl. by apply seen_inv_quiet.
  - cbv zeta. eexists. split; [reflexivity|]. split; [exact Hfo1|].
    destruct Hs as (cmds0 & gone0 & Hl0 & Hd0 & _). apply select_missing in E as Hden. rewrite Hd0 in Hden.
    apply (seen_finish c w (folder, ids, set) s1 cmds (gone0 ++ [folder])); [done|by rewrite (assoc_L (++))| |done].
    intros i row Hi Hr. right.
    destruct (Hg i Hi) as (row2 & Hr2 & Hf & _). rewrite Hr in Hr2. injection Hr2 as <-. rewrite Hf.
    apply elem_of_app. right. by apply list_elem_of_singleton.
Qed.

Lemma elem_of_seen transport_id c i u f :
  (i, u, f) ∈ seen_rows transport_id c →
  ∃ r, imap_tbl c !! i = Some r ∧ ImapRow.uid r = u ∧ ImapRow.folder r = f.
Proof.
  unfold seen_rows. rewrite elem_of_sort_by, list_elem_of_fmap.
  intros ([j r] & [= -> -> ->] & [_ Hin]%list_elem_of_filter). apply elem_of_map_to_list in Hin. eauto.
Qed.

Lemma seen_groups transport_id c g :
  (∀ i r, imap_tbl c !! i = Some r → valid_uid (ImapRow.uid r)) →
  g ∈ groups (seen_rows transport_id c) → seen_group c g.
Proof.
  intros Hv Hg. destruct (groups_ok (seen_rows transport_id c)) as (parts & Hj & Hp).
  { apply Forall_fmap, Forall_forall. intros [[i u] t] Hx.
    apply elem_of_seen in Hx as (r & Hr & <- & _). by apply (Hv i). }
  apply list_elem_of_lookup in Hg as [k Hk]. destruct (Forall2_lookup_r _ _ _ _ _ Hp Hk) as (part & Hpk & Hgo).
  destruct g as [[folder ids] set]. destruct Hgo as (_ & Hf & -> & (us & Hus & Hc) & _). exists us. split; [done|].
  intros i (x & -> & Hx)%list_elem_of_fmap.
  assert (x ∈ seen_rows transport_id c) as Hin.
  { rewrite <-Hj. apply list_elem_of_join. exists part. split; [done|]. by eapply list_elem_of_lookup_2. }
  pose proof (proj1 (Forall_forall _ _) Hf x Hx) as Hxf. destruct x as [[i u] f]. cbn in Hxf. subst f.
  destruct (elem_of_seen _ _ _ _ _ Hin) as (r & Hr & Hu & Hfo). exists r. split_and!; [done|done|].
  rewrite Hu. apply (Hc u), list_elem_of_fmap. by exists (i, u, folder).
Qed.

Lemma seen_loop c w gs s :
  (∀ g, g ∈ gs → seen_group c g) → follows s → seen_inv c w s →
  ∃ s', for_each gs store_seen_group s = (s', Ok tt) ∧ follows s' ∧ seen_inv c w s'.
Proof.
  revert s. induction gs as [|g gs IH]; intros s Hg Hfo Hs; cbn [for_each]; [by eauto|].
  destruct (store_seen_group_run c w g s (Hg g ltac:(left)) Hfo Hs) as (s1 & E & Hfo1 & Hs1).
  rewrite run_bind, E. apply IH; [|done|done]. intros g' Hg'. apply Hg. by right.
Qed.

(** C13: storing the flags of read messages never fails, and no flag is
    forgotten: a message leaves the list of flags to be stored only when during
    the call the server acknowledged flagging a set with its UID as seen, in its
    own folder, or answered that there is no such folder, or when its row is gone
    because the folder was renumbered.  The session must not take a folder for
    selected while the server has another; so it is when it is opened, and the
    call keeps it so. *)
Theorem seen_flags_not_lost (s : St W) :
  (∀ i row, imap_tbl (ctx s) !! i = Some row → valid_uid (ImapRow.uid row)) → follows s →
  ∃ s' cmds gone, store_seen_flags_on_imap s = (s', Ok tt) ∧ follows s'
  ∧ accepted (server s') = accepted (server s) ++ cmds ∧ denied (server s') = denied (server s) ++ gone
  ∧ ∀ i row, i ∈ imap_markseen (ctx s) → imap_tbl (ctx s) !! i = Some row → i ∉ imap_markseen (ctx s') →
      imap_tbl (ctx s') !! i = None ∨ flagged cmds (ImapRow.folder row) (ImapRow.uid row) ∨ ImapRow.folder row ∈ gone.
Proof.
  intros Hv Hfo. unfold store_seen_flags_on_imap. rewrite run_bind_table, run_gets.
  assert (seen_inv (ctx s) (server s) s) as Hinv.
  { exists [], []. rewrite !app_nil_r. split_and!; [done..|]. by intros i row Hi _ Hn. }
  destruct (get_config_bool (ctx s) Config.TeamProfile).
  { rewrite run_ret. destruct Hinv as (cmds & gone & Hl & Hd & Hs). by exists (MkSt (ctx s) (session s) (server s)), cmds, gone. }
  rewrite run_bind_table, run_modify, run_bind_asks, run_bind_table, run_gets. cbn [ctx session server].
  set (c1 := set_imap_markseen _ (ctx s)).
  assert (seen_inv (ctx s) (server s) (MkSt c1 (session s) (server s))) as Hinv1.
  { exists [], []. cbn [server]. rewrite !app_nil_r. split_and!; [done..|]. intros i row Hi Hr Hn. exfalso. apply Hn.
    unfold c1. cbn [ctx set_imap_markseen imap_markseen]. apply elem_of_filter. rewrite Hr. by split; [eexists|]. }
  destruct (seen_loop (ctx s) (server s)
    (groups (seen_rows (Session.transport_id (session s)) c1)) (MkSt c1 (session s) (server s))
    ltac:(intros g; by apply (seen_groups _ c1)) Hfo Hinv1)
    as (s' & Hrun & Hfo' & (cmds & gone & Hl & Hd & Hs)).
  exists s', cmds, gone. done.
Qed.

End told.

(** A check of every row, evaluated. *)
Lemma all_rows (p : ImapRow.t → bool) (t : gmap Z ImapRow.t) :
  forallb (λ kr, p kr.2) (map_to_list t) = true → ∀ i row, t !! i = Some row → p row = true.
Proof.
  rewrite forallb_forall. intros Hall i row Hi.
  exact (Hall (i, row) (proj1 (list_elem_of_In _ _) (proj2 (elem_of_map_to_list _ _ _) Hi))).
Qed.

Definition valid_uid_b (r : ImapRow.t) : bool := (1 <=? ImapRow.uid r)%Z && (ImapRow.uid r <=? u32_max)%Z.

Lemma valid_uid_b_true r : valid_uid_b r = true → valid_uid (ImapRow.uid r).
Proof. intros [H1%Z.leb_le H2%Z.leb_le]%andb_prop. by split. Qed.

(** ** A server *)

(** Folders with their UIDVALIDITY and UIDNEXT, what is selected, what was
    done, the folders that take no mail, and those it was asked for in vain. *)
Module Toy.
Record t := mk {
  folders : gmap str SelectedMailbox.t;
  current : option str;
  journal : list (option str * Command.t);
  full : gset str;
  refusals : list str;
}.

Definition run (cmd : Command.t) (ok : bool) (w : t) : t * result unit :=
  match current w with
  | Some _ =>
      if ok then (mk (folders w) (current w) (journal w ++ [(current w, cmd)]) (full w) (refusals w), Ok tt)
      else (w, Err "NO")
  | None => (w, Err "BAD")
  end.

#[global] Instance server : ImapServer t := {
  select w f :=
    match folders w !! f with
    | Some m => (mk (folders w) (Some f) (journal w) (full w) (refusals w), SelectAnswer.Selected m)
    | None => (mk (folders w) None (journal w) (full w) (refusals w ++ [f]), SelectAnswer.No)
    end;
  close w := (mk (folders w) None (journal w) (full w) (refusals w), Ok tt);
  status_uid_next w f := (w, Ok (folders w !! f ≫= SelectedMailbox.uid_next));
  uid_store w a b := run (Command.Store a b) true w;
  uid_mv w a b := run (Command.Move a b) (bool_decide (b ∉ full w)) w;
  uid_copy w a b := run (Command.Copy a b) (bool_decide (b ∉ full w)) w;
  uid_fetch w a b := (w, Ok ([], None));
}.

Lemma run_log cmd ok w :
  journal (run cmd ok w).1
    = journal w ++ match (run cmd ok w).2 with Ok _ => [(current w, cmd)] | Err _ => [] end
  ∧ current (run cmd ok w).1 = current w.
Proof.
  unfold run. destruct (current w) eqn:E; [destruct ok|]; cbn; by rewrite ?app_nil_r, ?E.
Qed.

#[global] Program Instance log : ImapLog t := { selected := current; accepted := journal; denied := refusals }.
Next Obligation. intros w f. cbn. destruct (folders w !! f); cbn; by rewrite ?app_nil_r. Qed.
Next Obligation. done. Qed.
Next Obligation. done. Qed.
Next Obligation. intros w a b. cbn. unfold run. by destruct (current w). Qed.
Next Obligation. intros w a b. cbn. unfold run. by destruct (current w). Qed.
Next Obligation. intros w f. cbn. by destruct (folders w !! f). Qed.
Next Obligation. intros w f. cbn. by destruct (folders w !! f). Qed.
Next Obligation. done. Qed.
Next Obligation. done. Qed.
Next Obligation. done. Qed.
Next Obligation. done. Qed.
Next Obligation. intros. apply run_log. Qed.
Next Obligation. intros. apply run_log. Qed.
Next Obligation. intros. apply run_log. Qed.
End Toy.

Definition INBOX : str := lit "INBOX".

(** Three messages to be deleted, one to be moved, one to stay. *)
Definition planned_mail : Ctx :=
  set_imap_sync <[(1%Z, INBOX) := ImapSyncRow.mk 7 12]>
    (set_imap (λ _, {[1%Z := ImapRow.mk 1 (lit "a@x") INBOX [] 4 7;
                      2%Z := ImapRow.mk 1 (lit "b@x") INBOX [] 5 7;
                      3%Z := ImapRow.mk 1 (lit "c@x") INBOX [] 9 7;
                      4%Z := ImapRow.mk 1 (lit "d@x") INBOX (lit "Spam") 6 7;
                      5%Z := ImapRow.mk 1 (lit "e@x") INBOX INBOX 7 7]}) empty_ctx).

Definition inbox_at (validity : Z) : SelectedMailbox.t := SelectedMailbox.mk (Some validity) (Some 12%Z).

(** A new session on a server with these folders. *)
Definition new_session (can_move : bool) : Session.t :=
  Session.mk 1 can_move false None None false false false.

Definition connected (can_move : bool) (folders : gmap str SelectedMailbox.t) (c : Ctx) : St Toy.t :=
  MkSt c (new_session can_move) (Toy.mk folders None [] ∅ []).

Definition at_work (can_move : bool) : St Toy.t :=
  final (select_with_uidvalidity INBOX) (connected can_move {[INBOX := inbox_at 7]} planned_mail).

Lemma at_work_ready can_move : ready INBOX (at_work can_move).
Proof. destruct can_move; split; try (by vm_compute); eexists; by vm_compute. Qed.

Lemma planned_uids can_move i row :
  imap_tbl (ctx (at_work can_move)) !! i = Some row → valid_uid (ImapRow.uid row).
Proof.
  intros H. assert (imap_tbl (ctx (at_work can_move)) = imap_tbl planned_mail) as E
    by (destruct can_move; vm_compute; reflexivity).
  rewrite E in H. apply valid_uid_b_true.
  refine (all_rows valid_uid_b (imap_tbl planned_mail) _ i row H). vm_compute. reflexivity.
Qed.

Example round_with_move :
  let s := final (move_delete_messages INBOX) (at_work true) in
  Toy.journal (server s)
    = [(Some INBOX, Command.Store (lit "4:5,9") (lit "+FLAGS (\Deleted)"));
       (Some INBOX, Command.Move (lit "6") (lit "Spam"))]
  ∧ dom (imap_tbl (ctx s)) = {[5%Z]}.
Proof. vm_compute. done. Qed.

(** Without MOVE the message is copied, and deleted in the next round. *)
Example rounds_without_move :
  let s1 := final (move_delete_messages INBOX) (at_work false) in
  let s2 := final (move_delete_messages INBOX) s1 in
  Toy.journal (server s2)
    = [(Some INBOX, Command.Store (lit "4:5,9") (lit "+FLAGS (\Deleted)"));
       (Some INBOX, Command.Copy (lit "6") (lit "Spam"));
       (Some INBOX, Command.Store (lit "6") (lit "+FLAGS (\Deleted)"))]
  ∧ dom (imap_tbl (ctx s2)) = {[5%Z]}.
Proof. vm_compute. done. Qed.

Lemma move_delete_settles_witness :
  let s := at_work true in
  ∃ cmds, accepted (server (final (move_delete_messages INBOX) s)) = accepted (server s) ++ cmds
  ∧ told INBOX cmds (removal []) 9%Z.
Proof.
  intros s.
  destruct (move_delete_settles INBOX s _ _ (at_work_ready true) (planned_uids true) (surjective_pairing _))
    as (cmds & Hlog & Hrows).
  exists cmds. split; [exact Hlog|].
  destruct (Hrows 3%Z _ eq_refl) as [Hleave _]. destruct Hleave as [[Hn _]|[[_ Ht]|[Hn _]]].
  - split_and!; [reflexivity|reflexivity|discriminate].
  - exfalso. apply Hn. vm_compute. reflexivity.
  - exact Ht.
  - exfalso. apply Hn. reflexivity.
Defined.

Lemma move_delete_only_planned_witness :
  let s := at_work false in
  ∃ cmds, accepted (server (final (move_delete_messages INBOX) s)) = accepted (server s) ++ cmds
  ∧ ∀ f cmd, (f, cmd) ∈ cmds → f = Some INBOX.
Proof.
  intros s.
  destruct (move_delete_only_planned INBOX s _ _ (at_work_ready false) (planned_uids false) (surjective_pairing _))
    as (cmds & Hlog & Hrows).
  exists cmds. split; [exact Hlog|]. intros f cmd Hin. apply (Hrows f cmd Hin).
Defined.

Lemma planned_mail_current : rows_current planned_mail.
Proof.
  intros i r Hr. apply Z.eqb_eq.
  refine (all_rows (λ r, ImapRow.uidvalidity r =?
    get_uidvalidity planned_mail (ImapRow.transport_id r) (ImapRow.folder r))%Z (imap_tbl planned_mail) _ i r Hr).
  vm_compute. reflexivity.
Qed.

Lemma select_sound_witness :
  let s := connected true {[INBOX := inbox_at 8]} planned_mail in
  let s' := final (select_with_uidvalidity INBOX) s in
  agreed INBOX (Some INBOX) s' ∧ rows_current (ctx s') ∧ imap_tbl (ctx s') = ∅.
Proof.
  intros s s'. destruct (select_sound INBOX s _ _ (surjective_pairing _)) as (H1 & _ & _ & H4).
  split; [apply H1; vm_compute; reflexivity|]. split; [exact (H4 planned_mail_current)|vm_compute; reflexivity].
Defined.

(** ** What the premises are for *)

(** A folder that does not exist leaves the server without a selected folder,
    but the session still takes the last one for selected: it does not select it
    again, and the next command fails. *)
Example failed_select_forgotten :
  let s1 := final (select_with_uidvalidity INBOX) (connected true {[INBOX := inbox_at 7]} planned_mail) in
  let s2 := final (select_with_uidvalidity (lit "Gone")) s1 in
  outcome (select_with_uidvalidity (lit "Gone")) s1 = Ok false
  ∧ Session.selected_folder (session s2) = Some INBOX ∧ Toy.current (server s2) = None
  ∧ outcome (move_delete_messages INBOX) s2 = Err "BAD".
Proof. vm_compute. done. Qed.

(** The rows are read before the folder is selected.  Where selecting shows that
    the folder was renumbered, the rows are dropped, but the flags are still
    stored under their old numbers, for messages that are other ones now. *)
Example renumbered_mail_marked_seen :
  let c := set_imap_markseen (λ _, {[5%Z]}) planned_mail in
  let s := final store_seen_flags_on_imap (connected true {[INBOX := inbox_at 8]} c) in
  Toy.journal (server s) = [(Some INBOX, Command.Store (lit "7") (lit "+FLAGS (\Seen)"))]
  ∧ get_uidvalidity (ctx s) 1 INBOX = 8%Z ∧ imap_tbl (ctx s) = ∅.
Proof. vm_compute. done. Qed.

(** So it is with messages to be deleted, when the folder is not selected yet. *)
Example renumbered_mail_deleted :
  let s := final (move_delete_messages INBOX) (connected true {[INBOX := inbox_at 8]} planned_mail) in
  Toy.journal (server s)
    = [(Some INBOX, Command.Store (lit "4:5,9") (lit "+FLAGS (\Deleted)"));
       (Some INBOX, Command.Move (lit "6") (lit "Spam"))].
Proof. vm_compute. done. Qed.

Lemma seen_flags_not_lost_witness :
  let s := connected true {[INBOX := inbox_at 7]} (set_imap_markseen (λ _, {[5%Z]}) planned_mail) in
  ∃ s' cmds, store_seen_flags_on_imap s = (s', Ok tt)
  ∧ accepted (server s') = accepted (server s) ++ cmds ∧ imap_markseen (ctx s') = ∅
  ∧ cmds = [(Some INBOX, Command.Store (lit "7") (lit "+FLAGS (\Seen)"))].
Proof.
  intros s. destruct (seen_flags_not_lost s) as (s' & cmds & gone & Hrun & _ & Hl & _).
  - intros i row H. apply valid_uid_b_true.
    refine (all_rows valid_uid_b (imap_tbl planned_mail) _ i row H). vm_compute. reflexivity.
  - intros f H. discriminate H.
  - exists s', cmds. split; [exact Hrun|]. split; [exact Hl|].
    assert (s' = final store_seen_flags_on_imap s) as -> by (unfold final; rewrite Hrun; reflexivity).
    split; [vm_compute; reflexivity|]. vm_compute in Hl. symmetry. exact Hl.
Defined.
