(* ===== verification/Fetch.v ===== *)
(** * Fetch: receiving mail from a folder ([imap.rs], [imap/session.rs],
    [download.rs]).

    Which messages are new, which of them to download, now or later, and how far
    the folder has been read; reading the UIDs of a folder anew; downloading
    what was put off.  The mail parser and what becomes of a received message
    are parameters. *)

From S2P Require Import Prelude Text Substr Store Labels Params Policy Threading Compose ContactTools Contacts Structured.
From S2P Require Import Truncate Chats Flowed WireText Drafts Send Smtp Seen UidSets Imap.

(** ** Headers *)

(** [get_first_value]: the first header of this name, in any case. *)
Definition get_header_value (headers : list (str * str)) (name : str) : option str :=
  snd <$> List.find (λ h, eq_ignore_ascii_case h.1 name) headers.

Definition parse_message_id (ids : str) : option str := head (parse_message_ids ids).

Definition prefetch_get_message_id (headers : list (str * str)) : option str :=
  msgid ← match get_header_value headers (lit "x-microsoft-original-message-id") with
          | Some v => Some v
          | None => get_header_value headers (lit "message-id")
          end;
  parse_message_id msgid.

Definition GENERATED_PREFIX : str := lit "GEN_".

(** ** What the database knows of a Message-ID *)

Definition bare_mid (rfc724_mid : str) : str := trim_end_matches 62 (trim_start_matches 60 rfc724_mid).

(** [rfc724_mid_exists_ext(.., "deleted=1")] is [Some (_, true)]: there are
    messages with this id, and all of them were deleted. *)
Definition deleted_here (c : Ctx) (rfc724_mid : str) : bool :=
  let mid := bare_mid rfc724_mid in
  let rows := filter (λ r, mid_matches mid r.2) (map_to_list (msgs c)) in
  negb (is_empty mid) && negb (is_empty rows) && forallb (λ r, Msg.deleted r.2) rows.

Definition DownloadState_Available : Z := 10.
Definition DownloadState_Failure : Z := 20.

Definition rfc724_mid_fetch_tried (c : Ctx) (rfc724_mid : str) : bool :=
  let mid := bare_mid rfc724_mid in
  negb (is_empty mid)
  && existsb (λ r, (bool_decide (Msg.rfc724_mid r.2 = Some mid)
                    && negb (Msg.download_state r.2 =? DownloadState_Available)%Z)
                   || bool_decide (Msg.pre_rfc724_mid r.2 = Some mid))
       (map_to_list (msgs c)).

(** ** What is received *)

Module ReceivedMsg.
Record t := mk { chat_id : Z; state : MessageState.t; sort_timestamp : Z }.
End ReceivedMsg.

(** [msgs_by_chat]: of every chat the message that sorts last. *)
Definition last_by_chat (msgs : list ReceivedMsg.t) : gmap Z ReceivedMsg.t :=
  foldl (λ m r,
    match m !! ReceivedMsg.chat_id r with
    | Some r' => if (ReceivedMsg.sort_timestamp r' <? ReceivedMsg.sort_timestamp r)%Z
                 then <[ReceivedMsg.chat_id r := r]> m else m
    | None => <[ReceivedMsg.chat_id r := r]> m
    end) ∅ msgs.

(** The rows of [UPDATE msgs SET state=InNoticed WHERE state=InFresh AND hidden=0
    AND chat_id=? AND timestamp<=?] *)
Definition noticed_by (r : ReceivedMsg.t) (m : Msg.t) : bool :=
  (Msg.state m =? MessageState.to_i64 MessageState.InFresh)%Z && negb (Msg.hidden m)
  && (Msg.chat_id m =? ReceivedMsg.chat_id r)%Z
  && match Msg.timestamp m with Some t => (t <=? ReceivedMsg.sort_timestamp r)%Z | None => false end.

Definition notice_until (r : ReceivedMsg.t) (m : Msg.t) : Msg.t :=
  if noticed_by r m then with_state (MessageState.to_i64 MessageState.InNoticed) m else m.

Definition start_chat_ephemeral_timers (chat_id : Z) (c : Ctx) : Ctx :=
  set_msgs (fmap (λ m, if (Msg.chat_id m =? chat_id)%Z then start_timer (clock c) m else m)) c.

Definition mark_old_messages_as_noticed (received : list ReceivedMsg.t) (c : Ctx) : Ctx :=
  if get_config_bool c Config.TeamProfile then c
  else
    let outgoing := filter (λ r, MessageState.is_outgoing (ReceivedMsg.state r) = true) received in
    let '(c, changed_chats) :=
      foldl (λ '(c, changed) r,
          (set_msgs (fmap (notice_until r)) c,
           if existsb (noticed_by r) (map_to_list (msgs c)).*2 then changed ++ [ReceivedMsg.chat_id r] else changed))
        (c, []) (map_to_list (last_by_chat outgoing)).*2 in
    foldl (λ c chat_id, start_chat_ephemeral_timers chat_id c) c changed_chats.

(** The mail parser (mailparse): the headers of a block, decoded; the address of
    a single From; the type of a Content-Type. *)
Class MailParser := {
  parse_headers : str → result (list (str * str));
  get_from : list (str * str) → option str;
  mimetype : str → str;
}.

(** What becomes of a message ([receive_imf_inner]), and the note of a failure
    ([add_device_msg]).  Neither writes how far a folder was read. *)
Class Receiver := {
  receive_imf_inner : str → str → bool → cmd Ctx (option ReceivedMsg.t);
  add_device_msg : string → cmd Ctx unit;
  receive_sync mid body seen c : imap_sync (receive_imf_inner mid body seen c).1 = imap_sync c;
  device_msg_sync e c : imap_sync (add_device_msg e c).1 = imap_sync c;
}.

(** What the first pass over the new messages collects. *)
Module Plan.
Record t := mk {
  uids_fetch : list Z;
  available_post_msgs : list str;
  download_later : list str;
  uid_message_ids : gmap Z str;
  largest_uid_skipped : option Z;
}.
Definition empty : t := mk [] [] [] ∅ None.
Definition fetch (uid : Z) (mid : str) (p : t) : t :=
  mk (uids_fetch p ++ [uid]) (available_post_msgs p) (download_later p) (<[uid := mid]> (uid_message_ids p))
    (largest_uid_skipped p).
Definition post (mid : str) (p : t) : t :=
  mk (uids_fetch p) (available_post_msgs p ++ [mid]) (download_later p) (uid_message_ids p) (largest_uid_skipped p).
Definition later (mid : str) (p : t) : t :=
  mk (uids_fetch p) (available_post_msgs p) (download_later p ++ [mid]) (uid_message_ids p) (largest_uid_skipped p).
Definition skip (uid : Z) (p : t) : t :=
  mk (uids_fetch p) (available_post_msgs p) (download_later p) (uid_message_ids p) (Some uid).
End Plan.

Section fetch.
Context `{!UnicodeCase, !SqlChoice, !MailParser, !Receiver, !ImapServer W}.
Context (create_keypair : str → result str).
(** The random part of the id made for a message without one, by its UID. *)
Context (create_id : Z → str).

(** ** Whom a message is from *)

(** [SELECT id, origin FROM contacts WHERE addr=?1 COLLATE NOCASE AND
    fingerprint<>'' AND id>?2 AND origin>=?3 AND blocked=?4
    ORDER BY last_seen DESC LIMIT 1] *)
Definition key_contact_by_addr (c : Ctx) (addr : str) : option (Z * ContactRow.t) :=
  let rows := filter (λ r, eq_ignore_ascii_case (ContactRow.addr r.2) addr = true
                           ∧ ContactRow.fingerprint r.2 ≠ [] ∧ (ContactId.LAST_SPECIAL < r.1)%Z
                           ∧ (Origin.to_i64 Origin.IncomingUnknownFrom ≤ ContactRow.origin r.2)%Z
                           ∧ ContactRow.blocked r.2 = false) (contact_rows c) in
  pick (filter (λ r, forallb (λ r', ContactRow.last_seen r'.2 <=? ContactRow.last_seen r.2)%Z rows = true) rows).

Definition from_field_to_contact_id (from_addr : str) (from_display_name : option str)
    (fingerprint : option str) (prevent_rename find_key_contact_by_addr : bool)
    : cmd Ctx (option (Z * bool * Origin.t)) :=
  let fingerprint := default [] fingerprint in
  let display_name := if prevent_rename then Some [] else from_display_name in
  match contact_address from_addr with
  | Err _ => mret None
  | Ok from_addr =>
      found ← gets (λ c, if is_empty fingerprint && find_key_contact_by_addr
                         then key_contact_by_addr c (addr_normalize from_addr) else None);
      match found with
      | Some (from_id, r) =>
          origin ← or_bail (Origin.from_i64 (ContactRow.origin r)) "FromSql: out of range";
          mret (Some (from_id, false, origin))
      | None =>
          added ← add_or_lookup_ext create_keypair (default [] display_name) from_addr fingerprint
                    Origin.IncomingUnknownFrom;
          let from_id := added.1 in
          if (from_id =? ContactId.SELF)%Z then mret (Some (ContactId.SELF, false, Origin.OutgoingBcc))
          else
            contact ← gets (λ c, get_contact c from_id);
            contact ← or_bail contact "contact not found";
            modify (set_contacts (alter (λ r, with_names (ContactRow.name r) from_addr (Contact.origin contact)
                                                (ContactRow.authname r) r) from_id)) ;;
            mret (Some (from_id, Contact.blocked contact, Contact.origin contact))
      end
  end.

Definition prefetch_should_download (headers : list (str * str)) (message_id : str) (flags : list Flag.t)
    : cmd Ctx bool :=
  tried ← gets (λ c, rfc724_mid_fetch_tried c message_id);
  if tried : bool then
    match get_from headers with
    | Some addr =>
        is_self ← gets (λ c, is_self_addr c addr);
        (if is_self : bool then modify (markseen_on_imap_table message_id) else mret tt) ;;
        mret false
    | None => mret false
    end
  else
    let maybe_ndn :=
      match get_header_value headers (lit "from") with
      | Some from => let from := ascii_lower <$> from in
                     contains_str (lit "mailer-daemon") from || contains_str (lit "mail-daemon") from
      | None => false
      end in
    match get_from headers with
    | None => mret false
    | Some from =>
        res ← from_field_to_contact_id from None None true true;
        match res with
        | None => mret false
        | Some (_, blocked_contact, _) =>
            let is_legacy_securejoin := bool_decide (is_Some (get_header_value headers (lit "secure-join"))) in
            let is_encrypted :=
              match get_header_value headers (lit "content-type") with
              | Some content_type => bool_decide (mimetype content_type = lit "multipart/encrypted")
              | None => false
              end in
            if bool_decide (Flag.Draft ∈ flags) then mret false
            else
              c ← gets id;
              mret (maybe_ndn
                    || (negb blocked_contact
                        && (is_legacy_securejoin || is_encrypted || negb (get_config_bool c Config.ForceEncryption))))
        end
    end.

(** ** Downloading *)

Definition BODY_FULL : str := lit "(FLAGS BODY.PEEK[])".

(** The channel of results: the UID of a message dealt with, and the message. *)
Definition Chan : Type := list (Z * option ReceivedMsg.t).

Definition inner {A} (m : cmd (St W) A) : cmd (St W * Chan) A := λ s,
  let '(s', r) := m s.1 in ((s', s.2), r).
Definition send (x : Z * option ReceivedMsg.t) : cmd (St W * Chan) unit := modify (λ s, (s.1, s.2 ++ [x])).

(** Look for a UID in the responses, keeping others that were requested. *)
Fixpoint find_response (request_uid : Z) (request_uids : list Z) (responses : list FetchResponse.t)
    (uid_msgs : gmap Z FetchResponse.t) : option FetchResponse.t * list FetchResponse.t * gmap Z FetchResponse.t :=
  match responses with
  | [] => (None, [], uid_msgs)
  | r :: rest =>
      match FetchResponse.uid r with
      | Some next_uid =>
          if (next_uid =? request_uid)%Z then (Some r, rest, uid_msgs)
          else if bool_decide (next_uid ∉ request_uids) then find_response request_uid request_uids rest uid_msgs
          else find_response request_uid request_uids rest (<[next_uid := r]> uid_msgs)
      | None => find_response request_uid request_uids rest uid_msgs
      end
  end.

(** What is done with a message the server sent. *)
Definition handle_response (uid_message_ids : gmap Z str) (request_uid : Z) (r : FetchResponse.t)
    : cmd (St W * Chan) unit :=
  if bool_decide (Flag.Deleted ∈ FetchResponse.flags r) then send (request_uid, None)
  else
    match FetchResponse.body r with
    | None => send (request_uid, None)
    | Some body =>
        let is_seen := bool_decide (Flag.Seen ∈ FetchResponse.flags r) in
        match uid_message_ids !! request_uid with
        | None => mret tt
        | Some rfc724_mid =>
            res ← inner (db (caught (receive_imf_inner rfc724_mid body is_seen)));
            received_msg ← match res with
                           | Err err => inner (db (add_device_msg err)) ;; mret None
                           | Ok msg => mret msg
                           end;
            send (request_uid, received_msg)
        end
    end.

(** The requests of one set; [failure] is the error the stream ends in. *)
Fixpoint fetch_requests (uid_message_ids : gmap Z str) (request_uids : list Z) (failure : option string)
    (todo : list Z) (responses : list FetchResponse.t) (uid_msgs : gmap Z FetchResponse.t) : cmd (St W * Chan) unit :=
  match todo with
  | [] =>
      (** the rest of the response is read and dropped *)
      match failure with Some e => bail e | None => mret tt end
  | request_uid :: todo =>
      let '(fetch_response, responses, uid_msgs) :=
        match uid_msgs !! request_uid with
        | Some r => (Some r, responses, delete request_uid uid_msgs)
        | None => find_response request_uid request_uids responses uid_msgs
        end in
      match fetch_response, failure with
      | None, Some e => bail e
      | None, None => fetch_requests uid_message_ids request_uids failure todo responses uid_msgs
      | Some r, _ =>
          handle_response uid_message_ids request_uid r ;;
          fetch_requests uid_message_ids request_uids failure todo responses uid_msgs
      end
  end.

Definition fetch_many_msgs (request_uids : list Z) (uid_message_ids : gmap Z str) : cmd (St W * Chan) unit :=
  if is_empty request_uids then mret tt
  else
    for_each (build_sequence_sets request_uids) (λ '(request_uids, set),
      fetch ← inner (command (λ w, uid_fetch w set BODY_FULL));
      fetch_requests uid_message_ids request_uids fetch.2 request_uids fetch.1 ∅).

(** [tokio::join!] of the download and the reader of its channel. *)
Definition with_channel (m : cmd (St W * Chan) unit) : cmd (St W) (Chan * result unit) := λ s,
  let '((s', ch), r) := m (s, []) in (s', Ok (ch, r)).

(** ** A batch of new messages *)

Definition PREFETCH_FLAGS : str :=
  lit "(UID RFC822.SIZE BODY.PEEK[HEADER.FIELDS (MESSAGE-ID DATE X-MICROSOFT-ORIGINAL-MESSAGE-ID FROM CONTENT-TYPE SECURE-JOIN CHAT-VERSION CHAT-IS-POST-MESSAGE AUTOCRYPT-SETUP-MESSAGE)])".
Definition RFC724MID_UID : str := lit "(UID BODY.PEEK[HEADER.FIELDS (MESSAGE-ID X-MICROSOFT-ORIGINAL-MESSAGE-ID)])".

(** [while let Some(msg) = list.try_next().await?]: all responses, or the error. *)
Definition all_responses (fetch : list FetchResponse.t * option string) : result (list FetchResponse.t) :=
  match fetch.2 with Some e => Err e | None => Ok fetch.1 end.

(** [BTreeMap::insert] of each response with a UID, in ascending order. *)
Definition by_uid (responses : list FetchResponse.t) : list (Z * FetchResponse.t) :=
  sort_by (λ a b, a.1 <=? b.1)%Z
    (map_to_list (foldl (λ m r, match FetchResponse.uid r with Some u => <[u := r]> m | None => m end)
                    (∅ : gmap Z FetchResponse.t) responses)).

(** [n_uids - 1] and the saturating addition are on [u32]. *)
Definition prefetch (uid_next n_uids : Z) : cmd (St W) (list (Z * FetchResponse.t)) :=
  let uid_last := Z.min u32_max (uid_next + (n_uids - 1)) in
  let set := show_Z uid_next ++ [COLON] ++ show_Z uid_last in
  fetch ← command (λ w, uid_fetch w set PREFETCH_FLAGS);
  responses ← lift (all_responses fetch);
  mret (by_uid responses).

Definition get_fetch_headers (prefetch_msg : FetchResponse.t) : result (list (str * str)) :=
  match FetchResponse.header prefetch_msg with
  | Some header_bytes => parse_headers header_bytes
  | None => Ok []
  end.

(** A message to be downloaded: at once or later, by its kind and size. *)
Definition plan_download (is_bot : bool) (download_limit : option Z) (headers : list (str * str))
    (uid size : Z) (message_id : str) (p : Plan.t) : Plan.t :=
  let fits := match download_limit with Some limit => (size <=? limit)%Z | None => true end in
  if bool_decide (is_Some (get_header_value headers (lit "chat-is-post-message"))) then
    let p := Plan.post message_id p in
    if is_bot && fits then Plan.fetch uid message_id p
    else Plan.skip uid (if fits then Plan.later message_id p else p)
  else if fits then Plan.fetch uid message_id p
  else Plan.skip uid (Plan.later message_id p).

Definition plan_message (folder : str) (transport_id uid_validity : Z) (download_limit : option Z)
    (p : Plan.t) (uid : Z) (fetch_response : FetchResponse.t) : cmd Ctx Plan.t :=
  match get_fetch_headers fetch_response with
  | Err _ => mret p
  | Ok headers =>
      let message_id := prefetch_get_message_id headers in
      size ← or_bail (FetchResponse.size fetch_response) "imap fetch response does not contain size";
      delete ← gets (λ c, match message_id with Some mid => deleted_here c mid | None => false end);
      let message_id := default (GENERATED_PREFIX ++ create_id uid) message_id in
      let target := if delete : bool then [] else folder in
      modify (upsert_imap (ImapRow.mk transport_id message_id folder target uid uid_validity)) ;;
      download ← (if bool_decide (folder = target)
                  then prefetch_should_download headers message_id (FetchResponse.flags fetch_response) else mret false);
      if download : bool then
        is_bot ← gets (λ c, get_config_bool c Config.Bot);
        mret (plan_download is_bot download_limit headers uid size message_id p)
      else mret (Plan.skip uid p)
  end.

Fixpoint plan_messages (folder : str) (transport_id uid_validity : Z) (download_limit : option Z)
    (p : Plan.t) (msgs : list (Z * FetchResponse.t)) : cmd Ctx Plan.t :=
  match msgs with
  | [] => mret p
  | (uid, r) :: msgs =>
      p ← plan_message folder transport_id uid_validity download_limit p uid r;
      plan_messages folder transport_id uid_validity download_limit p msgs
  end.

(** [get_config_parsed::<u32>(DownloadLimit).filter(|&l| 0 < l)] *)
Definition get_download_limit (c : Ctx) : option Z :=
  l ← get_config c Config.DownloadLimit ≫= parse_u32;
  if (0 <? l)%Z then Some l else None.

(** [INSERT OR IGNORE INTO available_post_msgs], [INSERT OR IGNORE INTO download] *)
Definition remember_later (p : Plan.t) (c : Ctx) : Ctx :=
  set_download (λ t, t ∪ list_to_map ((λ mid, (mid, 0%Z)) <$> Plan.download_later p))
    (set_available_post_msgs (λ t, t ∪ list_to_set (Plan.available_post_msgs p)) c).

Definition UIDS_TO_PREFETCH : Z := 500.

(** How far the folder is read, and whether there is more. *)
Definition advance (old_uid_next mailbox_uid_next largest_uid_fetched : Z) (largest_uid_skipped : option Z)
    (ok : bool) : Z * bool :=
  let new_uid_next := u32_add largest_uid_fetched 1 in
  if ok then
    let prefetch_uid_next := u32_add old_uid_next UIDS_TO_PREFETCH in
    let new_uid_next := Z.max new_uid_next (Z.min prefetch_uid_next mailbox_uid_next) in
    let new_uid_next := Z.max new_uid_next (u32_add (default 0%Z largest_uid_skipped) 1) in
    (new_uid_next, (prefetch_uid_next <? mailbox_uid_next)%Z)
  else (new_uid_next, false).

Definition fetched_ok {A} (r : result A) : bool := match r with Ok _ => true | Err _ => false end.

Definition fetch_new_msg_batch (folder : str) : cmd (St W) (nat * bool) :=
  transport_id ← asks Session.transport_id;
  uid_validity ← db (gets (λ c, get_uidvalidity c transport_id folder));
  old_uid_next ← db (gets (λ c, get_uid_next c transport_id folder));
  msgs ← prefetch old_uid_next UIDS_TO_PREFETCH;
  download_limit ← db (gets get_download_limit);
  plan ← db (plan_messages folder transport_id uid_validity download_limit Plan.empty msgs);
  mailbox ← asks Session.selected_mailbox;
  mailbox ← or_bail mailbox "Expected folder to be selected";
  let mailbox_uid_next := default 0%Z (SelectedMailbox.uid_next mailbox) in
  fetched ← with_channel (fetch_many_msgs (Plan.uids_fetch plan) (Plan.uid_message_ids plan));
  let '(received, fetch_res) := fetched in
  let largest_uid_fetched := foldr Z.max 0%Z received.*1 in
  let '(new_uid_next, fetch_more) :=
    advance old_uid_next mailbox_uid_next largest_uid_fetched (Plan.largest_uid_skipped plan) (fetched_ok fetch_res) in
  (if (old_uid_next <? new_uid_next)%Z then db (modify (set_uid_next transport_id folder new_uid_next)) else mret tt) ;;
  db (modify (mark_old_messages_as_noticed (omap snd received))) ;;
  (if fetched_ok fetch_res then db (modify (remember_later plan)) else mret tt) ;;
  lift fetch_res ;;
  mret (length msgs, fetch_more).

(** The loop of [fetch_new_messages]; [None] when the fuel runs out. *)
Fixpoint fetch_batches (fuel : nat) (folder : str) (read_cnt : nat) : cmd (St W) (option bool) :=
  match fuel with
  | O => mret None
  | S fuel =>
      batch ← fetch_new_msg_batch folder;
      let read_cnt := read_cnt + batch.1 in
      if negb batch.2 then mret (Some (0 <? read_cnt)) else fetch_batches fuel folder read_cnt
  end.

Definition fetch_new_messages (fuel : nat) (folder : str) : cmd (St W) (option bool) :=
  folder_exists ← select_with_uidvalidity folder;
  new_mail ← asks Session.new_mail;
  if negb new_mail then mret (Some false)
  else
    on_session (Session.set_new_mail false) ;;
    if negb folder_exists then mret (Some false) else fetch_batches fuel folder 0.

(** ** Reading the UIDs of a folder anew *)

Definition resync_insert (transport_id uid_validity : Z) (folder : str) (msgs : gmap Z str) (c : Ctx) : Ctx :=
  foldl (λ c um, upsert_imap (ImapRow.mk transport_id um.2 folder folder um.1 uid_validity) c)
    (delete_imap (λ _ r, (ImapRow.transport_id r =? transport_id)%Z && bool_decide (ImapRow.folder r = folder)) c)
    (sort_by (λ a b, a.1 <=? b.1)%Z (map_to_list msgs)).

(** The Message-IDs of the responses by UID. *)
Definition collect_message_ids (responses : list FetchResponse.t) : gmap Z str :=
  foldl (λ m r,
    match get_fetch_headers r with
    | Err _ => m
    | Ok headers =>
        match FetchResponse.uid r, prefetch_get_message_id headers with
        | Some uid, Some rfc724_mid => <[uid := rfc724_mid]> m
        | _, _ => m
        end
    end) ∅ responses.

Definition resync_uids_with_server (folder : str) : cmd (St W) unit :=
  folder_exists ← select_with_uidvalidity folder;
  transport_id ← asks Session.transport_id;
  found ← (if folder_exists : bool then
             fetch ← command (λ w, uid_fetch w (lit "1:*") RFC724MID_UID);
             responses ← lift (all_responses fetch);
             uid_validity ← db (gets (λ c, get_uidvalidity c transport_id folder));
             mret (uid_validity, collect_message_ids responses)
           else mret (0%Z, ∅));
  db (modify (resync_insert transport_id found.1 folder found.2)).

(** ** Messages put off *)

Definition DownloadState_Done : Z := 0.
Definition DownloadState_Undecipherable : Z := 30.
Definition DownloadState_InProgress : Z := 1000.

Definition with_download_state (st : Z) (m : Msg.t) : Msg.t := {|
  Msg.rfc724_mid := Msg.rfc724_mid m; Msg.pre_rfc724_mid := Msg.pre_rfc724_mid m;
  Msg.mime_in_reply_to := Msg.mime_in_reply_to m; Msg.mime_references := Msg.mime_references m;
  Msg.subject := Msg.subject m; Msg.txt := Msg.txt m; Msg.txt_normalized := Msg.txt_normalized m;
  Msg.timestamp := Msg.timestamp m; Msg.timestamp_sent := Msg.timestamp_sent m;
  Msg.timestamp_rcvd := Msg.timestamp_rcvd m; Msg.chat_id := Msg.chat_id m; Msg.from_id := Msg.from_id m;
  Msg.to_id := Msg.to_id m; Msg.state := Msg.state m; Msg.hidden := Msg.hidden m; Msg.param := Msg.param m;
  Msg.ephemeral_timer := Msg.ephemeral_timer m; Msg.ephemeral_timestamp := Msg.ephemeral_timestamp m;
  Msg.deleted := Msg.deleted m; Msg.typ := Msg.typ m; Msg.download_state := st;
|}.

(** The message is loaded only for the event, when a row was changed. *)
Definition update_download_state (msg_id download_state : Z) : cmd Ctx unit :=
  c ← gets id;
  match msgs c !! msg_id with
  | Some m =>
      if (Msg.download_state m =? download_state)%Z then mret tt
      else
        modify (set_msgs <[msg_id := with_download_state download_state m]>) ;;
        load_from_db_optional msg_id ;;
        mret tt
  | None => mret tt
  end.

(** [rfc724_mid] is the primary key of [download]. *)
Definition download_full (msg_id : Z) : cmd Ctx unit :=
  msg ← Structured.load_from_db msg_id;
  let st := Msg.download_state msg in
  if (st =? DownloadState_Done)%Z || (st =? DownloadState_Undecipherable)%Z then bail "Nothing to download."
  else if (st =? DownloadState_InProgress)%Z then bail "Download already in progress."
  else
    let rfc724_mid := default [] (Msg.rfc724_mid msg) in
    ensure (negb (is_empty rfc724_mid)) "Download not possible, message has no rfc724_mid" ;;
    update_download_state msg_id DownloadState_InProgress ;;
    queued ← gets (λ c, bool_decide (is_Some (download c !! rfc724_mid)));
    ensure (negb queued) "UNIQUE constraint failed: download.rfc724_mid" ;;
    modify (set_download <[rfc724_mid := msg_id]>).

Definition fetch_single_msg (folder : str) (uid : Z) (rfc724_mid : str) : cmd (St W) unit :=
  ensure (negb (uid =? 0)%Z) "Attempt to fetch UID 0" ;;
  folder_exists ← select_with_uidvalidity folder;
  ensure folder_exists "No folder" ;;
  fetched ← with_channel (fetch_many_msgs [uid] {[uid := rfc724_mid]});
  lift fetched.2 ;;
  ensure (negb (is_empty fetched.1)) "Failed to fetch UID".

Definition delete_from_available_post_msgs (rfc724_mid : str) : Ctx → Ctx :=
  set_available_post_msgs (λ t, t ∖ {[rfc724_mid]}).
Definition delete_from_downloads (rfc724_mid : str) : Ctx → Ctx := set_download (delete rfc724_mid).

(** Whether the message is available on this transport. *)
Definition download_msg (rfc724_mid : str) : cmd (St W) bool :=
  transport_id ← asks Session.transport_id;
  row ← db (gets (λ c, pick (filter (λ kr, ImapRow.rfc724_mid kr.2 = rfc724_mid ∧ ImapRow.target kr.2 ≠ []
                                           ∧ ImapRow.transport_id kr.2 = transport_id)
                               (map_to_list (imap_tbl c)))));
  match row with
  | None => db (modify (delete_from_available_post_msgs rfc724_mid)) ;; mret false
  | Some (_, r) => fetch_single_msg (ImapRow.folder r) (ImapRow.uid r) rfc724_mid ;; mret true
  end.

Definition set_state_to_failure (rfc724_mid : str) : cmd Ctx unit :=
  msg_id ← gets (λ c, rfc724_mid_exists c rfc724_mid);
  match msg_id with
  | Some msg_id => update_download_state msg_id DownloadState_Failure
  | None => mret tt
  end.

Definition msg_is_downloaded_for (c : Ctx) (rfc724_mid : str) : bool :=
  bool_decide (is_Some (rfc724_mid_exists c rfc724_mid)).

Definition download_queued (rfc724_mid : str) : cmd (St W) unit :=
  res ← caught (download_msg rfc724_mid);
  match res with
  | Ok true =>
      db (modify (delete_from_downloads rfc724_mid)) ;; db (modify (delete_from_available_post_msgs rfc724_mid))
  | Ok false => mret tt
  | Err _ =>
      here ← db (gets (λ c, msg_is_downloaded_for c rfc724_mid));
      if negb here then db (modify (delete_from_downloads rfc724_mid))
      else
        available ← db (gets (λ c, bool_decide (rfc724_mid ∈ available_post_msgs c)));
        if available : bool then
          db (set_state_to_failure rfc724_mid) ;;
          db (modify (delete_from_downloads rfc724_mid)) ;;
          db (modify (delete_from_available_post_msgs rfc724_mid))
        else mret tt
  end.

Definition download_msgs : cmd (St W) unit :=
  rfc724_mids ← db (gets (λ c, (map_to_list (download c)).*1));
  for_each rfc724_mids download_queued.

Definition download_lost_pre (rfc724_mid : str) : cmd (St W) unit :=
  here ← db (gets (λ c, msg_is_downloaded_for c rfc724_mid));
  if here : bool then db (modify (delete_from_available_post_msgs rfc724_mid))
  else
    res ← caught (download_msg rfc724_mid);
    match res with
    | Ok true => db (modify (delete_from_available_post_msgs rfc724_mid))
    | _ => mret tt
    end.

Definition download_known_post_messages_without_pre_message : cmd (St W) unit :=
  rfc724_mids ← db (gets (λ c, elements (available_post_msgs c)));
  for_each rfc724_mids download_lost_pre.
End fetch.

(** ** What a download leaves undone *)

Section downloads.
Context `{!UnicodeCase, !SqlChoice, !MailParser, !Receiver, !ImapServer W}.

(** The server answered a request for a set of messages and left one out. *)
Definition missed (uids : list Z) (u : Z) : Prop :=
  ∃ (w : W) us set fetch, (us, set) ∈ build_sequence_sets uids ∧ u ∈ us
  ∧ (uid_fetch w set BODY_FULL).2 = Ok fetch ∧ ∀ r, r ∈ fetch.1 → FetchResponse.uid r ≠ Some u.

Lemma find_response_spec u us responses stash found rest stash' :
  find_response u us responses stash = (found, rest, stash') →
  (∀ v, v ∈ us → v ≠ u → is_Some (stash !! v) ∨ (∃ r, r ∈ responses ∧ FetchResponse.uid r = Some v) →
     is_Some (stash' !! v) ∨ (∃ r, r ∈ rest ∧ FetchResponse.uid r = Some v))
  ∧ (found = None → ∀ r, r ∈ responses → FetchResponse.uid r ≠ Some u).
Proof.
  revert stash. induction responses as [|r responses IH]; intros stash; cbn [find_response].
  { intros [= <- <- <-]. split; [done|]. intros _ r Hr. by apply elem_of_nil in Hr. }
  assert (∀ stash2, find_response u us responses stash2 = (found, rest, stash') →
    FetchResponse.uid r ≠ Some u →
    (∀ v, v ∈ us → v ≠ u → is_Some (stash !! v) ∨ FetchResponse.uid r = Some v → is_Some (stash2 !! v)) →
    (∀ v, v ∈ us → v ≠ u → is_Some (stash !! v) ∨ (∃ r0, r0 ∈ r :: responses ∧ FetchResponse.uid r0 = Some v) →
       is_Some (stash' !! v) ∨ (∃ r0, r0 ∈ rest ∧ FetchResponse.uid r0 = Some v))
    ∧ (found = None → ∀ r0, r0 ∈ r :: responses → FetchResponse.uid r0 ≠ Some u)) as Hstep.
  { intros stash2 E Hu Hst. destruct (IH stash2 E) as [Ha Hb]. split.
    - intros v Hv Hne Hin. apply Ha; [done|done|].
      destruct Hin as [Hin|(r0 & [->|Hr0]%elem_of_cons & Hr)]; [left; apply Hst; auto..|right; eauto].
    - intros Hf r0 [->|Hr0]%elem_of_cons; [done|]. by apply Hb. }
  destruct (FetchResponse.uid r) as [n|] eqn:En.
  2: { intros E. apply (Hstep stash E); [done|]. by intros v _ _ [?|?]. }
  destruct (Z.eqb_spec n u) as [->|Hne].
  { intros [= <- <- <-]. split; [|done]. intros v Hv Hvu [Hs|(r0 & [->|Hr0]%elem_of_cons & Hr)];
      [by left|congruence|right; eauto]. }
  case_bool_decide as Hin; intros E.
  - apply (Hstep _ E); [congruence|]. intros v Hv _ [?|[= <-]]; [done|by destruct Hin].
  - apply (Hstep _ E); [congruence|]. intros v Hv _ Hs. destruct (decide (n = v)) as [->|Hnv].
    + rewrite lookup_insert_eq. eauto.
    + rewrite lookup_insert_ne by done. destruct Hs as [?|[= ?]]; [done|congruence].
Qed.

(** A run over the channel: it only grows, and by messages that were asked for. *)
Lemma handle_response_run mids u r (s : St W) ch s' ch' res :
  is_Some (mids !! u) → handle_response mids u r (s, ch) = ((s', ch'), res) →
  (res = Ok tt ∧ ∃ x, ch' = ch ++ [(u, x)]) ∨ (res ≠ Ok tt ∧ ch' = ch).
Proof.
  intros [mid Hmid]. unfold handle_response. case_bool_decide.
  { intros [= <- <- <-]. left. eauto. }
  destruct (FetchResponse.body r) as [body|]; [|intros [= <- <- <-]; left; eauto].
  rewrite Hmid. cbv zeta. rewrite run_bind. unfold inner at 1, Imap.db at 1, caught. cbn [fst snd].
  destruct (receive_imf_inner mid body _ (ctx s)) as [c1 [m|e]]; cbn [ctx session server].
  - rewrite run_bind, run_ret. intros [= <- <- <-]. left. eauto.
  - rewrite run_bind, run_bind. unfold inner, Imap.db. cbn [fst snd ctx session server].
    destruct (add_device_msg e c1) as [c2 [[]|e']]; cbn.
    + intros [= <- <- <-]. left. eauto.
    + intros [= <- <- <-]. right. done.
Qed.

(** A download deals with its requests in order: those [before] were sent on
    or left out by the server, those [after] were not reached. *)
Record split_run (lost : Z → Prop) (uids : list Z) (ch ch' : Chan) (res : result unit) : Prop := {
  split_before_after : ∃ before after added,
    uids = before ++ after ∧ ch' = ch ++ added ∧ (∀ u, u ∈ added.*1 → u ∈ before)
    ∧ (res = Ok tt → after = []) ∧ ∀ u, u ∈ before → u ∈ added.*1 ∨ lost u;
}.

Lemma split_run_weaken (P Q : Z → Prop) uids ch ch' res :
  (∀ u, u ∈ uids → P u → Q u) → split_run P uids ch ch' res → split_run Q uids ch ch' res.
Proof.
  intros HPQ [(before & after & added & -> & Ha & Hb & Hc & Hd)]. split. exists before, after, added.
  split_and!; try done. intros u Hu. destruct (Hd u Hu); [by left|right]. apply HPQ; [|done]. set_solver.
Qed.

Lemma split_run_stop P uids ch res : res ≠ Ok tt → split_run P uids ch ch res.
Proof.
  intros Hr. split. exists [], uids, []. split_and!; try done.
  - by rewrite app_nil_r.
  - intros u Hu. by apply elem_of_nil in Hu.
Qed.

Lemma split_run_app P us1 us2 ch ch1 ch' res :
  split_run P us1 ch ch1 (Ok tt) → split_run P us2 ch1 ch' res → split_run P (us1 ++ us2) ch ch' res.
Proof.
  intros [(b1 & a1 & d1 & -> & -> & Hb & Hc & Hd)] [(b2 & a2 & d2 & -> & -> & Kb & Kc & Kd)].
  rewrite (Hc eq_refl), app_nil_r. split. exists (b1 ++ b2), a2, (d1 ++ d2). rewrite fmap_app.
  split_and!; [by rewrite (assoc_L (++))|by rewrite (assoc_L (++))| |done|];
    intros u; rewrite ?elem_of_app; naive_solver.
Qed.

Lemma split_run_one (P : Z → Prop) u ch x : split_run P [u] ch (ch ++ [(u, x)]) (Ok tt).
Proof. split. exists [u], [], [(u, x)]. by split_and!; [..|intros v ?; left]. Qed.

Lemma split_run_lost (P : Z → Prop) u ch : P u → split_run P [u] ch ch (Ok tt).
Proof.
  intros HP. split. exists [u], [], []. rewrite (app_nil_r ch). split_and!; try done.
  - intros v Hv. by apply elem_of_nil in Hv.
  - intros v ->%list_elem_of_singleton. by right.
Qed.

Lemma fetch_requests_run mids us failure todo responses stash (s : St W) ch s' ch' res :
  (∀ u, u ∈ us → is_Some (mids !! u)) → (∀ u, u ∈ todo → u ∈ us) → NoDup todo →
  fetch_requests mids us failure todo responses stash (s, ch) = ((s', ch'), res) →
  split_run (λ u, stash !! u = None ∧ ∀ r, r ∈ responses → FetchResponse.uid r ≠ Some u) todo ch ch' res.
Proof.
  intros Hmids. revert responses stash s ch. induction todo as [|u todo IH]; intros responses stash s ch Hsub Hnd;
    cbn [fetch_requests].
  { destruct failure as [e|]; intros [= <- <- <-]; [by apply split_run_stop|].
    split. exists [], [], []. rewrite (app_nil_r ch). split_and!; try done; intros v Hv; by apply elem_of_nil in Hv. }
  apply NoDup_cons in Hnd as [Hu Hnd].
  destruct (match stash !! u with Some r => _ | None => _ end) as [[found rest] stash'] eqn:E.
  assert ((∀ v, v ∈ todo → stash' !! v = None ∧ (∀ r, r ∈ rest → FetchResponse.uid r ≠ Some v) →
             stash !! v = None ∧ ∀ r, r ∈ responses → FetchResponse.uid r ≠ Some v)
          ∧ (found = None → stash !! u = None ∧ ∀ r, r ∈ responses → FetchResponse.uid r ≠ Some u)) as [Hback Hnone].
  { destruct (stash !! u) as [r0|] eqn:Eu.
    - injection E as <- <- <-. split; [|done]. intros v Hv [Ha Hb]. split; [|done].
      rewrite lookup_delete_ne in Ha; [done|]. by intros ->.
    - destruct (find_response_spec _ _ _ _ _ _ _ E) as [Ha Hb]. split; [|auto].
      intros v Hv [Hc Hd]. assert (v ≠ u) as Hvu by by intros ->.
      pose proof (Ha v (Hsub v ltac:(by right)) Hvu) as Himp. split.
      + destruct (stash !! v) as [r|] eqn:Ev; [|done]. exfalso.
        destruct Himp as [[? ?]|(r0 & ? & ?)]; [left; eauto|congruence|by eapply Hd].
      + intros r Hr Hur. destruct Himp as [[? ?]|(r0 & ? & ?)]; [right; eauto|congruence|by eapply Hd]. }
  assert (∀ s1 ch1, fetch_requests mids us failure todo rest stash' (s1, ch1) = ((s', ch'), res) →
    split_run (λ v, stash !! v = None ∧ ∀ r, r ∈ responses → FetchResponse.uid r ≠ Some v) todo ch1 ch' res) as Htail.
  { intros s1 ch1 Hrun. apply (IH _ _ s1) in Hrun; [|intros v ?; apply Hsub; by right|done].
    eapply split_run_weaken; [exact Hback|exact Hrun]. }
  destruct found as [r|].
  - rewrite run_bind. destruct (handle_response mids u r (s, ch)) as [[s1 ch1] r1] eqn:Eh.
    apply handle_response_run in Eh as [[-> [x ->]]|[Hr ->]]; [|..|apply Hmids, Hsub; left].
    + intros Hrun. apply (split_run_app _ [u] todo _ (ch ++ [(u, x)])); [apply split_run_one|by eapply Htail].
    + destruct r1 as [[]|e]; [done|]. intros [= <- <- <-]. by apply split_run_stop.
  - destruct failure as [e|].
    + intros [= <- <- <-]. by apply split_run_stop.
    + intros Hrun. apply (split_run_app _ [u] todo _ ch); [apply split_run_lost, Hnone; done|by eapply Htail].
Qed.

Lemma fetch_sets_run uids mids sets (s : St W) ch s' ch' res :
  (∀ us set, (us, set) ∈ sets → (us, set) ∈ build_sequence_sets uids) →
  (∀ u, u ∈ mjoin sets.*1 → is_Some (mids !! u)) → NoDup (mjoin sets.*1) →
  for_each sets (λ '(request_uids, set),
    fetch ← inner (command (λ w, uid_fetch w set BODY_FULL));
    fetch_requests mids request_uids fetch.2 request_uids fetch.1 ∅) (s, ch) = ((s', ch'), res) →
  split_run (missed uids) (mjoin sets.*1) ch ch' res.
Proof.
  revert s ch. induction sets as [|[us set] sets IH]; intros s ch Hsub Hmids Hnd; cbn [for_each].
  { intros [= <- <- <-]. split. exists [], [], []. rewrite (app_nil_r ch).
    split_and!; try done; intros v Hv; by apply elem_of_nil in Hv. }
  rewrite fmap_cons in Hmids, Hnd |- *. cbn [mjoin list_join fst] in Hmids, Hnd |- *.
  apply NoDup_app in Hnd as (Hnd1 & _ & Hnd2). rewrite run_bind, run_bind. unfold inner at 1. cbn [fst snd].
  rewrite run_command. destruct ((uid_fetch (server s) set BODY_FULL).2) as [fetch|e] eqn:Ef.
  2: { intros [= <- <- <-]. by apply split_run_stop. }
  destruct (fetch_requests _ _ _ _ _ _ _) as [[s1 ch1] r1] eqn:Er. cbn [fst snd] in Er.
  apply fetch_requests_run in Er; [|intros u Hu; apply Hmids, elem_of_app; by left|done|done].
  apply (split_run_weaken _ (missed uids)) in Er.
  2: { intros u Hu [_ Hno]. exists (server s), us, set, fetch. split_and!; [apply Hsub; left|done|done|done]. }
  destruct r1 as [[]|e].
  - intros Hrun. eapply split_run_app; [exact Er|]. apply (IH s1); [|..|done|exact Hrun].
    + intros ? ? ?. apply Hsub. by right.
    + intros u Hu. apply Hmids, elem_of_app. by right.
  - intros [= <- <- <-]. destruct Er as [(b & a & d & -> & -> & Hb & Hc & Hd)]. split.
    exists b, (a ++ mjoin sets.*1), d. rewrite (assoc_L (++)). by split_and!.
Qed.

Lemma fetch_many_run uids mids (s : St W) s' ch res :
  Forall valid_uid uids → NoDup uids → (∀ u, u ∈ uids → is_Some (mids !! u)) →
  with_channel (fetch_many_msgs uids mids) s = (s', Ok (ch, res)) →
  split_run (missed uids) uids [] ch res.
Proof.
  intros Hv Hnd Hmids. unfold with_channel, fetch_many_msgs. destruct (build_sequence_sets_ok uids Hv) as [Hj _].
  destruct uids as [|u0 uids0]; cbn [is_empty].
  { intros [= <- <- <-]. split. exists [], [], []. split_and!; try done; intros v Hv'; by apply elem_of_nil in Hv'. }
  destruct (for_each _ _ _) as [[s1 ch1] r1] eqn:E. intros [= <- <- <-].
  apply (fetch_sets_run (u0 :: uids0)) in E; [by rewrite Hj in E|done|by rewrite Hj|by rewrite Hj].
Qed.
End downloads.

(** ** How far a folder is read *)

Section batches.
Context `{!UnicodeCase, !SqlChoice, !MailParser, !Receiver, !ImapServer W}.
Context (create_keypair : str → result str) (create_id : Z → str).

(** Nothing but the batch itself writes how far the folder was read. *)
Definition sync_is (X : gmap (Z * str) ImapSyncRow.t) (c : Ctx) : Prop := imap_sync c = X.

Lemma upsert_sync r c : imap_sync (upsert_imap r c) = imap_sync c.
Proof. unfold upsert_imap. by destruct (filter _ _) as [|[i r0] l]. Qed.

Lemma update_names_sync id c : imap_sync (update_chat_names id c) = imap_sync c.
Proof. unfold update_chat_names. repeat case_match; done. Qed.

Lemma add_or_lookup_sync X name addr fingerprint origin :
  preserves (sync_is X) (add_or_lookup_ext create_keypair name addr fingerprint origin).
Proof.
  unfold add_or_lookup_ext, self_fingerprint, generate_keypair, upsert_contact.
  preserve; (apply preserves_modify; intros c <-; unfold sync_is; by rewrite ?update_names_sync).
Qed.

Lemma plan_sync X folder t v limit p msgs :
  preserves (sync_is X) (plan_messages create_keypair create_id folder t v limit p msgs).
Proof.
  revert p. induction msgs as [|[u r] msgs IH]; intros p; cbn [plan_messages]; [auto with cmd|].
  apply preserves_bind; [|intros p'; apply IH].
  unfold plan_message, prefetch_should_download, from_field_to_contact_id.
  preserve; try apply add_or_lookup_sync;
    (apply preserves_modify; intros c <-; unfold sync_is; by rewrite ?upsert_sync).
Qed.

(** What survives a download. *)
Record kept_by_download (P : St W → Prop) : Prop := {
  kept_receive mid body seen : preserves P (Imap.db (receive_imf_inner mid body seen));
  kept_device e : preserves P (Imap.db (add_device_msg e));
  kept_fetch set items : preserves P (command (λ w, uid_fetch w set items));
}.

Lemma inner_keeps {A} (P : St W → Prop) (m : cmd (St W) A) :
  preserves P m → preserves (λ s : St W * Chan, P s.1) (inner m).
Proof. intros Hm s Hs. specialize (Hm s.1 Hs). unfold inner. by destruct (m s.1) as [s' [a|e]]. Qed.

Lemma handle_keeps P mids u r :
  kept_by_download P → preserves (λ s : St W * Chan, P s.1) (handle_response mids u r).
Proof.
  intros HP. unfold handle_response.
  assert (∀ x, preserves (λ s : St W * Chan, P s.1) (send x)) as Hsend by by intros x s Hs.
  preserve; try done; apply inner_keeps; [|apply (kept_device P HP)]. intros s Hs.
  match goal with |- context [receive_imf_inner ?m ?b ?x] => pose proof (kept_receive P HP m b x s Hs) as E end.
  unfold Imap.db, caught in *. destruct (receive_imf_inner _ _ _ (ctx s)) as [c' [a|e]]; exact E.
Qed.

Lemma requests_keep P mids us failure todo responses stash :
  kept_by_download P →
  preserves (λ s : St W * Chan, P s.1) (fetch_requests mids us failure todo responses stash).
Proof.
  intros HP. revert responses stash.
  induction todo as [|u todo IH]; intros responses stash; cbn [fetch_requests]; [by preserve|].
  destruct (match stash !! u with Some _ => _ | None => _ end) as [[[r|] rest] stash'].
  - apply preserves_bind; [by apply handle_keeps|intros _; apply IH].
  - destruct failure; [auto with cmd|apply IH].
Qed.

Lemma with_channel_keeps P uids mids :
  kept_by_download P → preserves P (with_channel (fetch_many_msgs uids mids : cmd (St W * Chan) unit)).
Proof.
  intros HP s Hs. unfold with_channel. destruct (fetch_many_msgs uids mids (s, [])) as [[s1 ch] r] eqn:E.
  refine (preserves_run (λ s : St W * Chan, P s.1) _ (s, []) (s1, ch) r _ E Hs).
  unfold fetch_many_msgs. preserve; [apply inner_keeps, (kept_fetch P HP)|by apply requests_keep].
Qed.

(** A download leaves that record and the session alone. *)
Definition kept (X : gmap (Z * str) ImapSyncRow.t) (se : Session.t) (s : St W) : Prop :=
  sync_is X (ctx s) ∧ session s = se.

Lemma download_kept X se : kept_by_download (kept X se).
Proof.
  split; intros.
  - intros s [Hs Hse]. unfold sync_is in *. pose proof (receive_sync mid body seen (ctx s)) as E.
    unfold Imap.db. destruct (receive_imf_inner _ _ _ (ctx s)) as [c' [a|e]]; split; cbn in *; congruence.
  - intros s [Hs Hse]. unfold sync_is in *. pose proof (device_msg_sync e (ctx s)) as E.
    unfold Imap.db. destruct (add_device_msg _ (ctx s)) as [c' [a|e']]; split; cbn in *; congruence.
  - intros s Hs. rewrite run_command. by case_match.
Qed.

(** ** The plan *)

(** What the plan says of the messages seen so far. *)
Record plan_inv (seen : list (Z * FetchResponse.t)) (p : Plan.t) : Prop := {
  plan_order : sublist (Plan.uids_fetch p) seen.*1;
  plan_ids u : u ∈ Plan.uids_fetch p → is_Some (Plan.uid_message_ids p !! u);
  plan_skipped k : Plan.largest_uid_skipped p = Some k → k ∈ seen.*1;
  plan_all u r : (u, r) ∈ seen → fetched_ok (get_fetch_headers r) = true →
    u ∈ Plan.uids_fetch p ∨ ∃ k, Plan.largest_uid_skipped p = Some k ∧ (u ≤ k)%Z;
}.

(** A message that is fetched, and one that is not. *)
Lemma plan_inv_fetch seen p u r mid ps ls :
  plan_inv seen p → (∀ v, v ∈ seen.*1 → v < u)%Z →
  plan_inv (seen ++ [(u, r)])
    (Plan.mk (Plan.uids_fetch p ++ [u]) ps ls (<[u := mid]> (Plan.uid_message_ids p)) (Plan.largest_uid_skipped p)).
Proof.
  intros [Ho Hi Hs Ha] Hlt. split; cbn.
  - rewrite fmap_app. apply sublist_app; [done|done].
  - intros v Hv. destruct (decide (v = u)) as [->|Hne]; [rewrite lookup_insert_eq; eauto|].
    rewrite lookup_insert_ne by done. apply Hi. set_solver.
  - intros k Hk. rewrite fmap_app. apply elem_of_app. left. by apply Hs.
  - intros v r' [Hv| [= -> ->]%list_elem_of_singleton]%elem_of_app Hok; [|left; set_solver].
    destruct (Ha v r' Hv Hok) as [Hin|Hk]; [left; set_solver|by right].
Qed.

Lemma plan_inv_skip seen p u r ps ls :
  plan_inv seen p → (∀ v, v ∈ seen.*1 → v < u)%Z →
  plan_inv (seen ++ [(u, r)]) (Plan.mk (Plan.uids_fetch p) ps ls (Plan.uid_message_ids p) (Some u)).
Proof.
  intros [Ho Hi Hs Ha] Hlt. split; cbn.
  - rewrite fmap_app. by apply sublist_inserts_r.
  - done.
  - intros k [= <-]. rewrite fmap_app. set_solver.
  - intros v r' [Hv| [= -> ->]%list_elem_of_singleton]%elem_of_app Hok; right; exists u; split; try done.
    assert (v < u)%Z; [|lia]. apply Hlt, list_elem_of_fmap. by exists (v, r').
Qed.

Lemma plan_inv_unread seen p u r :
  plan_inv seen p → fetched_ok (get_fetch_headers r) = false → plan_inv (seen ++ [(u, r)]) p.
Proof.
  intros [Ho Hi Hs Ha] Hr. split; [rewrite fmap_app; by apply sublist_inserts_r|done| |].
  - intros k Hk. rewrite fmap_app. apply elem_of_app. left. by apply Hs.
  - intros v r' [Hv| [= -> ->]%list_elem_of_singleton]%elem_of_app Hok; [by eapply Ha|congruence].
Qed.

Lemma plan_download_inv seen p u r is_bot limit headers size mid :
  plan_inv seen p → (∀ v, v ∈ seen.*1 → v < u)%Z →
  plan_inv (seen ++ [(u, r)]) (plan_download is_bot limit headers u size mid p).
Proof.
  intros Hp Hlt. unfold plan_download. cbv zeta. unfold Plan.fetch, Plan.skip, Plan.post, Plan.later.
  repeat case_match; cbn; (by apply plan_inv_fetch) || (by apply plan_inv_skip).
Qed.

Lemma plan_message_inv folder t v limit seen p u r c c' p' :
  plan_inv seen p → (∀ w, w ∈ seen.*1 → w < u)%Z →
  plan_message create_keypair create_id folder t v limit p u r c = (c', Ok p') → plan_inv (seen ++ [(u, r)]) p'.
Proof.
  intros Hp Hlt Hrun. unfold plan_message in Hrun.
  destruct (get_fetch_headers r) as [headers|e] eqn:Eh.
  2: { injection Hrun as <- <-. apply plan_inv_unread; [done|]. by rewrite Eh. }
  cbv zeta in Hrun. bind_inv Hrun as size c1 [-> _]%or_bail_ok_inv. rewrite run_bind_gets, run_bind_modify in Hrun.
  bind_inv Hrun as download c2 _. destruct download.
  - rewrite run_bind_gets, run_ret in Hrun. injection Hrun as <- <-. by apply plan_download_inv.
  - rewrite run_ret in Hrun. injection Hrun as <- <-. by apply plan_inv_skip.
Qed.

Lemma plan_messages_inv folder t v limit seen msgs p c c' p' :
  plan_inv seen p → StronglySorted Z.lt (seen ++ msgs).*1 →
  plan_messages create_keypair create_id folder t v limit p msgs c = (c', Ok p') → plan_inv (seen ++ msgs) p'.
Proof.
  revert seen p c. induction msgs as [|[u r] msgs IH]; intros seen p c Hp Hs; cbn [plan_messages].
  { rewrite app_nil_r. by intros [= <- <-]. }
  intros Hrun. bind_inv Hrun as p1 c1 E.
  assert (∀ w, w ∈ seen.*1 → w < u)%Z as Hlt.
  { intros w Hw. rewrite fmap_app in Hs. apply StronglySorted_app in Hs as (Hall & _).
    apply (Hall w u Hw). cbn. left. }
  rewrite (cons_middle (u, r)), (assoc_L (++)) in Hs |- *.
  eapply IH; [by eapply plan_message_inv|exact Hs|exact Hrun].
Qed.

Lemma sorted_strict (l : list Z) : StronglySorted Z.le l → NoDup l → StronglySorted Z.lt l.
Proof.
  induction 1 as [|x l Hl IH Hx]; [constructor|]. intros [Hn Hd]%NoDup_cons. constructor; [by apply IH|].
  apply Forall_forall. intros y Hy. pose proof (proj1 (Forall_forall _ _) Hx y Hy) as Hle. cbn in Hle.
  assert (x ≠ y) by by intros ->. lia.
Qed.

Lemma by_uid_sorted responses : StronglySorted Z.lt (by_uid responses).*1.
Proof.
  unfold by_uid. set (m := foldl _ _ _). apply sorted_strict.
  - pose proof (sort_by_key_sorted (fst : Z * FetchResponse.t → Z) (map_to_list m)) as Hs.
    induction Hs as [|x l Hl IH Hx]; [constructor|]. rewrite fmap_cons. constructor; [done|].
    apply Forall_fmap. eapply Forall_impl; [exact Hx|]. intros y Hy. by apply (key_le_iff fst).
  - unfold sort_by. rewrite merge_sort_Permutation. apply NoDup_fst_map_to_list.
Qed.

Lemma foldr_max_spec (l : list Z) :
  (∀ u, u ∈ l → u ≤ foldr Z.max 0 l)%Z ∧ (foldr Z.max 0%Z l = 0%Z ∨ foldr Z.max 0%Z l ∈ l) ∧ (0 ≤ foldr Z.max 0 l)%Z.
Proof.
  induction l as [|x l (IH1 & IH2 & IH3)]; cbn [foldr].
  { split_and!; [intros u Hu; by apply elem_of_nil in Hu|by left|lia]. }
  split_and!; [|destruct (Z.max_spec x (foldr Z.max 0%Z l)) as [[_ ->]|[_ ->]]|lia].
  - intros u [->|Hu]%elem_of_cons; [lia|]. specialize (IH1 u Hu). lia.
  - destruct IH2 as [->|IH2]; [by left|right; by right].
  - right. left.
Qed.

Lemma u32_small u : (0 ≤ u < u32_max)%Z → u32_add u 1 = (u + 1)%Z.
Proof. unfold u32_add, u32_max. intros. apply Z.mod_small. lia. Qed.

(** ** A batch *)

(** The three phases of a batch: what the server lists, the plan, the download. *)
Record phases (folder : str) (s : St W) (msgs : list (Z * FetchResponse.t)) (plan : Plan.t) (mailbox_uid_next : Z)
    (received : Chan) (res : result unit) (s3 : St W) : Prop := {
  phase_list : ∃ s1 c2 mailbox,
    prefetch (get_uid_next (ctx s) (Session.transport_id (session s)) folder) UIDS_TO_PREFETCH s = (s1, Ok msgs)
    ∧ plan_messages create_keypair create_id folder (Session.transport_id (session s))
        (get_uidvalidity (ctx s) (Session.transport_id (session s)) folder) (get_download_limit (ctx s1))
        Plan.empty msgs (ctx s1) = (c2, Ok plan)
    ∧ Session.selected_mailbox (session s) = Some mailbox
    ∧ mailbox_uid_next = default 0%Z (SelectedMailbox.uid_next mailbox)
    ∧ with_channel (fetch_many_msgs (Plan.uids_fetch plan) (Plan.uid_message_ids plan))
        (MkSt c2 (session s1) (server s1)) = (s3, Ok (received, res));
}.

Lemma prefetch_run uid_next n s s1 r :
  prefetch uid_next n s = (s1, r) →
  ctx s1 = ctx s ∧ session s1 = session s
  ∧ ∀ msgs, r = Ok msgs → ∃ set fetch,
      (uid_fetch (server s) set PREFETCH_FLAGS).2 = Ok (fetch, None) ∧ msgs = by_uid fetch.
Proof.
  unfold prefetch. cbv zeta. rewrite run_bind_command. destruct ((uid_fetch (server s) _ PREFETCH_FLAGS).2) as [[l o]|e] eqn:E.
  2: { by intros [= <- <-]. }
  unfold all_responses, lift. rewrite run_bind. destruct o as [e|]; cbn; intros [= <- <-]; [done|].
  split_and!; [done|done|]. intros msgs [= <-]. eauto.
Qed.

Lemma foldl_ind {A B} (P : A → Prop) (f : A → B → A) a l : P a → (∀ a x, P a → P (f a x)) → P (foldl f a l).
Proof. intros Ha Hf. revert a Ha. induction l; cbn [foldl]; auto. Qed.

Lemma notice_frame received c :
  let c' := mark_old_messages_as_noticed received c in
  imap_tbl c' = imap_tbl c ∧ imap_sync c' = imap_sync c ∧ download c' = download c
  ∧ available_post_msgs c' = available_post_msgs c.
Proof.
  set (same := λ c', imap_tbl c' = imap_tbl c ∧ imap_sync c' = imap_sync c ∧ download c' = download c
                     ∧ available_post_msgs c' = available_post_msgs c).
  cbv zeta. change (same (mark_old_messages_as_noticed received c)).
  unfold mark_old_messages_as_noticed. destruct (get_config_bool c _); [done|]. cbv zeta.
  match goal with |- context [foldl ?f (c, []) ?l] => assert (same (foldl f (c, []) l).1) as Hs end.
  { apply (foldl_ind (λ x, same x.1)); [done|]. by intros [c1 ch] r. }
  destruct (foldl _ (c, []) _) as [c1 changed]. cbn [fst] in Hs. by apply (foldl_ind same).
Qed.

(** What a batch does with the outcome of its phases. *)
Lemma batch_phases folder s msgs plan mailbox_uid_next received res s3 :
  phases folder s msgs plan mailbox_uid_next received res s3 →
  let t := Session.transport_id (session s) in
  let old := get_uid_next (ctx s) t folder in
  let '(new, more) := advance old mailbox_uid_next (foldr Z.max 0%Z received.*1) (Plan.largest_uid_skipped plan)
                        (fetched_ok res) in
  ∃ s', fetch_new_msg_batch create_keypair create_id folder s
          = (s', match res with Ok _ => Ok (length msgs, more) | Err e => Err e end)
  ∧ session s' = session s
  ∧ get_uid_next (ctx s') t folder = (if old <? new then new else old)%Z
  ∧ (fetched_ok res = true → download (ctx s') = download (ctx s3)
       ∪ list_to_map ((λ mid, (mid, 0%Z)) <$> Plan.download_later plan)
     ∧ available_post_msgs (ctx s') = available_post_msgs (ctx s3) ∪ list_to_set (Plan.available_post_msgs plan)).
Proof.
  intros [(s1 & c2 & mailbox & Hp & Hplan & Hm & Hu & Hf)]. cbv zeta. subst mailbox_uid_next.
  destruct (prefetch_run _ _ _ _ _ Hp) as (Hc1 & Hs1 & _).
  assert (imap_sync (ctx s3) = imap_sync (ctx s) ∧ session s3 = session s) as [Hsync Hse].
  { eapply (preserves_run _ _ _ _ _ (with_channel_keeps _ _ _ (download_kept (imap_sync (ctx s)) _)) Hf). split; [cbn [ctx]|exact Hs1].
    exact (preserves_run _ _ _ _ _ (plan_sync (imap_sync (ctx s)) _ _ _ _ _ _) Hplan (f_equal imap_sync Hc1)). }
  destruct (advance _ _ _ _ _) as [new more] eqn:Ea.
  unfold fetch_new_msg_batch. rewrite run_bind_asks, run_bind_table, run_gets, run_bind_table, run_gets.
  cbn [ctx session server]. assert (MkSt (ctx s) (session s) (server s) = s) as -> by by destruct s.
  rewrite run_bind, Hp, run_bind_table, run_gets. cbn [ctx session server].
  rewrite run_bind_table. cbn [ctx session server]. rewrite Hplan, run_bind_asks. cbn [session].
  rewrite Hs1, Hm. cbn [or_bail]. rewrite run_bind, run_ret. cbv zeta. rewrite run_bind. rewrite Hs1 in Hf. rewrite Hf, Ea.
  set (t := Session.transport_id (session s)) in *. set (old := get_uid_next (ctx s) t folder) in *.
  assert (∃ c4, (if (old <? new)%Z then Imap.db (modify (set_uid_next t folder new)) else mret tt) s3
                = (MkSt c4 (session s3) (server s3), Ok tt)
          ∧ get_uid_next c4 t folder = (if old <? new then new else old)%Z
          ∧ download c4 = download (ctx s3) ∧ available_post_msgs c4 = available_post_msgs (ctx s3))
    as (c4 & E4 & Hn4 & Hd4 & Hp4).
  { destruct (old <? new)%Z.
    - eexists. split; [reflexivity|]. split; [|done]. unfold get_uid_next at 1.
      cbn [set_uid_next set_imap_sync imap_sync]. by rewrite lookup_insert_eq.
    - exists (ctx s3). split; [by destruct s3|]. split; [|done]. unfold old, get_uid_next. by rewrite Hsync. }
  rewrite run_bind, E4, run_bind_table, run_modify. cbn [ctx session server].
  set (c5 := mark_old_messages_as_noticed _ c4).
  destruct (notice_frame (omap snd received) c4) as (_ & Hi5 & Hd5 & Hp5). fold c5 in Hi5, Hd5, Hp5.
  assert (get_uid_next c5 t folder = get_uid_next c4 t folder) as Hn5 by (unfold get_uid_next; by rewrite Hi5).
  destruct res as [[]|e]; cbn [fetched_ok].
  - rewrite run_bind_table, run_modify. unfold lift. rewrite run_bind, run_ret. eexists. split; [reflexivity|].
    split; [done|]. split; [etrans; [exact Hn5|exact Hn4]|]. intros _. cbn [ctx]. unfold remember_later.
    cbn [set_download set_available_post_msgs download available_post_msgs]. split; congruence.
  - rewrite run_bind, run_ret. unfold lift. rewrite run_bind. eexists. split; [reflexivity|].
    split; [done|]. split; [etrans; [exact Hn5|exact Hn4]|done].
Qed.

Lemma sorted_split (before after : list Z) :
  StronglySorted Z.lt (before ++ after) → ∀ u v, u ∈ before → v ∈ after → (u < v)%Z.
Proof. intros [Hs _]%StronglySorted_app. auto. Qed.

Lemma Forall_sublist {A} (P : A → Prop) (l k : list A) : sublist l k → Forall P k → Forall P l.
Proof. intros Hsub Hk. apply Forall_forall. intros x Hx. by eapply (proj1 (Forall_forall _ _) Hk), elem_of_sublist. Qed.

Lemma sublist_sorted (l k : list Z) : sublist l k → StronglySorted Z.lt k → StronglySorted Z.lt l.
Proof.
  induction 1 as [|x l k Hsub IH|x l k Hsub IH]; intros Hs; [done|..]; apply StronglySorted_inv in Hs as [Hs Hx].
  - constructor; [by apply IH|]. eapply Forall_sublist; eauto.
  - by apply IH.
Qed.

Lemma sorted_nodup (l : list Z) : StronglySorted Z.lt l → NoDup l.
Proof.
  induction 1 as [|x l _ IH Hx]; constructor; [|done]. intros Hin.
  pose proof (proj1 (Forall_forall _ _) Hx x Hin) as Hlt. cbn in Hlt. lia.
Qed.

(** The facts about the plan of a batch. *)
Lemma phases_facts folder s msgs plan mailbox_uid_next received res s3 :
  phases folder s msgs plan mailbox_uid_next received res s3 →
  Forall (λ m, 1 ≤ m.1 < u32_max)%Z msgs →
  plan_inv msgs plan ∧ StronglySorted Z.lt (Plan.uids_fetch plan)
  ∧ split_run (missed (W := W) (Plan.uids_fetch plan)) (Plan.uids_fetch plan) [] received res.
Proof.
  intros [(s1 & c2 & mailbox & Hp & Hplan & _ & _ & Hf)] Hv.
  destruct (prefetch_run _ _ _ _ _ Hp) as (_ & _ & Hl). destruct (Hl msgs eq_refl) as (set & fetch & _ & Hby).
  assert (StronglySorted Z.lt msgs.*1) as Hs by (rewrite Hby; apply by_uid_sorted).
  assert (plan_inv msgs plan) as Hi.
  { apply (plan_messages_inv _ _ _ _ [] msgs) in Hplan; [done| |done]. split; cbn; [constructor|..].
    - intros u Hu. by apply elem_of_nil in Hu.
    - done.
    - intros u r Hu. by apply elem_of_nil in Hu. }
  pose proof (sublist_sorted _ _ (plan_order _ _ Hi) Hs) as Hsf. split_and!; [done|done|].
  refine (fetch_many_run _ _ _ _ _ _ _ (sorted_nodup _ Hsf) (plan_ids _ _ Hi) Hf).
  eapply Forall_sublist; [exact (plan_order _ _ Hi)|]. apply Forall_fmap. eapply Forall_impl; [exact Hv|].
  intros m Hm. cbn in Hm |- *. unfold valid_uid. lia.
Qed.

(** C4: a batch of new messages never goes back in the folder, and it passes no
    message over: a message that was to be downloaded and has a number below the
    new UIDNEXT was received, or the server left it out of its answer.  So
    when the download fails, what was not reached is listed again.  When it
    succeeds, every listed message with readable headers is below the new
    UIDNEXT or was left out, and those put off are remembered. *)
Theorem fetch_batch_exact (folder : str) (s s3 : St W) (msgs : list (Z * FetchResponse.t)) (plan : Plan.t)
    (mailbox_uid_next : Z) (received : Chan) (res : result unit) :
  let t := Session.transport_id (session s) in
  let old := get_uid_next (ctx s) t folder in
  phases folder s msgs plan mailbox_uid_next received res s3 →
  Forall (λ m, 1 ≤ m.1 < u32_max ∧ old ≤ m.1)%Z msgs →
  ∃ s' r, fetch_new_msg_batch create_keypair create_id folder s = (s', r)
  ∧ let new := get_uid_next (ctx s') t folder in
    (old ≤ new)%Z
  ∧ (∀ u, u ∈ Plan.uids_fetch plan → (u < new)%Z →
       u ∈ received.*1 ∨ missed (W := W) (Plan.uids_fetch plan) u)
  ∧ (∀ e, res = Err e → r = Err e)
  ∧ (res = Ok tt →
       (∀ u resp, (u, resp) ∈ msgs → fetched_ok (get_fetch_headers resp) = true →
          (u < new)%Z ∨ missed (W := W) (Plan.uids_fetch plan) u)
       ∧ (∀ mid, mid ∈ Plan.download_later plan → is_Some (download (ctx s') !! mid))
       ∧ (∀ mid, mid ∈ Plan.available_post_msgs plan → mid ∈ available_post_msgs (ctx s'))).
Proof.
  intros t old Hph Hv.
  destruct (phases_facts _ _ _ _ _ _ _ _ Hph) as (Hi & Hs & [(before & after & added & Hu & Hadd & Hsub & Hend & Hdone)]).
  { eapply Forall_impl; [exact Hv|]. by intros m [? _]. }
  cbn [app] in Hadd. subst added. pose proof (batch_phases _ _ _ _ _ _ _ _ Hph) as Hb. cbv zeta in Hb. fold t in Hb. fold old in Hb.
  set (largest := foldr Z.max 0%Z received.*1) in *. destruct (foldr_max_spec received.*1) as (Hm1 & Hm2 & Hm3).
  fold largest in Hm1, Hm2, Hm3.
  assert (∀ u, u ∈ msgs.*1 → 1 ≤ u < u32_max ∧ old ≤ u)%Z as Hrange.
  { intros u (m & -> & Hm)%list_elem_of_fmap. exact (proj1 (Forall_forall _ _) Hv m Hm). }
  assert (∀ u, u ∈ Plan.uids_fetch plan → u ∈ msgs.*1) as Hfm.
  { intros u Huf. exact (elem_of_sublist _ _ _ Huf (plan_order _ _ Hi)). }
  assert (0 ≤ largest < u32_max)%Z as Hlr.
  { split; [done|]. destruct Hm2 as [->|Hin]; [by vm_compute|].
    apply Hrange, Hfm. rewrite Hu. apply elem_of_app. left. by apply Hsub. }
  pose proof (u32_small largest Hlr) as Hl1. unfold advance in Hb. rewrite Hl1 in Hb.
  destruct res as [[]|e]; cbn [fetched_ok] in Hb.
  - destruct Hb as (s' & Hrun & _ & Hnew & Hrem). destruct (Hrem eq_refl) as [Hd Hp]. exists s'. eexists. split; [exact Hrun|].
    cbv zeta. rewrite Hnew. set (skip1 := u32_add (default 0%Z (Plan.largest_uid_skipped plan)) 1).
    match goal with |- context [(old <? ?n)%Z] => set (new := n) end.
    assert (new ≤ (if (old <? new) then new else old) ∧ old ≤ (if (old <? new) then new else old))%Z as [Hge Hold]
      by (destruct (Z.ltb_spec old new); lia).
    assert (largest + 1 ≤ new ∧ skip1 ≤ new)%Z as [Hn1 Hn2] by (unfold new; lia).
    split; [done|]. split; [|split; [done|]].
    { intros u Huf _. apply Hdone. rewrite Hu, (Hend eq_refl), app_nil_r in Huf. done. }
    intros _. split_and!.
    + intros u resp Hin Hok. destruct (plan_all _ _ Hi u resp Hin Hok) as [Huf|(k & Hk & Hle)].
      * rewrite Hu, (Hend eq_refl), app_nil_r in Huf. destruct (Hdone u Huf) as [Hr|?]; [left|by right].
        specialize (Hm1 u Hr). lia.
      * left. assert (skip1 = k + 1)%Z; [|lia]. unfold skip1. rewrite Hk. cbn. apply u32_small.
        destruct (Hrange k (plan_skipped _ _ Hi k Hk)). lia.
    + intros mid Hmid. rewrite Hd. apply lookup_union_is_Some. right.
      apply elem_of_dom. rewrite dom_list_to_map_L, <-list_fmap_compose, elem_of_list_to_set.
      apply list_elem_of_fmap. exists mid. split; [done|exact Hmid].
    + intros mid Hmid. rewrite Hp. set_solver.
  - destruct Hb as (s' & Hrun & _ & Hnew & _). exists s'. eexists. split; [exact Hrun|]. cbv zeta. rewrite Hnew.
    split; [destruct (Z.ltb_spec old (largest + 1)); lia|]. split; [|split; [by intros e' [= ->]|done]].
    intros u Huf Hlt. rewrite Hu in Huf. apply elem_of_app in Huf as [Hb|Ha]; [by apply Hdone|exfalso].
    assert (u ∈ Plan.uids_fetch plan) as Huf by (rewrite Hu; set_solver).
    destruct (Hrange u (Hfm u Huf)) as [? ?].
    assert (largest < u)%Z.
    { destruct Hm2 as [->|Hin]; [lia|]. rewrite Hu in Hs. by apply (sorted_split before after Hs); [apply Hsub|]. }
    destruct (Z.ltb_spec old (largest + 1)); lia.
Qed.

(** ** The loop over batches ends *)

Lemma by_uid_in responses u r : (u, r) ∈ by_uid responses → r ∈ responses ∧ FetchResponse.uid r = Some u.
Proof.
  unfold by_uid. rewrite elem_of_sort_by, elem_of_map_to_list.
  enough (∀ (m : gmap Z FetchResponse.t) seen,
    (∀ u r, m !! u = Some r → r ∈ seen ∧ FetchResponse.uid r = Some u) →
    ∀ u r, foldl (λ m r, match FetchResponse.uid r with Some u => <[u := r]> m | None => m end) m responses !! u = Some r →
      r ∈ seen ++ responses ∧ FetchResponse.uid r = Some u) as Hgen.
  { apply (Hgen ∅ []). intros ? ? Hl. by rewrite lookup_empty in Hl. }
  clear u r. induction responses as [|x responses IH]; intros m seen Hm u r; cbn [foldl].
  { rewrite app_nil_r. apply Hm. }
  rewrite (cons_middle x), (assoc_L (++)). apply IH. intros v y Hl.
  destruct (FetchResponse.uid x) as [n|] eqn:En; [destruct (decide (n = v)) as [->|Hne]|].
  - rewrite lookup_insert_eq in Hl. injection Hl as <-. split; [set_solver|done].
  - rewrite lookup_insert_ne in Hl by done. destruct (Hm v y Hl). split; [set_solver|done].
  - destruct (Hm v y Hl). split; [set_solver|done].
Qed.

Lemma batch_ok_phases folder s s' n more :
  fetch_new_msg_batch create_keypair create_id folder s = (s', Ok (n, more)) →
  ∃ msgs plan mailbox_uid_next received s3, phases folder s msgs plan mailbox_uid_next received (Ok tt) s3.
Proof.
  unfold fetch_new_msg_batch. intros Hrun. rewrite run_bind_asks, run_bind_table, run_gets, run_bind_table, run_gets in Hrun.
  cbn [ctx session server] in Hrun. assert (MkSt (ctx s) (session s) (server s) = s) as E0 by by destruct s.
  rewrite E0 in Hrun. bind_inv Hrun as msgs s1 Hp. destruct (prefetch_run _ _ _ _ _ Hp) as (Hc1 & Hs1 & _).
  rewrite run_bind_table, run_gets, run_bind_table in Hrun. cbn [ctx session server] in Hrun.
  destruct (plan_messages _ _ _ _ _ _ _ _ (ctx s1)) as [c2 [plan|e]] eqn:Hplan; [|done].
  rewrite run_bind_asks in Hrun. cbn [session] in Hrun. bind_inv Hrun as mailbox s2 [-> Hm]%or_bail_ok_inv.
  cbv zeta in Hrun. bind_inv Hrun as fetched s3 Hf. destruct fetched as [received res].
  exists msgs, plan, (default 0%Z (SelectedMailbox.uid_next mailbox)), received, s3. split. exists s1, c2, mailbox.
  rewrite Hs1 in Hm. split_and!; try done.
  destruct res as [[]|e]; [done|exfalso]. destruct (advance _ _ _ _ _) as [new more'].
  bind_inv Hrun as [] s4 _. rewrite run_bind_table, run_modify in Hrun. cbn [fetched_ok] in Hrun.
  rewrite run_bind, run_ret in Hrun. by rewrite run_bind in Hrun.
Qed.

(** All numbers the server gives stay [limit] below the end of the range. *)
Definition numbers_below (limit : Z) : Prop :=
  ∀ (w : W) set items fetch o, (uid_fetch w set items).2 = Ok (fetch, o) →
    ∀ r u, r ∈ fetch → FetchResponse.uid r = Some u → (1 ≤ u < limit)%Z.

Definition mailbox_next (s : St W) : Z :=
  default 0%Z (Session.selected_mailbox (session s) ≫= SelectedMailbox.uid_next).

(** One batch that asks for more has come five hundred numbers further. *)
Lemma batch_progress limit folder s s' n more :
  let t := Session.transport_id (session s) in
  numbers_below limit → (1 ≤ limit)%Z → (limit + UIDS_TO_PREFETCH ≤ u32_max)%Z →
  (0 ≤ get_uid_next (ctx s) t folder ≤ limit)%Z → (mailbox_next s ≤ limit)%Z →
  fetch_new_msg_batch create_keypair create_id folder s = (s', Ok (n, more)) →
  session s' = session s ∧ (0 ≤ get_uid_next (ctx s') t folder ≤ limit)%Z
  ∧ (more = true → get_uid_next (ctx s) t folder + UIDS_TO_PREFETCH < mailbox_next s
                   ∧ get_uid_next (ctx s) t folder + UIDS_TO_PREFETCH ≤ get_uid_next (ctx s') t folder)%Z.
Proof.
  intros t Hnum Hpos Hlim Hold Hmb Hrun. destruct (batch_ok_phases _ _ _ _ _ Hrun) as (msgs & plan & mun & received & s3 & Hph).
  pose proof (batch_phases _ _ _ _ _ _ _ _ Hph) as Hb. cbv zeta in Hb. fold t in Hb.
  set (old := get_uid_next (ctx s) t folder) in *.
  assert (∀ u, u ∈ msgs.*1 → 1 ≤ u < limit)%Z as Hrange.
  { destruct Hph as [(s1 & c2 & mailbox & Hp & _)]. destruct (prefetch_run _ _ _ _ _ Hp) as (_ & _ & Hl).
    destruct (Hl msgs eq_refl) as (set & fetch & Hfe & ->). intros u ([u' r] & -> & Hin)%list_elem_of_fmap.
    destruct (by_uid_in _ _ _ Hin). by eapply Hnum. }
  destruct (phases_facts _ _ _ _ _ _ _ _ Hph) as (Hi & _ & [(before & after & added & Hu & Hadd & Hsub & _ & _)]).
  { apply Forall_forall. intros m Hm. destruct (Hrange m.1); [by apply list_elem_of_fmap_2|].
    unfold UIDS_TO_PREFETCH, u32_max in *. lia. }
  cbn [app] in Hadd. subst added.
  assert (mun = mailbox_next s) as ->.
  { destruct Hph as [(s1 & c2 & mailbox & _ & _ & Hm & -> & _)]. unfold mailbox_next. by rewrite Hm. }
  set (largest := foldr Z.max 0%Z received.*1) in *. destruct (foldr_max_spec received.*1) as (_ & Hm2 & Hm3).
  fold largest in Hm2, Hm3.
  assert (0 ≤ largest < limit)%Z as Hlr.
  { split; [exact Hm3|]. destruct Hm2 as [Hz|Hin]; [lia|]. apply Hrange.
    refine (elem_of_sublist (Plan.uids_fetch plan) _ largest _ (plan_order _ _ Hi)).
    rewrite Hu. apply elem_of_app. left. by apply Hsub. }
  assert (0 ≤ default 0%Z (Plan.largest_uid_skipped plan) < limit)%Z as Hsk.
  { destruct (Plan.largest_uid_skipped plan) as [k|] eqn:Ek; cbn; [|lia].
    destruct (Hrange k (plan_skipped _ _ Hi k Ek)). lia. }
  assert (u32_add old UIDS_TO_PREFETCH = old + UIDS_TO_PREFETCH)%Z as Hadd.
  { unfold u32_add, UIDS_TO_PREFETCH, u32_max in *. apply Z.mod_small. lia. }
  unfold advance in Hb. cbn [fetched_ok] in Hb. rewrite Hadd in Hb.
  rewrite !u32_small in Hb by (unfold UIDS_TO_PREFETCH, u32_max in *; lia).
  destruct Hb as (s2 & Hrun2 & Hse & Hnew & _). rewrite Hrun in Hrun2. injection Hrun2 as <- _ Hmore.
  split; [done|]. rewrite Hnew.
  split; [|rewrite Hmore; intros Hlt%Z.ltb_lt]; (destruct (Z.ltb_spec old
    (Z.max (Z.max (largest + 1) (Z.min (old + UIDS_TO_PREFETCH) (mailbox_next s)))
       (default 0 (Plan.largest_uid_skipped plan) + 1))%Z)); unfold UIDS_TO_PREFETCH in *; lia.
Qed.

(** C31: receiving new mail ends.  If the server numbers its messages below
    2^32 - 500, the loop runs a number of batches bounded by the distance to the
    UIDNEXT of the mailbox, whatever the server sends and however often the
    processing of a message fails. *)
Theorem fetch_loop_ends (limit : Z) (folder : str) (s : St W) (fuel read_cnt : nat) :
  let t := Session.transport_id (session s) in
  numbers_below limit → (1 ≤ limit ∧ limit + UIDS_TO_PREFETCH ≤ u32_max)%Z →
  (0 ≤ get_uid_next (ctx s) t folder ≤ limit)%Z → (mailbox_next s ≤ limit)%Z →
  (mailbox_next s - get_uid_next (ctx s) t folder < UIDS_TO_PREFETCH * Z.of_nat fuel)%Z → 0 < fuel →
  outcome (fetch_batches create_keypair create_id fuel folder read_cnt) s ≠ Ok None.
Proof.
  intros t Hnum Hlim. unfold t. clear t. revert s read_cnt. induction fuel as [|fuel IH]; intros s read_cnt Hold Hmb Hf Hpos; [lia|].
  unfold outcome. cbn [fetch_batches]. rewrite run_bind.
  destruct (fetch_new_msg_batch _ _ folder s) as [s1 [[n more]|e]] eqn:E; [|done].
  destruct (batch_progress limit folder s s1 n more Hnum (proj1 Hlim) (proj2 Hlim) Hold Hmb E) as (Hse & Hnew & Hmore).
  cbn [fst snd]. cbv zeta. destruct more; cbn [negb]; [|by rewrite run_ret]. destruct (Hmore eq_refl) as [H1m H2m].
  apply IH; unfold mailbox_next in *; rewrite ?Hse; try done; unfold UIDS_TO_PREFETCH in *; lia.
Qed.

(** ** The numbering of the rows *)

(** The table of the server's messages, with the record of their numbering. *)
Definition imap_is (T : gmap Z ImapRow.t) (X : gmap (Z * str) ImapSyncRow.t) (c : Ctx) : Prop :=
  imap_tbl c = T ∧ imap_sync c = X.

Lemma should_download_imap T X headers mid flags :
  preserves (imap_is T X) (prefetch_should_download create_keypair headers mid flags).
Proof.
  unfold prefetch_should_download, from_field_to_contact_id, add_or_lookup_ext, self_fingerprint, generate_keypair,
    upsert_contact.
  preserve; (apply preserves_modify; intros c [<- <-]; try done).
  unfold update_chat_names. repeat case_match; done.
Qed.

Lemma rows_current_upsert c r :
  rows_current c → ImapRow.uidvalidity r = get_uidvalidity c (ImapRow.transport_id r) (ImapRow.folder r) →
  rows_current (upsert_imap r c).
Proof.
  intros Hc Hr.
  assert (∀ i, rows_current (set_imap <[i := r]> c)) as Hins.
  { intros i j x Hx. cbn [set_imap imap_tbl] in Hx. destruct (decide (i = j)) as [->|Hne].
    - rewrite lookup_insert_eq in Hx. by injection Hx as <-.
    - rewrite lookup_insert_ne in Hx by done. by apply (Hc j). }
  unfold upsert_imap. destruct (filter _ _) as [|[i r0] l]; [exact (Hins _)|apply Hins].
Qed.

Definition current_at (t : Z) (folder : str) (v : Z) (c : Ctx) : Prop :=
  rows_current c ∧ get_uidvalidity c t folder = v.

Lemma current_at_imap t folder v c c' :
  imap_is (imap_tbl c) (imap_sync c) c' → current_at t folder v c → current_at t folder v c'.
Proof.
  intros [Ht Hs] [Hc Hv]. unfold current_at, rows_current, get_uidvalidity in *. rewrite Ht, Hs. done.
Qed.

Lemma current_upsert t folder v mid target uid c :
  current_at t folder v c → current_at t folder v (upsert_imap (ImapRow.mk t mid folder target uid v) c).
Proof.
  intros [Hc Hv]. split; [by apply rows_current_upsert|]. unfold get_uidvalidity. by rewrite upsert_sync.
Qed.

Lemma plan_current t folder v limit p msgs :
  preserves (current_at t folder v) (plan_messages create_keypair create_id folder t v limit p msgs).
Proof.
  revert p. induction msgs as [|[u r] msgs IH]; intros p; cbn [plan_messages]; [auto with cmd|].
  apply preserves_bind; [|intros p'; apply IH]. unfold plan_message.
  assert (∀ headers mid flags, preserves (current_at t folder v) (prefetch_should_download create_keypair headers mid flags)) as Hd.
  { intros headers mid flags c Hc. pose proof (should_download_imap (imap_tbl c) (imap_sync c) headers mid flags c) as Hi.
    destruct (prefetch_should_download _ headers mid flags c) as [c' [b|e]]; (eapply current_at_imap; [|exact Hc]); by apply Hi. }
  preserve; try done; (apply preserves_modify; intros c; apply current_upsert).
Qed.

Lemma resync_current t v folder msgs c :
  rows_current c → (msgs = ∅ ∨ get_uidvalidity c t folder = v) → rows_current (resync_insert t v folder msgs c).
Proof.
  intros Hc Hv. unfold resync_insert. set (c0 := delete_imap _ c).
  assert (rows_current c0) as Hc0 by by apply rows_current_delete.
  destruct Hv as [->|Hv]; [exact Hc0|]. assert (current_at t folder v c0) as H0' by by split.
  match goal with |- rows_current (foldl ?f ?a ?l) => enough (current_at t folder v (foldl f a l)) as [? _] by done; generalize l end.
  intros l. revert H0'. generalize c0. clear. induction l as [|x l IH]; intros c Hc; cbn [foldl]; [done|].
  by apply IH, current_upsert.
Qed.

(** ** Every history of operations *)

(** What can happen on a connection. *)
Inductive imap_op :=
  | OpSelect (folder : str)
  | OpFetchBatch (folder : str)
  | OpMoveDelete (folder : str)
  | OpStoreSeen
  | OpResync (folder : str)
  | OpDownload
  | OpDownloadLost.

Definition run_imap_op (s : St W) (o : imap_op) : St W :=
  match o with
  | OpSelect folder => final (select_with_uidvalidity folder) s
  | OpFetchBatch folder => final (fetch_new_msg_batch create_keypair create_id folder) s
  | OpMoveDelete folder => final (move_delete_messages folder) s
  | OpStoreSeen => final store_seen_flags_on_imap s
  | OpResync folder => final (resync_uids_with_server folder) s
  | OpDownload => final download_msgs s
  | OpDownloadLost => final download_known_post_messages_without_pre_message s
  end.

(** Receiving a message writes no row of another numbering. *)
Definition receiver_keeps_numbers : Prop :=
  (∀ mid body seen c, rows_current c → rows_current (receive_imf_inner mid body seen c).1)
  ∧ (∀ e c, rows_current c → rows_current (add_device_msg e c).1).

Notation current := (λ s : St W, rows_current (ctx s)).

Lemma download_current : receiver_keeps_numbers → kept_by_download current.
Proof.
  intros [Hr Hd]. split; intros.
  - apply preserves_db. intros c Hc. specialize (Hr mid body seen c Hc). by destruct (receive_imf_inner _ _ _ c) as [c' [a|e]].
  - apply preserves_db. intros c Hc. specialize (Hd e c Hc). by destruct (add_device_msg _ c) as [c' [a|e']].
  - apply (preserves_command rows_current).
Qed.

Lemma batch_current folder :
  receiver_keeps_numbers → preserves current (fetch_new_msg_batch create_keypair create_id folder).
Proof.
  intros HR s Hs. unfold fetch_new_msg_batch. rewrite run_bind_asks, run_bind_table, run_gets, run_bind_table, run_gets.
  cbn [ctx session server]. assert (MkSt (ctx s) (session s) (server s) = s) as -> by by destruct s.
  rewrite run_bind. destruct (prefetch _ _ s) as [s1 [msgs|e]] eqn:Hp; destruct (prefetch_run _ _ _ _ _ Hp) as (Hc1 & Hs1 & _).
  2: { by rewrite Hc1. }
  rewrite run_bind_table, run_gets, run_bind_table. cbn [ctx session server].
  set (t := Session.transport_id (session s)). set (v := get_uidvalidity (ctx s) t folder).
  pose proof (plan_current t folder v (get_download_limit (ctx s1)) Plan.empty msgs (ctx s1)) as Hpl.
  destruct (plan_messages _ _ _ _ _ _ _ _ (ctx s1)) as [c2 [plan|e]].
  2: { apply Hpl. rewrite Hc1. by split. }
  assert (rows_current c2) as Hc2 by (apply Hpl; rewrite Hc1; by split).
  match goal with |- match ?m (MkSt c2 _ _) with _ => _ end => assert (preserves current m) as Hm end.
  2: { apply (Hm (MkSt c2 (session s1) (server s1)) Hc2). }
  apply preserves_bind; [apply (preserves_asks rows_current)|intros mailbox]. apply preserves_bind; [auto with cmd|intros mb]. cbv zeta.
  apply preserves_bind; [apply with_channel_keeps, download_current, HR|intros [received res]].
  destruct (advance _ _ _ _ _) as [new more].
  apply preserves_bind; [case_match; [apply (preserves_db_modify rows_current), rows_current_uid_next|auto with cmd]|intros _].
  apply preserves_bind; [|intros _].
  { apply (preserves_db_modify rows_current). intros c Hc. destruct (notice_frame (omap snd received) c) as (E1 & E2 & _).
    unfold rows_current, get_uidvalidity in *. by rewrite E1, E2. }
  apply preserves_bind; [case_match; [by apply (preserves_db_modify rows_current)|auto with cmd]|intros _].
  apply preserves_bind; [apply preserves_lift|auto with cmd].
Qed.

Lemma resync_op_current folder : preserves current (resync_uids_with_server folder).
Proof.
  intros s Hs. unfold resync_uids_with_server. rewrite run_bind.
  pose proof (rows_current_select folder s Hs) as Hsel.
  destruct (select_with_uidvalidity folder s) as [s1 [[|]|e]]; [| |exact Hsel]; rewrite run_bind_asks.
  - rewrite run_bind, run_bind_command. destruct ((uid_fetch (server s1) _ RFC724MID_UID).2) as [fetch|e]; [|exact Hsel].
    unfold lift. rewrite run_bind. destruct (all_responses fetch) as [responses|e]; [|exact Hsel].
    rewrite run_bind_table, run_gets, run_ret. unfold Imap.db. rewrite run_modify. cbn [ctx session server fst snd].
    apply resync_current; [exact Hsel|by right].
  - rewrite run_bind, run_ret. unfold Imap.db. rewrite run_modify. cbn [ctx fst snd]. apply resync_current; [exact Hsel|by left].
Qed.

Lemma download_msg_current mid : receiver_keeps_numbers → preserves current (download_msg mid).
Proof.
  intros HR. unfold download_msg, fetch_single_msg.
  preserve; try apply (preserves_asks rows_current); try apply (preserves_db_gets rows_current);
    try apply rows_current_select; try apply preserves_lift;
    try (apply with_channel_keeps, download_current, HR); by apply (preserves_db_modify rows_current).
Qed.

Lemma update_state_imap T X id st : preserves (imap_is T X) (update_download_state id st).
Proof.
  unfold update_download_state, load_from_db_optional. preserve.
  apply preserves_modify. by intros c [<- <-].
Qed.

Lemma failure_current mid : preserves current (Imap.db (set_state_to_failure mid)).
Proof.
  apply preserves_db. intros c Hc. unfold set_state_to_failure. rewrite run_bind_gets.
  destruct (rfc724_mid_exists c mid) as [id|]; [|exact Hc].
  pose proof (update_state_imap (imap_tbl c) (imap_sync c) id DownloadState_Failure c (conj eq_refl eq_refl)) as Hi.
  destruct (update_download_state _ _ c) as [c' [a|e]]; destruct Hi as [E1 E2];
    unfold rows_current, get_uidvalidity in *; by rewrite E1, E2.
Qed.

Lemma downloads_current :
  receiver_keeps_numbers →
  preserves current download_msgs ∧ preserves current download_known_post_messages_without_pre_message.
Proof.
  intros HR. unfold download_msgs, download_known_post_messages_without_pre_message, download_queued, download_lost_pre.
  split; preserve; try apply (preserves_db_gets rows_current); try apply failure_current;
    try (by apply download_msg_current); by apply (preserves_db_modify rows_current).
Qed.

(** C16: whatever is done on a connection, in any order and with any answers of
    the server, a row of the table of the server's messages is always of the
    numbering recorded for its folder: a number of a mailbox that was created
    anew is never kept beside the new ones. *)
Theorem imap_history_current (ops : list imap_op) (s : St W) :
  receiver_keeps_numbers → rows_current (ctx s) → rows_current (ctx (foldl run_imap_op s ops)).
Proof.
  intros HR. revert s. induction ops as [|o ops IH]; intros s Hs; cbn [foldl]; [done|]. apply IH.
  destruct (downloads_current HR) as [Hd1 Hd2]. destruct o; cbn [run_imap_op];
    match goal with |- rows_current (ctx (final ?m s)) => apply (preserves_final current m s) end; try done.
  - apply rows_current_select.
  - by apply batch_current.
  - apply rows_current_move_delete.
  - apply rows_current_store_seen.
  - apply resync_op_current.
Qed.

End batches.

(** ** A mailbox *)

(** A folder with messages, and how many bodies are sent before the connection
    breaks. *)
Module Post.
Record t := mk { mailbox : SelectedMailbox.t; box : list FetchResponse.t; breaks : option nat }.

Definition asked (set : str) (r : FetchResponse.t) : bool :=
  match uid_set_of set, FetchResponse.uid r with
  | Some us, Some u => bool_decide (u ∈ us) && (1 <=? u)%Z && (u <? 4294960000)%Z
  | _, _ => false
  end.

Definition answer (w : t) (set items : str) : list FetchResponse.t * option string :=
  let found := filter (λ r, asked set r = true) (box w) in
  match breaks w with
  | Some n => if decide (items = BODY_FULL) then (take n found, Some "connection lost"%string) else (found, None)
  | None => (found, None)
  end.

#[global] Instance server : ImapServer t := {
  select w f := (w, SelectAnswer.Selected (mailbox w));
  close w := (w, Ok tt);
  status_uid_next w f := (w, Ok (SelectedMailbox.uid_next (mailbox w)));
  uid_store w a b := (w, Ok tt);
  uid_mv w a b := (w, Ok tt);
  uid_copy w a b := (w, Ok tt);
  uid_fetch w set items := (w, Ok (answer w set items));
}.
End Post.

(** Headers of one line, the Message-ID; everything is from Bob and is accepted. *)
#[global] Instance plain_parser : MailParser := {
  parse_headers h := Ok [(lit "Message-ID", h); (lit "From", lit "bob@example.org")];
  get_from hs := Some (lit "bob@example.org");
  mimetype v := v;
}.

#[global] Program Instance accepting : Receiver := {
  receive_imf_inner mid body seen := mret None;
  add_device_msg e := mret tt;
}.
Next Obligation. done. Qed.
Next Obligation. done. Qed.

Definition mail (uid size : Z) (mid : str) : FetchResponse.t :=
  FetchResponse.mk (Some uid) (Some mid) (Some size) [] (Some (lit "text")).

(** An account that takes unencrypted mail and puts off what is larger than 100
    bytes, with INBOX read up to 5. *)
Definition limited : Ctx :=
  set_imap_sync <[(1%Z, INBOX) := ImapSyncRow.mk 7 5]>
    (set_config_tbl (λ t, <[lit "force_encryption" := lit "0"]> (<[lit "download_limit" := lit "100"]> t)) empty_ctx).

Definition three_mails : list FetchResponse.t := [mail 5 1000 (lit "<a@x>"); mail 6 10 (lit "<b@x>"); mail 7 10 (lit "<c@x>")].

Definition no_key (addr : str) : result str := Err "no key".
Definition random_id (uid : Z) : str := show_Z uid.

Definition fetch_batch (folder : str) : cmd (St Post.t) (nat * bool) :=
  @fetch_new_msg_batch ascii_case first_choice plain_parser accepting Post.t _ no_key random_id folder.

Definition reading (next : Z) (box : list FetchResponse.t) (breaks : option nat) (c : Ctx) : St Post.t :=
  MkSt c (Session.mk 1 true false (Some INBOX) (Some (SelectedMailbox.mk (Some 7%Z) (Some next))) false false false)
    (Post.mk (SelectedMailbox.mk (Some 7%Z) (Some next)) box breaks).

Example batch_puts_off :
  let s := final (fetch_batch INBOX) (reading 8 three_mails None limited) in
  outcome (fetch_batch INBOX) (reading 8 three_mails None limited) = Ok (3, false)
  ∧ get_uid_next (ctx s) 1 INBOX = 8%Z ∧ dom (download (ctx s)) = {[lit "a@x"]}.
Proof. vm_compute. done. Qed.

(** The connection breaks after the first of two bodies.  The folder is read up
    to the next one, but the large message before it, which was put off, is not
    remembered: it is neither downloaded nor listed again. *)
Example failed_batch_forgets_large_mail :
  let s := reading 8 three_mails (Some 1) limited in
  let s' := final (fetch_batch INBOX) s in
  outcome (fetch_batch INBOX) s = Err "connection lost"
  ∧ get_uid_next (ctx s') 1 INBOX = 7%Z ∧ download (ctx s') = ∅
  ∧ rfc724_mid_fetch_tried (ctx s') (lit "a@x") = false
  ∧ let again := reading 8 three_mails None (ctx s') in
    outcome (fetch_batch INBOX) again = Ok (1, false) ∧ download (ctx (final (fetch_batch INBOX) again)) = ∅.
Proof. vm_compute. done. Qed.

(** A server that announces a UIDNEXT near the end of the range: the addition
    wraps, and every batch asks for another one and changes nothing. *)
Example largest_uidnext_loops :
  let c := set_imap_sync <[(1%Z, INBOX) := ImapSyncRow.mk 7 4294967295]> limited in
  let s := reading 4294967295 [] None c in
  outcome (fetch_batch INBOX) s = Ok (0, true) ∧ get_uid_next (ctx (final (fetch_batch INBOX) s)) 1 INBOX = 4294967295%Z.
Proof. vm_compute. done. Qed.

(** An error on the way, and a large message that was put off is dropped: no
    message here is its announcement, so it counts as vanished. *)
Example network_error_drops_large_mail :
  let s := final (fetch_batch INBOX) (reading 8 three_mails None limited) in
  let broken := MkSt (ctx s) (session s) (Post.mk (Post.mailbox (server s)) (Post.box (server s)) (Some 0)) in
  let s' := final (@download_msgs first_choice accepting Post.t _) broken in
  dom (download (ctx s)) = {[lit "a@x"]} ∧ download (ctx s') = ∅
  ∧ rfc724_mid_fetch_tried (ctx s') (lit "a@x") = false.
Proof. vm_compute. done. Qed.

(** A message that is queued already, asked for by hand: the state is changed,
    and the call fails. *)
Example queued_download_refused :
  let m := with_download_state DownloadState_Available
             (Msg.mk (Some (lit "a@x")) (Some []) None None (Some []) [] None (Some 1%Z) 1 1 10 11 1 10 false [] 0 0 false 10 0) in
  let c := set_download <[lit "a@x" := 0%Z]> (set_msgs <[20%Z := m]> limited) in
  outcome (download_full 20) c = Err "UNIQUE constraint failed: download.rfc724_mid"
  ∧ Msg.download_state <$> msgs (final (download_full 20) c) !! 20%Z = Some DownloadState_InProgress.
Proof. vm_compute. done. Qed.

(** ** Instances *)

Definition broken_inbox : St Post.t := reading 8 three_mails (Some 1) limited.

Definition broken_plan : Plan.t :=
  Plan.mk [6; 7]%Z [] [lit "a@x"] {[6%Z := lit "b@x"; 7%Z := lit "c@x"]} (Some 5%Z).

Lemma fetch_batch_exact_witness :
  ∃ s' r, fetch_batch INBOX broken_inbox = (s', r)
  ∧ get_uid_next (ctx s') 1 INBOX = 7%Z
  ∧ (6%Z ∈ [6%Z] ∨ missed (W := Post.t) [6; 7]%Z 6%Z) ∧ r = Err "connection lost".
Proof.
  set (s1 := final (prefetch 5 UIDS_TO_PREFETCH) broken_inbox).
  set (c2 := final (@plan_messages ascii_case first_choice plain_parser no_key random_id INBOX 1 7 (Some 100%Z)
                      Plan.empty (by_uid three_mails)) (ctx s1)).
  set (s3 := final (with_channel (@fetch_many_msgs accepting Post.t _ [6; 7]%Z (Plan.uid_message_ids broken_plan)))
               (MkSt c2 (session s1) (server s1))).
  destruct (@fetch_batch_exact ascii_case first_choice plain_parser accepting Post.t _ no_key random_id INBOX
              broken_inbox s3 (by_uid three_mails) broken_plan 8 [(6%Z, None)] (Err "connection lost"))
    as (s' & r & Hrun & Hold & Hrecv & Herr & _).
  - split. exists s1, c2, (SelectedMailbox.mk (Some 7%Z) (Some 8%Z)).
    split_and!; vm_compute; reflexivity.
  - assert (by_uid three_mails = [(5, mail 5 1000 (lit "<a@x>")); (6, mail 6 10 (lit "<b@x>"));
                                  (7, mail 7 10 (lit "<c@x>"))]%Z) as -> by (vm_compute; reflexivity).
    assert (get_uid_next (ctx broken_inbox) (Session.transport_id (session broken_inbox)) INBOX = 5%Z) as ->
      by (vm_compute; reflexivity).
    repeat constructor; cbn [fst]; unfold u32_max; lia.
  - exists s', r. split; [exact Hrun|].
    assert (s' = final (fetch_batch INBOX) broken_inbox) as -> by (unfold final, fetch_batch; rewrite Hrun; reflexivity).
    split; [vm_compute; reflexivity|]. split; [|by apply Herr].
    apply (Hrecv 6%Z); [left|vm_compute; reflexivity].
Defined.

Lemma post_numbers : numbers_below (W := Post.t) 4294960000.
Proof.
  intros w set items fetch o [= Hans] r u Hr Hu.
  assert (Post.asked set r = true) as Has.
  { unfold Post.answer in Hans.
    assert (r ∈ filter (λ r, Post.asked set r = true) (Post.box w)) as Hin.
    { destruct (Post.breaks w); [case_decide|]; injection Hans as <- _; [|done|done].
      by eapply elem_of_sublist, sublist_take. }
    by apply list_elem_of_filter in Hin as [? _]. }
  unfold Post.asked in Has. rewrite Hu in Has. destruct (uid_set_of set) as [us|]; [|done].
  apply andb_prop in Has as [[_ H1%Z.leb_le]%andb_prop H2%Z.ltb_lt]. done.
Qed.

Lemma fetch_loop_ends_witness :
  outcome (@fetch_batches ascii_case first_choice plain_parser accepting Post.t _ no_key random_id 4 INBOX 0)
    (reading 1600 three_mails None limited) ≠ Ok None.
Proof.
  apply (@fetch_loop_ends ascii_case first_choice plain_parser accepting Post.t _ no_key random_id 4294960000 INBOX
           (reading 1600 three_mails None limited) 4 0 post_numbers);
    first [lia | split; vm_compute; discriminate | vm_compute; discriminate | vm_compute; reflexivity].
Defined.

Lemma imap_history_current_witness :
  rows_current (ctx (foldl (@run_imap_op ascii_case first_choice plain_parser accepting Post.t _ no_key random_id)
    broken_inbox [OpFetchBatch INBOX; OpResync INBOX; OpDownload; OpMoveDelete INBOX; OpStoreSeen])).
Proof.
  apply (@imap_history_current ascii_case first_choice plain_parser accepting Post.t _ no_key random_id).
  - split; intros; assumption.
  - intros i r Hr. vm_compute in Hr. discriminate.
Defined.
