(* ===== verification/ServerExpiry.v ===== *)
(** * ServerExpiry: what leaves the server ([ephemeral.rs], [imap.rs]).

    [delete_expired_imap_messages] marks the copies on the server that are not
    needed any more, and [fetch_move_delete] is one iteration of the loop over
    a folder: fetch, mark, move and delete.  The theorems say which copies an
    iteration removes and which it keeps, and how that meets the recoverable
    expiry of [Trash]. *)

From S2P Require Import Prelude Text Substr Store Labels Migrations Trash Params Policy Compose ContactTools Contacts Structured.
From S2P Require Import Truncate Chats Flowed WireText Drafts Send Smtp Seen UidSets Imap Fetch.

(** ** Copies that are not needed *)

Definition should_delete_all_downloaded_messages (bcc_self is_chatmail : bool) : bool :=
  negb bcc_self && is_chatmail.

(** [ephemeral_timestamp!=0 AND ephemeral_timestamp<=?] *)
Definition timer_over (now : Z) (m : Msg.t) : bool :=
  negb (Msg.ephemeral_timestamp m =? 0)%Z && (Msg.ephemeral_timestamp m <=? now)%Z.

Definition is_downloaded (m : Msg.t) : bool := (Msg.download_state m =? DownloadState_Done)%Z.

(** [param GLOB '*\nc=1*' OR param GLOB 'c=1*'] *)
Definition marked_encrypted (m : Msg.t) : bool :=
  contains_str (LF :: lit "c=1") (Msg.param m) || starts_with (lit "c=1") (Msg.param m).

(** Which Message-IDs a message gives to the list: its own, and that of its
    announcement, by the three statements. *)
Definition spent (now : Z) (bcc_self is_chatmail : bool) (m : Msg.t) : bool * bool :=
  if should_delete_all_downloaded_messages bcc_self is_chatmail
  then (timer_over now m || is_downloaded m, true)
  else if bcc_self then (timer_over now m, timer_over now m)
  else (timer_over now m || (marked_encrypted m && is_downloaded m), timer_over now m || marked_encrypted m).

(** [rfc724_mid IN (SELECT rfc724_mid .. UNION SELECT pre_rfc724_mid ..)] *)
Definition in_spent (now : Z) (bcc_self is_chatmail : bool) (c : Ctx) (mid : str) : bool :=
  existsb (λ r,
      let '(own, pre) := spent now bcc_self is_chatmail r.2 in
      (9 <? r.1)%Z
      && ((bool_decide (Msg.rfc724_mid r.2 = Some mid) && own)
          || (bool_decide (Msg.pre_rfc724_mid r.2 = Some mid) && negb (is_empty mid) && pre)))
    (map_to_list (msgs c)).

Definition delete_expired_imap_messages (transport_id : Z) (is_chatmail : bool) (c : Ctx) : Ctx :=
  let now := clock c in
  let bcc_self := get_config_bool c Config.BccSelf in
  set_imap (fmap (λ r,
    if (ImapRow.transport_id r =? transport_id)%Z && in_spent now bcc_self is_chatmail c (ImapRow.rfc724_mid r)
    then no_target r else r)) c.

(** ** One iteration *)

Section iteration.
Context `{!UnicodeCase, !SqlChoice, !MailParser, !Receiver, !ImapServer W}.
Context (create_keypair : str → result str) (create_id : Z → str).

(** [None] when the fuel of the loop over the batches runs out. *)
Definition fetch_move_delete (fuel : nat) (watch_folder : str) : cmd (St W) (option unit) :=
  ensure (negb (is_empty watch_folder)) "Watched folder cannot be empty" ;;
  msgs_fetched ← fetch_new_messages create_keypair create_id fuel watch_folder;
  match msgs_fetched with
  | None => mret None
  | Some _ =>
      transport_id ← asks Session.transport_id;
      is_chatmail ← asks Session.is_chatmail;
      db (modify (delete_expired_imap_messages transport_id is_chatmail)) ;;
      move_delete_messages watch_folder ;;
      mret (Some tt)
  end.
End iteration.

(** ** Why a copy may go *)

(** The message behind a copy on the server: one whose timer is over, or one
    that is here and that no other device waits for, because the server is a
    relay or the mail was encrypted to this device. *)
Definition not_needed (c : Ctx) (is_chatmail : bool) (mid : str) : Prop :=
  ∃ id m, msgs c !! id = Some m ∧ (9 < id)%Z
  ∧ ((Msg.rfc724_mid m = Some mid
      ∧ (timer_over (clock c) m = true
         ∨ (get_config_bool c Config.BccSelf = false ∧ (is_chatmail = true ∨ marked_encrypted m = true)
            ∧ is_downloaded m = true)))
     ∨ (Msg.pre_rfc724_mid m = Some mid ∧ mid ≠ []
        ∧ (timer_over (clock c) m = true
           ∨ (get_config_bool c Config.BccSelf = false ∧ (is_chatmail = true ∨ marked_encrypted m = true))))).

(** The three statements agree with that. *)
Lemma in_spent_spec c is_chatmail mid :
  in_spent (clock c) (get_config_bool c Config.BccSelf) is_chatmail c mid = true ↔ not_needed c is_chatmail mid.
Proof.
  unfold in_spent, not_needed. rewrite existsb_exists. split.
  - intros ([id m] & Hin & H). apply list_elem_of_In, elem_of_map_to_list in Hin. exists id, m. split; [done|].
    revert H. unfold spent, should_delete_all_downloaded_messages. cbn [fst snd].
    destruct (get_config_bool c Config.BccSelf), is_chatmail; cbn [negb andb];
      rewrite andb_true_iff, Z.ltb_lt, !orb_true_iff, !andb_true_iff, ?orb_true_iff, ?andb_true_iff, !bool_decide_eq_true;
      intros [Hid H]; (split; [exact Hid|]);
      (destruct H as [[Hm H]|[[Hm He] H]]; [left|right; split; [exact Hm|split; [by destruct mid|]]]); naive_solver.
  - intros (id & m & Hin & Hid & H). exists (id, m). split; [by apply list_elem_of_In, elem_of_map_to_list|].
    unfold spent, should_delete_all_downloaded_messages. cbn [fst snd].
    destruct (get_config_bool c Config.BccSelf), is_chatmail; cbn [negb andb];
      rewrite andb_true_iff, Z.ltb_lt, !orb_true_iff, !andb_true_iff, ?orb_true_iff, ?andb_true_iff, !bool_decide_eq_true;
      (split; [exact Hid|]);
      (destruct H as [[Hm H]|(Hm & He & H)]; [left|right; split; [split; [exact Hm|by destruct mid]|]]); naive_solver.
Qed.

Lemma expire_lookup t ch c i :
  imap_tbl (delete_expired_imap_messages t ch c) !! i
  = (λ r, if decide (ImapRow.transport_id r = t ∧ in_spent (clock c) (get_config_bool c Config.BccSelf) ch c
                       (ImapRow.rfc724_mid r) = true) then no_target r else r) <$> imap_tbl c !! i.
Proof.
  unfold delete_expired_imap_messages. cbn [set_imap imap_tbl]. rewrite lookup_fmap.
  destruct (imap_tbl c !! i) as [r|]; [|done]. cbn [fmap option_fmap option_map]. f_equal.
  destruct (Z.eqb_spec (ImapRow.transport_id r) t) as [E|E]; cbn [andb].
  - case_decide as Hd; destruct (in_spent _ _ _ _ _); naive_solver.
  - rewrite decide_False by naive_solver. done.
Qed.

(** ** What the server is told in an iteration *)

Section told.
Context `{!UnicodeCase, !SqlChoice, !MailParser, !Receiver, !ImapServer W, !ImapLog W}.
Context (create_keypair : str → result str) (create_id : Z → str).
Implicit Types (s : St W).

(** Fetching changes no message on the server. *)
Definition log_is (log : list (option str * Command.t)) (s : St W) : Prop := accepted (server s) = log.

Lemma log_db {A} log (m : cmd Ctx A) : preserves (log_is log) (db m : cmd (St W) A).
Proof. intros s Hs. unfold db. by destruct (m (ctx s)) as [c' [a|e]]. Qed.

Lemma log_asks {A} log (f : Session.t → A) : preserves (log_is log) (asks f : cmd (St W) A).
Proof. by intros s Hs. Qed.

Lemma log_fetch log set items : preserves (log_is log) (command (λ w : W, uid_fetch w set items)).
Proof.
  intros s Hs. rewrite run_command. unfold log_is in *. destruct (fetch_log (server s) set items) as [E _].
  case_match; cbn [fst snd server]; congruence.
Qed.

Lemma log_download log : kept_by_download (log_is log).
Proof. split; intros; try apply log_db. apply log_fetch. Qed.

Lemma log_select log : kept_by_selecting (log_is log).
Proof.
  split; unfold log_is; cbn [server]; intros; [done| | | |done|done]; [by rewrite select_log|by rewrite close_log|].
  by rewrite (proj1 (status_log _ _)).
Qed.

#[local] Hint Resolve log_db log_asks log_fetch : cmd.

Lemma log_batch log folder : preserves (log_is log) (fetch_new_msg_batch create_keypair create_id folder).
Proof.
  unfold fetch_new_msg_batch, prefetch. preserve. apply with_channel_keeps, log_download.
Qed.

Lemma log_batches log fuel folder n : preserves (log_is log) (fetch_batches create_keypair create_id fuel folder n).
Proof.
  revert n. induction fuel as [|fuel IH]; intros n; cbn [fetch_batches]; [auto with cmd|].
  apply preserves_bind; [apply log_batch|intros b]. cbv zeta. destruct (negb b.2); [auto with cmd|apply IH].
Qed.

Lemma log_fetch_new log fuel folder : preserves (log_is log) (fetch_new_messages create_keypair create_id fuel folder).
Proof.
  unfold fetch_new_messages. preserve; [apply select_keeps, log_select| |apply log_batches]. by intros s Hs.
Qed.

(** The state in which the deletions are carried out. *)
Definition expired_state (s1 : St W) : St W :=
  MkSt (delete_expired_imap_messages (Session.transport_id (session s1)) (Session.is_chatmail (session s1)) (ctx s1))
    (session s1) (server s1).

Lemma iteration_run fuel folder s s1 b :
  fetch_new_messages create_keypair create_id fuel folder s = (s1, Ok (Some b)) → folder ≠ [] →
  fetch_move_delete create_keypair create_id fuel folder s
  = (let '(s', r) := move_delete_messages folder (expired_state s1) in
     (s', match r with Ok _ => Ok (Some tt) | Err e => Err e end)).
Proof.
  intros Hf Hne. unfold fetch_move_delete. destruct folder; [done|]. cbn [is_empty negb ensure]. rewrite run_bind, run_ret.
  rewrite run_bind, Hf, run_bind_asks, run_bind_asks, run_bind_table, run_modify. cbn [ctx session server].
  fold (expired_state s1). rewrite run_bind. by destruct (move_delete_messages _ (expired_state s1)) as [s' [[]|e]].
Qed.

(** Marking keeps the folder selected, and the rows apart from their targets. *)
Lemma expired_ready folder s1 : ready folder s1 → ready folder (expired_state s1).
Proof. intros [? ? ? ?]. by split. Qed.

Lemma expired_row s1 i row' :
  imap_tbl (ctx (expired_state s1)) !! i = Some row' →
  ∃ row, imap_tbl (ctx s1) !! i = Some row ∧ (row' = row ∨ (row' = no_target row
    ∧ ImapRow.transport_id row = Session.transport_id (session s1)
    ∧ not_needed (ctx s1) (Session.is_chatmail (session s1)) (ImapRow.rfc724_mid row))).
Proof.
  cbn [expired_state ctx]. rewrite expire_lookup. destruct (imap_tbl (ctx s1) !! i) as [row|]; [|done].
  cbn [fmap option_fmap option_map]. case_decide as Hd; intros [= <-]; exists row; split; auto.
  right. rewrite <-in_spent_spec. tauto.
Qed.

Lemma expired_valid s1 :
  (∀ i row, imap_tbl (ctx s1) !! i = Some row → valid_uid (ImapRow.uid row)) →
  ∀ i row, imap_tbl (ctx (expired_state s1)) !! i = Some row → valid_uid (ImapRow.uid row).
Proof. intros Hv i row' (row & Hr & [->|[-> _]])%expired_row; exact (Hv _ _ Hr). Qed.

(** A row of the table as it is after fetching, in the folder of the iteration. *)
Definition copy_here (folder : str) (s1 : St W) (row : ImapRow.t) : Prop :=
  ImapRow.transport_id row = Session.transport_id (session s1) ∧ ImapRow.folder row = folder
  ∧ ∃ i, imap_tbl (ctx s1) !! i = Some row.

(** C5: an iteration removes nothing from the server that is still needed.
    Fetching changes nothing there, and every UID in a command that follows is
    the UID of a known copy in this folder that was to leave it already, or whose
    message has outlived its timer, or is here while no other device waits for
    it (the server is a relay, or the mail was encrypted).  Flagging as deleted is
    asked for only for the latter and for copies marked so before. *)
Theorem iteration_removes_only_spent (fuel : nat) (folder : str) (s s1 s' : St W) (b : bool) (r : result (option unit)) :
  fetch_new_messages create_keypair create_id fuel folder s = (s1, Ok (Some b)) → folder ≠ [] →
  ready folder s1 → (∀ i row, imap_tbl (ctx s1) !! i = Some row → valid_uid (ImapRow.uid row)) →
  fetch_move_delete create_keypair create_id fuel folder s = (s', r) →
  ∃ cmds, accepted (server s') = accepted (server s) ++ cmds
  ∧ ∀ f cmd, (f, cmd) ∈ cmds →
      f = Some folder ∧ ∃ us, uid_set_of (set_of cmd) = Some us
      ∧ ∀ u, u ∈ us → ∃ row, copy_here folder s1 row ∧ ImapRow.uid row = u
          ∧ ((ImapRow.target row ≠ folder
              ∧ (cmd = removal (ImapRow.target row) (set_of cmd)
                 ∨ (ImapRow.target row ≠ [] ∧ cmd = Command.Copy (set_of cmd) (ImapRow.target row))))
             ∨ (not_needed (ctx s1) (Session.is_chatmail (session s1)) (ImapRow.rfc724_mid row)
                ∧ cmd = Command.Store (set_of cmd) DELETE_QUERY)).
Proof.
  intros Hf Hne Hr Hv. rewrite (iteration_run _ _ _ _ _ Hf Hne).
  destruct (move_delete_messages folder (expired_state s1)) as [s2 r2] eqn:Hmd. intros [= <- <-].
  pose proof (preserves_run _ _ _ _ _ (log_fetch_new (accepted (server s)) fuel folder) Hf eq_refl) as Hlog.
  destruct (round_only_planned _ _ _ _ (expired_ready _ _ Hr) (expired_valid _ Hv) Hmd) as (cmds & Hcmds & Hall).
  exists cmds. split; [by rewrite Hcmds; cbn; rewrite Hlog|]. intros f cmd Hin.
  destruct (Hall f cmd Hin) as (-> & us & Hus & Hback). split; [done|]. exists us. split; [done|].
  intros u Hu. destruct (Hback u Hu) as (i & row' & Hi & (Ht & Hfo & Hta) & Huid & Hcmd).
  destruct (expired_row _ _ _ Hi) as (row & Hrow & [->|(-> & Ht' & Hnn)]); exists row.
  - split; [split_and!; [done|done|by exists i]|]. auto.
  - split; [split_and!; [done|done|by exists i]|]. split; [done|]. right. split; [done|].
    destruct Hcmd as [Hc|[Hc _]]; [exact Hc|done].
Qed.

(** C14: an iteration that succeeds leaves no spent copy in the folder: a message
    whose timer is over, or, where no other device waits for it, one that has
    been downloaded, is flagged as deleted on the server, and only then is it
    forgotten here.  A copy that is needed and has no other target stays. *)
Theorem spent_copies_leave (fuel : nat) (folder : str) (s s1 s' : St W) (b : bool) (i : Z) (row : ImapRow.t) :
  fetch_new_messages create_keypair create_id fuel folder s = (s1, Ok (Some b)) → folder ≠ [] →
  ready folder s1 → (∀ i row, imap_tbl (ctx s1) !! i = Some row → valid_uid (ImapRow.uid row)) →
  fetch_move_delete create_keypair create_id fuel folder s = (s', Ok (Some tt)) →
  imap_tbl (ctx s1) !! i = Some row → ImapRow.transport_id row = Session.transport_id (session s1) →
  ImapRow.folder row = folder →
  (not_needed (ctx s1) (Session.is_chatmail (session s1)) (ImapRow.rfc724_mid row) →
     imap_tbl (ctx s') !! i = None
     ∧ ∃ cmds, accepted (server s') = accepted (server s) ++ cmds
       ∧ told folder cmds (λ set, Command.Store set DELETE_QUERY) (ImapRow.uid row))
  ∧ (¬ not_needed (ctx s1) (Session.is_chatmail (session s1)) (ImapRow.rfc724_mid row) →
     ImapRow.target row = folder → imap_tbl (ctx s') !! i = Some row).
Proof.
  intros Hf Hne Hr Hv. rewrite (iteration_run _ _ _ _ _ Hf Hne).
  destruct (move_delete_messages folder (expired_state s1)) as [s2 [[]|e]] eqn:Hmd; intros [= <-].
  intros Hrow Ht Hfo.
  pose proof (preserves_run _ _ _ _ _ (log_fetch_new (accepted (server s)) fuel folder) Hf eq_refl) as Hlog.
  destruct (round_settles _ _ _ _ (expired_ready _ _ Hr) (expired_valid _ Hv) Hmd) as (cmds & Hcmds & Hall).
  assert (accepted (server s2) = accepted (server s) ++ cmds) as Hacc by (rewrite Hcmds; cbn; by rewrite Hlog).
  pose proof (expire_lookup (Session.transport_id (session s1)) (Session.is_chatmail (session s1)) (ctx s1) i) as Hex.
  rewrite Hrow in Hex. cbn [fmap option_fmap option_map] in Hex. split.
  - intros Hnn. rewrite decide_True in Hex by (by rewrite in_spent_spec).
    destruct (Hall i _ Hex) as [Hleave _]. destruct Hleave as [[Hbad _]|[[Hgone Htold]|[Hbad _]]]; [|done| |done].
    + split_and!; [done|done|]. cbn. congruence.
    + split; [exact Hgone|]. exists cmds. split; [exact Hacc|exact Htold].
  - intros Hnn Hta. rewrite decide_False in Hex by (rewrite in_spent_spec; tauto).
    apply (Hall i _ Hex). intros (_ & _ & Hbad). congruence.
Qed.
End told.

(** ** Recoverable expiry and the server *)

Section divert.
Context `{!UnicodeCase, !SqlChoice}.

(** C40: with several devices, the recoverable expiry keeps expired mail on the
    server.  Once the sweep on this device has run, which moves the message to
    the trash and clears its timer, the statement that marks expired copies on
    the server finds none: no row of the table changes, whatever has expired. *)
Theorem diverted_stays_on_server (now t : Z) (is_chatmail : bool) (c : Ctx) :
  labels_ok c → (0 < purge_days c)%Z → get_config_delete_device_after c = None →
  get_config_bool c Config.BccSelf = true → (clock c ≤ now)%Z →
  (∀ id m, msgs c !! id = Some m → is_live m = false → Msg.ephemeral_timestamp m = 0%Z) →
  imap_tbl (delete_expired_imap_messages t is_chatmail (final (delete_expired_messages now) c)) = imap_tbl c.
Proof.
  intros Hok Hdays Hdev Hbcc Hnow Htomb.
  destruct (divert_run now c Hok Hdays) as (c1 & Hrun & Hc & He & Hmsgs & _ & Hcl & Hi & Hnone).
  destruct (sweep_is_divert now c Hok Hdays Hdev) as (c2 & Hall & Hrun2). rewrite Hrun in Hrun2. injection Hrun2 as <-.
  unfold final. rewrite Hall. cbn [fst]. rewrite <-Hi. apply map_eq. intros i. rewrite expire_lookup.
  destruct (imap_tbl c1 !! i) as [row|]; [|done]. cbn [fmap option_fmap option_map]. f_equal. apply decide_False.
  rewrite in_spent_spec. intros (_ & id & m & Hm & _ & Hwhy).
  assert (get_config_bool c1 Config.BccSelf = true) as Hbcc1.
  { rewrite <-Hbcc. unfold get_config_bool, get_config, get_config_opt, get_config_key, get_raw_config. by rewrite Hc, He. }
  assert (timer_over (clock c1) m = true) as Hover
    by (destruct Hwhy as [[_ [?|[? _]]]|(_ & _ & [?|[? _]])]; congruence).
  unfold timer_over in Hover. rewrite Hcl, andb_true_iff, negb_true_iff, Z.eqb_neq, Z.leb_le in Hover.
  destruct (is_live m) eqn:Hlive.
  - assert (id ∈ fired_ids now c1) as Hin; [|rewrite Hnone in Hin; by apply not_elem_of_nil in Hin].
    apply elem_of_fired_ids. exists m. split; [done|]. unfold timer_fired.
    rewrite Hlive, !andb_true_iff, negb_true_iff, Z.eqb_neq, Z.leb_le. split; [|done]. split; [tauto|lia].
  - rewrite Hmsgs in Hm. destruct Hover as [Hz _]. case_decide.
    + destruct (msgs c !! id); [|done]. by injection Hm as <-.
    + by destruct (Hz (Htomb id m Hm Hlive)).
Qed.
End divert.

(** ** Instances *)

Definition bcc_self (on : bool) : Ctx → Ctx :=
  set_config_tbl <[lit "bcc_self" := if on then lit "1" else lit "0"]>.

(** Two copies in the inbox of a relay; the message of one is here. *)
Definition relay_mail : Ctx :=
  bcc_self false (set_imap_sync <[(1%Z, INBOX) := ImapSyncRow.mk 7 12]>
    (set_imap (λ _, {[1%Z := ImapRow.mk 1 (lit "a@b") INBOX INBOX 4 7;
                      2%Z := ImapRow.mk 1 (lit "z@x") INBOX INBOX 5 7]}) one_message)).

Definition relay (is_chatmail : bool) (c : Ctx) : St Toy.t :=
  MkSt c (Session.mk 1 true is_chatmail None None false false false) (Toy.mk {[INBOX := inbox_at 7]} None [] ∅ []).

Definition iterate : cmd (St Toy.t) (option unit) :=
  @fetch_move_delete ascii_case first_choice plain_parser accepting Toy.t _ no_key random_id 1 INBOX.

Definition fetch_step : cmd (St Toy.t) (option bool) :=
  @fetch_new_messages ascii_case first_choice plain_parser accepting Toy.t _ no_key random_id 1 INBOX.

Example relay_is_emptied :
  let s' := final iterate (relay true relay_mail) in
  outcome iterate (relay true relay_mail) = Ok (Some tt)
  ∧ imap_tbl (ctx s') !! 1%Z = None ∧ is_Some (imap_tbl (ctx s') !! 2%Z)
  ∧ Toy.journal (server s') = [(Some INBOX, Command.Store (lit "4") DELETE_QUERY)].
Proof. vm_compute. split_and!; try done. by eexists. Qed.

(** On a mail server, in cleartext, the copy stays; and with the marker of
    encryption at the start of a line of a value, it goes: the statement looks
    for the marker in the packed text, where a line break in a value is written
    as two. *)
Example quoted_marker_deletes_copy :
  let quoting := Params.to_string (Params.set Key.Quote (lit "so" ++ LF :: lit "c=1 is what we found") ∅) in
  let c := set_msgs (alter (with_packed quoting) 20%Z) relay_mail in
  imap_tbl (ctx (final iterate (relay false relay_mail))) !! 1%Z = imap_tbl relay_mail !! 1%Z
  ∧ Params.get_bool (unpack quoting) Key.GuaranteeE2ee = None
  ∧ imap_tbl (ctx (final iterate (relay false c))) !! 1%Z = None
  ∧ Toy.journal (server (final iterate (relay false c))) = [(Some INBOX, Command.Store (lit "4") DELETE_QUERY)].
Proof. vm_compute. done. Qed.

(** The state after fetching. *)
Definition relay_read : St Toy.t := final fetch_step (relay true relay_mail).

Lemma relay_read_ready : ready INBOX relay_read.
Proof. split; [reflexivity|reflexivity|eexists; vm_compute; reflexivity|reflexivity]. Qed.

Lemma relay_read_uids i row : imap_tbl (ctx relay_read) !! i = Some row → valid_uid (ImapRow.uid row).
Proof. intros Hi. apply valid_uid_b_true. revert i row Hi. apply all_rows. vm_compute. reflexivity. Qed.

Lemma the_message_not_needed : not_needed (ctx relay_read) true (lit "a@b").
Proof. apply in_spent_spec. vm_compute. reflexivity. Qed.

Lemma iteration_removes_only_spent_witness :
  ∃ cmds, accepted (server (final iterate (relay true relay_mail))) = cmds
  ∧ ∀ f cmd, (f, cmd) ∈ cmds → f = Some INBOX.
Proof.
  destruct (@iteration_removes_only_spent ascii_case first_choice plain_parser accepting Toy.t _ _ no_key random_id 1 INBOX
              (relay true relay_mail) relay_read (final iterate (relay true relay_mail)) false (Ok (Some tt)))
    as (cmds & Hlog & Hall).
  - vm_compute. reflexivity.
  - discriminate.
  - exact relay_read_ready.
  - exact relay_read_uids.
  - vm_compute. reflexivity.
  - exists cmds. split; [exact Hlog|]. intros f cmd Hin. apply (Hall f cmd Hin).
Defined.

Lemma spent_copies_leave_witness :
  imap_tbl (ctx (final iterate (relay true relay_mail))) !! 1%Z = None.
Proof.
  refine (proj1 (proj1 (@spent_copies_leave ascii_case first_choice plain_parser accepting Toy.t _ _ no_key random_id 1 INBOX
            (relay true relay_mail) relay_read (final iterate (relay true relay_mail)) false 1
            (ImapRow.mk 1 (lit "a@b") INBOX INBOX 4 7) _ _ relay_read_ready relay_read_uids _ _ _ _)
            the_message_not_needed)); [vm_compute; reflexivity|discriminate|vm_compute; reflexivity..].
Defined.

(** The timer of the message fires at 1060; the other device still has it. *)
Definition expiring : Ctx :=
  bcc_self true (set_clock (λ _, 1060%Z) (set_imap <[1%Z := ImapRow.mk 1 (lit "a@b") INBOX INBOX 4 7]> with_timer)).

Lemma diverted_stays_on_server_witness :
  imap_tbl (delete_expired_imap_messages 1 false (final (@delete_expired_messages ascii_case first_choice 1060) expiring))
    = imap_tbl expiring
  ∧ ImapRow.target <$> imap_tbl (delete_expired_imap_messages 1 false expiring) !! 1%Z = Some [].
Proof.
  split; [|vm_compute; reflexivity].
  apply (@diverted_stays_on_server ascii_case first_choice 1060 1 false expiring).
  - apply wf_labelsb_sound. vm_compute. reflexivity.
  - vm_compute. reflexivity.
  - vm_compute. reflexivity.
  - vm_compute. reflexivity.
  - vm_compute. discriminate.
  - intros id m Hm. assert (id = 20%Z ∧ m = with_ephemeral_timestamp 1060 the_message) as [-> ->]; [|discriminate].
    assert (msgs expiring = {[20%Z := with_ephemeral_timestamp 1060 the_message]}) as E by (vm_compute; reflexivity).
    rewrite E in Hm. by apply lookup_singleton_Some in Hm as [<- <-].
Defined.
