(* ===== verification/Deletion.v ===== *)
(** * Deletion: deleting messages by hand ([message.rs]).

    [delete_msgs]: the messages become tombstones, their copies on the server are
    marked, and nothing of them is sent or downloaded any more.  Locations and
    events are not part of it; a request to delete for others is a message, and
    not modelled. *)

From S2P Require Import Prelude Text Substr Store Labels Trash Params Policy Compose ContactTools Contacts Structured.
From S2P Require Import Truncate Chats Flowed WireText Drafts Send Smtp Seen UidSets Imap Fetch.

(** The transaction [update_db] *)
Definition forget_copies (msg_id : Z) (msg : Msg.t) (c : Ctx) : Ctx :=
  let rfc724_mid := default [] (Msg.rfc724_mid msg) in
  let pre_rfc724_mid := default [] (Msg.pre_rfc724_mid msg) in
  let c := set_imap (fmap (clear_target rfc724_mid)) c in
  let c := if negb (is_empty pre_rfc724_mid) then set_imap (fmap (clear_target pre_rfc724_mid)) c else c in
  let c := set_smtp (filter (λ r, SmtpRow.msg_id r ≠ msg_id)) c in
  let c := set_download (delete rfc724_mid) c in
  set_available_post_msgs (λ t, t ∖ {[rfc724_mid]}) c.

(** The first loop of [delete_msgs_ext]; returns [deleted_rfc724_mid]. *)
Fixpoint forget_all (msg_ids : list Z) : cmd Ctx (list str) :=
  match msg_ids with
  | [] => mret []
  | msg_id :: msg_ids =>
      msg ← load_from_db msg_id;
      modify (forget_copies msg_id msg) ;;
      mids ← forget_all msg_ids;
      mret (default [] (Msg.rfc724_mid msg) :: mids)
  end.

Definition delete_msg_locally (msg_id : Z) : cmd Ctx unit :=
  let on_server := true in
  modify (trash_msg on_server msg_id).

Definition LAST_HOUSEKEEPING : str := lit "last_housekeeping".

Definition delete_msgs_locally_done (msg_ids : list Z) : cmd Ctx unit :=
  if negb (is_empty msg_ids) then modify (set_raw_config LAST_HOUSEKEEPING None) else mret tt.

(** [delete_msgs_ext] with [delete_for_all] unset *)
Definition delete_msgs (msg_ids : list Z) : cmd Ctx unit :=
  deleted_rfc724_mid ← forget_all msg_ids;
  add_sync_item (SyncDeleteMessages deleted_rfc724_mid) ;;
  for_each msg_ids (λ msg_id,
    load_from_db msg_id ;;
    delete_msg_locally msg_id) ;;
  delete_msgs_locally_done msg_ids.

(** ** What is left of a deleted message *)

(** The Message-IDs under which a message is on the server. *)
Definition has_copy (mid : str) (m : Msg.t) : bool :=
  bool_decide (Msg.rfc724_mid m = Some mid) || (bool_decide (Msg.pre_rfc724_mid m = Some mid) && negb (is_empty mid)).

Definition copy_of (c : Ctx) (ids : list Z) (mid : str) : bool :=
  existsb (λ id, match msgs c !! id with Some m => has_copy mid m | None => false end) ids.

Definition loads (c : Ctx) (id : Z) : Prop := ∃ m, outcome (load_from_db id) c = Ok m.

Lemma load_same_row c c' id m :
  msgs c' !! id = msgs c !! id → load_from_db id c = (c, Ok m) → load_from_db id c' = (c', Ok m).
Proof.
  intros E. unfold load_from_db. destruct (_ <? id)%Z; [|done]. cbn [ensure]. rewrite !run_bind_ret, !run_bind_gets, E.
  destruct (msgs c !! id) as [m'|]; [|done]. cbn [mbind option_bind]. destruct (is_live m'); [|done].
  cbn [or_bail]. rewrite !run_bind_ret.
  match goal with |- context [or_bail ?o _] => destruct o end; [|done]. cbn [or_bail]. unfold mret, cmd_ret. congruence.
Qed.

Lemma load_mid c id m : load_from_db id c = (c, Ok m) → is_Some (Msg.rfc724_mid m).
Proof.
  unfold load_from_db. destruct (_ <? id)%Z; [|done]. cbn [ensure]. rewrite run_bind_ret, run_bind_gets.
  destruct (msgs c !! id) as [m'|]; [|done]. cbn [mbind option_bind]. destruct (is_live m'); [|done].
  cbn [or_bail]. rewrite run_bind_ret.
  destruct (MessageState.from_i64 (Msg.state m')), (Msg.rfc724_mid m') eqn:E, (Msg.pre_rfc724_mid m'),
    (Msg.timestamp m'), (Msg.subject m'); cbn; try discriminate. intros [= <-]. by rewrite E.
Qed.

Lemma load_of c id : loads c id → ∃ m, load_from_db id c = (c, Ok m) ∧ msgs c !! id = Some m.
Proof. intros [m Hm]. exists m. by apply load_from_db_ok. Qed.

(** What one transaction does to the rows of the server's messages. *)
Lemma clear_copies id m c i :
  is_Some (Msg.rfc724_mid m) →
  imap_tbl (forget_copies id m c) !! i
  = (λ r, if has_copy (ImapRow.rfc724_mid r) m then no_target r else r) <$> imap_tbl c !! i.
Proof.
  intros [mid Hmid]. unfold forget_copies, has_copy. rewrite Hmid. cbv zeta. cbn [default from_option Datatypes.id].
  cbn [set_available_post_msgs set_download set_smtp imap_tbl].
  destruct (Msg.pre_rfc724_mid m) as [[|x pre]|] eqn:Ep; cbn [default from_option Datatypes.id is_empty negb set_imap imap_tbl];
    rewrite !lookup_fmap; destruct (imap_tbl c !! i) as [r|]; try done;
    cbn [fmap option_fmap option_map]; f_equal; unfold clear_target.
  - destruct (decide (ImapRow.rfc724_mid r = mid)) as [->|Hn].
    + by rewrite bool_decide_eq_true_2.
    + rewrite bool_decide_eq_false_2 by congruence. cbn [orb]. case_bool_decide as He; [|done].
      injection He as He. by rewrite <-He.
  - destruct (decide (ImapRow.rfc724_mid r = mid)) as [Hy|Hn].
    + rewrite (bool_decide_eq_true_2 (Some mid = _)) by congruence. cbn [orb].
      destruct (decide (ImapRow.rfc724_mid (no_target r) = x :: pre)); done.
    + rewrite (bool_decide_eq_false_2 (Some mid = _)) by congruence. cbn [orb].
      destruct (decide (ImapRow.rfc724_mid r = x :: pre)) as [Hy|Hn'].
      * by rewrite Hy, bool_decide_eq_true_2.
      * by rewrite bool_decide_eq_false_2 by congruence.
  - destruct (decide (ImapRow.rfc724_mid r = mid)) as [->|Hn].
    + by rewrite bool_decide_eq_true_2.
    + rewrite bool_decide_eq_false_2 by congruence. cbn [orb]. by rewrite bool_decide_eq_false_2.
Qed.

(** The state after the first loop. *)
Record forgotten (ids : list Z) (c c1 : Ctx) : Prop := {
  forgotten_msgs : msgs c1 = msgs c;
  forgotten_env : (config c1, env c1, clock c1) = (config c, env c, clock c);
  forgotten_queue : multi_device_sync c1 = multi_device_sync c;
  forgotten_rows i : imap_tbl c1 !! i
    = (λ r, if copy_of c ids (ImapRow.rfc724_mid r) then no_target r else r) <$> imap_tbl c !! i;
  forgotten_smtp r : r ∈ smtp c1 ↔ r ∈ smtp c ∧ SmtpRow.msg_id r ∉ ids;
  forgotten_download id m mid : id ∈ ids → msgs c !! id = Some m → Msg.rfc724_mid m = Some mid →
    download c1 !! mid = None ∧ mid ∉ available_post_msgs c1;
  forgotten_less mid : (download c !! mid = None → download c1 !! mid = None)
    ∧ (mid ∉ available_post_msgs c → mid ∉ available_post_msgs c1);
}.

Lemma forget_step id m c :
  msgs c !! id = Some m → is_Some (Msg.rfc724_mid m) → forgotten [id] c (forget_copies id m c).
Proof.
  intros Hm Hs. assert (∀ mid, copy_of c [id] mid = has_copy mid m) as Hco.
  { intros mid. unfold copy_of. cbn [existsb]. by rewrite Hm, orb_false_r. }
  destruct Hs as [mid0 Hmid].
  assert (smtp (forget_copies id m c) = filter (λ r, SmtpRow.msg_id r ≠ id) (smtp c)
          ∧ download (forget_copies id m c) = delete mid0 (download c)
          ∧ available_post_msgs (forget_copies id m c) = available_post_msgs c ∖ {[mid0]}
          ∧ msgs (forget_copies id m c) = msgs c
          ∧ (config (forget_copies id m c), env (forget_copies id m c), clock (forget_copies id m c))
            = (config c, env c, clock c)
          ∧ multi_device_sync (forget_copies id m c) = multi_device_sync c) as (E1 & E2 & E3 & E4 & E5 & E6).
  { unfold forget_copies. rewrite Hmid. cbv zeta. cbn [default from_option Datatypes.id].
    destruct (negb (is_empty (default [] (Msg.pre_rfc724_mid m)))); done. }
  split; [exact E4|exact E5|exact E6| | | |].
  - intros i. rewrite (clear_copies id m c i) by eauto. destruct (imap_tbl c !! i); [|done].
    cbn [fmap option_fmap option_map]. by rewrite Hco.
  - intros r. rewrite E1, list_elem_of_filter, list_elem_of_singleton. tauto.
  - intros x m' mid ->%list_elem_of_singleton Hm' Hmid'. rewrite Hm in Hm'. injection Hm' as <-.
    rewrite Hmid in Hmid'. injection Hmid' as <-. rewrite E2, E3. split; [apply lookup_delete_eq|set_solver].
  - intros mid. rewrite E2, E3. split; [|set_solver]. intros Hn.
    destruct (decide (mid0 = mid)) as [->|Hne]; [apply lookup_delete_eq|by rewrite lookup_delete_ne].
Qed.

Lemma forgotten_nil c : forgotten [] c c.
Proof.
  split; try done.
  - intros i. by destruct (imap_tbl c !! i).
  - intros r. split; [|tauto]. intros Hr. split; [done|apply not_elem_of_nil].
  - intros id m mid Hin. by apply not_elem_of_nil in Hin.
Qed.

Lemma copy_of_cons id ids c mid : copy_of c (id :: ids) mid = copy_of c [id] mid || copy_of c ids mid.
Proof. unfold copy_of. cbn [existsb]. by rewrite orb_false_r. Qed.

Lemma forgotten_cons id ids c c1 c2 :
  forgotten [id] c c1 → forgotten ids c1 c2 → forgotten (id :: ids) c c2.
Proof.
  intros [A1 A2 A3 A4 A5 A6 A7] [B1 B2 B3 B4 B5 B6 B7].
  assert (∀ l mid, copy_of c1 l mid = copy_of c l mid) as Hco by (intros l mid; unfold copy_of; by rewrite A1).
  split; [congruence|congruence|congruence| | | |].
  - intros i. rewrite B4, A4. destruct (imap_tbl c !! i) as [r|]; [|done]. cbn [fmap option_fmap option_map]. f_equal.
    rewrite (copy_of_cons id ids), <-!Hco. destruct (copy_of c1 [id] (ImapRow.rfc724_mid r)); cbn [orb];
      by destruct (copy_of c1 ids (ImapRow.rfc724_mid _)).
  - intros r. rewrite B5, A5. set_solver.
  - intros x m mid [->|Hin]%elem_of_cons Hm Hmid.
    + destruct (A6 id m mid ltac:(set_solver) Hm Hmid) as [H1 H2]. destruct (B7 mid). auto.
    + apply (B6 x m mid Hin); [by rewrite A1|done].
  - intros mid. destruct (A7 mid), (B7 mid). auto.
Qed.

Lemma forget_all_run ids c :
  (∀ id, id ∈ ids → loads c id) →
  ∃ c1, forget_all ids c = (c1, Ok ((λ id, default [] (msgs c !! id ≫= Msg.rfc724_mid)) <$> ids)) ∧ forgotten ids c c1.
Proof.
  revert c. induction ids as [|id ids IH]; intros c Hl; cbn [forget_all].
  { exists c. split; [done|apply forgotten_nil]. }
  destruct (load_of c id (Hl id ltac:(set_solver))) as (m & Hrun & Hm). rewrite (run_bind_ok _ _ _ _ _ Hrun).
  pose proof (forget_step id m c Hm (load_mid _ _ _ Hrun)) as Hstep. pose proof (forgotten_msgs _ _ _ Hstep) as Em.
  rewrite run_bind_modify. destruct (IH (forget_copies id m c)) as (c1 & Hrun1 & H1).
  { intros x Hx. destruct (load_of c x (Hl x ltac:(set_solver))) as (m' & Hrun' & _). exists m'.
    unfold outcome. by rewrite (load_same_row c _ x m' (f_equal (lookup x) Em) Hrun'). }
  rewrite (run_bind_ok _ _ _ _ _ Hrun1). exists c1. split; [|by eapply forgotten_cons].
  rewrite run_ret, Em. cbn [fmap list_fmap]. by rewrite Hm.
Qed.

Lemma tombstone_idem b m : tombstone b (tombstone b m) = tombstone b m.
Proof. done. Qed.

Lemma delete_loop ids c :
  NoDup ids → (∀ id, id ∈ ids → loads c id) →
  for_each ids (λ id, load_from_db id ;; delete_msg_locally id) c
  = (foldl (λ c id, set_msgs (alter (tombstone true) id) c) c ids, Ok tt).
Proof.
  revert c. induction ids as [|id ids IH]; intros c Hnd Hl; [done|]. apply NoDup_cons in Hnd as [Hni Hnd].
  cbn [for_each foldl]. destruct (load_of c id (Hl id ltac:(by left))) as (m & Hrun & Hm).
  rewrite run_bind, (run_bind_ok _ _ _ _ _ Hrun). unfold delete_msg_locally. rewrite run_modify.
  apply IH; [done|]. intros x Hx. destruct (load_of c x (Hl x ltac:(by right))) as (m' & Hrun' & _). exists m'.
  unfold outcome. rewrite (load_same_row c _ x m'); [done| |exact Hrun'].
  cbn [trash_msg set_msgs msgs]. rewrite lookup_alter_ne; [done|]. by intros ->.
Qed.

(** Nothing under this Message-ID is left but what was deleted. *)
Definition all_deleted (c : Ctx) (ids : list Z) (mid : str) : Prop :=
  mid ≠ [] ∧ bare_mid mid = mid
  ∧ (∃ id m, id ∈ ids ∧ msgs c !! id = Some m ∧ mid_matches mid m = true)
  ∧ (∀ id m, msgs c !! id = Some m → mid_matches mid m = true → id ∈ ids).

Lemma deleted_found c c' ids mid :
  all_deleted c ids mid →
  (∀ id, msgs c' !! id = if decide (id ∈ ids) then tombstone true <$> msgs c !! id else msgs c !! id) →
  deleted_here c' mid = true.
Proof.
  intros (Hne & Hbare & (id & m & Hin & Hm & Hmid) & Hall) Hmsgs. unfold deleted_here. rewrite Hbare.
  assert (negb (is_empty mid) = true) as -> by by destruct mid. cbn [andb]. apply andb_true_intro. split.
  - destruct (filter _ _) as [|x l] eqn:E; [|done]. exfalso.
    assert ((id, tombstone true m) ∈ filter (λ r : Z * Msg.t, mid_matches mid r.2) (map_to_list (msgs c'))) as H1.
    { apply list_elem_of_filter. split; [exact (proj2 (Is_true_true _) Hmid)|]. apply elem_of_map_to_list.
      by rewrite Hmsgs, decide_True, Hm. }
    rewrite E in H1. by apply not_elem_of_nil in H1.
  - apply forallb_forall. intros [x mx] [Hx%Is_true_true Hmx%elem_of_map_to_list]%list_elem_of_In%list_elem_of_filter.
    rewrite Hmsgs in Hmx. case_decide as Hd.
    + destruct (msgs c !! x); [|done]. by injection Hmx as <-.
    + destruct Hd. by apply (Hall x mx).
Qed.

Section final.
Context `{!UnicodeCase, !SqlChoice, !MailParser, !Receiver}.
Context (create_keypair : str → result str) (create_id : Z → str).

(** C7: deleting messages is final.  The call succeeds for any messages that are
    there, and afterwards each of them is a tombstone and nothing else of the
    table changed; every copy on the server known under one of their
    Message-IDs is marked to be deleted and no other is; nothing of them is
    queued for sending or for download; the other devices are told.  And when
    the server lists such a message again, it is marked and not downloaded. *)
Theorem deletion_is_final (ids : list Z) (c : Ctx) :
  NoDup ids → (∀ id, id ∈ ids → loads c id) →
  ∃ c', delete_msgs ids c = (c', Ok tt)
  ∧ (∀ id, msgs c' !! id = if decide (id ∈ ids) then tombstone true <$> msgs c !! id else msgs c !! id)
  ∧ (∀ i, imap_tbl c' !! i
       = (λ r, if copy_of c ids (ImapRow.rfc724_mid r) then no_target r else r) <$> imap_tbl c !! i)
  ∧ (∀ r, r ∈ smtp c' ↔ r ∈ smtp c ∧ SmtpRow.msg_id r ∉ ids)
  ∧ (∀ id m mid, id ∈ ids → msgs c !! id = Some m → Msg.rfc724_mid m = Some mid →
       download c' !! mid = None ∧ mid ∉ available_post_msgs c')
  ∧ multi_device_sync c' = multi_device_sync c
      ++ (if should_send_sync_msgs c
          then [(clock c, SyncDeleteMessages ((λ id, default [] (msgs c !! id ≫= Msg.rfc724_mid)) <$> ids))] else [])
  ∧ ∀ folder t v limit p uid r headers size mid,
      folder ≠ [] → all_deleted c ids mid → get_fetch_headers r = Ok headers →
      prefetch_get_message_id headers = Some mid → FetchResponse.size r = Some size →
      plan_message create_keypair create_id folder t v limit p uid r c'
      = (upsert_imap (ImapRow.mk t mid folder [] uid v) c', Ok (Plan.skip uid p)).
Proof.
  intros Hnd Hl. destruct (forget_all_run ids c Hl) as (c1 & Hrun & [F1 F2 F3 F4 F5 F6 _]).
  injection F2 as Fc Fe Fk. unfold delete_msgs. rewrite (run_bind_ok _ _ _ _ _ Hrun).
  unfold add_sync_item. rewrite run_bind_modify. set (mids := _ <$> ids).
  set (c2 := push_sync_item (SyncDeleteMessages mids) c1).
  assert (msgs c2 = msgs c1 ∧ imap_tbl c2 = imap_tbl c1 ∧ smtp c2 = smtp c1 ∧ download c2 = download c1
          ∧ available_post_msgs c2 = available_post_msgs c1
          ∧ multi_device_sync c2 = multi_device_sync c1
             ++ (if should_send_sync_msgs c1 then [(clock c1, SyncDeleteMessages mids)] else []))
    as (E1 & E2 & E3 & E4 & E5 & E6).
  { unfold c2, push_sync_item. destruct (should_send_sync_msgs c1); [done|]. by rewrite app_nil_r. }
  assert (should_send_sync_msgs c1 = should_send_sync_msgs c) as Es.
  { unfold should_send_sync_msgs, get_config_bool, get_config, get_config_opt, get_config_key, get_raw_config.
    by rewrite Fc, Fe. }
  rewrite run_bind, delete_loop; [|done|].
  2: { intros x Hx. destruct (load_of c x (Hl x Hx)) as (m & Hm & _). exists m. unfold outcome.
       by rewrite (load_same_row c c2 x m) by (by rewrite ?E1, ?F1). }
  destruct (foldl_alter_msgs (tombstone true) ids c2 (tombstone_idem true)) as [G L]. rewrite G.
  set (c3 := set_msgs _ c2).
  assert (∃ c4, delete_msgs_locally_done ids c3 = (c4, Ok tt) ∧ msgs c4 = msgs c3 ∧ imap_tbl c4 = imap_tbl c2
          ∧ smtp c4 = smtp c2 ∧ download c4 = download c2 ∧ available_post_msgs c4 = available_post_msgs c2
          ∧ multi_device_sync c4 = multi_device_sync c2) as (c4 & Hdone & D1 & D2 & D3 & D4 & D5 & D6).
  { unfold delete_msgs_locally_done. destruct (negb (is_empty ids)); eexists; split; [reflexivity|done|reflexivity|done]. }
  assert (∀ id, msgs c4 !! id = if decide (id ∈ ids) then tombstone true <$> msgs c !! id else msgs c !! id) as Hmsgs.
  { intros id. rewrite D1. rewrite <-F1, <-E1. exact (L id). }
  exists c4. split; [exact Hdone|]. split; [exact Hmsgs|]. rewrite D2, D3, D4, D5, D6, E2, E3, E4, E5, E6, Es, Fk, F3.
  split; [exact F4|]. split; [exact F5|]. split; [exact F6|]. split; [done|].
  intros folder t v limit p uid r headers size mid Hfo Had Hh Hmid Hsize.
  unfold plan_message. rewrite Hh. cbv zeta. rewrite Hsize. cbn [or_bail]. rewrite run_bind_ret, run_bind_gets, Hmid.
  rewrite (deleted_found c c4 ids mid Had Hmsgs). cbn [default from_option Datatypes.id]. rewrite run_bind_modify.
  rewrite bool_decide_eq_false_2 by done. by rewrite run_bind_ret.
Qed.
End final.

(** ** Instances *)

Definition letter : Msg.t :=
  Msg.mk (Some (lit "a@b")) (Some []) None None (Some []) [] None (Some 1%Z) 1 1 12 11 1 10 false [] 0 0 false 10 0.

(** A message with a copy on the server, waiting to be sent and to be downloaded. *)
Definition in_use : Ctx :=
  set_download <[lit "a@b" := 20%Z]> (set_smtp (λ _, [SmtpRow.mk 1 (lit "a@b") (lit "bob@site") [] 20 0])
    (set_imap <[1%Z := ImapRow.mk 1 (lit "a@b") INBOX INBOX 4 7]> (set_msgs <[20%Z := letter]> empty_ctx))).

Lemma in_use_loads id : id ∈ [20%Z] → loads in_use id.
Proof. intros ->%list_elem_of_singleton. eexists. vm_compute. reflexivity. Qed.

Lemma deletion_is_final_witness :
  ∃ c', delete_msgs [20%Z] in_use = (c', Ok tt)
  ∧ msgs c' !! 20%Z = Some (tombstone true letter)
  ∧ ImapRow.target <$> imap_tbl c' !! 1%Z = Some []
  ∧ @plan_message ascii_case first_choice plain_parser no_key random_id INBOX 1 7 None Plan.empty 4
      (mail 4 10 (lit "<a@b>")) c'
    = (upsert_imap (ImapRow.mk 1 (lit "a@b") INBOX [] 4 7) c', Ok (Plan.skip 4 Plan.empty)).
Proof.
  destruct (@deletion_is_final ascii_case first_choice plain_parser no_key random_id [20%Z] in_use
              ltac:(apply NoDup_singleton) in_use_loads) as (c' & Hrun & Hm & Hi & _ & _ & _ & Hagain).
  exists c'. split; [exact Hrun|]. split; [rewrite Hm; vm_compute; reflexivity|].
  split; [rewrite Hi; vm_compute; reflexivity|].
  eapply (Hagain INBOX 1%Z 7%Z None Plan.empty 4%Z (mail 4 10 (lit "<a@b>"))); [discriminate| |vm_compute; reflexivity..].
  split; [discriminate|]. split; [vm_compute; reflexivity|]. split.
  - exists 20%Z, letter. split; [set_solver|]. split; vm_compute; reflexivity.
  - intros id m Hid _. assert (msgs in_use = {[20%Z := letter]}) as E by (vm_compute; reflexivity).
    rewrite E in Hid. apply lookup_singleton_Some in Hid as [<- _]. set_solver.
Defined.

(** A message named twice: everything is done once, and the call fails. *)
Example named_twice_fails :
  outcome (delete_msgs [20; 20]%Z) in_use = Err "Message does not exist"
  ∧ msgs (final (delete_msgs [20; 20]%Z) in_use) !! 20%Z = Some (tombstone true letter).
Proof. vm_compute. done. Qed.
